(* ===== verification/_CoqProject ===== *)
-Q . S2P
Prelude.v
GoStd.v
Encoding.v
TimeText.v
Json.v
JsonProofs.v
Ports.v
Slogpretty.v
Regex.v
Validate.v
Crypto.v
Service.v
Spec.v
Stores.v
Memory.v
MemoryProofs.v
ServiceSafety.v
ServiceTypes.v
ServiceSpec.v
Concurrency.v
World.v
Termination.v
Liveness.v
Redis.v
Bruteforce.v
Lockout.v
RateLimit.v
RedisMem.v
Postgres.v
PostgresProofs.v
PgMem.v
RedisAdapters.v
RedisProofs.v
AuditLog.v
Jwt.v
App.v
Throttle.v
Grpc.v
Gateway.v
GatewayLocal.v
Server.v
EndToEnd.v
Backend.v
Demo.v
Runs.v
Production.v
GatewayRuns.v
HttpRuns.v
Testutil.v
