(* ===== verification/Prelude.v ===== *)
(** * Auth service: a verification library

    The program is a gRPC service that registers users, logs them in, keeps
    their sessions as rotating refresh tokens, and resets passwords by one-time
    codes.  [internal/service/auth] has the twelve RPC handlers; they call the
    ports of [internal/domain/ports], which are implemented by adapters: an
    in-memory set, and the production set on PostgreSQL, Redis and JWT.
    [internal/lib] has the building blocks (validation, tokens, codes, password
    hashes, brute-force guard, rate limiter), [internal/interceptor] the two
    interceptors in front of the service, [internal/app] puts all together.
    HTTP clients come through a gateway ([gen/api/auth.pb.gw.go],
    [internal/app/gateway]) that turns their requests into RPCs, which the
    stubs of [gen/api/auth_grpc.pb.go] carry to the service.

    ** How the program is modelled

    A handler is a program ([prog], this file): a tree of port calls, each
    followed by what is done with the answer.  [exec p tr r] says that [p] makes
    the calls [tr] and returns [r], for any answers; [rexec R p a a' r] that it
    does so against ports that answer as the relation [R] allows; [run h p] runs
    it on an executable implementation [h]; [psteps R] interleaves any number of
    programs, one call at a time.  Fallible Go functions return [result] or an
    optional error; a panic is [None].  Integers are [Z], with [wrap64] where
    the code can overflow; times are nanoseconds since 1970.

    ** Files

    - Foundations: [Prelude] (programs and their runs, machine integers,
      tactics), [GoStd] (strings, UTF-8, formatting), [Encoding] (hexadecimal,
      base64, SHA-256), [TimeText] (RFC 3339), [Json] and [JsonProofs]
      ([encoding/json]), [Regex].
    - The service: [Ports] (data of [domain/models] and [domain/ports], and
      [portE], the sum of all port calls), [Validate], [Crypto] ([lib/token],
      [lib/otp], [lib/password]), [Service] ([service/auth/auth.go]).
    - Specification: [Spec] (an abstract state of users, sessions, cache, codes
      and reset tokens, and what each port call may answer and change: [live]
      for ports that do not fail, [strict] for ports that fail cleanly, [safe]
      for ports that also may have carried out a call that failed and may round
      times), [Stores] (the Go interfaces of the stores as classes with laws).
    - Theorems on the handlers: [ServiceSafety] and [ServiceTypes] (for any
      answers of the ports), [ServiceSpec] (one RPC on [live] ports), [Concurrency] (any interleaving
      on [safe] ports), [Termination] (a bound on the calls of an RPC),
      [Liveness] (sequences of RPCs of one client on [live] ports).
    - In-memory adapters: [Memory] and [MemoryProofs] ([storage/memory],
      [cache/memory]); [World] runs the service on any stores that keep the laws
      of [Stores].
    - Redis: [Redis] (commands, scripts, client; their laws), [Bruteforce]
      ([lib/bruteforce]), [Lockout] (the guard behind [Login]), [RateLimit]
      ([lib/ratelimit], [interceptor]),
      [RedisAdapters] and [RedisProofs] ([cache/redis]), [RedisMem] (an
      executable Redis).
    - PostgreSQL: [Postgres] and [PostgresProofs] ([storage/postgres]), [PgMem]
      (an executable database), [AuditLog] (the audit trail and the hook).
    - [Jwt] ([token/jwt]), [App] ([app/app.go], [config]), [Throttle] (the chain of
      interceptors with the limiters and their Redis), [Backend] (the service
      on PostgreSQL, Redis and the guard together), [Grpc] (client and server
      stubs, and the gRPC server), [Gateway] (HTTP requests), [GatewayLocal] (the
      same for a server in the same process), [Server] ([cmd/], [app/grpc],
      [app/gateway], [internal/postgres], [internal/redis]: the process),
      [EndToEnd] (the path of a request through all of these), [Slogpretty] (the
      local log format), [Testutil] ([repository/testutil]).
    - Runs: [Demo] and [Runs] on the in-memory adapters, [Production] on the
      production ones, [GatewayRuns] through the gateway, [HttpRuns] through the
      whole application.  They instantiate what is left open and show that the hypotheses of every theorem can hold
      together.

    ** What is shown

    - What each RPC does, on every branch ([ServiceSpec]), and what no answer of
      a backend can make it do: log in without the password, act for a user
      without that user's access token, set a password without a reset token,
      hide an internal error ([ServiceSafety]); the answers each RPC can give
      ([ServiceTypes]).
    - Under any interleaving, with calls that fail before or after they took
      effect: the cache agrees with the sessions, a refresh token is exchanged
      at most once, a logged-out session and the sessions of a logged-out user
      stay out, a code admits four guesses ([Concurrency]); every RPC ends after
      a bounded number of calls ([Termination]).
    - On backends that do not fail, a new user can log in and refresh for ever
      ([Liveness]).
    - The in-memory adapters implement [live] ([World.world_refines]), the
      production ones [safe] to the microsecond ([Backend.backend_refines], from
      [pg_method_implements] and [redis_method_implements]); so the theorems on interleavings
      hold in production ([production_refresh_at_most_once] is one of them).
    - Passwords, JSON documents and access tokens are read back as they were
      written, tokens until their expiry; a token of another algorithm, another
      key or another issuer is refused ([Crypto], [RedisProofs], [Jwt]).
    - The guard locks after the configured failures, through Redis or in
      process, and a locked account refuses every login ([Lockout]); the limiter allows the configured number of requests in a window;
      a request the limiters deny does not reach the service, and of the requests
      of a client in a window exactly those reach it that two counters allow
      ([Bruteforce], [RateLimit], [App], [Throttle]).
    - An HTTP request becomes exactly the RPC of its route, through stubs and
      interceptors to the method of that name, and its answer the reply; a
      protected one is answered only with a valid token in its header
      ([EndToEnd]); which address the limiter and the audit trail see for it
      ([Gateway]); the in-process gateway serves the same interface
      ([GatewayLocal]).
    - The process serves only when its backends are up, and stops in order
      ([Server]).
    - Emails and passwords are accepted by exactly the stated rules
      ([Validate]); the service starts on exactly the stated configurations
      ([App.New_spec]).

    ** Bounds and fuel

    The JSON scanner runs on fuel of twice the length of the text;
    [parse_value_fuel] shows that more changes nothing.  UTF-8 decoding
    and SHA-256 use fuel of the length of their input, which every step
    shortens, and decimal formatting the number of bits
    ([dec_digits_spec]).  [otp_four_guesses] is for fewer than 2^62 calls and the scripts'
    JSON library for counters below 10^14: it prints 14 digits.  Nothing else is
    bounded.

    ** What is assumed

    Parameters with laws: argon2, the Unicode tables above Latin-1, the JWT
    library, gRPC, grpc-gateway, the Redis server and client, [cjson], PostgreSQL and pgx (the SQL
    statements have the meaning of the schema in [migrations/]), PEM and X.509.
    A port call is one atomic step: in-memory adapters hold a mutex, a Redis
    call is one command or script, a PostgreSQL method is one statement or one
    transaction.  A generated token or UUID does not repeat an earlier one
    ([World] tracks this in [w_collided]).  Requests are protocol buffers, so
    their strings are UTF-8.  One clock serves the processes and the servers.

    ** What is not modelled

    Attributes of log lines; the contexts and their timeouts; the metadata of
    responses; how the environment is read into the configuration (cleanenv) and
    how the servers do their networking, which are libraries; the generated
    reflection and marshalling code of the messages ([gen/api/auth.pb.go]),
    which only calls the protocol-buffer library; the embedded API document,
    which is data; tests. *)

From stdpp Require Export base gmap strings list fin_maps sets.
From Stdlib Require Export ZArith Lia.

Declare Scope auth_scope.
Delimit Scope auth_scope with auth.
Open Scope Z_scope.

(** ** Machine integers and time

    Go's [int] and [int64] (and [time.Duration], a count of nanoseconds) are
    64-bit two's complement; [int32] is 32-bit. *)

Definition wrap (w : Z) (z : Z) : Z := (z + 2 ^ (w - 1)) mod 2 ^ w - 2 ^ (w - 1).
Definition wrap64 (z : Z) : Z := wrap 64 z.
Definition wrap32 (z : Z) : Z := wrap 32 z.
Definition max_int64 : Z := 2 ^ 63 - 1.
Definition min_int64 : Z := - 2 ^ 63.

Lemma wrap64_id z : - 2 ^ 63 ≤ z < 2 ^ 63 → wrap64 z = z.
Proof. intros Hz. unfold wrap64, wrap. rewrite Z.mod_small; lia. Qed.

(** [time.Time] as nanoseconds since the Unix epoch. *)
Definition time := Z.
(** [time.Duration]. *)
Definition duration := Z.

Definition nanosecond : duration := 1.
Definition microsecond : duration := 1000.
Definition millisecond : duration := 1000000.
Definition second : duration := 1000000000.
Definition minute : duration := 60 * second.

(** [t.After(u)], [t.Before(u)], [t.Add(d)]. *)
Definition time_After (t u : time) : bool := u <? t.
Definition time_Before (t u : time) : bool := t <? u.
Definition time_Add (t : time) (d : duration) : time := t + d.
(** [t.Sub(u)] saturates at the bounds of [time.Duration]. *)
Definition time_Sub (t u : time) : duration :=
  Z.max min_int64 (Z.min max_int64 (t - u)).
(** [t.Unix()]: whole seconds, rounded down. *)
Definition time_Unix (t : time) : Z := t / second.

(** ** Programs as trees of calls

    A program of type [prog E A] calls operations of the signature [E] one at
    a time and goes on with their answers.  [E X] is the type of operations
    answered by an [X]. *)

Inductive prog (E : Type → Type) (A : Type) : Type :=
| Ret (a : A)
| Vis {X : Type} (e : E X) (k : X → prog E A).
Arguments Ret {E A} a.
Arguments Vis {E A X} e k.

Fixpoint bind {E A B} (p : prog E A) (f : A → prog E B) : prog E B :=
  match p with
  | Ret a => f a
  | Vis e k => Vis e (λ x, bind (k x) f)
  end.

Definition trigger {E X} (e : E X) : prog E X := Vis e Ret.

Notation "x <- p ;; q" := (bind p (λ x, q))
  (at level 100, p at next level, right associativity) : auth_scope.
Notation "p ;;; q" := (bind p (λ _, q))
  (at level 100, right associativity) : auth_scope.
Notation "'call' x <- e ;; q" := (Vis e (λ x, q))
  (at level 100, x name, e at next level, right associativity) : auth_scope.
Notation "'do' e ;; q" := (Vis e (λ _, q))
  (at level 100, e at next level, right associativity) : auth_scope.
Open Scope auth_scope.

(** An operation together with its answer. *)
Record callrec (E : Type → Type) : Type := Call {
  call_ty : Type;
  call_op : E call_ty;
  call_res : call_ty
}.
Arguments Call {E call_ty} call_op call_res.
Arguments call_ty {E} _.
Arguments call_op {E} _.
Arguments call_res {E} _.

(** [exec p tr a]: answered as in [tr], [p] makes exactly the calls of [tr]
    and returns [a].  Nothing is assumed about the answers. *)
Fixpoint exec {E A} (p : prog E A) (tr : list (callrec E)) (a : A) : Prop :=
  match p with
  | Ret a' => tr = [] ∧ a = a'
  | Vis e k => ∃ x tr', tr = Call e x :: tr' ∧ exec (k x) tr' a
  end.

Section run.
Context {E : Type → Type} {S : Type}.

(** An implementation of the signature over a state [S]. *)
Definition impl : Type := ∀ X, E X → S → S * X.

(** Run a program to its end, with no other program in between. *)
Fixpoint run {A} (h : impl) (p : prog E A) (s : S) : S * A :=
  match p with
  | Ret a => (s, a)
  | Vis e k => let '(s', x) := h _ e s in run h (k x) s'
  end.

(** The calls of that run, with their answers. *)
Fixpoint run_trace {A} (h : impl) (p : prog E A) (s : S) : list (callrec E) :=
  match p with
  | Ret _ => []
  | Vis e k => let '(s', x) := h _ e s in Call e x :: run_trace h (k x) s'
  end.

(** One call of a program. *)
Definition prog_step {A} (h : impl) (p : prog E A) (s : S) : option (S * prog E A) :=
  match p with
  | Ret _ => None
  | Vis e k => let '(s', x) := h _ e s in Some (s', k x)
  end.

(** Concurrent programs: a scheduler picks which one makes its next call. *)
Definition pool_step {A} (h : impl) (i : nat) (c : S * list (prog E A))
    : S * list (prog E A) :=
  match c.2 !! i with
  | Some p =>
      match prog_step h p c.1 with
      | Some (s', p') => (s', <[i := p']> c.2)
      | None => c
      end
  | None => c
  end.

Fixpoint run_sched {A} (h : impl) (sched : list nat) (c : S * list (prog E A))
    : S * list (prog E A) :=
  match sched with
  | [] => c
  | i :: sched' => run_sched h sched' (pool_step h i c)
  end.

End run.
Arguments impl E S : clear implicits.

(** The result of a program that has returned. *)
Definition prog_result {E A} (p : prog E A) : option A :=
  match p with Ret a => Some a | Vis _ _ => None end.

(** ** Lemmas on programs *)

Section prog_lemmas.
Context {E : Type → Type}.

Lemma exec_bind {A B} (p : prog E A) (f : A → prog E B) tr b :
  exec (bind p f) tr b ↔
  ∃ tr1 tr2 a, tr = tr1 ++ tr2 ∧ exec p tr1 a ∧ exec (f a) tr2 b.
Proof.
  revert tr; induction p as [a|X e k IH]; intros tr; simpl.
  - split.
    + intros H. exists [], tr, a. naive_solver.
    + intros (tr1 & tr2 & a' & -> & [-> ->] & H). done.
  - split.
    + intros (x & tr' & -> & (tr1 & tr2 & a & -> & H1 & H2)%IH).
      exists (Call e x :: tr1), tr2, a. naive_solver.
    + intros (tr1 & tr2 & a & -> & (x & tr' & -> & H1) & H2).
      exists x, (tr' ++ tr2). split; [done|]. apply IH. eauto 10.
Qed.

Lemma run_exec {A S} (h : impl E S) (p : prog E A) s :
  exec p (run_trace h p s) (run h p s).2.
Proof.
  revert s; induction p as [a|X e k IH]; intros s; simpl; [done|].
  destruct (h X e s) as [s' x]. eauto.
Qed.

Lemma run_bind {A B S} (h : impl E S) (p : prog E A) (f : A → prog E B) s :
  run h (bind p f) s = let '(s', a) := run h p s in run h (f a) s'.
Proof.
  revert s; induction p as [a|X e k IH]; intros s; simpl; [done|].
  destruct (h X e s) as [s' x]. apply IH.
Qed.

(** Every call [p] can make satisfies [P]. *)
Fixpoint all_calls {A} (P : ∀ X, E X → Prop) (p : prog E A) : Prop :=
  match p with
  | Ret _ => True
  | Vis e k => P _ e ∧ ∀ x, all_calls P (k x)
  end.

Lemma all_calls_bind {A B} (P : ∀ X, E X → Prop) (p : prog E A) (f : A → prog E B) :
  all_calls P p → (∀ a, all_calls P (f a)) → all_calls P (bind p f).
Proof. intros Hp Hf. induction p as [a|X e k IH]; simpl; [done|]. destruct Hp; auto. Qed.

(** An invariant of every call is an invariant of every run and of every
    interleaving. *)
Lemma run_invariant {A S} (h : impl E S) (I : S → Prop) (p : prog E A) s :
  (∀ X (e : E X) s, I s → I (h X e s).1) → I s → I (run h p s).1.
Proof.
  intros Hh. revert s; induction p as [a|X e k IH]; intros s HI; simpl; [done|].
  specialize (Hh X e s HI). destruct (h X e s) as [s' x]. by apply IH.
Qed.

Lemma sched_invariant {A S} (h : impl E S) (I : S → Prop) sched
    (c : S * list (prog E A)) :
  (∀ X (e : E X) s, I s → I (h X e s).1) → I c.1 → I (run_sched h sched c).1.
Proof.
  intros Hh. revert c; induction sched as [|i sched IH]; intros c HI; simpl; [done|].
  apply IH. unfold pool_step. destruct (c.2 !! i) as [p|]; [|done].
  destruct p as [a|X e k]; simpl; [done|].
  specialize (Hh X e c.1 HI). by destruct (h X e c.1) as [s' x].
Qed.

End prog_lemmas.

(** One step of the inversion of an [exec] hypothesis. *)
Ltac exec_generic :=
  match goal with
  | H : exec (Ret _) _ _ |- _ => destruct H as [? ?]; subst
  | H : exec (Vis _ _) _ _ |- _ =>
      let x := fresh "x" in let tr := fresh "tr" in
      destruct H as (x & tr & ? & H); subst; cbv beta iota zeta in H
  | H : exec (trigger _) _ _ |- _ =>
      let x := fresh "x" in let tr := fresh "tr" in
      destruct H as (x & tr & ? & [? ?]); subst
  | H : exec (bind (bind _ _) _) _ _ |- _ =>
      let H1 := fresh "H1" in
      apply exec_bind in H as (? & ? & ? & ? & H1 & H); subst; cbv beta iota zeta in H
  | H : exec (bind (match ?d with _ => _ end) _) _ _ |- _ => destruct d eqn:?
  | H : exec (bind _ _) _ _ |- _ =>
      let H1 := fresh "H1" in
      apply exec_bind in H as (? & ? & ? & ? & H1 & H); subst; cbv beta iota zeta in H
  | H : exec (match ?d with _ => _ end) _ _ |- _ => destruct d eqn:?
  end.

(** ** Lemmas on lists and maps *)

Lemma filter_Forall_id {A} (P : A → Prop) `{!∀ x, Decision (P x)} l :
  Forall P l → filter P l = l.
Proof. induction 1 as [|x l Hx Hl IH]; [done|]. by rewrite filter_cons_True, IH. Qed.

Lemma filter_fmap_swap {A B} (f : A → B) (P : B → Prop) (Q : A → Prop)
    `{!∀ x, Decision (P x), !∀ x, Decision (Q x)} (l : list A) :
  (∀ x, Q x ↔ P (f x)) → filter P (f <$> l) = f <$> filter Q l.
Proof.
  intros HPQ. induction l as [|x l IH]; [done|]. csimpl.
  rewrite !filter_cons. repeat case_decide; csimpl; rewrite ?IH; naive_solver.
Qed.

(** Two different elements stand one before the other. *)
Lemma two_elements {A} (l : list A) x y :
  x ∈ l → y ∈ l → x ≠ y →
  ∃ l1 l2 l3, l = l1 ++ x :: l2 ++ y :: l3 ∨ l = l1 ++ y :: l2 ++ x :: l3.
Proof.
  intros (l1 & l2 & ->)%list_elem_of_split Hy Hne.
  apply elem_of_app in Hy as [(k1 & k2 & ->)%list_elem_of_split|Hy].
  - exists k1, k2, l2. right. by rewrite <-app_assoc.
  - apply elem_of_cons in Hy as [->|(k1 & k2 & ->)%list_elem_of_split]; [done|].
    exists l1, k1, k2. by left.
Qed.

(** The keys of a map, in any order. *)
Lemma length_keys {A} (m : gmap string A) ks :
  ks ≡ₚ (map_to_list m).*1 → length ks = size m.
Proof. intros ->. by rewrite length_fmap, length_map_to_list. Qed.

Lemma elem_of_keys {A} (m : gmap string A) ks k :
  ks ≡ₚ (map_to_list m).*1 → k ∈ ks ↔ is_Some (m !! k).
Proof.
  intros ->. rewrite list_elem_of_fmap. split.
  - intros ([k' v] & -> & Hin%elem_of_map_to_list). eauto.
  - intros [v Hv]. exists (k, v). by rewrite elem_of_map_to_list.
Qed.

(** ** Programs against a relational specification

    [R e x a a']: from state [a], the operation [e] may answer [x] and leave
    state [a'].  [rexec R p a a' r]: a run of [p] that [R] allows. *)

Section rexec.
Context {E : Type → Type} {St : Type}.
Definition spec : Type := ∀ X, E X → X → St → St → Prop.

Fixpoint rexec {A} (R : spec) (p : prog E A) (a a' : St) (r : A) : Prop :=
  match p with
  | Ret r' => a' = a ∧ r = r'
  | Vis e k => ∃ x a1, R _ e x a a1 ∧ rexec R (k x) a1 a' r
  end.

(** Calls with their answers, made one after the other by whoever. *)
Inductive rcalls (R : spec) : St → list (callrec E) → St → Prop :=
| rcalls_nil a : rcalls R a [] a
| rcalls_cons a a1 a' c tr :
    R (call_ty c) (call_op c) (call_res c) a a1 →
    rcalls R a1 tr a' → rcalls R a (c :: tr) a'.

Lemma rexec_mono {A} (R R' : spec) (p : prog E A) a a' r :
  (∀ X e x a a', R X e x a a' → R' X e x a a') → rexec R p a a' r → rexec R' p a a' r.
Proof.
  intros HRR. revert a; induction p as [x|X e k IH]; intros a; simpl; [done|].
  intros (x & a1 & HR & Hex). exists x, a1. auto.
Qed.

Lemma rexec_bind {A B} (R : spec) (p : prog E A) (f : A → prog E B) a a' r :
  rexec R (bind p f) a a' r ↔ ∃ a1 x, rexec R p a a1 x ∧ rexec R (f x) a1 a' r.
Proof.
  revert a; induction p as [x|X e k IH]; intros a; simpl.
  - split; [eauto|]. by intros (a1 & y & [-> ->] & H).
  - setoid_rewrite IH. naive_solver.
Qed.

Lemma rexec_exec {A} (R : spec) (p : prog E A) a a' r :
  rexec R p a a' r ↔ ∃ tr, exec p tr r ∧ rcalls R a tr a'.
Proof.
  revert a; induction p as [x|X e k IH]; intros a; simpl.
  - split.
    + intros [-> ->]. exists []. split; [done|constructor].
    + intros (tr & [-> ->] & H). by inversion H.
  - setoid_rewrite IH. split.
    + intros (x & a1 & HR & tr & Hex & Hc). exists (Call e x :: tr).
      split; [eauto|]. by econstructor.
    + intros (tr & (x & tr' & -> & Hex) & Hc). inversion Hc; subst. simpl in *. eauto 10.
Qed.

Lemma rcalls_app (R : spec) a tr1 tr2 a' :
  rcalls R a (tr1 ++ tr2) a' ↔ ∃ a1, rcalls R a tr1 a1 ∧ rcalls R a1 tr2 a'.
Proof.
  split.
  - revert a; induction tr1 as [|c tr1 IH]; intros a; simpl.
    + intros H. eexists; split; [constructor|done].
    + inversion 1; subst.
      destruct (IH _ ltac:(eassumption)) as (a2 & ? & ?).
      exists a2. split; [by econstructor|done].
  - intros (a1 & H1 & H2). induction H1; simpl; [done|]. econstructor; eauto.
Qed.

(** An invariant of every allowed call holds along every allowed run. *)
Lemma rexec_invariant {A} (R : spec) (I : St → Prop) (p : prog E A) a a' r :
  (∀ X (e : E X) x a a', R X e x a a' → I a → I a') →
  rexec R p a a' r → I a → I a'.
Proof.
  intros HI. revert a; induction p as [x|X e k IH]; intros a; simpl.
  - by intros [-> _].
  - intros (x & a1 & HR & Hex) Ha. eauto.
Qed.

(** A preorder that every call of a program respects relates the ends of its
    runs. *)
Lemma rexec_ord {A} (R : spec) (ord : relation St) `{!PreOrder ord}
    (P : ∀ X, E X → Prop) (p : prog E A) a a' r :
  (∀ X (e : E X) x a a', P X e → R X e x a a' → ord a a') →
  all_calls P p → rexec R p a a' r → ord a a'.
Proof.
  intros HP. revert a; induction p as [x|X e k IH]; intros a; simpl.
  - by intros _ [-> _].
  - intros [He Hk] (x & a1 & HR & Hex). etrans; [by eapply HP|by eapply IH].
Qed.

(** An invariant of every allowed call holds along every sequence of them. *)
Lemma rcalls_invariant (R : spec) (I : St → Prop) a tr a' :
  (∀ X (e : E X) x a a', R X e x a a' → I a → I a') →
  rcalls R a tr a' → I a → I a'.
Proof. intros HI. induction 1; eauto. Qed.

(** *** Concurrent programs

    [psteps R a ps tr a' ps']: from state [a], the programs [ps] make the calls
    [tr], each labelled by the index of its program, in some interleaving. *)
Inductive psteps {A} (R : spec)
    : St → list (prog E A) → list (nat * callrec E) → St → list (prog E A) → Prop :=
| psteps_nil a ps : psteps R a ps [] a ps
| psteps_cons a a1 a' ps ps' i X (e : E X) k x tr :
    ps !! i = Some (Vis e k) → R X e x a a1 →
    psteps R a1 (<[i := k x]> ps) tr a' ps' →
    psteps R a ps ((i, Call e x) :: tr) a' ps'.

(** The calls of one program. *)
Definition calls_of (i : nat) (tr : list (nat * callrec E)) : list (callrec E) :=
  (filter (λ c : nat * callrec E, c.1 = i) tr).*2.

Lemma psteps_rcalls {A} (R : spec) a (ps : list (prog E A)) tr a' ps' :
  psteps R a ps tr a' ps' → rcalls R a tr.*2 a'.
Proof. induction 1; csimpl; [constructor|by econstructor]. Qed.

Lemma psteps_exec {A} (R : spec) a (ps : list (prog E A)) tr a' ps' i p r :
  psteps R a ps tr a' ps' → ps !! i = Some p → ps' !! i = Some (Ret r) →
  exec p (calls_of i tr) r.
Proof.
  intros Hps. revert p. induction Hps as [a ps|a a1 a' ps ps' j X e k x tr Hj HR Hps IH];
    intros p Hp Hr; simplify_eq; [done|].
  unfold calls_of. rewrite filter_cons. case_decide as Hij; simpl in Hij; subst.
  - simplify_eq. simpl. eexists _, _. split; [done|]. apply IH; [|done].
    apply list_lookup_insert_eq. by eapply lookup_lt_Some.
  - apply IH; [|done]. by rewrite list_lookup_insert_ne.
Qed.

Lemma psteps_mono {A} (R R' : spec) a (ps : list (prog E A)) tr a' ps' :
  (∀ X (e : E X) x a a', R X e x a a' → R' X e x a a') →
  psteps R a ps tr a' ps' → psteps R' a ps tr a' ps'.
Proof. intros HR. induction 1; econstructor; eauto. Qed.

Lemma psteps_length {A} (R : spec) a (ps : list (prog E A)) tr a' ps' :
  psteps R a ps tr a' ps' → length ps' = length ps.
Proof. induction 1; [done|]. by rewrite length_insert in *. Qed.

(** A call of a program is a call of the interleaving. *)
Lemma elem_of_calls_of i c tr : c ∈ calls_of i tr ↔ (i, c) ∈ tr.
Proof.
  unfold calls_of. rewrite list_elem_of_fmap. setoid_rewrite list_elem_of_filter.
  split; [|intros Hin; by exists (i, c)]. intros ([j c'] & -> & Hj & Hin). simpl in *. by subst.
Qed.

(** *** Invariants that rest on what each program knows

    [ord] relates a state to the later ones, and [R] moves along it.
    [rg I ord R p a Q]: started at [a] or any time later, every call of [p]
    keeps the invariant [I], and [p] ends in a result and state with [Q]. *)
Section rely.
Context (R : spec) (I : St → Prop) (ord : relation St) `{!PreOrder ord}.
Hypothesis R_ord : ∀ X (e : E X) x a a', R X e x a a' → ord a a'.

Fixpoint rg {A} (p : prog E A) (a : St) (Q : A → St → Prop) : Prop :=
  match p with
  | Ret r => Q r a
  | Vis e k => ∀ a1 x a2, ord a a1 → I a1 → R _ e x a1 a2 → I a2 ∧ rg (k x) a2 Q
  end.

Lemma rg_bind {A B} (p : prog E A) (f : A → prog E B) a Q :
  rg p a (λ r a', rg (f r) a' Q) → rg (bind p f) a Q.
Proof.
  revert a; induction p as [r|X e k IH]; intros a; simpl; [done|].
  intros Hp a1 x a2 H1 H2 H3. destruct (Hp a1 x a2) as [? ?]; auto.
Qed.

Lemma rg_weaken {A} (p : prog E A) a Q Q' :
  rg p a Q → (∀ r a', Q r a' → Q' r a') → rg p a Q'.
Proof.
  intros Hp HQ. revert a Hp; induction p as [r|X e k IH]; intros a; simpl; [auto|].
  intros Hp a1 x a2 H1 H2 H3. destruct (Hp a1 x a2) as [? ?]; auto.
Qed.

Lemma rg_later {A} (p : prog E A) a a' :
  ord a a' → rg p a (λ _ _, True) → rg p a' (λ _ _, True).
Proof.
  intros Hord. destruct p as [r|X e k]; simpl; [done|].
  intros Hp a1 x a2 H1. apply Hp. by etrans.
Qed.

Lemma rg_ord {A} (p : prog E A) a : rg p a (λ _ _, True) → rg p a (λ _ a', ord a a').
Proof.
  revert a; induction p as [r|X e k IH]; intros a; simpl; [done|].
  intros Hp a1 x a2 H1 H2 H3. destruct (Hp a1 x a2 H1 H2 H3) as [? Hk]. split; [done|].
  eapply rg_weaken; [by apply IH|]. intros r a' Ha'.
  etrans; [exact H1|]. etrans; [by eapply R_ord|done].
Qed.

(** A program alone. *)
Lemma rexec_rg {A} (p : prog E A) a a' r Q :
  rexec R p a a' r → I a → rg p a Q → I a' ∧ Q r a'.
Proof.
  revert a; induction p as [x|X e k IH]; intros a; simpl.
  - by intros [-> ->].
  - intros (x & a1 & HR & Hex) HI Hp. destruct (Hp a x a1 (reflexivity a) HI HR). eauto.
Qed.

(** Programs that each keep the invariant keep it together. *)
Lemma psteps_rg {A} a (ps : list (prog E A)) tr a' ps' :
  psteps R a ps tr a' ps' → I a → Forall (λ p, rg p a (λ _ _, True)) ps →
  I a' ∧ Forall (λ p, rg p a' (λ _ _, True)) ps'.
Proof.
  induction 1 as [a ps|a a1 a' ps ps' j X e k x tr Hj HR Hps IH]; intros HI Hall; [done|].
  pose proof (Forall_lookup_1 _ _ _ _ Hall Hj) as Hp. simpl in Hp.
  destruct (Hp a x a1) as [HI1 Hk]; [done..|].
  apply IH; [done|]. apply Forall_insert; [|done].
  eapply Forall_impl; [done|]. intros p. apply rg_later. by eapply R_ord.
Qed.
End rely.
End rexec.
Arguments spec E St : clear implicits.

(** ** Ranging over a Go map

    [for k, v := range m] visits every entry once, in an order the language
    does not fix. *)
Class MapRange := {
  map_range : ∀ {A}, gmap string A → list (string * A);
  map_range_perm {A} (m : gmap string A) : map_range m ≡ₚ map_to_list m
}.

Lemma elem_of_map_range `{MapRange} {A} (m : gmap string A) k v :
  (k, v) ∈ map_range m ↔ m !! k = Some v.
Proof. rewrite map_range_perm. apply elem_of_map_to_list. Qed.

Lemma NoDup_map_range `{MapRange} {A} (m : gmap string A) : NoDup (map_range m).*1.
Proof. rewrite map_range_perm. apply NoDup_fst_map_to_list. Qed.

(** The order of the map's tree: one of the allowed orders. *)
#[global] Program Instance tree_range : MapRange | 100 := {| map_range A m := map_to_list m |}.
Next Obligation. done. Qed.

(** ** Evaluation

    Closes an equation between closed terms by evaluating the left-hand side. *)
Ltac by_vm :=
  lazymatch goal with
  | |- _ = ?b => first [has_evar b; vm_compute; reflexivity | vm_cast_no_check (eq_refl b)]
  end.
