(* ===== verification/GoStd.v ===== *)
(** * The Go standard library, as far as the service uses it

    A Go [string] is a sequence of bytes, and so is a Rocq [string].  This file
    models: UTF-8 decoding ([for _, r := range s]), [unicode.IsSpace],
    [strings.Split], [strings.LastIndex], [strings.CutPrefix],
    [strings.TrimSpace], [net.SplitHostPort] and the [%d] and [%0nd] verbs of
    [fmt.Sprintf]. *)

From Stdlib Require Import Ascii String.
From S2P Require Import Prelude.
Open Scope Z_scope.

(** ** Bytes *)

Definition byte_ok (b : Z) : Prop := 0 ≤ b < 256.

Definition byte_of_ascii (c : ascii) : Z := Z.of_N (N_of_ascii c).
Definition ascii_of_byte (b : Z) : ascii := ascii_of_N (Z.to_N b).

(** The conversions [[]byte(s)] and [string(b)]. *)
Definition bytes_of_string (s : string) : list Z :=
  byte_of_ascii <$> list_ascii_of_string s.
Definition string_of_bytes (l : list Z) : string :=
  string_of_list_ascii (ascii_of_byte <$> l).

(** ** UTF-8 *)

Definition rune_error : Z := 0xFFFD.
Definition in_range (lo hi b : Z) : bool := (lo <=? b) && (b <=? hi).

(** The range of a second byte, by the first byte of a multi-byte sequence, and
    the number of bytes of that sequence. *)
Definition utf8_first (b0 : Z) : option (nat * Z * Z) :=
  if in_range 0xC2 0xDF b0 then Some (2%nat, 0x80, 0xBF)
  else if b0 =? 0xE0 then Some (3%nat, 0xA0, 0xBF)
  else if b0 =? 0xED then Some (3%nat, 0x80, 0x9F)
  else if in_range 0xE1 0xEF b0 then Some (3%nat, 0x80, 0xBF)
  else if b0 =? 0xF0 then Some (4%nat, 0x90, 0xBF)
  else if b0 =? 0xF4 then Some (4%nat, 0x80, 0x8F)
  else if in_range 0xF1 0xF3 b0 then Some (4%nat, 0x80, 0xBF)
  else None.

Definition cont_byte (b : Z) : bool := in_range 0x80 0xBF b.
Definition bits6 (hi b : Z) : Z := Z.lor (Z.shiftl hi 6) (Z.land b 0x3F).

(** [utf8.DecodeRune] on a non-empty slice: the rune and its width; an invalid
    sequence is [RuneError] of width one. *)
Definition decode_rune (b0 : Z) (l : list Z) : Z * nat :=
  if b0 <? 0x80 then (b0, 1%nat) else
  match utf8_first b0, l with
  | Some (2%nat, lo, hi), b1 :: _ =>
      if in_range lo hi b1 then (bits6 (Z.land b0 0x1F) b1, 2%nat)
      else (rune_error, 1%nat)
  | Some (3%nat, lo, hi), b1 :: b2 :: _ =>
      if in_range lo hi b1 && cont_byte b2
      then (bits6 (bits6 (Z.land b0 0x0F) b1) b2, 3%nat)
      else (rune_error, 1%nat)
  | Some (4%nat, lo, hi), b1 :: b2 :: b3 :: _ =>
      if in_range lo hi b1 && cont_byte b2 && cont_byte b3
      then (bits6 (bits6 (bits6 (Z.land b0 0x07) b1) b2) b3, 4%nat)
      else (rune_error, 1%nat)
  | _, _ => (rune_error, 1%nat)
  end.

(** The runes of a string, each with the bytes it was decoded from.  Every
    rune takes a byte or more, so the number of bytes is enough fuel. *)
Fixpoint rune_chunks_fuel (fuel : nat) (l : list Z) : list (Z * list Z) :=
  match fuel, l with
  | S fuel', b0 :: l' =>
      let '(r, w) := decode_rune b0 l' in
      (r, take w l) :: rune_chunks_fuel fuel' (drop w l)
  | _, _ => []
  end.
Definition rune_chunks (l : list Z) : list (Z * list Z) :=
  rune_chunks_fuel (length l) l.

(** [for _, r := range s]. *)
Definition runes (s : string) : list Z := (rune_chunks (bytes_of_string s)).*1.

(** [unicode.IsSpace]. *)
Definition unicode_IsSpace (r : Z) : bool :=
  in_range 0x09 0x0D r || (r =? 0x20) || (r =? 0x85) || (r =? 0xA0) ||
  (r =? 0x1680) || in_range 0x2000 0x200A r || (r =? 0x2028) || (r =? 0x2029) ||
  (r =? 0x202F) || (r =? 0x205F) || (r =? 0x3000).

Fixpoint drop_while {A} (P : A → bool) (l : list A) : list A :=
  match l with
  | [] => []
  | x :: l' => if P x then drop_while P l' else l
  end.

(** [strings.TrimSpace]: without the leading and trailing white space. *)
Definition strings_TrimSpace (s : string) : string :=
  let space (c : Z * list Z) := unicode_IsSpace c.1 in
  let cs := drop_while space (rune_chunks (bytes_of_string s)) in
  let cs' := reverse (drop_while space (reverse cs)) in
  string_of_bytes (mjoin cs'.*2).

(** ** Package strings *)

(** [strings.Split(s, sep)] for a separator of one byte. *)
Fixpoint strings_Split (sep : ascii) (s : string) : list string :=
  match s with
  | EmptyString => [EmptyString]
  | String a s' =>
      if bool_decide (a = sep) then EmptyString :: strings_Split sep s'
      else match strings_Split sep s' with
           | [] => [String a EmptyString]
           | w :: ws => String a w :: ws
           end
  end.

(** The position of the first and last occurrence of a byte. *)
Fixpoint index_byte (c : ascii) (s : string) : option nat :=
  match s with
  | EmptyString => None
  | String a s' => if bool_decide (a = c) then Some 0%nat else S <$> index_byte c s'
  end.
Fixpoint last_index_byte (c : ascii) (s : string) : option nat :=
  match s with
  | EmptyString => None
  | String a s' =>
      match last_index_byte c s' with
      | Some n => Some (S n)
      | None => if bool_decide (a = c) then Some 0%nat else None
      end
  end.

(** [s[:n]] and [s[n:]], for [n] within the string. *)
Fixpoint str_take (n : nat) (s : string) : string :=
  match n, s with
  | S n', String a s' => String a (str_take n' s')
  | _, _ => EmptyString
  end.
Fixpoint str_drop (n : nat) (s : string) : string :=
  match n, s with
  | S n', String _ s' => str_drop n' s'
  | _, _ => s
  end.

(** [strings.CutPrefix(s, prefix)]. *)
Fixpoint strings_CutPrefix (s prefix : string) {struct prefix} : option string :=
  match prefix, s with
  | EmptyString, _ => Some s
  | String a p', String b s' =>
      if bool_decide (a = b) then strings_CutPrefix s' p' else None
  | String _ _, EmptyString => None
  end.

(** [net.SplitHostPort]: the host and the port, [None] for an error. *)
Definition net_SplitHostPort (hostport : string) : option (string * string) :=
  match last_index_byte ":" hostport with
  | None => None
  | Some i =>
      let finish (host : string) (j k : nat) :=
        match index_byte "[" (str_drop j hostport), index_byte "]" (str_drop k hostport) with
        | None, None => Some (host, str_drop (S i) hostport)
        | _, _ => None
        end in
      match index_byte "[" hostport with
      | Some 0%nat =>
          match index_byte "]" hostport with
          | None => None
          | Some e =>
              if bool_decide (S e = i)
              then finish (str_take (e - 1) (str_drop 1 hostport)) 1%nat (S e)
              else None
          end
      | _ =>
          let host := str_take i hostport in
          match index_byte ":" host with
          | Some _ => None
          | None => finish host 0%nat 0%nat
          end
      end
  end.

(** ** Package fmt *)

Definition digit_char (d : Z) : ascii := ascii_of_byte (48 + d).
Definition is_digit_byte (b : Z) : bool := in_range 48 57 b.

(** The decimal digits of [n ≥ 0], most significant first.  A number of [k]
    binary digits has at most [k] decimal digits. *)
Fixpoint dec_digits (fuel : nat) (n : Z) (acc : list Z) : list Z :=
  match fuel with
  | O => acc
  | S fuel' =>
      if n <? 10 then n :: acc else dec_digits fuel' (n / 10) (n mod 10 :: acc)
  end.
Definition digits_of (n : Z) : list Z := dec_digits (S (Z.to_nat (Z.log2 n))) n [].

Definition string_of_digits (l : list Z) : string :=
  string_of_list_ascii (digit_char <$> l).

(** [fmt.Sprintf("%d", n)]. *)
Definition fmt_d (n : Z) : string :=
  if n <? 0 then String "-" (string_of_digits (digits_of (- n)))
  else string_of_digits (digits_of n).

(** [fmt.Sprintf("%0wd", n)] for [n ≥ 0]. *)
Definition fmt_0d (w : nat) (n : Z) : string :=
  let ds := digits_of n in
  string_of_digits (replicate (w - length ds) 0 ++ ds).

(** The number a list of digits denotes. *)
Definition digits_value (l : list Z) : Z := foldl (λ v d, 10 * v + d) 0 l.

(** ** Lemmas *)

Lemma byte_of_ascii_ok c : byte_ok (byte_of_ascii c).
Proof. unfold byte_ok, byte_of_ascii. pose proof (N_ascii_bounded c). lia. Qed.

Lemma ascii_of_byte_of_ascii c : ascii_of_byte (byte_of_ascii c) = c.
Proof. unfold ascii_of_byte, byte_of_ascii. rewrite N2Z.id. apply ascii_N_embedding. Qed.

Lemma byte_of_ascii_of_byte b : byte_ok b → byte_of_ascii (ascii_of_byte b) = b.
Proof.
  unfold byte_ok, ascii_of_byte, byte_of_ascii. intros H.
  rewrite N_ascii_embedding by lia. lia.
Qed.

Lemma string_of_bytes_of_string s : string_of_bytes (bytes_of_string s) = s.
Proof.
  unfold string_of_bytes, bytes_of_string.
  rewrite <-list_fmap_compose.
  rewrite (list_fmap_ext _ id), list_fmap_id; [apply string_of_list_ascii_of_string|].
  intros; apply ascii_of_byte_of_ascii.
Qed.

Lemma bytes_of_string_of_bytes l : Forall byte_ok l → bytes_of_string (string_of_bytes l) = l.
Proof.
  unfold string_of_bytes, bytes_of_string. intros Hl.
  rewrite list_ascii_of_string_of_list_ascii, <-list_fmap_compose.
  induction Hl as [|b l Hb Hl IH]; [done|]. csimpl. f_equal; [|exact IH].
  by apply byte_of_ascii_of_byte.
Qed.

Lemma bytes_of_string_ok s : Forall byte_ok (bytes_of_string s).
Proof. apply Forall_fmap, Forall_true. intros; apply byte_of_ascii_ok. Qed.

Lemma length_bytes_of_string s : length (bytes_of_string s) = String.length s.
Proof. unfold bytes_of_string. rewrite length_fmap. induction s as [|a s IH]; simpl; [done|by rewrite IH]. Qed.

Lemma length_string_of_bytes l : String.length (string_of_bytes l) = length l.
Proof.
  unfold string_of_bytes.
  induction l as [|b l IH]; [done|]. csimpl. by rewrite IH.
Qed.

Lemma bytes_of_string_app s1 s2 :
  bytes_of_string (s1 +:+ s2) = bytes_of_string s1 ++ bytes_of_string s2.
Proof. unfold bytes_of_string. induction s1 as [|a s1 IH]; [done|]. csimpl. by f_equal. Qed.

Lemma string_of_bytes_app l1 l2 :
  string_of_bytes (l1 ++ l2) = string_of_bytes l1 +:+ string_of_bytes l2.
Proof. unfold string_of_bytes. induction l1 as [|a l1 IH]; [done|]. csimpl. by rewrite IH. Qed.

#[global] Instance bytes_of_string_inj : Inj (=) (=) bytes_of_string.
Proof.
  intros s1 s2 H. rewrite <-(string_of_bytes_of_string s1), H.
  apply string_of_bytes_of_string.
Qed.

(** *** Decimal numbers *)

Lemma digits_value_app l1 l2 :
  digits_value (l1 ++ l2) = digits_value l1 * 10 ^ Z.of_nat (length l2) + digits_value l2.
Proof.
  unfold digits_value. induction l2 as [|d l2 IH] using rev_ind.
  - rewrite app_nil_r. simpl. lia.
  - rewrite app_assoc, (foldl_app _ (l1 ++ l2)), (foldl_app _ l2), IH, length_app. simpl.
    rewrite Nat.add_1_r, Nat2Z.inj_succ, Z.pow_succ_r by lia. lia.
Qed.

(** The fuel is enough: [n < 2 ^ fuel] never runs out of it. *)
Lemma dec_digits_spec fuel n acc :
  0 ≤ n < 2 ^ Z.of_nat (S fuel) →
  ∃ ds, dec_digits (S fuel) n acc = ds ++ acc ∧ digits_value ds = n ∧
        Forall (λ d, 0 ≤ d < 10) ds ∧
        (∀ k : nat, (0 < k)%nat → n < 10 ^ Z.of_nat k → (length ds ≤ k)%nat) ∧ ds ≠ [].
Proof.
  revert n acc. induction fuel as [|fuel IH]; intros n acc Hn;
    (destruct (decide (n < 10)) as [Hlt|Hge];
      [exists [n]; cbn [dec_digits]; apply Z.ltb_lt in Hlt as Hlt'; rewrite Hlt';
       split_and!; [done|unfold digits_value; simpl; lia
                   |repeat constructor; lia|simpl; lia|done]|]).
  { simpl in Hn. lia. }
  destruct (IH (n / 10) (n mod 10 :: acc)) as (ds & Heq & Hv & Hd & Hl & Hne).
  { rewrite Nat2Z.inj_succ, Z.pow_succ_r in Hn by lia.
    split; [apply Z.div_pos; lia|]. apply Z.div_lt_upper_bound; lia. }
  exists (ds ++ [n mod 10]). split_and!.
  - rewrite <-app_assoc. cbn [app]. rewrite <-Heq. cbn [dec_digits]. by destruct (Z.ltb_spec n 10).
  - rewrite digits_value_app, Hv. unfold digits_value. simpl.
    pose proof (Z.div_mod n 10). lia.
  - apply Forall_app; split; [done|]. constructor; [|done].
    apply Z.mod_pos_bound. lia.
  - intros k Hk Hnk. destruct k as [|[|k]]; [lia|simpl in Hnk; lia|].
    rewrite length_app. simpl.
    specialize (Hl (S k)). rewrite Nat2Z.inj_succ, Z.pow_succ_r in Hnk by lia.
    enough (length ds ≤ S k)%nat by lia. apply Hl; [lia|].
    apply Z.div_lt_upper_bound; lia.
  - by destruct ds.
Qed.

Lemma digits_of_spec n :
  0 ≤ n →
  digits_value (digits_of n) = n ∧ Forall (λ d, 0 ≤ d < 10) (digits_of n) ∧
  (∀ k : nat, (0 < k)%nat → n < 10 ^ Z.of_nat k → (length (digits_of n) ≤ k)%nat) ∧
  digits_of n ≠ [].
Proof.
  intros Hn. unfold digits_of.
  destruct (dec_digits_spec (Z.to_nat (Z.log2 n)) n []) as (ds & -> & Hds).
  - split; [lia|]. rewrite Nat2Z.inj_succ, Z2Nat.id by apply Z.log2_nonneg.
    destruct (decide (n = 0)) as [->|]; [done|]. apply Z.log2_spec. lia.
  - by rewrite app_nil_r.
Qed.

Lemma digits_value_zeros k l : digits_value (replicate k 0 ++ l) = digits_value l.
Proof.
  rewrite digits_value_app. enough (digits_value (replicate k 0) = 0) as -> by lia.
  unfold digits_value. induction k; simpl; done.
Qed.

Lemma digit_char_byte d : 0 ≤ d < 10 → byte_of_ascii (digit_char d) = 48 + d.
Proof. intros H. apply byte_of_ascii_of_byte. unfold byte_ok. lia. Qed.

Lemma bytes_of_string_of_digits ds :
  Forall (λ d, 0 ≤ d < 10) ds →
  bytes_of_string (string_of_digits ds) = (λ d, 48 + d) <$> ds.
Proof.
  unfold bytes_of_string, string_of_digits. intros Hds.
  rewrite list_ascii_of_string_of_list_ascii, <-list_fmap_compose.
  induction Hds as [|d ds Hd Hds IH]; [done|]. csimpl. f_equal; [|done].
  by apply digit_char_byte.
Qed.

(** *** Splitting *)

Definition no_byte (c : ascii) (s : string) : Prop := index_byte c s = None.

Lemma no_byte_cons c a s : no_byte c (String a s) ↔ a ≠ c ∧ no_byte c s.
Proof.
  unfold no_byte. simpl. destruct (bool_decide_reflect (a = c)) as [->|Hne]; [naive_solver|].
  destruct (index_byte c s); naive_solver.
Qed.

Lemma no_byte_app c s1 s2 : no_byte c (s1 +:+ s2) ↔ no_byte c s1 ∧ no_byte c s2.
Proof.
  induction s1 as [|a s1 IH]; [by split; [intros; split|intros []]|].
  change (String a s1 +:+ s2) with (String a (s1 +:+ s2)).
  rewrite !no_byte_cons. naive_solver.
Qed.

Lemma no_byte_bytes c s : no_byte c s ↔ byte_of_ascii c ∉ bytes_of_string s.
Proof.
  induction s as [|a s IH]; [split; [intros _; apply not_elem_of_nil|done]|].
  rewrite no_byte_cons, IH.
  change (bytes_of_string (String a s)) with (byte_of_ascii a :: bytes_of_string s).
  rewrite elem_of_cons. split; [|naive_solver].
  intros [Hne Hs] [Heq|]; [|done]. apply Hne.
  by rewrite <-(ascii_of_byte_of_ascii c), Heq, ascii_of_byte_of_ascii.
Qed.

Lemma strings_Split_not_nil sep s : strings_Split sep s ≠ [].
Proof.
  destruct s as [|a s]; simpl; [done|]. case_bool_decide; [done|].
  by destruct (strings_Split sep s).
Qed.

Lemma strings_Split_none sep s : no_byte sep s → strings_Split sep s = [s].
Proof.
  induction s as [|a s IH]; [done|]. intros [Hne Hs]%no_byte_cons.
  simpl. by rewrite bool_decide_eq_false_2, IH.
Qed.

(** The last piece is what follows the last separator, whatever precedes it. *)
Lemma strings_Split_snoc sep s w :
  no_byte sep w →
  strings_Split sep (s +:+ String sep w) = strings_Split sep s ++ [w].
Proof.
  intros Hw. induction s as [|a s IH].
  - change ("" +:+ String sep w)%string with (String sep w). simpl.
    rewrite bool_decide_eq_true_2 by done. by rewrite strings_Split_none.
  - change (String a s +:+ String sep w) with (String a (s +:+ String sep w)). simpl.
    rewrite IH. case_bool_decide; [done|].
    pose proof (strings_Split_not_nil sep s).
    by destruct (strings_Split sep s).
Qed.

Lemma strings_Split_cons sep w s :
  no_byte sep w →
  strings_Split sep (w +:+ String sep s) = w :: strings_Split sep s.
Proof.
  induction w as [|a w IH].
  - intros _. change ("" +:+ String sep s)%string with (String sep s). simpl.
    by rewrite bool_decide_eq_true_2.
  - intros [Hne Hw]%no_byte_cons.
    change (String a w +:+ String sep s) with (String a (w +:+ String sep s)). simpl.
    by rewrite bool_decide_eq_false_2, IH.
Qed.

Lemma strings_CutPrefix_spec s prefix rest :
  strings_CutPrefix s prefix = Some rest ↔ s = prefix +:+ rest.
Proof.
  revert s; induction prefix as [|a p IH]; intros s.
  { change ("" +:+ rest)%string with rest. simpl. split; congruence. }
  change (String a p +:+ rest) with (String a (p +:+ rest)).
  destruct s as [|b s]; simpl; [done|].
  case_bool_decide as Hab; rewrite ?IH; [subst; split; congruence|].
  split; congruence.
Qed.

(** *** White space *)

(** A string of visible ASCII characters. *)
Definition graphic (s : string) : Prop :=
  Forall (λ b, 0x21 ≤ b < 0x7F) (bytes_of_string s).

Lemma rune_chunks_ascii l :
  Forall (λ b, 0 ≤ b < 0x80) l → rune_chunks l = (λ b, (b, [b])) <$> l.
Proof.
  unfold rune_chunks. intros Hl. induction Hl as [|b l Hb Hl IH]; [done|].
  cbn [length rune_chunks_fuel]. unfold decode_rune.
  destruct (Z.ltb_spec b 0x80); [|lia]. unfold drop, take. simpl. by rewrite IH.
Qed.

Lemma drop_while_none {A} (P : A → bool) l :
  Forall (λ x, P x = false) l → drop_while P l = l.
Proof. destruct 1 as [|x l Hx Hl]; [done|]. simpl. by rewrite Hx. Qed.

Lemma is_space_graphic b : 0x21 ≤ b < 0x7F → unicode_IsSpace b = false.
Proof.
  unfold unicode_IsSpace, in_range. intros H.
  repeat (apply orb_false_intro || apply andb_false_intro2; lia); lia.
Qed.

Lemma mjoin_singletons {A} (l : list A) : mjoin ((λ x, [x]) <$> l) = l.
Proof. induction l as [|x l IH]; [done|]. csimpl. by f_equal. Qed.

Lemma strings_TrimSpace_graphic n s :
  graphic s →
  strings_TrimSpace (string_of_bytes (replicate n 0x20) +:+ s) = s.
Proof.
  intros Hs. unfold strings_TrimSpace.
  rewrite bytes_of_string_app, bytes_of_string_of_bytes
    by (apply Forall_replicate; unfold byte_ok; lia).
  rewrite rune_chunks_ascii.
  2:{ apply Forall_app; split; [apply Forall_replicate; lia|].
      eapply Forall_impl; [exact Hs|]. simpl; lia. }
  set (cs := (λ b, (b, [b])) <$> bytes_of_string s).
  assert (Forall (λ c : Z * list Z, unicode_IsSpace c.1 = false) cs) as Hcs.
  { unfold cs. apply Forall_fmap. eapply Forall_impl; [exact Hs|].
    intros b Hb. by apply is_space_graphic. }
  rewrite fmap_app, fmap_replicate. fold cs.
  assert (drop_while (λ c : Z * list Z, unicode_IsSpace c.1)
            (replicate n (0x20, [0x20]) ++ cs) = cs) as ->.
  { induction n as [|n IH]; [|done]. by apply drop_while_none. }
  rewrite drop_while_none by by apply Forall_reverse.
  rewrite reverse_involutive. unfold cs. rewrite <-list_fmap_compose.
  unfold compose. simpl. rewrite mjoin_singletons.
  apply string_of_bytes_of_string.
Qed.

Lemma str_app_assoc (s1 s2 s3 : string) : (s1 +:+ s2) +:+ s3 = s1 +:+ (s2 +:+ s3).
Proof.
  induction s1 as [|a s1 IH]; [done|].
  change (String a s1 +:+ s2) with (String a (s1 +:+ s2)).
  change (String a ((s1 +:+ s2) +:+ s3) = String a (s1 +:+ (s2 +:+ s3))).
  by rewrite IH.
Qed.

Lemma str_app_nil_r (s : string) : s +:+ "" = s.
Proof.
  induction s as [|a s IH]; [done|].
  change (String a (s +:+ "") = String a s). by rewrite IH.
Qed.

(** *** The runes of ASCII text are its bytes *)

Lemma runes_ascii s :
  Forall (λ b, 0 ≤ b < 0x80) (bytes_of_string s) → runes s = bytes_of_string s.
Proof.
  intros Hs. unfold runes. rewrite rune_chunks_ascii by done.
  rewrite <-list_fmap_compose. apply list_fmap_id.
Qed.

Lemma fmt_d_bytes n :
  0 ≤ n →
  bytes_of_string (fmt_d n) = (λ d, 48 + d) <$> digits_of n.
Proof.
  intros Hn. unfold fmt_d. destruct (Z.ltb_spec n 0); [lia|].
  apply bytes_of_string_of_digits. by apply digits_of_spec.
Qed.

Lemma fmt_d_digits n :
  0 ≤ n → Forall (λ b, 48 ≤ b ≤ 57) (bytes_of_string (fmt_d n)).
Proof.
  intros Hn. rewrite fmt_d_bytes by done. apply Forall_fmap.
  destruct (digits_of_spec n Hn) as (_ & Hd & _).
  eapply Forall_impl; [exact Hd|]. simpl. lia.
Qed.

Lemma fmt_d_no_byte c n :
  0 ≤ n → byte_of_ascii c < 48 ∨ 57 < byte_of_ascii c → no_byte c (fmt_d n).
Proof.
  intros Hn Hc. apply no_byte_bytes. intros Hin.
  pose proof (fmt_d_digits n Hn) as Hd. rewrite Forall_forall in Hd.
  apply Hd in Hin. lia.
Qed.

Lemma fmt_d_inj m n : 0 ≤ m → 0 ≤ n → fmt_d m = fmt_d n → m = n.
Proof.
  intros Hm Hn Heq. apply (f_equal bytes_of_string) in Heq.
  rewrite !fmt_d_bytes in Heq by done.
  apply list_fmap_eq_inj in Heq; [|intros ???; lia].
  destruct (digits_of_spec m Hm) as (<- & _), (digits_of_spec n Hn) as (<- & _).
  by rewrite Heq.
Qed.

(** A negative number starts with a minus sign, another one with a digit. *)
Lemma fmt_d_sign m n : m < 0 → 0 ≤ n → fmt_d m ≠ fmt_d n.
Proof.
  intros Hm Hn Heq. pose proof (fmt_d_digits n Hn) as Hd. rewrite <-Heq in Hd.
  unfold fmt_d in Hd. rewrite (proj2 (Z.ltb_lt _ _) Hm) in Hd. simpl in Hd.
  apply Forall_cons in Hd as [Hd _]. vm_compute in Hd. naive_solver.
Qed.

Lemma fmt_d_injective m n : fmt_d m = fmt_d n → m = n.
Proof.
  destruct (decide (0 ≤ m)) as [Hm|Hm], (decide (0 ≤ n)) as [Hn|Hn]; intros Heq.
  - by apply fmt_d_inj.
  - exfalso. eapply (fmt_d_sign n m); [lia|done|done].
  - exfalso. eapply (fmt_d_sign m n); [lia|done|done].
  - assert (fmt_d (- m) = fmt_d (- n)) as Heq'.
    { unfold fmt_d in *. destruct (Z.ltb_spec m 0), (Z.ltb_spec n 0), (Z.ltb_spec (- m) 0),
        (Z.ltb_spec (- n) 0); try lia. by injection Heq. }
    apply fmt_d_inj in Heq'; lia.
Qed.

(** ** time.Duration.String *)

Fixpoint strip_zeros (l : list Z) : list Z :=
  match l with
  | 0 :: l' => strip_zeros l'
  | _ => l
  end.

(** [fmtFrac]: the fraction [v / 10^prec] without trailing zeros, and the
    integer part. *)
Definition fmtFrac (v : Z) (prec : nat) : string * Z :=
  let m := 10 ^ Z.of_nat prec in
  let ds := digits_of (v mod m) in
  let frac := reverse (strip_zeros (reverse (replicate (prec - length ds) 0 ++ ds))) in
  (match frac with [] => "" | _ => String "." (string_of_digits frac) end, v / m).

Definition micro_sign : string := string_of_bytes [0xC2; 0xB5].

Definition Duration_String (d : duration) : string :=
  let u := Z.abs d in
  let body :=
    if u =? 0 then "0s"
    else if u <? 1000 then fmt_d u +:+ "ns"
    else if u <? 1000000 then
      let '(f, v) := fmtFrac u 3 in fmt_d v +:+ f +:+ micro_sign +:+ "s"
    else if u <? 1000000000 then
      let '(f, v) := fmtFrac u 6 in fmt_d v +:+ f +:+ "ms"
    else
      let '(f, secs) := fmtFrac u 9 in
      let s := fmt_d (secs mod 60) +:+ f +:+ "s" in
      let mins := secs / 60 in
      if mins =? 0 then s
      else
        let m := fmt_d (mins mod 60) +:+ "m" +:+ s in
        let hours := mins / 60 in
        if hours =? 0 then m else fmt_d hours +:+ "h" +:+ m in
  if d <? 0 then String "-" body else body.

Example Duration_String_examples :
  Duration_String minute = "1m0s" ∧ Duration_String (90 * minute) = "1h30m0s" ∧
  Duration_String 1500000000 = "1.5s" ∧ Duration_String (-2500000) = "-2.5ms" ∧
  Duration_String 0 = "0s".
Proof. vm_compute. done. Qed.

(** ** time.Time.Truncate *)

(** [time.Time{}], the first of January of year 1. *)
Definition zero_time : time := -62135596800 * second.

(** Rounded down to a multiple of [d] since the zero time. *)
Definition time_Truncate (t : time) (d : duration) : time :=
  if d <=? 0 then t else t - (t - zero_time) mod d.

Lemma time_Truncate_bounds t d :
  0 < d → time_Truncate t d ≤ t < time_Truncate t d + d.
Proof.
  intros Hd. unfold time_Truncate. rewrite (proj2 (Z.leb_gt d 0)) by done.
  pose proof (Z.mod_pos_bound (t - zero_time) d Hd). lia.
Qed.
