(* ===== verification/Encoding.v ===== *)
(** * Packages encoding/hex, encoding/base64, encoding/binary, crypto/sha256

    What [internal/lib/token], [internal/lib/otp] and [internal/lib/password]
    use of them: [hex.EncodeToString], the padded URL alphabet and the unpadded
    standard alphabet of base64, [binary.BigEndian.Uint32] and
    [sha256.Sum256]. *)

From Stdlib Require Import Ascii String.
From S2P Require Import Prelude GoStd.
Open Scope Z_scope.

(** ** Hexadecimal *)

(** The character of a hexadecimal digit. *)
Definition hex_char (d : Z) : Z := if d <? 10 then 48 + d else 87 + d.
Definition hex_bytes (l : list Z) : list Z :=
  l ≫= λ b, [hex_char (b / 16); hex_char (b mod 16)].
Definition hex_EncodeToString (l : list Z) : string := string_of_bytes (hex_bytes l).

(** ** Base64 *)

(** The two alphabets differ in the characters of 62 and 63. *)
Record alphabet := { c62 : Z; c63 : Z }.
Definition std_alphabet : alphabet := {| c62 := 43; c63 := 47 |}.
Definition url_alphabet : alphabet := {| c62 := 45; c63 := 95 |}.

Definition b64_char (a : alphabet) (v : Z) : Z :=
  if v <? 26 then 65 + v
  else if v <? 52 then 71 + v
  else if v <? 62 then v - 4
  else if v =? 62 then c62 a else c63 a.

Definition b64_value (a : alphabet) (c : Z) : option Z :=
  if in_range 65 90 c then Some (c - 65)
  else if in_range 97 122 c then Some (c - 71)
  else if in_range 48 57 c then Some (c + 4)
  else if c =? c62 a then Some 62
  else if c =? c63 a then Some 63
  else None.

(** Three bytes give four characters; a last group of one or two bytes gives
    two or three, filled up with [=] when the encoding is padded. *)
Fixpoint b64_encode (a : alphabet) (pad : bool) (l : list Z) : list Z :=
  match l with
  | [] => []
  | [x] =>
      [b64_char a (x / 4); b64_char a (x mod 4 * 16)] ++ if pad then [61; 61] else []
  | [x; y] =>
      [b64_char a (x / 4); b64_char a (x mod 4 * 16 + y / 16);
       b64_char a (y mod 16 * 4)] ++ if pad then [61] else []
  | x :: y :: z :: l' =>
      b64_char a (x / 4) :: b64_char a (x mod 4 * 16 + y / 16) ::
      b64_char a (y mod 16 * 4 + z / 64) :: b64_char a (z mod 64) ::
      b64_encode a pad l'
  end.

(** Decoding without padding; the decoder of Go skips carriage returns and line
    feeds and, not being strict, drops the left-over bits of the last group. *)
Fixpoint b64_decode_groups (a : alphabet) (l : list Z) : option (list Z) :=
  match l with
  | [] => Some []
  | [_] => None
  | [c1; c2] =>
      v1 ← b64_value a c1; v2 ← b64_value a c2;
      Some [v1 * 4 + v2 / 16]
  | [c1; c2; c3] =>
      v1 ← b64_value a c1; v2 ← b64_value a c2; v3 ← b64_value a c3;
      Some [v1 * 4 + v2 / 16; v2 mod 16 * 16 + v3 / 4]
  | c1 :: c2 :: c3 :: c4 :: l' =>
      v1 ← b64_value a c1; v2 ← b64_value a c2;
      v3 ← b64_value a c3; v4 ← b64_value a c4;
      rest ← b64_decode_groups a l';
      Some (v1 * 4 + v2 / 16 :: v2 mod 16 * 16 + v3 / 4 :: v3 mod 4 * 64 + v4 :: rest)
  end.
Definition not_newline (c : Z) : Prop := c ≠ 10 ∧ c ≠ 13.
#[global] Instance not_newline_dec c : Decision (not_newline c).
Proof. unfold not_newline. apply _. Defined.
Definition b64_decode_raw (a : alphabet) (l : list Z) : option (list Z) :=
  b64_decode_groups a (filter not_newline l).

(** [base64.URLEncoding.EncodeToString], [base64.RawStdEncoding.EncodeToString]
    and [base64.RawStdEncoding.DecodeString]. *)
Definition URLEncoding_EncodeToString (l : list Z) : string :=
  string_of_bytes (b64_encode url_alphabet true l).
Definition RawStdEncoding_EncodeToString (l : list Z) : string :=
  string_of_bytes (b64_encode std_alphabet false l).
Definition RawStdEncoding_DecodeString (s : string) : option (list Z) :=
  b64_decode_raw std_alphabet (bytes_of_string s).

(** ** Big-endian integers *)

(** [binary.BigEndian.Uint32] on four bytes. *)
Definition be_Uint32 (l : list Z) : Z :=
  foldl (λ v b, Z.lor (Z.shiftl v 8) b) 0 l.

(** ** SHA-256 (FIPS 180-4) *)

Definition w32 (z : Z) : Z := Z.land z 0xFFFFFFFF.
Definition add32 (x y : Z) : Z := w32 (x + y).
Definition rotr (n x : Z) : Z := Z.lor (Z.shiftr x n) (w32 (Z.shiftl x (32 - n))).
Definition not32 (x : Z) : Z := Z.lxor x 0xFFFFFFFF.

Definition Ch (x y z : Z) : Z := Z.lxor (Z.land x y) (Z.land (not32 x) z).
Definition Maj (x y z : Z) : Z :=
  Z.lxor (Z.lxor (Z.land x y) (Z.land x z)) (Z.land y z).
Definition bsig0 (x : Z) : Z := Z.lxor (Z.lxor (rotr 2 x) (rotr 13 x)) (rotr 22 x).
Definition bsig1 (x : Z) : Z := Z.lxor (Z.lxor (rotr 6 x) (rotr 11 x)) (rotr 25 x).
Definition ssig0 (x : Z) : Z := Z.lxor (Z.lxor (rotr 7 x) (rotr 18 x)) (Z.shiftr x 3).
Definition ssig1 (x : Z) : Z := Z.lxor (Z.lxor (rotr 17 x) (rotr 19 x)) (Z.shiftr x 10).

(** The constants: the first 32 bits of the fractional parts of the cube roots of
    the first 64 primes, and of the square roots of the first eight. *)
Definition is_prime (n : nat) : bool :=
  forallb (λ d, negb (Nat.eqb (n mod d) 0)) (seq 2 (n - 2)).
Definition primes_below (n : nat) : list Z :=
  Z.of_nat <$> List.filter is_prime (seq 2 (n - 2)).

(** The largest [r] with [r ^ 3 <= n], bit by bit. *)
Fixpoint cbrt_bits (i : nat) (r n : Z) : Z :=
  match i with
  | O => r
  | S i' =>
      let r' := r + Z.shiftl 1 (Z.of_nat i') in
      cbrt_bits i' (if r' * r' * r' <=? n then r' else r) n
  end.

Definition sha256_k : list Z := Eval vm_compute in
  (λ p, w32 (cbrt_bits 40 0 (Z.shiftl p 96))) <$> primes_below 312.
Definition sha256_h0 : list Z := Eval vm_compute in
  (λ p, w32 (Z.sqrt (Z.shiftl p 64))) <$> primes_below 20.

(** The message with a one bit, zeros, and its length in bits in 8 bytes. *)
Definition be_bytes (n : nat) (z : Z) : list Z :=
  (λ i : nat, Z.land (Z.shiftr z (8 * Z.of_nat (n - 1 - i))) 0xFF) <$> seq 0 n.
Definition sha256_pad (l : list Z) : list Z :=
  let n := Z.of_nat (length l) in
  l ++ [0x80] ++ replicate (Z.to_nat ((55 - n) mod 64)) 0 ++ be_bytes 8 (8 * n).

(** The message schedule, most recent word first. *)
Fixpoint sha256_extend (n : nat) (w : list Z) : list Z :=
  match n with
  | O => w
  | S n' =>
      sha256_extend n'
        (add32 (add32 (ssig1 (nth 1 w 0)) (nth 6 w 0))
               (add32 (ssig0 (nth 14 w 0)) (nth 15 w 0)) :: w)
  end.

Definition sha256_round (st : list Z) (kw : Z * Z) : list Z :=
  match st with
  | [a; b; c; d; e; f; g; h] =>
      let t1 := add32 (add32 (add32 h (bsig1 e)) (Ch e f g)) (add32 kw.1 kw.2) in
      let t2 := add32 (bsig0 a) (Maj a b c) in
      [add32 t1 t2; a; b; c; add32 d t1; e; f; g]
  | _ => st
  end.

Definition sha256_block (st : list Z) (block : list Z) : list Z :=
  let words := (λ i, be_Uint32 (take 4 (drop (4 * i) block))) <$> seq 0 16 in
  let schedule := reverse (sha256_extend 48 (reverse words)) in
  zip_with add32 st (foldl sha256_round st (zip sha256_k schedule)).

Fixpoint sha256_blocks (fuel : nat) (st : list Z) (l : list Z) : list Z :=
  match fuel, l with
  | S fuel', _ :: _ => sha256_blocks fuel' (sha256_block st (take 64 l)) (drop 64 l)
  | _, _ => st
  end.

(** [sha256.Sum256]. *)
Definition sha256_Sum256 (l : list Z) : list Z :=
  let m := sha256_pad l in
  sha256_blocks (length m / 64) sha256_h0 m ≫= be_bytes 4.

Example sha256_abc :
  hex_EncodeToString (sha256_Sum256 (bytes_of_string "abc"))
  = "ba7816bf8f01cfea414140de5dae2223b00361a396177a9cb410ff61f20015ad".
Proof. vm_compute. reflexivity. Qed.

Example sha256_two_blocks :
  hex_EncodeToString (sha256_Sum256
    (bytes_of_string "abcdbcdecdefdefgefghfghighijhijkijkljklmklmnlmnomnopnopq"))
  = "248d6a61d20638b8e5c026930c3e6039a33ce45964ff2167f6ecedd419db06c1".
Proof. vm_compute. reflexivity. Qed.

(** ** Lemmas *)

(** [lia] with division and remainder by constants. *)
#[local] Ltac Zify.zify_post_hook ::= Z.to_euclidean_division_equations.

Lemma list_ind3 {A} (P : list A → Prop) :
  P [] → (∀ x, P [x]) → (∀ x y, P [x; y]) →
  (∀ x y z l, P l → P (x :: y :: z :: l)) → ∀ l, P l.
Proof.
  intros H0 H1 H2 H3. fix IH 1. intros [|x [|y [|z l]]]; [exact H0|apply H1|apply H2|apply H3, IH].
Qed.

Section base64.
Context (a : alphabet).
Hypothesis alphabet_ok : (a = std_alphabet ∨ a = url_alphabet).

Lemma b64_char_range v :
  0 ≤ v < 64 → 43 ≤ b64_char a v ≤ 122 ∧ b64_char a v ≠ 61.
Proof.
  intros Hv. unfold b64_char.
  repeat case_match; destruct alphabet_ok as [-> | ->]; simpl; lia.
Qed.

Lemma b64_value_char v : 0 ≤ v < 64 → b64_value a (b64_char a v) = Some v.
Proof.
  intros Hv. unfold b64_value, b64_char, in_range.
  destruct alphabet_ok as [-> | ->]; simpl;
    repeat (case_match; simpl in *; try (f_equal; lia); try lia).
Qed.

Lemma b64_encode_chars pad l :
  Forall byte_ok l →
  Forall (λ c, 43 ≤ c ≤ 122 ∧ (c = 61 → pad = true)) (b64_encode a pad l).
Proof.
  unfold byte_ok. induction l as [|x|x y|x y z l IH] using list_ind3; intros Hl;
    decompose_Forall_hyps; simpl; [done|destruct pad..|];
    repeat (apply Forall_cons; split); try apply Forall_nil_2; auto;
    match goal with
    | |- 43 ≤ 61 ≤ 122 ∧ _ => lia
    | |- 43 ≤ b64_char a ?v ≤ 122 ∧ _ =>
        destruct (b64_char_range v) as [Hr Hne]; [lia|]; split; [done|intros; congruence]
    end.
Qed.

Lemma b64_decode_encode l :
  Forall byte_ok l → b64_decode_groups a (b64_encode a false l) = Some l.
Proof.
  unfold byte_ok. induction l as [|x|x y|x y z l IH] using list_ind3; intros Hl;
    decompose_Forall_hyps; cbn [b64_encode b64_decode_groups app]; [done|..];
    rewrite !b64_value_char by lia; simpl; rewrite ?IH by done; simpl;
    repeat f_equal; lia.
Qed.

Lemma b64_encode_inj l1 l2 :
  Forall byte_ok l1 → Forall byte_ok l2 →
  b64_encode a false l1 = b64_encode a false l2 → l1 = l2.
Proof.
  intros H1 H2 Heq. apply (f_equal (b64_decode_groups a)) in Heq.
  rewrite !b64_decode_encode in Heq by done. by simplify_eq.
Qed.

Lemma length_b64_encode_padded k l :
  length l = (3 * k)%nat → length (b64_encode a true l) = (4 * k)%nat.
Proof.
  revert l; induction k as [|k IH]; intros [|x [|y [|z l]]] Hl; simpl in *; try lia.
  rewrite IH; lia.
Qed.

End base64.

Lemma RawStdEncoding_roundtrip l :
  Forall byte_ok l →
  RawStdEncoding_DecodeString (RawStdEncoding_EncodeToString l) = Some l.
Proof.
  intros Hl. unfold RawStdEncoding_DecodeString, RawStdEncoding_EncodeToString.
  pose proof (b64_encode_chars std_alphabet (or_introl eq_refl) false l Hl) as Hc.
  rewrite bytes_of_string_of_bytes
    by (eapply Forall_impl; [exact Hc|]; unfold byte_ok; simpl; lia).
  unfold b64_decode_raw. rewrite filter_Forall_id.
  - apply b64_decode_encode; auto.
  - eapply Forall_impl; [exact Hc|]. unfold not_newline. simpl. lia.
Qed.

Lemma RawStdEncoding_no_byte c l :
  Forall byte_ok l → byte_of_ascii c < 43 → no_byte c (RawStdEncoding_EncodeToString l).
Proof.
  intros Hl Hlt. apply no_byte_bytes. unfold RawStdEncoding_EncodeToString.
  pose proof (b64_encode_chars std_alphabet (or_introl eq_refl) false l Hl) as Hc.
  rewrite bytes_of_string_of_bytes
    by (eapply Forall_impl; [exact Hc|]; unfold byte_ok; simpl; lia).
  intros Hin. rewrite Forall_forall in Hc. apply Hc in Hin. lia.
Qed.

(** *** Hexadecimal and SHA-256 *)

Definition is_hex (b : Z) : Prop := 48 ≤ b ≤ 57 ∨ 97 ≤ b ≤ 102.

Lemma hex_char_is_hex d : 0 ≤ d < 16 → is_hex (hex_char d).
Proof. unfold hex_char, is_hex. case_match; lia. Qed.

Lemma length_hex_bytes l : length (hex_bytes l) = (2 * length l)%nat.
Proof. unfold hex_bytes. induction l as [|b l IH]; [done|]. rewrite bind_cons, length_app, IH. simpl. lia. Qed.

Lemma hex_bytes_is_hex l : Forall byte_ok l → Forall is_hex (hex_bytes l).
Proof.
  unfold hex_bytes, byte_ok. induction 1 as [|b l Hb Hl IH]; [done|]. csimpl.
  do 2 (constructor; [apply hex_char_is_hex; lia|]). done.
Qed.

Lemma land_byte z : byte_ok (Z.land z 0xFF).
Proof.
  unfold byte_ok. change 0xFF with (Z.ones 8). rewrite Z.land_ones by lia.
  apply Z.mod_pos_bound. lia.
Qed.

Lemma be_bytes_ok n z : Forall byte_ok (be_bytes n z).
Proof. apply Forall_fmap, Forall_true. intros; apply land_byte. Qed.

Lemma length_be_bytes n z : length (be_bytes n z) = n.
Proof. unfold be_bytes. by rewrite length_fmap, length_seq. Qed.

Lemma length_sha256_round st kw : length (sha256_round st kw) = length st.
Proof. do 9 (destruct st as [|? st]; try done). Qed.

Lemma length_sha256_block st block : length (sha256_block st block) = length st.
Proof.
  unfold sha256_block. rewrite length_zip_with.
  generalize (zip sha256_k (reverse (sha256_extend 48 (reverse
    ((λ i, be_Uint32 (take 4 (drop (4 * i) block))) <$> seq 0 16))))). intros l.
  enough (length (foldl sha256_round st l) = length st) by lia.
  revert st; induction l as [|kw l IH]; intros st; simpl; [done|].
  by rewrite IH, length_sha256_round.
Qed.

Lemma length_sha256_blocks fuel st l : length (sha256_blocks fuel st l) = length st.
Proof.
  revert st l; induction fuel as [|fuel IH]; intros st [|b l]; simpl; [done..|].
  by rewrite IH, length_sha256_block.
Qed.

Lemma sha256_Sum256_ok l :
  Forall byte_ok (sha256_Sum256 l) ∧ length (sha256_Sum256 l) = 32%nat.
Proof.
  unfold sha256_Sum256.
  pose proof (length_sha256_blocks (length (sha256_pad l) / 64) sha256_h0 (sha256_pad l)) as H.
  revert H. generalize (sha256_blocks (length (sha256_pad l) / 64) sha256_h0 (sha256_pad l)).
  intros st Hst. simpl in Hst. split.
  - apply Forall_bind, Forall_true. intros; apply be_bytes_ok.
  - enough (∀ st', length (st' ≫= be_bytes 4) = (4 * length st')%nat) as ->; [by rewrite Hst|].
    clear. induction st' as [|w st' IH]; [done|].
    rewrite bind_cons, length_app, length_be_bytes, IH. simpl. lia.
Qed.

(** *** Big-endian *)

Lemma lor_shiftl_byte v b : byte_ok b → Z.lor (Z.shiftl v 8) b = v * 256 + b.
Proof.
  intros Hb. unfold byte_ok in Hb.
  assert (Z.land (Z.shiftl v 8) b = 0) as Hland.
  { apply Z.bits_inj'. intros n Hn. rewrite Z.land_spec, Z.bits_0, Z.shiftl_spec by done.
    destruct (decide (n < 8)); [by rewrite Z.testbit_neg_r by lia|].
    rewrite <-(Z.mod_small b (2 ^ 8)) by lia.
    rewrite Z.mod_pow2_bits_high by lia. apply andb_false_r. }
  rewrite <-Z.lxor_lor, <-Z.add_nocarry_lxor by done.
  by rewrite Z.shiftl_mul_pow2 by lia.
Qed.

Lemma be_Uint32_value b0 b1 b2 b3 :
  Forall byte_ok [b0; b1; b2; b3] →
  be_Uint32 [b0; b1; b2; b3] = ((b0 * 256 + b1) * 256 + b2) * 256 + b3.
Proof.
  intros H. decompose_Forall_hyps. unfold be_Uint32. cbn [foldl].
  rewrite !lor_shiftl_byte by done. lia.
Qed.
