(* ===== verification/TimeText.v ===== *)
(** * Time as text: RFC 3339

    [time.Time.MarshalJSON] and [UnmarshalJSON] of the Go standard library,
    which put the expiry of a cached session into its JSON document.  A
    [time.Time] is an instant with the offset of its zone; the offset is an
    argument of the formatting, in minutes east of UTC. *)

From Stdlib Require Import Ascii String.
From S2P Require Import Prelude GoStd.
Open Scope Z_scope.

(** ** The calendar *)

Definition is_leap (y : Z) : bool :=
  (y mod 4 =? 0) && (negb (y mod 100 =? 0) || (y mod 400 =? 0)).

(** Days are counted from the first of January of year 0. *)
Definition days_before_year (y : Z) : Z := 365 * y + (y + 3) / 4 - (y + 99) / 100 + (y + 399) / 400.
Definition unix_epoch_day : Z := 719528.

(** 400 years have 146097 days; the guess is off by at most one. *)
Definition year_of_day (d : Z) : Z :=
  let y := d * 400 / 146097 in
  if days_before_year (y + 1) <=? d then y + 1
  else if d <? days_before_year y then y - 1 else y.

Definition month_lengths (leap : bool) : list Z :=
  [31; if leap then 29 else 28; 31; 30; 31; 30; 31; 31; 30; 31; 30; 31].

(** The month and the day in it, from the day in the year. *)
Fixpoint month_of_yday (ms : list Z) (m yday : Z) : Z * Z :=
  match ms with
  | [] => (m, yday + 1)
  | n :: ms' => if yday <? n then (m, yday + 1) else month_of_yday ms' (m + 1) (yday - n)
  end.

Definition civil_of_day (d : Z) : Z * Z * Z :=
  let y := year_of_day d in
  let '(m, dd) := month_of_yday (month_lengths (is_leap y)) 1 (d - days_before_year y) in
  (y, m, dd).

Definition days_in_month (y m : Z) : Z :=
  default 0 (month_lengths (is_leap y) !! Z.to_nat (m - 1)).
Definition days_before_month (leap : bool) (m : Z) : Z :=
  foldr Z.add 0 (take (Z.to_nat (m - 1)) (month_lengths leap)).
Definition day_of_civil (y m d : Z) : Z :=
  days_before_year y + days_before_month (is_leap y) m + d - 1.

(** ** Formatting *)

Definition day_ns : Z := 86400 * second.

Definition fmt_zone (off : Z) : string :=
  if off =? 0 then "Z"
  else (if off <? 0 then "-" else "+") +:+ fmt_0d 2 (Z.abs off / 60) +:+ ":" +:+
       fmt_0d 2 (Z.abs off mod 60).

(** [t.Format(RFC3339Nano)] in a zone [off] minutes east of UTC. *)
Definition RFC3339Nano (off : Z) (t : time) : string :=
  let l := t + off * minute in
  let '(y, m, d) := civil_of_day (l / day_ns + unix_epoch_day) in
  let ns := l mod day_ns in
  let s := ns / second in
  fmt_0d 4 y +:+ "-" +:+ fmt_0d 2 m +:+ "-" +:+ fmt_0d 2 d +:+ "T" +:+
  fmt_0d 2 (s / 3600) +:+ ":" +:+ fmt_0d 2 (s / 60 mod 60) +:+ ":" +:+ fmt_0d 2 (s mod 60) +:+
  (fmtFrac (ns mod second) 9).1 +:+ fmt_zone off.

(** The year has four digits and the offset is less than a day. *)
Definition rfc3339_range (off : Z) (t : time) : bool :=
  let y := year_of_day ((t + off * minute) / day_ns + unix_epoch_day) in
  (0 <=? y) && (y <=? 9999) && (Z.abs off <? 1440).

(** ** Parsing *)

(** [parseUint] of [time.parseRFC3339]. *)
Definition parse_uint (lo hi : Z) (l : list Z) : option Z :=
  if forallb is_digit_byte l then
    let v := digits_value ((λ b, b - 48) <$> l) in
    if (lo <=? v) && (v <=? hi) then Some v else None
  else None.

Fixpoint span {A} (P : A → bool) (l : list A) : list A * list A :=
  match l with
  | x :: l' => if P x then let '(a, b) := span P l' in (x :: a, b) else ([], l)
  | [] => ([], [])
  end.

(** The nanoseconds after the point; digits beyond the ninth are dropped. *)
Definition parse_frac (l : list Z) : Z * list Z :=
  match l with
  | 46 :: l' =>
      match span is_digit_byte l' with
      | ([], _) => (0, l)
      | (ds, rest) =>
          let ds := take 9 ds in
          (digits_value ((λ b, b - 48) <$> ds) * 10 ^ Z.of_nat (9 - length ds), rest)
      end
  | _ => (0, l)
  end.

(** The offset in minutes. *)
Definition parse_zone (l : list Z) : option Z :=
  match l with
  | [90] => Some 0
  | [sgn; h1; h2; colon; m1; m2] =>
      hr ← parse_uint 0 23 [h1; h2]; mm ← parse_uint 0 59 [m1; m2];
      if ((sgn =? 45) || (sgn =? 43)) && (colon =? 58) then
        Some (if sgn =? 45 then - (hr * 60 + mm) else hr * 60 + mm)
      else None
  | _ => None
  end.

(** [time.parseRFC3339]. *)
Definition parseRFC3339 (l : list Z) : option time :=
  match l with
  | y1 :: y2 :: y3 :: y4 :: c4 :: m1 :: m2 :: c7 :: d1 :: d2 :: c10 :: h1 :: h2 :: c13 ::
    n1 :: n2 :: c16 :: s1 :: s2 :: rest =>
      year ← parse_uint 0 9999 [y1; y2; y3; y4];
      month ← parse_uint 1 12 [m1; m2];
      day ← parse_uint 1 (days_in_month year month) [d1; d2];
      hour ← parse_uint 0 23 [h1; h2];
      min ← parse_uint 0 59 [n1; n2];
      sec ← parse_uint 0 59 [s1; s2];
      if (c4 =? 45) && (c7 =? 45) && (c10 =? 84) && (c13 =? 58) && (c16 =? 58) then
        let '(nsec, rest) := parse_frac rest in
        off ← parse_zone rest;
        Some ((day_of_civil year month day - unix_epoch_day) * day_ns +
              (hour * 3600 + min * 60 + sec) * second + nsec - off * minute)
      else None
  | _ => None
  end.

Example RFC3339_examples :
  RFC3339Nano 0 0 = "1970-01-01T00:00:00Z" ∧
  RFC3339Nano 330 1709210096120000000 = "2024-02-29T18:04:56.12+05:30" ∧
  parseRFC3339 (bytes_of_string "2024-02-29T18:04:56.12+05:30") = Some 1709210096120000000 ∧
  parseRFC3339 (bytes_of_string "2023-02-29T18:04:56Z") = None.
Proof. vm_compute. done. Qed.

(** ** The calendar is right *)

Lemma count_multiples k y :
  0 < k → (y + 1 + (k - 1)) / k = (y + (k - 1)) / k + (if y mod k =? 0 then 1 else 0).
Proof.
  intros Hk. rewrite (Z.div_mod y k) at 1 2 by lia. pose proof (Z.mod_pos_bound y k Hk).
  set (q := y / k). set (r := y mod k) in *.
  replace (k * q + r + 1 + (k - 1)) with (r + (q + 1) * k) by lia.
  replace (k * q + r + (k - 1)) with (r + (k - 1) + q * k) by lia.
  rewrite !Z.div_add, Z.div_small by lia. destruct (Z.eqb_spec r 0) as [->|].
  - rewrite Z.div_small by lia. lia.
  - replace (r + (k - 1)) with ((r - 1) + 1 * k) by lia.
    rewrite Z.div_add, Z.div_small by lia. lia.
Qed.

Lemma days_before_year_step y :
  days_before_year (y + 1) = days_before_year y + (if is_leap y then 366 else 365).
Proof.
  unfold days_before_year, is_leap.
  pose proof (count_multiples 4 y eq_refl) as H4. pose proof (count_multiples 100 y eq_refl) as H100.
  pose proof (count_multiples 400 y eq_refl) as H400.
  change (4 - 1) with 3 in H4. change (100 - 1) with 99 in H100. change (400 - 1) with 399 in H400.
  rewrite H4, H100, H400.
  assert (y mod 400 = 0 → y mod 100 = 0) by (Z.to_euclidean_division_equations; lia).
  assert (y mod 100 = 0 → y mod 4 = 0) by (Z.to_euclidean_division_equations; lia).
  destruct (Z.eqb_spec (y mod 4) 0), (Z.eqb_spec (y mod 100) 0), (Z.eqb_spec (y mod 400) 0);
    simpl; lia.
Qed.

Lemma year_of_day_spec d :
  days_before_year (year_of_day d) ≤ d < days_before_year (year_of_day d + 1).
Proof.
  unfold year_of_day.
  assert (146097 * (d * 400 / 146097) ≤ d * 400 < 146097 * (d * 400 / 146097) + 146097) as Hy.
  { pose proof (Z.div_mod (d * 400) 146097). pose proof (Z.mod_pos_bound (d * 400) 146097). lia. }
  set (y := d * 400 / 146097) in *. clearbody y.
  destruct (Z.leb_spec (days_before_year (y + 1)) d), (Z.ltb_spec d (days_before_year y));
    unfold days_before_year in *; Z.to_euclidean_division_equations; lia.
Qed.

(** Every day of the year, checked one by one. *)
Definition yday_ok (leap : bool) (n : nat) : bool :=
  let '(m, d) := month_of_yday (month_lengths leap) 1 (Z.of_nat n) in
  (1 <=? m) && (m <=? 12) && (1 <=? d) &&
  (d <=? default 0 (month_lengths leap !! Z.to_nat (m - 1))) &&
  (days_before_month leap m + d - 1 =? Z.of_nat n).

Lemma yday_all : forallb (yday_ok true) (seq 0 366) && forallb (yday_ok false) (seq 0 365) = true.
Proof. by_vm. Qed.

Lemma yday_checked (leap : bool) (yday : Z) :
  0 ≤ yday < (if leap then 366 else 365) → yday_ok leap (Z.to_nat yday) = true.
Proof.
  intros Hy. pose proof yday_all as [H1 H2]%andb_true_iff.
  rewrite forallb_forall in H1, H2.
  destruct leap; [apply H1|apply H2]; apply in_seq; lia.
Qed.

Lemma civil_of_day_spec d y m dd :
  civil_of_day d = (y, m, dd) →
  y = year_of_day d ∧ 1 ≤ m ≤ 12 ∧ 1 ≤ dd ≤ days_in_month y m ∧ day_of_civil y m dd = d.
Proof.
  unfold civil_of_day. pose proof (year_of_day_spec d) as Hd.
  rewrite days_before_year_step in Hd.
  set (leap := is_leap (year_of_day d)) in *. set (yd := d - days_before_year (year_of_day d)).
  assert (0 ≤ yd < (if leap then 366 else 365)) as Hyd by (destruct leap; lia).
  pose proof (yday_checked leap yd Hyd) as Hok. unfold yday_ok in Hok.
  rewrite Z2Nat.id in Hok by lia.
  destruct (month_of_yday _ 1 yd) as [m' d']. rewrite !andb_true_iff in Hok.
  destruct Hok as [[[[H1 H2] H3] H4] H5]. apply Z.leb_le in H1, H2, H3, H4. apply Z.eqb_eq in H5.
  intros [= <- <- <-]. unfold days_in_month, day_of_civil. fold leap. split_and!; lia.
Qed.

Lemma days_in_month_le y m : days_in_month y m ≤ 31.
Proof.
  unfold days_in_month, month_lengths.
  destruct (Z.to_nat (m - 1)) as [|[|[|[|[|[|[|[|[|[|[|[|]]]]]]]]]]]]; simpl; try lia.
  destruct (is_leap y); lia.
Qed.

(** ** Numbers of a fixed width *)

Lemma digits_back ds : Forall (λ d, 0 ≤ d < 10) ds → (λ b, b - 48) <$> ((λ d, 48 + d) <$> ds) = ds.
Proof.
  intros _. rewrite <-list_fmap_compose. rewrite <-(list_fmap_id ds) at 2.
  apply list_fmap_ext. intros i x _. simpl. lia.
Qed.

Lemma digits_are_digits ds :
  Forall (λ d, 0 ≤ d < 10) ds → forallb is_digit_byte ((λ d, 48 + d) <$> ds) = true.
Proof.
  induction 1 as [|d ds Hd Hds IH]; [done|]. csimpl. rewrite IH. unfold is_digit_byte, in_range.
  rewrite !andb_true_iff, !Z.leb_le. lia.
Qed.

Lemma fmt_0d_digits w n :
  (0 < w)%nat → 0 ≤ n < 10 ^ Z.of_nat w →
  ∃ ds, bytes_of_string (fmt_0d w n) = (λ d, 48 + d) <$> ds ∧ length ds = w ∧
    Forall (λ d, 0 ≤ d < 10) ds ∧ digits_value ds = n.
Proof.
  intros Hw Hn. destruct (digits_of_spec n) as (Hv & Hd & Hl & _); [lia|].
  exists (replicate (w - length (digits_of n)) 0 ++ digits_of n).
  assert (Forall (λ d, 0 ≤ d < 10) (replicate (w - length (digits_of n)) 0 ++ digits_of n)) as Hall.
  { apply Forall_app. split; [|done]. apply Forall_replicate. lia. }
  split_and!; [by apply bytes_of_string_of_digits| |done|by rewrite digits_value_zeros].
  specialize (Hl w Hw ltac:(lia)). rewrite length_app, length_replicate. lia.
Qed.

(** The text of a number of [w] digits, and how it is read back. *)
Lemma parse_uint_fmt w n :
  (0 < w)%nat → 0 ≤ n < 10 ^ Z.of_nat w →
  ∃ l, bytes_of_string (fmt_0d w n) = l ∧ length l = w ∧
    ∀ lo hi, lo ≤ n ≤ hi → parse_uint lo hi l = Some n.
Proof.
  intros Hw Hn. destruct (fmt_0d_digits w n Hw Hn) as (ds & Hb & Hl & Hd & Hv).
  eexists. split; [exact Hb|]. split; [by rewrite length_fmap|]. intros lo hi Hlh.
  unfold parse_uint. rewrite digits_are_digits, digits_back, Hv by done.
  rewrite (proj2 (Z.leb_le lo n)), (proj2 (Z.leb_le n hi)) by lia. done.
Qed.

(** ** Fractions *)

Lemma span_all {A} (P : A → bool) l rest :
  forallb P l = true → (∀ x rest', rest = x :: rest' → P x = false) →
  span P (l ++ rest) = (l, rest).
Proof.
  intros Hl Hrest. induction l as [|x l IH]; simpl in *.
  - destruct rest as [|x rest]; [done|]. simpl. by rewrite (Hrest x rest).
  - apply andb_true_iff in Hl as [-> Hl]. by rewrite IH.
Qed.

Lemma strip_zeros_spec l : ∃ k, l = replicate k 0 ++ strip_zeros l.
Proof.
  induction l as [|x l [k IH]]; [by exists 0%nat|].
  destruct (decide (x = 0)) as [->|Hx].
  - exists (S k). simpl. by f_equal.
  - exists 0%nat. by destruct x.
Qed.

Lemma reverse_replicate {A} n (x : A) : reverse (replicate n x) = replicate n x.
Proof.
  induction n as [|n IH]; [done|]. rewrite replicate_S_end at 1. rewrite reverse_app, IH. done.
Qed.

(** The digits of a fraction of nine places, without the trailing zeros. *)
Lemma frac_digits v :
  0 ≤ v < second →
  ∃ ds, (fmtFrac v 9).1 = match ds with [] => "" | _ => String "." (string_of_digits ds) end ∧
    (length ds ≤ 9)%nat ∧ Forall (λ d, 0 ≤ d < 10) ds ∧
    digits_value ds * 10 ^ Z.of_nat (9 - length ds) = v.
Proof.
  intros Hv. unfold fmtFrac. simpl fst. change (10 ^ Z.of_nat 9) with second.
  rewrite Z.mod_small by done.
  destruct (digits_of_spec v) as (Hval & Hd & Hl & _); [lia|].
  specialize (Hl 9%nat ltac:(lia)). change (10 ^ Z.of_nat 9) with second in Hl.
  specialize (Hl ltac:(lia)).
  set (all := replicate (9 - length (digits_of v)) 0 ++ digits_of v).
  assert (length all = 9%nat) as Hlen by (unfold all; rewrite length_app, length_replicate; lia).
  assert (Forall (λ d, 0 ≤ d < 10) all) as Hall.
  { apply Forall_app. split; [apply Forall_replicate; lia|done]. }
  assert (digits_value all = v) as Hva by (unfold all; by rewrite digits_value_zeros).
  clearbody all. exists (reverse (strip_zeros (reverse all))).
  destruct (strip_zeros_spec (reverse all)) as [k Hk].
  assert (all = reverse (strip_zeros (reverse all)) ++ replicate k 0) as Heq.
  { rewrite <-(reverse_involutive all) at 1. rewrite Hk at 1. by rewrite reverse_app, reverse_replicate. }
  set (ds := reverse (strip_zeros (reverse all))) in *. clearbody ds.
  assert (length ds + k = 9)%nat as Hsum
    by (rewrite <-Hlen, Heq, length_app, length_replicate; done).
  rewrite Heq in Hall. apply Forall_app in Hall as [Hds _].
  split_and!; [done|lia|done|]. rewrite <-Hva, Heq, digits_value_app, length_replicate.
  replace (9 - length ds)%nat with k by lia.
  assert (digits_value (replicate k 0) = 0) as ->; [|lia].
  pose proof (digits_value_zeros k []) as Hz. by rewrite app_nil_r in Hz.
Qed.

Lemma parse_frac_fmt v rest x rest' :
  0 ≤ v < second → rest = x :: rest' → is_digit_byte x = false → x ≠ 46 →
  parse_frac (bytes_of_string (fmtFrac v 9).1 ++ rest) = (v, rest).
Proof.
  intros Hv Hr Hx Hx'. destruct (frac_digits v Hv) as (ds & -> & Hl & Hd & Hval).
  destruct ds as [|d ds].
  - subst rest. simpl in *. unfold digits_value in Hval. simpl in Hval. subst v.
    destruct x as [|p|p]; try done. repeat (destruct p as [p|p|]; try done).
  - change (bytes_of_string (String "." ?s)) with (46 :: bytes_of_string s).
    rewrite bytes_of_string_of_digits by done. unfold parse_frac. rewrite <-app_comm_cons.
    rewrite span_all; [|by apply digits_are_digits|by intros y r ->; simplify_eq].
    rewrite fmap_cons. cbv iota. rewrite <-fmap_cons, take_ge by (rewrite length_fmap; lia).
    rewrite digits_back, length_fmap, Hval by done. done.
Qed.

(** ** Zones *)

Lemma parse_zone_fmt off : Z.abs off < 1440 → parse_zone (bytes_of_string (fmt_zone off)) = Some off.
Proof.
  intros Hoff. unfold fmt_zone. destruct (Z.eqb_spec off 0) as [->|Hne]; [done|].
  destruct (parse_uint_fmt 2 (Z.abs off / 60)) as (h & Hh & Hhl & Hhp); [lia| |].
  { split; [apply Z.div_pos; lia|apply Z.div_lt_upper_bound; simpl; lia]. }
  destruct (parse_uint_fmt 2 (Z.abs off mod 60)) as (m & Hm & Hml & Hmp); [lia| |].
  { pose proof (Z.mod_pos_bound (Z.abs off) 60). simpl. lia. }
  destruct h as [|h1 [|h2 [|]]]; [done..| |done]. destruct m as [|m1 [|m2 [|]]]; [done..| |done].
  rewrite !bytes_of_string_app, Hh, Hm.
  assert (0 ≤ Z.abs off / 60 ≤ 23).
  { split; [apply Z.div_pos; lia|apply Z.lt_succ_r, Z.div_lt_upper_bound; lia]. }
  pose proof (Z.mod_pos_bound (Z.abs off) 60).
  pose proof (Z.div_mod (Z.abs off) 60).
  destruct (Z.ltb_spec off 0); cbn [bytes_of_string list_ascii_of_string fmap list_fmap app];
    unfold parse_zone; rewrite Hhp, Hmp by lia; simpl; f_equal; lia.
Qed.

Lemma fmt_zone_head off :
  ∃ x l, bytes_of_string (fmt_zone off) = x :: l ∧ is_digit_byte x = false ∧ x ≠ 46.
Proof.
  unfold fmt_zone. destruct (off =? 0); [by eexists _, _|].
  destruct (off <? 0); rewrite bytes_of_string_app; by eexists _, _.
Qed.

(** ** The round trip *)

Lemma RFC3339_roundtrip off t :
  rfc3339_range off t = true → parseRFC3339 (bytes_of_string (RFC3339Nano off t)) = Some t.
Proof.
  unfold rfc3339_range, RFC3339Nano. rewrite !andb_true_iff, !Z.leb_le, Z.ltb_lt.
  intros [[Hy0 Hy1] Hoff]. set (l := t + off * minute) in *.
  destruct (civil_of_day _) as [[y m] d] eqn:Hc.
  apply civil_of_day_spec in Hc as (Hy & Hm & Hd & Hday). rewrite <-Hy in *.
  pose proof (days_in_month_le y m).
  pose proof (Z.mod_pos_bound l day_ns ltac:(done)) as Hns. pose proof (Z.div_mod l day_ns ltac:(done)) as Hl.
  set (ns := l mod day_ns) in *. set (s := ns / second).
  assert (0 ≤ s < 86400) as Hs.
  { unfold day_ns in Hns. split; [apply Z.div_pos; unfold second; lia|].
    apply Z.div_lt_upper_bound; unfold second in *; lia. }
  pose proof (Z.div_mod ns second ltac:(done)) as Hnsd. fold s in Hnsd.
  pose proof (Z.mod_pos_bound ns second ltac:(done)) as Hfrac.
  assert (0 ≤ s / 3600 ≤ 23) as Hh by (split; [apply Z.div_pos; lia|apply Z.lt_succ_r, Z.div_lt_upper_bound; lia]).
  pose proof (Z.mod_pos_bound (s / 60) 60 ltac:(lia)) as Hmin.
  pose proof (Z.mod_pos_bound s 60 ltac:(lia)) as Hsec.
  assert (s / 3600 * 3600 + s / 60 mod 60 * 60 + s mod 60 = s) as Hsum
    by (Z.to_euclidean_division_equations; lia).
  destruct (parse_uint_fmt 4 y) as (ly & Ey & Ly & Py); [lia|simpl; lia|].
  destruct (parse_uint_fmt 2 m) as (lm & Em & Lm & Pm); [lia|simpl; lia|].
  destruct (parse_uint_fmt 2 d) as (ld & Ed & Ld & Pd); [lia|simpl; lia|].
  destruct (parse_uint_fmt 2 (s / 3600)) as (lh & Eh & Lh & Ph); [lia|simpl; lia|].
  destruct (parse_uint_fmt 2 (s / 60 mod 60)) as (ln & En & Ln & Pn); [lia|simpl; lia|].
  destruct (parse_uint_fmt 2 (s mod 60)) as (ls & Es & Ls & Ps); [lia|simpl; lia|].
  rewrite !bytes_of_string_app, Ey, Em, Ed, Eh, En, Es.
  destruct ly as [|y1 [|y2 [|y3 [|y4 [|]]]]]; [done..| |done].
  destruct lm as [|m1 [|m2 [|]]]; [done..| |done]. destruct ld as [|d1 [|d2 [|]]]; [done..| |done].
  destruct lh as [|h1 [|h2 [|]]]; [done..| |done]. destruct ln as [|n1 [|n2 [|]]]; [done..| |done].
  destruct ls as [|s1 [|s2 [|]]]; [done..| |done].
  cbn [bytes_of_string list_ascii_of_string fmap list_fmap app].
  unfold parseRFC3339. rewrite Py, Pm by lia. cbn [mbind option_bind].
  rewrite Pd, Ph, Pn, Ps by lia. cbn [mbind option_bind].
  destruct (fmt_zone_head off) as (x & z & Hz & Hx & Hx').
  rewrite (parse_frac_fmt _ _ x z), parse_zone_fmt by done. simpl. f_equal.
  rewrite Hday, Hsum. lia.
Qed.
