(* ===== verification/Json.v ===== *)
(** * JSON as [encoding/json] writes and reads it

    The encoder for strings, integers, times and flat structs, the scanner (the
    grammar of RFC 8259, with Go's limit on nesting) and the decoder of objects
    into structs.  The Redis adapters store their records as such documents.
    Like Go's scanner, [parse_json] keeps the text of strings and numbers as it
    stands; [unquote] decodes a string.  [time.Time] reads the text as it
    stands, so an escape in it is an error. *)

From Stdlib Require Import Ascii String.
From S2P Require Import Prelude GoStd Encoding TimeText.
Open Scope Z_scope.

(** ** Encoding *)

(** A [\uXXXX] escape. *)
Definition u4 (r : Z) : list Z :=
  [92; 117; hex_char (r / 4096 mod 16); hex_char (r / 256 mod 16); hex_char (r / 16 mod 16);
   hex_char (r mod 16)].

(** A character of ASCII: quotes, control characters and the characters HTML
    could take amiss are escaped. *)
Definition esc_ascii (b : Z) : list Z :=
  if (b =? 34) || (b =? 92) then [92; b]
  else if b =? 8 then [92; 98] else if b =? 12 then [92; 102] else if b =? 10 then [92; 110]
  else if b =? 13 then [92; 114] else if b =? 9 then [92; 116]
  else if (b <? 32) || (b =? 60) || (b =? 62) || (b =? 38) then u4 b else [b].

(** A byte that is not part of a character. *)
Definition bad_chunk (c : Z * list Z) : bool :=
  (c.1 =? rune_error) && (length c.2 =? 1)%nat.

Definition esc_chunk (c : Z * list Z) : list Z :=
  if c.1 <? 0x80 then esc_ascii c.1
  else if bad_chunk c then u4 rune_error
  else if (c.1 =? 0x2028) || (c.1 =? 0x2029) then u4 c.1
  else c.2.

(** [appendString]. *)
Definition quote_body (l : list Z) : list Z := mjoin (esc_chunk <$> rune_chunks l).
Definition enc_string (s : string) : list Z := 34 :: quote_body (bytes_of_string s) ++ [34].
Definition enc_int (n : Z) : list Z := bytes_of_string (fmt_d n).

(** The zone of the times of the process ([time.Local]). *)
Class Zone := { zone_offset : time → Z }.

(** [Time.MarshalJSON]; a year beyond 9999 is an error. *)
Definition enc_time `{Zone} (t : time) : option (list Z) :=
  if rfc3339_range (zone_offset t) t
  then Some (34 :: bytes_of_string (RFC3339Nano (zone_offset t) t) ++ [34]) else None.

(** The fields of a struct, or the entries of a map, in order. *)
Fixpoint members_text (fs : list (string * list Z)) : list Z :=
  match fs with
  | [] => []
  | [(k, v)] => enc_string k ++ 58 :: v
  | (k, v) :: fs' => enc_string k ++ 58 :: v ++ 44 :: members_text fs'
  end.
Definition object_text (fs : list (string * list Z)) : list Z := 123 :: members_text fs ++ [125].

(** ** Scanning *)

Inductive jval :=
| JNull
| JBool (b : bool)
| JNum (lit : list Z)
| JStr (raw : list Z)
| JArr (l : list jval)
| JObj (l : list (list Z * jval)).

Definition is_ws (b : Z) : bool := (b =? 32) || (b =? 9) || (b =? 10) || (b =? 13).
Definition skip_ws (l : list Z) : list Z := drop_while is_ws l.

Definition hex_value (b : Z) : option Z :=
  if in_range 48 57 b then Some (b - 48)
  else if in_range 97 102 b then Some (b - 87)
  else if in_range 65 70 b then Some (b - 55) else None.
Definition is_hex_byte (b : Z) : bool := match hex_value b with Some _ => true | None => false end.

(** The character an escape of two bytes stands for. *)
Definition simple_escape (c : Z) : option Z :=
  if (c =? 34) || (c =? 92) || (c =? 47) then Some c
  else if c =? 98 then Some 8 else if c =? 102 then Some 12 else if c =? 110 then Some 10
  else if c =? 114 then Some 13 else if c =? 116 then Some 9 else None.

Definition prepend (p : list Z) (r : option (list Z * list Z)) : option (list Z * list Z) :=
  match r with Some (a, b) => Some (p ++ a, b) | None => None end.

(** The text of a string up to the closing quote. *)
Fixpoint scan_string (l : list Z) : option (list Z * list Z) :=
  match l with
  | [] => None
  | b :: l1 =>
      if b =? 34 then Some ([], l1)
      else if b =? 92 then
        match l1 with
        | c :: l2 =>
            match simple_escape c with
            | Some _ => prepend [92; c] (scan_string l2)
            | None =>
                if c =? 117 then
                  match l2 with
                  | h1 :: h2 :: h3 :: h4 :: l3 =>
                      if is_hex_byte h1 && is_hex_byte h2 && is_hex_byte h3 && is_hex_byte h4
                      then prepend [92; 117; h1; h2; h3; h4] (scan_string l3) else None
                  | _ => None
                  end
                else None
            end
        | [] => None
        end
      else if b <? 32 then None
      else prepend [b] (scan_string l1)
  end.

(** One digit or more. *)
Definition scan_digits (l : list Z) : option (list Z * list Z) :=
  match span is_digit_byte l with ([], _) => None | r => Some r end.

(** A leading minus sign. *)
Definition split_sign (l : list Z) : bool * list Z :=
  match l with
  | b :: r => if b =? 45 then (true, r) else (false, l)
  | [] => (false, l)
  end.

Definition scan_int (l : list Z) : option (list Z * list Z) :=
  match l with
  | b :: r => if b =? 48 then Some ([b], r) else scan_digits l
  | [] => None
  end.
Definition scan_frac (l : list Z) : option (list Z * list Z) :=
  match l with
  | 46 :: r => prepend [46] (scan_digits r)
  | _ => Some ([], l)
  end.
Definition scan_exp (l : list Z) : option (list Z * list Z) :=
  match l with
  | b :: r =>
      if (b =? 101) || (b =? 69) then
        match r with
        | s :: r' => if (s =? 43) || (s =? 45) then prepend [b; s] (scan_digits r')
                     else prepend [b] (scan_digits r)
        | [] => None
        end
      else Some ([], l)
  | [] => Some ([], l)
  end.
Definition scan_number (l : list Z) : option (list Z * list Z) :=
  let '(neg, l) := split_sign l in
  '(i, l) ← scan_int l; '(f, l) ← scan_frac l; '(e, l) ← scan_exp l;
  Some ((if neg then [45] else []) ++ i ++ f ++ e, l).

Definition maxNestingDepth : Z := 10000.

(** The rest of a text after a given word. *)
Fixpoint cut (p l : list Z) : option (list Z) :=
  match p, l with
  | [], _ => Some l
  | a :: p', b :: l' => if a =? b then cut p' l' else None
  | _ :: _, [] => None
  end.

(** Twice the length of the text is enough fuel ([parse_value_fuel]). *)
Fixpoint parse_value (n : nat) (depth : Z) (l : list Z) : option (jval * list Z) :=
  match n, skip_ws l with
  | S n, b :: r =>
      if b =? 34 then '(s, r) ← scan_string r; Some (JStr s, r)
      else if b =? 123 then
        if maxNestingDepth <? depth + 1 then None
        else match cut [125] (skip_ws r) with
             | Some r' => Some (JObj [], r')
             | None => '(ms, r') ← parse_members n (depth + 1) r; Some (JObj ms, r')
             end
      else if b =? 91 then
        if maxNestingDepth <? depth + 1 then None
        else match cut [93] (skip_ws r) with
             | Some r' => Some (JArr [], r')
             | None => '(vs, r') ← parse_elems n (depth + 1) r; Some (JArr vs, r')
             end
      else if b =? 110 then r ← cut [117; 108; 108] r; Some (JNull, r)
      else if b =? 116 then r ← cut [114; 117; 101] r; Some (JBool true, r)
      else if b =? 102 then r ← cut [97; 108; 115; 101] r; Some (JBool false, r)
      else '(lit, r) ← scan_number (b :: r); Some (JNum lit, r)
  | _, _ => None
  end
with parse_members (n : nat) (depth : Z) (l : list Z) : option (list (list Z * jval) * list Z) :=
  match n with
  | O => None
  | S n =>
      r ← cut [34] (skip_ws l); '(k, r) ← scan_string r; r ← cut [58] (skip_ws r);
      '(v, r) ← parse_value n depth r;
      match skip_ws r with
      | b :: r =>
          if b =? 44 then '(ms, r) ← parse_members n depth r; Some ((k, v) :: ms, r)
          else if b =? 125 then Some ([(k, v)], r) else None
      | [] => None
      end
  end
with parse_elems (n : nat) (depth : Z) (l : list Z) : option (list jval * list Z) :=
  match n with
  | O => None
  | S n =>
      '(v, r) ← parse_value n depth l;
      match skip_ws r with
      | b :: r =>
          if b =? 44 then '(vs, r) ← parse_elems n depth r; Some (v :: vs, r)
          else if b =? 93 then Some ([v], r) else None
      | [] => None
      end
  end.

Definition parse_json (l : list Z) : option jval :=
  '(v, r) ← parse_value (S (2 * length l)) 0 l;
  match skip_ws r with [] => Some v | _ => None end.

(** ** Decoding *)

Definition encode_rune (r : Z) : list Z :=
  if r <? 0x80 then [r]
  else if r <? 0x800 then [0xC0 + r / 64; 0x80 + r mod 64]
  else if r <? 0x10000 then [0xE0 + r / 4096; 0x80 + r / 64 mod 64; 0x80 + r mod 64]
  else [0xF0 + r / 262144; 0x80 + r / 4096 mod 64; 0x80 + r / 64 mod 64; 0x80 + r mod 64].

Definition hex4 (h1 h2 h3 h4 : Z) : option Z :=
  a ← hex_value h1; b ← hex_value h2; c ← hex_value h3; d ← hex_value h4;
  Some (((a * 16 + b) * 16 + c) * 16 + d).

Definition is_surrogate (r : Z) : bool := in_range 0xD800 0xDFFF r.
(** [utf16.DecodeRune]: [None] if the two are not a pair. *)
Definition decode_pair (r1 r2 : Z) : option Z :=
  if in_range 0xD800 0xDBFF r1 && in_range 0xDC00 0xDFFF r2
  then Some ((r1 - 0xD800) * 1024 + (r2 - 0xDC00) + 0x10000) else None.

Definition emit (p : list Z) (r : option (list Z)) : option (list Z) := (λ a, p ++ a) <$> r.

(** [unquoteBytes] on the text between the quotes. *)
Fixpoint unquote (l : list Z) : option (list Z) :=
  match l with
  | [] => Some []
  | b :: l1 =>
      if b =? 92 then
        match l1 with
        | c :: l2 =>
            match simple_escape c with
            | Some x => emit [x] (unquote l2)
            | None =>
                match l2 with
                | h1 :: h2 :: h3 :: h4 :: l3 =>
                    if c =? 117 then
                      match hex4 h1 h2 h3 h4 with
                      | Some r =>
                          if is_surrogate r then
                            match l3 with
                            | 92 :: 117 :: g1 :: g2 :: g3 :: g4 :: l4 =>
                                match hex4 g1 g2 g3 g4 ≫= decode_pair r with
                                | Some r' => emit (encode_rune r') (unquote l4)
                                | None => emit (encode_rune rune_error) (unquote l3)
                                end
                            | _ => emit (encode_rune rune_error) (unquote l3)
                            end
                          else emit (encode_rune r) (unquote l3)
                      | None => None
                      end
                    else None
                | _ => None
                end
            end
        | [] => None
        end
      else if (b =? 34) || (b <? 32) then None
      else
        let '(r, w) := decode_rune b l1 in
        emit (encode_rune r)
          match w, l1 with
          | 2%nat, _ :: l2 => unquote l2
          | 3%nat, _ :: _ :: l2 => unquote l2
          | 4%nat, _ :: _ :: _ :: l2 => unquote l2
          | _, _ => unquote l1
          end
  end.

(** [strconv.ParseInt(s, 10, 64)] on a number literal. *)
Definition ParseInt64 (lit : list Z) : option Z :=
  let '(neg, ds) := split_sign lit in
  match ds with
  | [] => None
  | _ =>
      if forallb is_digit_byte ds then
        let v := digits_value ((λ b, b - 48) <$> ds) in
        let v := if neg then - v else v in
        if (min_int64 <=? v) && (v <=? max_int64) then Some v else None
      else None
  end.

(** A value into a field that holds [cur]; [null] leaves it alone. *)
Definition dec_string (cur : string) (v : jval) : option string :=
  match v with
  | JNull => Some cur
  | JStr raw => string_of_bytes <$> unquote raw
  | _ => None
  end.
Definition dec_int (cur : Z) (v : jval) : option Z :=
  match v with
  | JNull => Some cur
  | JNum lit => ParseInt64 lit
  | _ => None
  end.
Definition dec_time (cur : time) (v : jval) : option time :=
  match v with
  | JNull => Some cur
  | JStr raw => parseRFC3339 raw
  | _ => None
  end.

(** [foldRune]: the long s and the Kelvin sign are the only characters beyond
    ASCII that fold to a letter of it. *)
Definition fold_rune (r : Z) : Z :=
  if in_range 97 122 r then r - 32
  else if r =? 0x17F then 83 else if r =? 0x212A then 75 else r.
Definition fold_name (s : string) : list Z := fold_rune <$> runes s.

(** The field for a key: the one of that name, or the first that differs in
    case only. *)
Definition find_field (names : list string) (key : string) : option string :=
  if bool_decide (key ∈ names) then Some key
  else head (filter (λ name, fold_name name = fold_name key) names).

Section structs.
Context {T : Type} (names : list string) (set_field : string → jval → T → option T).

Fixpoint decode_members (ms : list (list Z * jval)) (x : T) : option T :=
  match ms with
  | [] => Some x
  | (k, v) :: ms' =>
      key ← unquote k;
      match find_field names (string_of_bytes key) with
      | Some name => x' ← set_field name v x; decode_members ms' x'
      | None => decode_members ms' x
      end
  end.

(** [json.Unmarshal] into a struct that holds [x]. *)
Definition decode_struct (x : T) (v : jval) : option T :=
  match v with
  | JNull => Some x
  | JObj ms => decode_members ms x
  | _ => None
  end.
End structs.
