(* ===== verification/JsonProofs.v ===== *)
(** * JSON documents are read back as they were written *)

From Stdlib Require Import Ascii String.
From S2P Require Import Prelude GoStd Encoding TimeText Json.
Open Scope Z_scope.

(** ** UTF-8 *)

Lemma bits6_add hi b : bits6 hi b = hi * 64 + b mod 64.
Proof.
  unfold bits6. change 0x3F with (Z.ones 6). rewrite Z.land_ones by lia.
  change (2 ^ 6) with 64. rewrite Z.shiftl_mul_pow2 by lia. change (2 ^ 6) with 64.
  assert (Z.land (hi * 64) (b mod 64) = 0) as Hdisj.
  { apply Z.bits_inj'. intros i Hi. rewrite Z.land_spec, Z.bits_0.
    destruct (decide (i < 6)) as [Hlt|Hge].
    - change 64 with (2 ^ 6) at 1. by rewrite Z.mul_pow2_bits_low by lia.
    - change 64 with (2 ^ 6) at 2. rewrite Z.mod_pow2_bits_high by lia. apply andb_false_r. }
  rewrite <-Z.lxor_lor by done. symmetry. by apply Z.add_nocarry_lxor.
Qed.

Lemma land_low b k : 0 ≤ k → Z.land b (Z.ones k) = b mod 2 ^ k.
Proof. intros Hk. by rewrite Z.land_ones. Qed.

Ltac range_hyps :=
  repeat match goal with
  | H : _ && _ = true |- _ => apply andb_true_iff in H as [? ?]
  | H : in_range _ _ _ = true |- _ => unfold in_range in H
  | H : cont_byte _ = true |- _ => unfold cont_byte, in_range in H
  | H : (_ <=? _) = true |- _ => apply Z.leb_le in H
  | H : (_ =? _) = true |- _ => apply Z.eqb_eq in H
  | H : (_ <? _) = true |- _ => apply Z.ltb_lt in H
  | H : (_ <? _) = false |- _ => apply Z.ltb_ge in H
  end.

(** What a decoded character looks like: one byte, an invalid byte, or a
    sequence of two to four bytes that depends on nothing that follows. *)
Inductive decoded (b0 : Z) : list Z → Z → nat → Prop :=
| dec_ascii l : b0 < 0x80 → decoded b0 l b0 1
| dec_bad l : 0x80 ≤ b0 → decoded b0 l rune_error 1
| dec_seq c l r :
    0x80 ≤ b0 → (1 ≤ length c ≤ 3)%nat → Forall (λ b, 0x80 ≤ b < 0xC0) c →
    (∀ rest, decode_rune b0 (c ++ rest) = (r, S (length c))) →
    encode_rune r = b0 :: c → 0x80 ≤ r → is_surrogate r = false →
    decoded b0 (c ++ l) r (S (length c)).

Lemma utf8_first_range b0 w lo hi :
  utf8_first b0 = Some (w, lo, hi) →
  0x80 ≤ lo ∧ hi < 0xC0 ∧
  (w = 2%nat ∧ 0xC2 ≤ b0 ≤ 0xDF ∨
   w = 3%nat ∧ 0xE0 ≤ b0 ≤ 0xEF ∧ (b0 = 0xE0 → 0xA0 ≤ lo) ∧ (b0 = 0xED → hi ≤ 0x9F) ∨
   w = 4%nat ∧ 0xF0 ≤ b0 ≤ 0xF4 ∧ (b0 = 0xF0 → 0x90 ≤ lo) ∧ (b0 = 0xF4 → hi ≤ 0x8F)).
Proof.
  unfold utf8_first. intros Hf. repeat case_match; simplify_eq; range_hyps; subst; try lia.
Qed.

Lemma cont_mod b : 0x80 ≤ b < 0xC0 → b mod 64 = b - 0x80.
Proof. intros Hb. Z.to_euclidean_division_equations; lia. Qed.

(** The bits of a sequence as one number. *)
Lemma seq2 b0 b1 :
  0xC2 ≤ b0 ≤ 0xDF → 0x80 ≤ b1 < 0xC0 →
  bits6 (Z.land b0 0x1F) b1 = (b0 - 0xC0) * 64 + (b1 - 0x80).
Proof.
  intros H0 H1. rewrite bits6_add, cont_mod by done. change 0x1F with (Z.ones 5).
  rewrite Z.land_ones by lia. Z.to_euclidean_division_equations; lia.
Qed.
Lemma seq3 b0 b1 b2 :
  0xE0 ≤ b0 ≤ 0xEF → 0x80 ≤ b1 < 0xC0 → 0x80 ≤ b2 < 0xC0 →
  bits6 (bits6 (Z.land b0 0x0F) b1) b2 = ((b0 - 0xE0) * 64 + (b1 - 0x80)) * 64 + (b2 - 0x80).
Proof.
  intros H0 H1 H2. rewrite !bits6_add, !cont_mod by done. change 0x0F with (Z.ones 4).
  rewrite Z.land_ones by lia. Z.to_euclidean_division_equations; lia.
Qed.
Lemma seq4 b0 b1 b2 b3 :
  0xF0 ≤ b0 ≤ 0xF4 → 0x80 ≤ b1 < 0xC0 → 0x80 ≤ b2 < 0xC0 → 0x80 ≤ b3 < 0xC0 →
  bits6 (bits6 (bits6 (Z.land b0 0x07) b1) b2) b3 =
  (((b0 - 0xF0) * 64 + (b1 - 0x80)) * 64 + (b2 - 0x80)) * 64 + (b3 - 0x80).
Proof.
  intros H0 H1 H2 H3. rewrite !bits6_add, !cont_mod by done. change 0x07 with (Z.ones 3).
  rewrite Z.land_ones by lia. Z.to_euclidean_division_equations; lia.
Qed.

Lemma enc2 x y : 2 ≤ x < 32 → 0 ≤ y < 64 → encode_rune (x * 64 + y) = [0xC0 + x; 0x80 + y].
Proof.
  intros Hx Hy. unfold encode_rune.
  rewrite (proj2 (Z.ltb_ge _ 0x80)), (proj2 (Z.ltb_lt _ 0x800)) by lia.
  repeat f_equal; Z.to_euclidean_division_equations; lia.
Qed.
Lemma enc3 x y z :
  0 ≤ x < 16 → 0 ≤ y < 64 → 0 ≤ z < 64 → (x = 0 → 32 ≤ y) →
  encode_rune ((x * 64 + y) * 64 + z) = [0xE0 + x; 0x80 + y; 0x80 + z].
Proof.
  intros Hx Hy Hz Hxy. unfold encode_rune.
  rewrite (proj2 (Z.ltb_ge _ 0x80)), (proj2 (Z.ltb_ge _ 0x800)), (proj2 (Z.ltb_lt _ 0x10000)) by lia.
  repeat f_equal; Z.to_euclidean_division_equations; lia.
Qed.
Lemma enc4 x y z w :
  0 ≤ x < 8 → 0 ≤ y < 64 → 0 ≤ z < 64 → 0 ≤ w < 64 → (x = 0 → 16 ≤ y) →
  encode_rune (((x * 64 + y) * 64 + z) * 64 + w) = [0xF0 + x; 0x80 + y; 0x80 + z; 0x80 + w].
Proof.
  intros Hx Hy Hz Hw Hxy. unfold encode_rune.
  rewrite (proj2 (Z.ltb_ge _ 0x80)), (proj2 (Z.ltb_ge _ 0x800)), (proj2 (Z.ltb_ge _ 0x10000)) by lia.
  repeat f_equal; Z.to_euclidean_division_equations; lia.
Qed.

Lemma not_surrogate r : r < 0xD800 ∨ 0xDFFF < r → is_surrogate r = false.
Proof. unfold is_surrogate, in_range. intros Hr. apply andb_false_iff. rewrite !Z.leb_gt. lia. Qed.

Lemma decode_rune_decoded b0 l r w : decode_rune b0 l = (r, w) → decoded b0 l r w.
Proof.
  unfold decode_rune. destruct (Z.ltb_spec b0 0x80) as [Hb|Hb]; [intros [= <- <-]; by constructor|].
  assert (decoded b0 l rune_error 1) as Hbad by by constructor.
  destruct (utf8_first b0) as [[[w' lo] hi]|] eqn:Hf; [|by intros [= <- <-]].
  pose proof (utf8_first_range _ _ _ _ Hf) as (Hlo & Hhi & [[-> H0]|[(-> & H0 & Hl & Hh)|(-> & H0 & Hl & Hh)]]).
  - destruct l as [|b1 l]; [by intros [= <- <-]|]. destruct (in_range lo hi b1) eqn:H1;
      [|by intros [= <- <-]]. intros [= <- <-]. range_hyps.
    apply (dec_seq _ [b1] l); [lia|simpl; lia|by repeat constructor; lia| | | |].
    + intros rest. simpl. unfold decode_rune. rewrite (proj2 (Z.ltb_ge b0 0x80)), Hf by lia.
      unfold in_range. by rewrite !(proj2 (Z.leb_le _ _)) by lia.
    + rewrite seq2, enc2 by lia. repeat f_equal; lia.
    + rewrite seq2; lia.
    + apply not_surrogate. rewrite seq2; lia.
  - destruct l as [|b1 [|b2 l]]; [by intros [= <- <-]..|].
    destruct (in_range lo hi b1 && cont_byte b2) eqn:H1; [|by intros [= <- <-]].
    intros [= <- <-]. range_hyps.
    apply (dec_seq _ [b1; b2] l); [lia|simpl; lia|by repeat constructor; lia| | | |].
    + intros rest. simpl. unfold decode_rune. rewrite (proj2 (Z.ltb_ge b0 0x80)), Hf by lia.
      unfold cont_byte, in_range. by rewrite !(proj2 (Z.leb_le _ _)) by lia.
    + rewrite seq3, enc3 by lia. repeat f_equal; lia.
    + rewrite seq3; lia.
    + apply not_surrogate. rewrite seq3; lia.
  - destruct l as [|b1 [|b2 [|b3 l]]]; [by intros [= <- <-]..|].
    destruct (in_range lo hi b1 && cont_byte b2 && cont_byte b3) eqn:H1; [|by intros [= <- <-]].
    intros [= <- <-]. range_hyps.
    apply (dec_seq _ [b1; b2; b3] l); [lia|simpl; lia|by repeat constructor; lia| | | |].
    + intros rest. simpl. unfold decode_rune. rewrite (proj2 (Z.ltb_ge b0 0x80)), Hf by lia.
      unfold cont_byte, in_range. by rewrite !(proj2 (Z.leb_le _ _)) by lia.
    + rewrite seq4, enc4 by lia. repeat f_equal; lia.
    + rewrite seq4; lia.
    + apply not_surrogate. rewrite seq4; lia.
Qed.

(** ** Chunks *)

Lemma rune_chunks_fuel_enough n m l :
  (length l ≤ n)%nat → (length l ≤ m)%nat → rune_chunks_fuel n l = rune_chunks_fuel m l.
Proof.
  revert m l; induction n as [|n IH]; intros m l Hn Hm.
  { destruct l; [|simpl in Hn; lia]. by destruct m. }
  destruct l as [|b0 l]; [by destruct m|]. destruct m as [|m]; [simpl in Hm; lia|]. simpl.
  destruct (decode_rune b0 l) as [r w] eqn:Hd. f_equal. apply decode_rune_decoded in Hd.
  assert (1 ≤ w)%nat by (destruct Hd; lia).
  apply IH; rewrite length_drop; simpl in *; lia.
Qed.

Lemma rune_chunks_cons b0 l r w :
  decode_rune b0 l = (r, w) →
  rune_chunks (b0 :: l) = (r, take w (b0 :: l)) :: rune_chunks (drop w (b0 :: l)).
Proof.
  intros Hd. unfold rune_chunks at 1. simpl. rewrite Hd. f_equal.
  apply decode_rune_decoded in Hd. assert (1 ≤ w)%nat by (destruct Hd; lia).
  apply rune_chunks_fuel_enough; [|done]. rewrite length_drop. simpl. lia.
Qed.

(** Induction along the characters of a text. *)
Lemma chunks_ind (P : list Z → Prop) :
  P [] →
  (∀ b0 l r w, decode_rune b0 l = (r, w) → P (drop w (b0 :: l)) → P (b0 :: l)) →
  ∀ l, P l.
Proof.
  intros Hnil Hstep l. remember (length l) as n eqn:Hn. revert l Hn.
  induction n as [n IH] using lt_wf_ind. intros [|b0 l] ->; [done|].
  destruct (decode_rune b0 l) as [r w] eqn:Hd. eapply Hstep; [done|].
  apply decode_rune_decoded in Hd. assert (1 ≤ w)%nat by (destruct Hd; lia).
  eapply IH; [|done]. rewrite length_drop. simpl. lia.
Qed.

(** What is left of a chunk after a round trip: invalid bytes become U+FFFD. *)
Definition valid_of_chunk (c : Z * list Z) : list Z :=
  if bad_chunk c then encode_rune rune_error else c.2.
Definition to_valid (l : list Z) : list Z := mjoin (valid_of_chunk <$> rune_chunks l).

(** [utf8.Valid]. *)
Definition valid_bytes (l : list Z) : bool := forallb (λ c, negb (bad_chunk c)) (rune_chunks l).
Definition valid_utf8 (s : string) : Prop := valid_bytes (bytes_of_string s) = true.

Lemma chunks_join l : mjoin (rune_chunks l).*2 = l.
Proof.
  induction l as [|b0 l r w Hd IH] using chunks_ind; [done|].
  rewrite (rune_chunks_cons _ _ _ _ Hd). csimpl. rewrite IH. apply take_drop.
Qed.

Lemma to_valid_id l : valid_bytes l = true → to_valid l = l.
Proof.
  unfold valid_bytes, to_valid. intros Hv. rewrite <-(chunks_join l) at 2. f_equal.
  induction (rune_chunks l) as [|c cs IH]; [done|]. simpl in Hv.
  apply andb_true_iff in Hv as [Hc Hcs]. csimpl. rewrite IH by done. f_equal.
  unfold valid_of_chunk. by apply negb_true_iff in Hc as ->.
Qed.

(** ** Escapes *)

Lemma hex_value_char d : 0 ≤ d < 16 → hex_value (hex_char d) = Some d.
Proof.
  unfold hex_value, hex_char, in_range. intros Hd.
  destruct (Z.ltb_spec d 10).
  - rewrite !(proj2 (Z.leb_le _ _)) by lia. simpl. f_equal. lia.
  - rewrite (proj2 (Z.leb_gt (87 + d) 57)) by lia. rewrite andb_false_r.
    rewrite !(proj2 (Z.leb_le _ _)) by lia. simpl. f_equal. lia.
Qed.

Lemma hex4_u4 r :
  0 ≤ r < 65536 →
  hex4 (hex_char (r / 4096 mod 16)) (hex_char (r / 256 mod 16)) (hex_char (r / 16 mod 16))
    (hex_char (r mod 16)) = Some r.
Proof.
  intros Hr. unfold hex4. rewrite !hex_value_char by (apply Z.mod_pos_bound; lia). simpl. f_equal.
  Z.to_euclidean_division_equations; lia.
Qed.

Lemma scan_u4 r rest : scan_string (u4 r ++ rest) = prepend (u4 r) (scan_string rest).
Proof.
  unfold u4. cbn [app scan_string].
  change (92 =? 34) with false. change (92 =? 92) with true. cbv iota.
  change (simple_escape 117) with (@None Z). change (117 =? 117) with true. cbv iota.
  unfold is_hex_byte. rewrite !hex_value_char by (apply Z.mod_pos_bound; lia). done.
Qed.

Lemma unquote_u4 r rest :
  0 ≤ r < 65536 → is_surrogate r = false →
  unquote (u4 r ++ rest) = emit (encode_rune r) (unquote rest).
Proof.
  intros Hr Hs. unfold u4. cbn [app unquote].
  change (92 =? 92) with true. cbv iota.
  change (simple_escape 117) with (@None Z). change (117 =? 117) with true. cbv iota.
  by rewrite hex4_u4, Hs by done.
Qed.

(** A byte that stands for itself. *)
Lemma scan_plain b rest : b ≠ 34 → b ≠ 92 → 32 ≤ b →
  scan_string (b :: rest) = prepend [b] (scan_string rest).
Proof.
  intros H1 H2 H3. simpl. rewrite (proj2 (Z.eqb_neq b 34)), (proj2 (Z.eqb_neq b 92)),
    (proj2 (Z.ltb_ge b 32)) by done. done.
Qed.
Lemma unquote_plain b rest : b ≠ 34 → b ≠ 92 → 32 ≤ b < 0x80 →
  unquote (b :: rest) = emit [b] (unquote rest).
Proof.
  intros H1 H2 H3. simpl. rewrite (proj2 (Z.eqb_neq b 34)), (proj2 (Z.eqb_neq b 92)),
    (proj2 (Z.ltb_ge b 32)) by lia. simpl. unfold decode_rune.
  rewrite (proj2 (Z.ltb_lt b 0x80)) by lia. unfold encode_rune.
  by rewrite (proj2 (Z.ltb_lt b 0x80)) by lia.
Qed.

Lemma esc_ascii_cases (P : Z → list Z → Prop) :
  (∀ b c, simple_escape c = Some b → P b [92; c]) →
  (∀ b, 0 ≤ b < 0x80 → P b (u4 b)) →
  (∀ b, b ≠ 34 → b ≠ 92 → 32 ≤ b < 0x80 → P b [b]) →
  ∀ b, 0 ≤ b < 0x80 → P b (esc_ascii b).
Proof.
  intros Hs Hu Hp b Hb. unfold esc_ascii.
  repeat match goal with |- P _ (if ?c then _ else _) => destruct c eqn:? end;
    rewrite ?orb_true_iff, ?orb_false_iff in *; destruct_and?;
    repeat match goal with
    | H : (_ =? _) = true |- _ => apply Z.eqb_eq in H; subst; by apply Hs
    | H : (_ =? _) = true ∨ _ |- _ => destruct H
    | H : (_ =? _) = false |- _ => apply Z.eqb_neq in H
    | H : (_ <? _) = false |- _ => apply Z.ltb_ge in H
    end; auto; apply Hp; lia.
Qed.

Lemma scan_simple c rest b :
  simple_escape c = Some b → scan_string (92 :: c :: rest) = prepend [92; c] (scan_string rest).
Proof. intros Hc. cbn [scan_string]. change (92 =? 34) with false. change (92 =? 92) with true. by rewrite Hc. Qed.
Lemma unquote_simple c rest b :
  simple_escape c = Some b → unquote (92 :: c :: rest) = emit [b] (unquote rest).
Proof. intros Hc. cbn [unquote]. change (92 =? 92) with true. by rewrite Hc. Qed.

(** ** One character *)

Lemma prepend_app p q r : prepend p (prepend q r) = prepend (p ++ q) r.
Proof. destruct r as [[]|]; [|done]. simpl. by rewrite app_assoc. Qed.
Lemma emit_app p q r : emit p (emit q r) = emit (p ++ q) r.
Proof. destruct r; [|done]. simpl. by rewrite app_assoc. Qed.

Lemma scan_high c rest :
  Forall (λ b, 0x80 ≤ b) c → scan_string (c ++ rest) = prepend c (scan_string rest).
Proof.
  induction 1 as [|b c Hb Hc IH]; simpl app; [by destruct (scan_string rest) as [[]|]|].
  rewrite scan_plain, IH, prepend_app by lia. done.
Qed.

Lemma piece_spec b0 l r w :
  0 ≤ b0 → decode_rune b0 l = (r, w) →
  let c := (r, take w (b0 :: l)) in
  (∀ rest, scan_string (esc_chunk c ++ rest) = prepend (esc_chunk c) (scan_string rest)) ∧
  (∀ rest, unquote (esc_chunk c ++ rest) = emit (valid_of_chunk c) (unquote rest)).
Proof.
  intros Hb Hd c. pose proof (decode_rune_decoded _ _ _ _ Hd) as Hdec. unfold c.
  destruct Hdec as [l Hlt|l Hge|cs l r Hge Hlen Hcs Hloc Henc Hr Hsur].
  - unfold esc_chunk, valid_of_chunk, bad_chunk. simpl fst. simpl snd.
    rewrite (proj2 (Z.ltb_lt b0 0x80)), (proj2 (Z.eqb_neq b0 rune_error)) by (unfold rune_error; lia).
    simpl andb. cbv iota. apply (esc_ascii_cases (λ b t,
      (∀ rest, scan_string (t ++ rest) = prepend t (scan_string rest)) ∧
      (∀ rest, unquote (t ++ rest) = emit [b] (unquote rest)))); [| | |lia].
    + intros b e He. split; intros rest; [by eapply scan_simple|by eapply unquote_simple].
    + intros b Hb'. split; intros rest; [apply scan_u4|]. rewrite unquote_u4 by
        (lia || (apply not_surrogate; lia)). unfold encode_rune.
      by rewrite (proj2 (Z.ltb_lt b 0x80)) by lia.
    + intros b ???. split; intros rest; [by apply scan_plain; [..|lia]|by apply unquote_plain].
  - change (esc_chunk (rune_error, take 1 (b0 :: l))) with (u4 rune_error).
    change (valid_of_chunk (rune_error, take 1 (b0 :: l))) with (encode_rune rune_error).
    split; intros rest; [apply scan_u4|by apply unquote_u4].
  - assert (take (S (length cs)) (b0 :: cs ++ l) = b0 :: cs) as -> by (simpl; by rewrite take_app_length).
    assert (bad_chunk (r, b0 :: cs) = false) as Hnb.
    { unfold bad_chunk. simpl. destruct cs; [simpl in Hlen; lia|]. apply andb_false_r. }
    unfold esc_chunk, valid_of_chunk. rewrite Hnb. simpl fst. simpl snd.
    rewrite (proj2 (Z.ltb_ge r 0x80)) by done.
    destruct ((r =? 0x2028) || (r =? 0x2029)) eqn:Hls.
    + assert (0 ≤ r < 65536) by (apply orb_true_iff in Hls as [Hr'|Hr']; apply Z.eqb_eq in Hr'; lia).
      split; intros rest; [apply scan_u4|]. rewrite unquote_u4, Henc by done. done.
    + split; intros rest.
      * apply (scan_high (b0 :: cs)). constructor; [lia|].
        eapply Forall_impl; [exact Hcs|]. simpl. lia.
      * simpl app. cbn [unquote].
        rewrite (proj2 (Z.eqb_neq b0 92)), (proj2 (Z.eqb_neq b0 34)), (proj2 (Z.ltb_ge b0 32)) by lia.
        simpl orb. cbv iota. rewrite Hloc, Henc.
        by destruct cs as [|c1 [|c2 [|c3 [|]]]]; simpl in Hlen; try lia.
Qed.

(** ** Strings *)

Lemma quote_body_cons b0 l r w :
  decode_rune b0 l = (r, w) →
  quote_body (b0 :: l) = esc_chunk (r, take w (b0 :: l)) ++ quote_body (drop w (b0 :: l)).
Proof. intros Hd. unfold quote_body. by rewrite (rune_chunks_cons _ _ _ _ Hd). Qed.

Lemma scan_quote l rest :
  Forall byte_ok l → scan_string (quote_body l ++ 34 :: rest) = Some (quote_body l, rest).
Proof.
  induction l as [|b0 l r w Hd IH] using chunks_ind; intros Hl; [done|].
  rewrite (quote_body_cons _ _ _ _ Hd), <-app_assoc.
  rewrite (proj1 (piece_spec b0 l r w (proj1 (Forall_inv Hl)) Hd)), IH; [done|].
  by apply Forall_drop.
Qed.

(** A string is read back as it was, but for bytes that are not UTF-8. *)
Lemma unquote_quote l : Forall byte_ok l → unquote (quote_body l) = Some (to_valid l).
Proof.
  induction l as [|b0 l r w Hd IH] using chunks_ind; intros Hl; [done|].
  rewrite (quote_body_cons _ _ _ _ Hd).
  rewrite (proj2 (piece_spec b0 l r w (proj1 (Forall_inv Hl)) Hd)), IH by by apply Forall_drop.
  unfold to_valid. by rewrite (rune_chunks_cons _ _ _ _ Hd).
Qed.

Lemma unquote_string s :
  valid_utf8 s → string_of_bytes <$> unquote (quote_body (bytes_of_string s)) = Some s.
Proof.
  intros Hv. rewrite unquote_quote by apply bytes_of_string_ok.
  simpl. by rewrite to_valid_id, string_of_bytes_of_string.
Qed.

(** ** Values

    [prints t v]: wherever a value may end, the text [t] is read as [v]. *)
Definition prints (t : list Z) (v : jval) : Prop :=
  ∀ n depth x rest, (0 < n)%nat → x = 44 ∨ x = 125 →
  parse_value n depth (t ++ x :: rest) = Some (v, x :: rest).

Lemma prints_string s : prints (enc_string s) (JStr (quote_body (bytes_of_string s))).
Proof.
  intros n depth x rest Hn _. destruct n as [|n]; [lia|]. unfold enc_string.
  rewrite <-app_comm_cons, <-app_assoc. cbn [parse_value].
  change (skip_ws (34 :: ?l)) with (34 :: l). change (34 =? 34) with true. cbv iota.
  change ([34] ++ ?l) with (34 :: l). by rewrite scan_quote by apply bytes_of_string_ok.
Qed.

Lemma scan_plain_text l rest :
  Forall (λ b, 43 ≤ b ≤ 90) l → scan_string (l ++ 34 :: rest) = Some (l, rest).
Proof.
  induction 1 as [|b l Hb Hl IH]; [done|]. rewrite <-app_comm_cons, scan_plain, IH by lia. done.
Qed.

(** *** Integers *)

Lemma digits_value_lt l : Forall (λ d, 0 ≤ d < 10) l → digits_value l < 10 ^ Z.of_nat (length l).
Proof.
  induction l as [|x l IH] using rev_ind; [done|]. intros [Hl Hx%Forall_inv]%Forall_app.
  specialize (IH Hl). rewrite digits_value_app, length_app. change (length [x]) with 1%nat.
  rewrite Nat2Z.inj_add, Z.pow_add_r by lia. change (digits_value [x]) with x.
  change (10 ^ Z.of_nat 1) with 10. lia.
Qed.

Lemma digits_of_head n d ds : 0 ≤ n → digits_of n = d :: ds → d = 0 → ds = [].
Proof.
  intros Hn Heq ->. destruct (digits_of_spec n Hn) as (Hv & Hd & Hl & _). rewrite Heq in *.
  destruct ds as [|d ds]; [done|]. exfalso.
  pose proof (digits_value_lt _ (Forall_inv_tail Hd)) as Hlt.
  change (0 :: d :: ds) with (replicate 1 0 ++ d :: ds) in Hv. rewrite digits_value_zeros in Hv.
  rewrite Hv in Hlt. specialize (Hl (length (d :: ds)) ltac:(simpl; lia) Hlt). simpl in Hl. lia.
Qed.

Lemma scan_digits_text ds x rest :
  Forall (λ d, 0 ≤ d < 10) ds → ds ≠ [] → is_digit_byte x = false →
  scan_digits (((λ d, 48 + d) <$> ds) ++ x :: rest) = Some ((λ d, 48 + d) <$> ds, x :: rest).
Proof.
  intros Hds Hne Hx. unfold scan_digits.
  rewrite span_all; [|by apply digits_are_digits|by intros ?? [= <- <-]]. by destruct ds.
Qed.

Lemma scan_int_text n x rest :
  0 ≤ n → is_digit_byte x = false →
  scan_int (((λ d, 48 + d) <$> digits_of n) ++ x :: rest) =
  Some ((λ d, 48 + d) <$> digits_of n, x :: rest).
Proof.
  intros Hn Hx. destruct (digits_of_spec n Hn) as (_ & Hd & _ & Hne).
  destruct (digits_of n) as [|d ds] eqn:Heq; [done|].
  destruct (decide (d = 0)) as [->|Hd0]; [by rewrite (digits_of_head n 0 ds)|].
  rewrite <-(scan_digits_text (d :: ds) x rest) by done. apply Forall_inv in Hd. unfold scan_int.
  csimpl. by rewrite (proj2 (Z.eqb_neq (48 + d) 48)) by lia.
Qed.

(** The sign and the digits of a number. *)
Lemma enc_int_sign n :
  ∃ ds, split_sign (enc_int n) = (n <? 0, (λ d, 48 + d) <$> ds) ∧ ds = digits_of (Z.abs n) ∧
    enc_int n = (if n <? 0 then [45] else []) ++ ((λ d, 48 + d) <$> ds).
Proof.
  destruct (digits_of_spec (Z.abs n) ltac:(lia)) as (_ & Hd & _ & Hne).
  exists (digits_of (Z.abs n)). unfold enc_int, fmt_d. destruct (Z.ltb_spec n 0) as [Hn|Hn].
  - rewrite Z.abs_neq in * by lia.
    change (bytes_of_string (String "-" ?s)) with (45 :: bytes_of_string s).
    by rewrite bytes_of_string_of_digits by done.
  - rewrite Z.abs_eq in * by lia. rewrite bytes_of_string_of_digits by done.
    split_and!; [|done..]. destruct (digits_of n) as [|d ds]; [done|].
    apply Forall_inv in Hd. unfold split_sign. csimpl.
    by rewrite (proj2 (Z.eqb_neq (48 + d) 45)) by lia.
Qed.

Lemma split_sign_app l x : l ≠ [] → split_sign (l ++ x) = let '(neg, r) := split_sign l in (neg, r ++ x).
Proof. destruct l as [|b l]; [done|]. intros _. simpl. by destruct (b =? 45). Qed.

Lemma scan_number_text n x rest :
  x = 44 ∨ x = 125 → scan_number (enc_int n ++ x :: rest) = Some (enc_int n, x :: rest).
Proof.
  intros Hx. destruct (enc_int_sign n) as (ds & Hsgn & -> & Heq). unfold scan_number.
  rewrite split_sign_app, Hsgn.
  2: { rewrite Heq. destruct (digits_of_spec (Z.abs n) ltac:(lia)) as (_ & _ & _ & Hne).
       destruct (n <? 0); [done|]. by destruct (digits_of (Z.abs n)). }
  rewrite scan_int_text by (lia || by destruct Hx; subst). rewrite Heq at 1.
  destruct Hx; subst; simpl; by rewrite !app_nil_r.
Qed.

(** A number starts with a sign or a digit, so the scanner does not take it for
    another value. *)
Lemma enc_int_head n : ∃ b l, enc_int n = b :: l ∧ (b = 45 ∨ 48 ≤ b ≤ 57).
Proof.
  destruct (enc_int_sign n) as (ds & _ & -> & ->).
  destruct (n <? 0); [eexists _, _; by split; [|left]|].
  destruct (digits_of_spec (Z.abs n) ltac:(lia)) as (_ & Hd & _ & Hne).
  destruct (digits_of (Z.abs n)) as [|d ds]; [done|]. apply Forall_inv in Hd.
  eexists _, _. split; [done|]. right. lia.
Qed.

Lemma prints_int z : prints (enc_int z) (JNum (enc_int z)).
Proof.
  intros n depth x rest Hn Hx. destruct n as [|n]; [lia|]. cbn [parse_value].
  pose proof (scan_number_text z x rest Hx) as Hs.
  destruct (enc_int_head z) as (b & l & Hb & Hr). rewrite Hb in *. rewrite <-app_comm_cons in *.
  assert (skip_ws (b :: l ++ x :: rest) = b :: l ++ x :: rest) as ->.
  { unfold skip_ws. simpl. unfold is_ws. rewrite !(proj2 (Z.eqb_neq b _)) by lia. done. }
  rewrite !(proj2 (Z.eqb_neq b _)) by lia. by rewrite Hs.
Qed.

Lemma ParseInt64_text n : min_int64 ≤ n ≤ max_int64 → ParseInt64 (enc_int n) = Some n.
Proof.
  intros Hn. destruct (enc_int_sign n) as (ds & Hsgn & -> & _). unfold ParseInt64. rewrite Hsgn.
  destruct (digits_of_spec (Z.abs n) ltac:(lia)) as (Hv & Hd & _ & Hne).
  rewrite digits_are_digits, digits_back, Hv by done.
  destruct (digits_of (Z.abs n)) as [|d ds]; [done|]. rewrite fmap_cons. cbv zeta iota.
  assert ((if n <? 0 then - Z.abs n else Z.abs n) = n) as -> by (destruct (Z.ltb_spec n 0); lia).
  rewrite !(proj2 (Z.leb_le _ _)) by lia. done.
Qed.

(** *** Times *)

Lemma fmt_0d_plain w n : 0 ≤ n → Forall (λ b, 43 ≤ b ≤ 90) (bytes_of_string (fmt_0d w n)).
Proof.
  intros Hn. destruct (digits_of_spec n Hn) as (_ & Hd & _). unfold fmt_0d.
  rewrite bytes_of_string_of_digits.
  - apply Forall_fmap, Forall_app. split; [apply Forall_replicate; simpl; lia|].
    eapply Forall_impl; [exact Hd|]. simpl. lia.
  - apply Forall_app. split; [apply Forall_replicate; lia|done].
Qed.

Lemma RFC3339_plain off t :
  rfc3339_range off t = true → Forall (λ b, 43 ≤ b ≤ 90) (bytes_of_string (RFC3339Nano off t)).
Proof.
  unfold rfc3339_range, RFC3339Nano. rewrite !andb_true_iff, !Z.leb_le.
  intros [[Hy0 _] _]. set (l := t + off * minute) in *.
  destruct (civil_of_day _) as [[y m] d] eqn:Hc.
  apply civil_of_day_spec in Hc as (-> & Hm & Hd & _).
  pose proof (Z.mod_pos_bound l day_ns ltac:(done)). set (ns := l mod day_ns) in *.
  assert (0 ≤ ns / second) by (apply Z.div_pos; unfold second; lia).
  destruct (frac_digits (ns mod second)) as (ds & -> & _ & Hds & _); [by apply Z.mod_pos_bound|].
  assert (∀ c, 43 ≤ byte_of_ascii c ≤ 90 → Forall (λ b, 43 ≤ b ≤ 90) (bytes_of_string (String c "")))
    as Hc1 by (intros c Hc; constructor; [done|constructor]).
  rewrite !bytes_of_string_app, !Forall_app.
  split_and!; try (apply fmt_0d_plain; first [lia | apply Z.div_pos; lia | apply Z.mod_pos_bound; lia]);
    try (apply Hc1; vm_compute; done).
  - destruct ds as [|x ds]; [constructor|].
    change (bytes_of_string (String "." ?s)) with (46 :: bytes_of_string s).
    rewrite bytes_of_string_of_digits by done. constructor; [lia|]. apply Forall_fmap.
    eapply Forall_impl; [exact Hds|]. simpl. lia.
  - unfold fmt_zone. destruct (off =? 0); [apply Hc1; vm_compute; done|].
    rewrite !bytes_of_string_app, !Forall_app.
    split_and!; try (apply fmt_0d_plain; first [apply Z.div_pos; lia | apply Z.mod_pos_bound; lia]);
      [destruct (off <? 0)|]; apply Hc1; vm_compute; done.
Qed.

Lemma prints_time `{Zone} t txt :
  enc_time t = Some txt → ∃ raw, prints txt (JStr raw) ∧ parseRFC3339 raw = Some t.
Proof.
  unfold enc_time. destruct (rfc3339_range _ t) eqn:Hr; [|done]. intros [= <-].
  exists (bytes_of_string (RFC3339Nano (zone_offset t) t)).
  split; [|by apply RFC3339_roundtrip].
  intros n depth x rest Hn _. destruct n as [|n]; [lia|].
  rewrite <-app_comm_cons, <-app_assoc. cbn [parse_value].
  change (skip_ws (34 :: ?l)) with (34 :: l). change (34 =? 34) with true. cbv iota.
  change ([34] ++ ?l) with (34 :: l).
  by rewrite scan_plain_text by by apply RFC3339_plain.
Qed.

(** *** Objects *)

Definition prints_member (f : string * list Z) (j : list Z * jval) : Prop :=
  j.1 = quote_body (bytes_of_string f.1) ∧ prints f.2 j.2.

Lemma members_text_cons k v fs :
  members_text ((k, v) :: fs) =
  enc_string k ++ 58 :: v ++ match fs with [] => [] | _ => 44 :: members_text fs end.
Proof. destruct fs as [|f fs]; [simpl; by rewrite app_nil_r|done]. Qed.

Lemma parse_members_text fs js n depth rest :
  Forall2 prints_member fs js → fs ≠ [] → (length fs < n)%nat →
  parse_members n depth (members_text fs ++ 125 :: rest) = Some (js, rest).
Proof.
  intros Hfs. revert n. induction Hfs as [|[k v] [k' j] fs js [Hk Hv] Hfs IH]; intros n Hne Hn; [done|].
  simpl in Hk, Hv. subst k'. destruct n as [|n]; [lia|]. cbn [parse_members].
  rewrite members_text_cons. unfold enc_string. rewrite <-!app_assoc, <-!app_comm_cons, <-!app_assoc.
  change (cut [34] (skip_ws (34 :: ?l))) with (Some l). change ([34] ++ ?l) with (34 :: l).
  cbn [mbind option_bind]. rewrite scan_quote by apply bytes_of_string_ok. cbn [mbind option_bind].
  change (cut [58] (skip_ws (58 :: ?l))) with (Some l). cbn [mbind option_bind]. simpl in Hn.
  destruct fs as [|f fs].
  - apply Forall2_nil_inv_l in Hfs as ->. change ([] ++ ?l) with l.
    by rewrite (Hv n depth 125 rest) by (lia || auto).
  - rewrite <-app_comm_cons. rewrite (Hv n depth 44) by (lia || auto). simpl mbind.
    change (skip_ws (44 :: ?l)) with (44 :: l). change (44 =? 44) with true. cbv iota.
    by rewrite IH by (done || simpl in *; lia).
Qed.

Lemma length_members fs : (length fs ≤ length (members_text fs))%nat.
Proof.
  induction fs as [|[k v] fs IH]; [done|]. rewrite members_text_cons. unfold enc_string.
  simpl. rewrite !length_app. destruct fs; simpl in *; rewrite ?length_app; simpl; lia.
Qed.

Lemma parse_object_text fs js :
  Forall2 prints_member fs js → fs ≠ [] → parse_json (object_text fs) = Some (JObj js).
Proof.
  intros Hfs Hne. unfold parse_json, object_text. cbn [parse_value].
  change (skip_ws (123 :: ?l)) with (123 :: l). change (123 =? 34) with false.
  change (123 =? 123) with true. change (maxNestingDepth <? 0 + 1) with false. cbv iota.
  assert (cut [125] (skip_ws (members_text fs ++ [125])) = None) as Hstart.
  { destruct fs as [|[k v] fs]; [done|]. by rewrite members_text_cons. }
  rewrite Hstart. pose proof (length_members fs) as Hlen.
  rewrite (parse_members_text fs js) by (done || simpl; rewrite length_app; simpl; lia). done.
Qed.

(** ** Structs

    A member that is a field of the struct sets it. *)
Lemma decode_member {T} names (set_field : string → jval → T → option T) k v ms x x' :
  valid_utf8 k → k ∈ names → set_field k v x = Some x' →
  decode_members names set_field ((quote_body (bytes_of_string k), v) :: ms) x =
  decode_members names set_field ms x'.
Proof.
  intros Hv Hk Hset. simpl. rewrite unquote_quote by apply bytes_of_string_ok. simpl.
  rewrite to_valid_id, string_of_bytes_of_string by done. unfold find_field.
  by rewrite bool_decide_eq_true_2, Hset by done.
Qed.

(** ** The fuel of the scanner is enough *)

Lemma skip_ws_length l : (length (skip_ws l) ≤ length l)%nat.
Proof. unfold skip_ws. induction l as [|b l IH]; simpl; [done|]. destruct (is_ws b); simpl; lia. Qed.

Lemma cut_length p l r : cut p l = Some r → length l = (length p + length r)%nat.
Proof.
  revert l; induction p as [|a p IH]; intros l; simpl; [by intros [= ->]|].
  destruct l as [|b l]; [done|]. destruct (a =? b); [|done]. intros Hc%IH. simpl. lia.
Qed.

Lemma prepend_inv p o a r : prepend p o = Some (a, r) → ∃ a', o = Some (a', r).
Proof. destruct o as [[x y]|]; [|done]. intros [= _ <-]. eauto. Qed.

Lemma scan_string_length l s r : scan_string l = Some (s, r) → (length r < length l)%nat.
Proof.
  revert s r. induction l as [l IH] using (induction_ltof1 _ length). unfold ltof in IH.
  intros s r. destruct l as [|b l]; [done|]. cbn [scan_string].
  repeat case_match; try done; subst; intros Hs;
    first [by injection Hs as <- <-; simpl; lia
          |apply prepend_inv in Hs as [s' Hs]; apply IH in Hs; simpl in *; lia].
Qed.

Lemma span_length {A} (P : A → bool) l a b : span P l = (a, b) → length l = (length a + length b)%nat.
Proof.
  revert a b; induction l as [|x l IH]; intros a b; simpl; [by intros [= <- <-]|].
  destruct (P x); [|by intros [= <- <-]].
  destruct (span P l) as [a' b'] eqn:Hs. intros [= <- <-]. simpl. by rewrite (IH a' b').
Qed.

Lemma scan_digits_length l ds r : scan_digits l = Some (ds, r) → (length r < length l)%nat.
Proof.
  unfold scan_digits. destruct (span is_digit_byte l) as [[|d ds'] r'] eqn:Hs; [done|].
  intros [= <- <-]. apply span_length in Hs. simpl in Hs. lia.
Qed.

Lemma scan_number_length l lit r : scan_number l = Some (lit, r) → (length r < length l)%nat.
Proof.
  unfold scan_number. destruct (split_sign l) as [neg l0] eqn:Hsgn.
  assert (length l0 ≤ length l)%nat as H0.
  { unfold split_sign in Hsgn. destruct l; [|destruct (_ =? _)]; simplify_eq; simpl; lia. }
  intros ([i l1] & Hi & ([f l2] & Hf & ([e l3] & He & [= _ <-])%bind_Some)%bind_Some)%bind_Some.
  assert (length l1 < length l0)%nat.
  { unfold scan_int in Hi. destruct l0; [done|]. case_match; [simplify_eq; simpl; lia|].
    by apply scan_digits_length in Hi. }
  assert (length l2 ≤ length l1)%nat.
  { unfold scan_frac in Hf. repeat case_match; simplify_eq; try lia;
      apply prepend_inv in Hf as [? Hf]; apply scan_digits_length in Hf; simpl; lia. }
  assert (length l3 ≤ length l2)%nat; [|lia].
  unfold scan_exp in He. repeat case_match; simplify_eq; try lia;
    apply prepend_inv in He as [? He]; apply scan_digits_length in He; simpl in *; lia.
Qed.

(** What is left is shorter than what was read. *)
Lemma parse_shorter n :
  (∀ d l v r, parse_value n d l = Some (v, r) → (length r < length l)%nat) ∧
  (∀ d l ms r, parse_members n d l = Some (ms, r) → (length r < length l)%nat) ∧
  (∀ d l vs r, parse_elems n d l = Some (vs, r) → (length r < length l)%nat).
Proof.
  induction n as [|n (IHv & IHm & IHe)]; [done|]. split_and!; intros d l.
  - cbn [parse_value]. pose proof (skip_ws_length l).
    destruct (skip_ws l) as [|b r0]; [done|]. intros v r Hp. pose proof (skip_ws_length r0).
    cbn [length] in *. repeat case_match; simplify_eq;
      repeat match goal with
      | H : _ ≫= _ = Some _ |- _ => apply bind_Some in H as (? & ? & H)
      | H : cut _ _ = Some _ |- _ => apply cut_length in H; simpl in H
      | H : scan_string _ = Some (_, _) |- _ => apply scan_string_length in H
      | H : scan_number _ = Some (_, _) |- _ => apply scan_number_length in H; simpl in H
      | H : parse_members _ _ _ = Some (_, _) |- _ => apply IHm in H
      | H : parse_elems _ _ _ = Some (_, _) |- _ => apply IHe in H
      | x : _ * _ |- _ => destruct x; simplify_eq
      end; simplify_eq; lia.
  - cbn [parse_members]. intros ms r (r1 & H1 & H)%bind_Some. apply bind_Some in H as ([k r2] & H2 & H).
    apply bind_Some in H as (r3 & H3 & H). apply bind_Some in H as ([v r4] & H4 & H).
    apply cut_length in H1, H3. apply scan_string_length in H2. apply IHv in H4.
    pose proof (skip_ws_length l). pose proof (skip_ws_length r2). pose proof (skip_ws_length r4).
    destruct (skip_ws r4) as [|b r5]; [done|]. simpl in *.
    destruct (b =? 44); [|destruct (b =? 125); simplify_eq; lia].
    apply bind_Some in H as ([ms' r6] & Hr & [= _ <-]). apply IHm in Hr. lia.
  - cbn [parse_elems]. intros vs r ([v r4] & H4 & H)%bind_Some. apply IHv in H4.
    pose proof (skip_ws_length r4). destruct (skip_ws r4) as [|b r5]; [done|]. simpl in *.
    destruct (b =? 44); [|destruct (b =? 93); simplify_eq; lia].
    apply bind_Some in H as ([ms' r6] & Hr & [= _ <-]). apply IHe in Hr. lia.
Qed.

Lemma bind_ext {A B} (o : option A) (f g : A → option B) :
  (∀ a, o = Some a → f a = g a) → (o ≫= f) = (o ≫= g).
Proof. destruct o; simpl; auto. Qed.

(** More fuel changes nothing. *)
Lemma parse_value_fuel n m :
  (∀ d l, (2 * length l < n)%nat → (2 * length l < m)%nat → parse_value n d l = parse_value m d l) ∧
  (∀ d l, (2 * length l < n)%nat → (2 * length l < m)%nat →
     parse_members n d l = parse_members m d l) ∧
  (∀ d l, (S (2 * length l) < n)%nat → (S (2 * length l) < m)%nat →
     parse_elems n d l = parse_elems m d l).
Proof.
  revert m. induction n as [|n IH]; intros m; [split_and!; intros; lia|].
  destruct m as [|m]; [split_and!; intros; lia|]. destruct (IH m) as (IHv & IHm & IHe).
  destruct (parse_shorter n) as (Hv & Hm & He). split_and!; intros d l Hn Hm'.
  - cbn [parse_value]. pose proof (skip_ws_length l).
    destruct (skip_ws l) as [|b r]; [done|]. simpl in *.
    rewrite (IHm _ r), (IHe _ r) by lia. done.
  - cbn [parse_members]. apply bind_ext. intros r1 H1%cut_length.
    apply bind_ext. intros [k r2] H2%scan_string_length. apply bind_ext. intros r3 H3%cut_length.
    pose proof (skip_ws_length l). pose proof (skip_ws_length r2). simpl in *.
    rewrite <-(IHv _ r3) by lia. apply bind_ext. intros [v r4] H4%Hv.
    pose proof (skip_ws_length r4). destruct (skip_ws r4) as [|b r5]; [done|]. simpl in *.
    by rewrite (IHm _ r5) by lia.
  - cbn [parse_elems]. rewrite <-(IHv _ l) by lia. apply bind_ext. intros [v r4] H4%Hv.
    pose proof (skip_ws_length r4). destruct (skip_ws r4) as [|b r5]; [done|]. simpl in *.
    by rewrite (IHe _ r5) by lia.
Qed.
