(* ===== verification/Ports.v ===== *)
(** * Domain: models, errors and ports

    The records of [internal/domain/models], the errors and interfaces of
    [internal/domain/ports], and the signature [portE] of every call the
    service makes outside itself: one operation per interface method, plus the
    brute-force guard, the clock, the random source, the logger and [go]. *)

From S2P Require Import Prelude.
Open Scope Z_scope.

(** ** Errors *)

(** Sentinel errors, errors made by [fmt.Errorf] or by a library, and errors
    that wrap another one with [%w]. *)
Inductive error :=
| ErrUserNotFound
| ErrUserAlreadyExists
| ErrSessionNotFound
| ErrResetCodeNotFound
| ErrResetTokenNotFound
| RedisNil
| PgxErrNoRows
| PgError (code : string)
| Errorf (msg : string)
| ErrorfW (msg : string) (cause : error).

#[global] Instance error_eq_dec : EqDecision error.
Proof. solve_decision. Defined.

(** [errors.Is(err, target)] for a target that is a sentinel. *)
Fixpoint errors_Is (err target : error) : bool :=
  bool_decide (err = target) ||
  match err with
  | ErrorfW _ cause => errors_Is cause target
  | _ => false
  end.

(** [errors.As(err, &pgErr)]: the code of a database error in the chain. *)
Fixpoint errors_As_PgError (err : error) : option string :=
  match err with
  | PgError code => Some code
  | ErrorfW _ cause => errors_As_PgError cause
  | _ => None
  end.

(** The two results [(value, err)] of a Go function that returns no value with
    an error, and the single result [err]. *)
Inductive result (A : Type) :=
| Ok (a : A)
| Err (e : error).
Arguments Ok {A} a.
Arguments Err {A} e.

(** ** Models *)

Record User := {
  user_ID : string;
  user_Email : string;
  user_PasswordHash : string;
  user_CreatedAt : time;
  user_UpdatedAt : time
}.

Record Session := {
  sess_ID : string;
  sess_UserID : string;
  sess_UserEmail : string;
  sess_TokenHash : string;
  sess_DeviceID : string;
  sess_UserAgent : string;
  sess_IPAddress : string;
  sess_ExpiresAt : time;
  sess_LastUsedAt : time;
  sess_CreatedAt : time
}.

Record CachedSession := {
  cs_SessionID : string;
  cs_UserID : string;
  cs_UserEmail : string;
  cs_DeviceID : string;
  cs_ExpiresAt : time
}.

Record OTPRecord := {
  otp_UserID : string;
  otp_OTPHash : string;
  otp_Attempts : Z
}.

Record ResetTokenRecord := {
  rt_UserID : string;
  rt_Email : string
}.

Record Claims := {
  claims_UserID : string;
  claims_Email : string;
  claims_Roles : list string
}.

Inductive AuditEventType :=
| AuditEventRegister
| AuditEventLoginSuccess
| AuditEventLoginFailure
| AuditEventLoginBlocked
| AuditEventLogout
| AuditEventLogoutAll
| AuditEventTokenRefresh
| AuditEventSessionRevoke
| AuditEventPasswordChange
| AuditEventPasswordResetRequest
| AuditEventPasswordReset.

#[global] Instance AuditEventType_eq_dec : EqDecision AuditEventType.
Proof. solve_decision. Defined.

(** The string constants of the event types. *)
Definition audit_event_string (t : AuditEventType) : string :=
  match t with
  | AuditEventRegister => "user.register"
  | AuditEventLoginSuccess => "user.login.success"
  | AuditEventLoginFailure => "user.login.failure"
  | AuditEventLoginBlocked => "user.login.blocked"
  | AuditEventLogout => "user.logout"
  | AuditEventLogoutAll => "user.logout_all"
  | AuditEventTokenRefresh => "token.refresh"
  | AuditEventSessionRevoke => "session.revoke"
  | AuditEventPasswordChange => "user.password_change"
  | AuditEventPasswordResetRequest => "user.password_reset_request"
  | AuditEventPasswordReset => "user.password_reset"
  end.

(** A nil [map[string]string] is the empty map. *)
Record AuditEvent := {
  ae_UserID : option string;
  ae_EventType : AuditEventType;
  ae_IPAddress : string;
  ae_UserAgent : string;
  ae_Metadata : gmap string string
}.

Record HookEvent := {
  he_Type : AuditEventType;
  he_UserID : string;
  he_UserEmail : string;
  he_IPAddress : string;
  he_UserAgent : string;
  he_Metadata : gmap string string
}.

(** ** The calls of the service *)

(** The body of a goroutine started by [logAudit] or [fireHook]. *)
Inductive job :=
| JAudit (e : AuditEvent)
| JHook (e : HookEvent).

Inductive level := LevelDebug | LevelInfo | LevelWarn | LevelError.

#[global] Instance level_eq_dec : EqDecision level.
Proof. solve_decision. Defined.

(** A method that fills in fields of its argument ([SessionStore.Create] and
    [RotateToken] set [ID], [CreatedAt] and [LastUsedAt] through the pointer)
    answers with the new value.  [DeleteAllByUserID] can return both token
    hashes and an error. *)
Inductive portE : Type → Type :=
(* ports.UserStore *)
| UserCreate (email passwordHash : string) : portE (result User)
| UserGetByEmail (email : string) : portE (result User)
| UserGetByID (id : string) : portE (result User)
| UserUpdatePasswordHash (userID passwordHash : string) : portE (option error)
(* ports.SessionStore *)
| SessCreate (s : Session) : portE (result Session)
| SessGetByTokenHash (tokenHash : string) : portE (result Session)
| SessDeleteByID (sessionID userID : string) : portE (result string)
| SessDeleteByTokenHash (tokenHash : string) : portE (option error)
| SessRotateToken (oldHash : string) (newSession : Session) : portE (result Session)
| SessDeleteAllByUserID (userID : string) : portE (list string * option error)
| SessDeleteAllByUserIDExcept (userID keepTokenHash : string)
    : portE (list string * option error)
| SessListByUserID (userID : string) : portE (result (list Session))
(* ports.AccessTokenManager *)
| TokGenerate (userID email : string) (roles : list string) : portE (result string)
| TokValidate (token : string) : portE (result Claims)
(* ports.SessionCache *)
| CacheSet (tokenHash : string) (sess : CachedSession) (ttl : duration)
    : portE (option error)
| CacheGet (tokenHash : string) : portE (result CachedSession)
| CacheDelete (tokenHash : string) : portE (option error)
(* ports.PasswordResetStore *)
| ResetSaveOTP (userID email otpHash : string) (ttl : duration) : portE (option error)
| ResetGetOTP (email : string) : portE (result OTPRecord)
| ResetIncrOTPAttempts (email : string) : portE (result Z)
| ResetDeleteOTP (email : string) : portE (option error)
| ResetSaveResetToken (tokenHash userID email : string) (ttl : duration)
    : portE (option error)
| ResetGetResetToken (tokenHash : string) : portE (result ResetTokenRecord)
| ResetDeleteResetToken (tokenHash : string) : portE (option error)
(* bruteforce.Guard *)
| GuardIsLocked (email : string) : portE (result bool)
| GuardRecordFailure (email : string) : portE (result bool)
| GuardReset (email : string) : portE unit
(* time.Now, crypto/rand.Read, go statements, slog *)
| Now : portE time
| RandRead (n : nat) : portE (result (list Z))
| Go (j : job) : portE unit
| Slog (lvl : level) (msg : string) : portE unit.

(** ** gRPC statuses *)

(** The codes but [codes.OK]. *)
Inductive code :=
| Canceled
| Unknown
| InvalidArgument
| DeadlineExceeded
| NotFound
| AlreadyExists
| PermissionDenied
| ResourceExhausted
| FailedPrecondition
| Aborted
| OutOfRange
| Unimplemented
| Internal
| Unavailable
| DataLoss
| Unauthenticated.

#[global] Instance code_eq_dec : EqDecision code.
Proof. solve_decision. Defined.

(** [status.Error(code, msg)]. *)
Record status := Status { st_code : code; st_msg : string }.

#[global] Instance status_eq_dec : EqDecision status.
Proof. solve_decision. Defined.

(** What an RPC handler returns: a response, or an error and no response. *)
Inductive reply (A : Type) :=
| Reply (a : A)
| Refuse (st : status).
Arguments Reply {A} a.
Arguments Refuse {A} st.
