(* ===== verification/Slogpretty.v ===== *)
(** * The log format for local use ([internal/lib/logger/handlers/slogpretty])

    [PrettyHandler] prints a record on one line: time, level, message and the
    attributes as JSON.  Values of attributes have any type: their JSON is a
    parameter, and so are the escape codes of the colour library. *)

From Stdlib Require Import Ascii String.
From S2P Require Import Prelude GoStd TimeText Json Ports.
Open Scope Z_scope.

(** ** [log/slog] *)

Definition LevelDebug : Z := -4.
Definition LevelInfo_ : Z := 0.
Definition LevelWarn_ : Z := 4.
Definition LevelError_ : Z := 8.

(** [Level.String]: the name of the level below, and the distance from it. *)
Definition level_String (l : Z) : string :=
  let str base val := if val =? 0 then base
                      else base +:+ (if 0 <? val then "+" else "") +:+ fmt_d val in
  if l <? LevelInfo_ then str "DEBUG" (l - LevelDebug)
  else if l <? LevelWarn_ then str "INFO" (l - LevelInfo_)
  else if l <? LevelError_ then str "WARN" (l - LevelWarn_)
  else str "ERROR" (l - LevelError_).

Section slogpretty.
Context {V : Type} `{Zone}.

Record slog_Record := {
  r_Time : time;
  r_Level : Z;
  r_Message : string;
  r_Attrs : list (string * V)
}.

(** [color.MagentaString] and the like. *)
Context (MagentaString BlueString YellowString RedString CyanString WhiteString : string → string).
(** [json.MarshalIndent(fields, "", "  ")]. *)
Context (MarshalIndent : gmap string V → result string).

(** ** The handler *)

(** The embedded JSON handler only decides which levels are enabled. *)
Record PrettyHandler := { attrs : list (string * V) }.

Definition NewPrettyHandler : PrettyHandler := {| attrs := [] |}.

Definition set_fields (l : list (string * V)) (fields : gmap string V) : gmap string V :=
  foldl (λ m a, <[a.1 := a.2]> m) fields l.

(** [r.Time.Format("[15:05:05.000]")]: hours, seconds, seconds, milliseconds. *)
Definition time_text (t : time) : string :=
  let local := t + zone_offset t * minute in
  let day := local mod (24 * 60 * minute) in
  let secs := day / second mod 60 in
  "[" +:+ fmt_0d 2 (day / (60 * minute)) +:+ ":" +:+ fmt_0d 2 secs +:+ ":" +:+ fmt_0d 2 secs +:+
  "." +:+ fmt_0d 3 (day / millisecond mod 1000) +:+ "]".

(** The line that is printed. *)
Definition Handle (h : PrettyHandler) (r : slog_Record) : result string :=
  let level := level_String (r_Level r) +:+ ":" in
  let level :=
    if r_Level r =? LevelDebug then MagentaString level
    else if r_Level r =? LevelInfo_ then BlueString level
    else if r_Level r =? LevelWarn_ then YellowString level
    else if r_Level r =? LevelError_ then RedString level
    else level in
  let fields := set_fields (attrs h) (set_fields (r_Attrs r) ∅) in
  let print b :=
    Ok (time_text (r_Time r) +:+ " " +:+ level +:+ " " +:+ CyanString (r_Message r) +:+ " " +:+
        WhiteString b +:+ string_of_bytes [10]) in
  if (0 <? size fields)%nat then
    match MarshalIndent fields with
    | Err err => Err err
    | Ok b => print b
    end
  else print "".

Definition WithAttrs (h : PrettyHandler) (attrs : list (string * V)) : PrettyHandler :=
  {| attrs := attrs |}.
Definition WithGroup (h : PrettyHandler) (name : string) : PrettyHandler := {| attrs := [] |}.

(** ** What is lost *)

(** The attributes of an outer [With] are lost by an inner one, and by a group. *)
Lemma WithAttrs_forgets h outer inner :
  WithAttrs (WithAttrs h outer) inner = WithAttrs h inner ∧
  WithGroup (WithAttrs h outer) "g" = NewPrettyHandler.
Proof. done. Qed.

(** Attributes of the handler win over those of the record. *)
Lemma handler_attrs_win h r k v :
  attrs h = [(k, v)] → set_fields (attrs h) (set_fields (r_Attrs r) ∅) !! k = Some v.
Proof. intros ->. simpl. by rewrite lookup_insert_eq. Qed.
End slogpretty.

(** 10:07:42 and 10:59:42 are printed alike. *)
Lemma minutes_not_printed `{Zone} :
  (∀ t, zone_offset t = 0) →
  time_text ((10 * 60 + 7) * minute + 42 * second) = "[10:42:42.000]" ∧
  time_text ((10 * 60 + 59) * minute + 42 * second) = "[10:42:42.000]".
Proof. intros Hz. unfold time_text. rewrite !Hz. split; by_vm. Qed.
