(* ===== verification/Regex.v ===== *)
(** * Package regexp, as far as the service uses it

    Regular expressions over bytes, the strings they denote, and a matcher by
    derivatives.  [regexp.MatchString] of an expression anchored with [^] and
    [$] accepts exactly the strings of the language in between. *)

From Stdlib Require Import Ascii String.
From S2P Require Import Prelude.

Inductive regex :=
| RNone
| REps
| RSet (P : ascii → bool)
| RSeq (r1 r2 : regex)
| RAlt (r1 r2 : regex)
| RStar (r : regex).

(** [r+] and [r{2,}]. *)
Definition RPlus (r : regex) : regex := RSeq r (RStar r).
Definition RAtLeast2 (r : regex) : regex := RSeq r (RSeq r (RStar r)).
(** A literal character. *)
Definition RChar (c : ascii) : regex := RSet (λ a, bool_decide (a = c)).

(** The language of an expression. *)
Inductive matches : regex → list ascii → Prop :=
| MEps : matches REps []
| MSet P c : P c = true → matches (RSet P) [c]
| MSeq r1 r2 l1 l2 : matches r1 l1 → matches r2 l2 → matches (RSeq r1 r2) (l1 ++ l2)
| MAltL r1 r2 l : matches r1 l → matches (RAlt r1 r2) l
| MAltR r1 r2 l : matches r2 l → matches (RAlt r1 r2) l
| MStarNil r : matches (RStar r) []
| MStarCons r l1 l2 : matches r l1 → matches (RStar r) l2 → matches (RStar r) (l1 ++ l2).

Fixpoint nullable (r : regex) : bool :=
  match r with
  | RNone | RSet _ => false
  | REps | RStar _ => true
  | RSeq r1 r2 => nullable r1 && nullable r2
  | RAlt r1 r2 => nullable r1 || nullable r2
  end.

Fixpoint deriv (c : ascii) (r : regex) : regex :=
  match r with
  | RNone | REps => RNone
  | RSet P => if P c then REps else RNone
  | RSeq r1 r2 =>
      if nullable r1 then RAlt (RSeq (deriv c r1) r2) (deriv c r2)
      else RSeq (deriv c r1) r2
  | RAlt r1 r2 => RAlt (deriv c r1) (deriv c r2)
  | RStar r' => RSeq (deriv c r') (RStar r')
  end.

Definition re_match (r : regex) (l : list ascii) : bool :=
  nullable (foldl (λ r c, deriv c r) r l).

(** ** Correctness of the matcher *)

Create HintDb regex.
#[export] Hint Constructors matches : regex.

Lemma nullable_spec r : nullable r = true ↔ matches r [].
Proof.
  induction r as [| |P|r1 IH1 r2 IH2|r1 IH1 r2 IH2|r IH]; simpl.
  - split; [done|]. inversion 1.
  - split; eauto with regex.
  - split; [done|]. inversion 1.
  - rewrite andb_true_iff, IH1, IH2. split.
    + intros [H1 H2]. by apply (MSeq r1 r2 [] []).
    + inversion 1 as [| |? ? l1 l2 H1 H2 Heq1 Heq2| | | |]; subst.
      by apply app_nil in Heq2 as [-> ->].
  - rewrite orb_true_iff, IH1, IH2. split; [naive_solver eauto with regex|].
    inversion 1; auto.
  - split; eauto with regex.
Qed.

(** A non-empty word of a star begins with a non-empty word of its body. *)
Lemma matches_star_cons r c l :
  matches (RStar r) (c :: l) →
  ∃ l1 l2, l = l1 ++ l2 ∧ matches r (c :: l1) ∧ matches (RStar r) l2.
Proof.
  remember (RStar r) as s eqn:Hs. remember (c :: l) as w eqn:Hw.
  intros Hm. induction Hm as [| | | | | |r' [|a l1] l2 H1 IH1 H2 IH2]; try done.
  - simpl in Hw. auto.
  - injection Hs as ->. injection Hw as -> <-. eauto 10.
Qed.

Lemma deriv_spec c r l : matches (deriv c r) l ↔ matches r (c :: l).
Proof.
  revert l; induction r as [| |P|r1 IH1 r2 IH2|r1 IH1 r2 IH2|r IH]; intros l; simpl.
  - split; inversion 1.
  - split; inversion 1.
  - destruct (P c) eqn:HP; split; inversion 1; subst; auto with regex; congruence.
  - assert (matches (RSeq (deriv c r1) r2) l ↔
            ∃ l1 l2, l = l1 ++ l2 ∧ matches r1 (c :: l1) ∧ matches r2 l2) as Hseq.
    { split.
      - inversion 1; subst. eexists _, _. rewrite <-IH1. eauto.
      - intros (l1 & l2 & -> & H1 & H2). constructor; [by apply IH1|done]. }
    assert (matches (RSeq r1 r2) (c :: l) ↔
            matches (RSeq (deriv c r1) r2) l ∨ (matches r1 [] ∧ matches r2 (c :: l))) as ->.
    { rewrite Hseq. split.
      - inversion 1 as [| |? ? l1 l2 H1 H2 Heq1 Heq2| | | |]; subst.
        destruct l1 as [|a l1]; simplify_eq/=; [by right|left; eauto 10].
      - intros [(l1 & l2 & -> & H1 & H2)|[H1 H2]].
        + by apply (MSeq r1 r2 (c :: l1) l2).
        + by apply (MSeq r1 r2 [] (c :: l)). }
    destruct (nullable r1) eqn:Hn.
    + apply nullable_spec in Hn. split.
      * inversion 1; subst; [by left|right; by rewrite <-IH2].
      * intros [H|[_ H]]; [by apply MAltL|apply MAltR; by apply IH2].
    + split; [by left|]. intros [H|[H _]]; [done|].
      apply nullable_spec in H. congruence.
  - split; inversion 1; subst; naive_solver eauto with regex.
  - split.
    + inversion 1; subst. apply (MStarCons r (c :: _) _); [by apply IH|done].
    + intros (l1 & l2 & -> & H1 & H2)%matches_star_cons.
      constructor; [by apply IH|done].
Qed.

Lemma re_match_spec r l : re_match r l = true ↔ matches r l.
Proof.
  unfold re_match. revert r; induction l as [|c l IH]; intros r; simpl.
  - apply nullable_spec.
  - by rewrite IH, deriv_spec.
Qed.

(** ** Words of common expressions *)

Lemma matches_set_star P l :
  matches (RStar (RSet P)) l ↔ Forall (λ c, P c = true) l.
Proof.
  split.
  - induction l as [|c l IH]; [done|].
    intros (l1 & l2 & -> & H1 & H2)%matches_star_cons.
    inversion H1; subst. constructor; auto.
  - induction 1 as [|c l Hc Hl IH]; [constructor|].
    apply (MStarCons _ [c] l); auto with regex.
Qed.

Lemma matches_set_seq P r l :
  matches (RSeq (RSet P) r) l ↔ ∃ c l', l = c :: l' ∧ P c = true ∧ matches r l'.
Proof.
  split.
  - inversion 1 as [| |? ? l1 l2 H1 H2| | | |]; subst. inversion H1; subst. eauto.
  - intros (c & l' & -> & Hc & Hl'). apply (MSeq _ _ [c] l'); auto with regex.
Qed.

Lemma matches_seq r1 r2 l :
  matches (RSeq r1 r2) l ↔ ∃ l1 l2, l = l1 ++ l2 ∧ matches r1 l1 ∧ matches r2 l2.
Proof.
  split; [inversion 1; subst; eauto|].
  intros (l1 & l2 & -> & H1 & H2). by constructor.
Qed.

Lemma matches_set_plus P l :
  matches (RPlus (RSet P)) l ↔ l ≠ [] ∧ Forall (λ c, P c = true) l.
Proof.
  unfold RPlus. rewrite matches_set_seq. setoid_rewrite matches_set_star.
  split; [naive_solver|]. intros [Hne Hl].
  destruct Hl as [|c l Hc Hl]; [done|]. eauto.
Qed.

Lemma matches_set_at_least2 P l :
  matches (RAtLeast2 (RSet P)) l ↔ (2 ≤ length l)%nat ∧ Forall (λ c, P c = true) l.
Proof.
  unfold RAtLeast2. rewrite matches_set_seq. setoid_rewrite matches_set_plus.
  split.
  - intros (c & l' & -> & Hc & Hne & Hl'). destruct l'; [done|]. simpl.
    split; [lia|by constructor].
  - intros [Hlen Hl]. destruct Hl as [|c [|d l] Hc Hl]; simpl in *; [lia..|]. eauto 10.
Qed.
