(* ===== verification/Validate.v ===== *)
(** * Package validate ([internal/lib/validate])

    [Email] and [Password], their exact acceptance conditions and the error of
    every rejection. *)

From Stdlib Require Import Ascii String.
From S2P Require Import Prelude GoStd Regex.
Open Scope Z_scope.

(** ** Email *)

Definition is_lower (a : ascii) : bool := in_range 97 122 (byte_of_ascii a).
Definition is_upper (a : ascii) : bool := in_range 65 90 (byte_of_ascii a).
Definition is_digit (a : ascii) : bool := in_range 48 57 (byte_of_ascii a).
Definition one_of (cs : list ascii) (a : ascii) : bool := bool_decide (a ∈ cs).

(** The classes [[a-zA-Z0-9._%+\-]], [[a-zA-Z0-9.\-]] and [[a-zA-Z]]. *)
Definition local_class (a : ascii) : bool :=
  is_lower a || is_upper a || is_digit a ||
  one_of ["."; "_"; "%"; "+"; "-"]%char a.
Definition domain_class (a : ascii) : bool :=
  is_lower a || is_upper a || is_digit a || one_of ["."; "-"]%char a.
Definition alpha_class (a : ascii) : bool := is_lower a || is_upper a.

(** [^[a-zA-Z0-9._%+\-]+@[a-zA-Z0-9.\-]+\.[a-zA-Z]{2,}$]. *)
Definition emailRe : regex :=
  RSeq (RPlus (RSet local_class))
    (RSeq (RChar "@")
       (RSeq (RPlus (RSet domain_class))
          (RSeq (RChar ".") (RAtLeast2 (RSet alpha_class))))).

(** The message of the error, [None] for nil. *)
Definition Email (email : string) : option string :=
  if bool_decide (email = "") then Some "email is required"
  else if re_match emailRe (list_ascii_of_string email) then None
  else Some "invalid email format".

(** ** Password *)

(** The tables of package unicode for runes above Latin-1: a generated part of
    the Go distribution. *)
Class UnicodeTables := {
  table_Letter : Z → bool;
  table_Digit : Z → bool
}.

(** [unicode.IsLetter] and [unicode.IsDigit] look up Latin-1 directly. *)
Definition latin1_letter (r : Z) : bool :=
  in_range 0x41 0x5A r || in_range 0x61 0x7A r || (r =? 0xAA) || (r =? 0xB5) ||
  (r =? 0xBA) || in_range 0xC0 0xD6 r || in_range 0xD8 0xF6 r || in_range 0xF8 0xFF r.

Section password.
Context `{UnicodeTables}.

Definition unicode_IsLetter (r : Z) : bool :=
  if r <=? 0xFF then latin1_letter r else table_Letter r.
Definition unicode_IsDigit (r : Z) : bool :=
  if r <=? 0xFF then in_range 0x30 0x39 r else table_Digit r.

(** The loop over the runes, which stops once both flags are set. *)
Fixpoint scan_runes (hasLetter hasDigit : bool) (rs : list Z) : bool * bool :=
  match rs with
  | [] => (hasLetter, hasDigit)
  | r :: rs' =>
      let '(hasLetter, hasDigit) :=
        if unicode_IsLetter r then (true, hasDigit)
        else if unicode_IsDigit r then (hasLetter, true)
        else (hasLetter, hasDigit) in
      if hasLetter && hasDigit then (hasLetter, hasDigit)
      else scan_runes hasLetter hasDigit rs'
  end.

Definition Password (pwd : string) : option string :=
  if Z.of_nat (String.length pwd) <? 8
  then Some "password must be at least 8 characters"
  else
    let '(hasLetter, hasDigit) := scan_runes false false (runes pwd) in
    if negb hasLetter then Some "password must contain at least one letter"
    else if negb hasDigit then Some "password must contain at least one digit"
    else None.

(** ** What the loop computes *)

Definition has_letter (rs : list Z) : bool := existsb unicode_IsLetter rs.
Definition has_digit (rs : list Z) : bool :=
  existsb (λ r, negb (unicode_IsLetter r) && unicode_IsDigit r) rs.

Lemma scan_runes_spec hl hd rs :
  hl && hd = false →
  (scan_runes hl hd rs).1 && (scan_runes hl hd rs).2
    = (hl || has_letter rs) && (hd || has_digit rs) ∧
  ((scan_runes hl hd rs).1 && (scan_runes hl hd rs).2 = false →
   scan_runes hl hd rs = (hl || has_letter rs, hd || has_digit rs)).
Proof.
  revert hl hd; induction rs as [|r rs IH]; intros hl hd Hf; simpl.
  { by rewrite !orb_false_r. }
  destruct (unicode_IsLetter r) eqn:HL; [|destruct (unicode_IsDigit r) eqn:HD];
    simpl; (destruct hl, hd; simpl in *; try done);
    match goal with
    | |- context [scan_runes ?a ?b rs] => destruct (IH a b eq_refl) as [H1 H2]
    | |- _ => idtac
    end; simpl in *; rewrite ?orb_true_r; auto.
Qed.

Lemma Password_nil pwd :
  Password pwd = None ↔
  8 ≤ Z.of_nat (String.length pwd) ∧
  has_letter (runes pwd) = true ∧ has_digit (runes pwd) = true.
Proof.
  unfold Password. destruct (Z.ltb_spec (Z.of_nat (String.length pwd)) 8).
  { split; [done|]. lia. }
  destruct (scan_runes_spec false false (runes pwd) eq_refl) as [Hb Hf].
  destruct (scan_runes false false (runes pwd)) as [l d]. simpl in *.
  destruct (has_letter (runes pwd)), (has_digit (runes pwd)), l, d; simpl in *;
    try done; naive_solver.
Qed.

End password.

(** ** What the expression accepts *)

(** A word of the form [local@domain.tld]. *)
Definition email_shape (l : list ascii) : Prop :=
  ∃ lc dom tld,
    l = lc ++ ["@"%char] ++ dom ++ ["."%char] ++ tld ∧
    lc ≠ [] ∧ Forall (λ c, local_class c = true) lc ∧
    dom ≠ [] ∧ Forall (λ c, domain_class c = true) dom ∧
    (2 ≤ length tld)%nat ∧ Forall (λ c, alpha_class c = true) tld.

Lemma emailRe_shape l : matches emailRe l ↔ email_shape l.
Proof.
  unfold emailRe, RChar, email_shape.
  rewrite matches_seq. setoid_rewrite matches_set_plus.
  setoid_rewrite matches_set_seq. setoid_rewrite matches_seq.
  setoid_rewrite matches_set_plus. setoid_rewrite matches_set_seq.
  setoid_rewrite matches_set_at_least2. split.
  - intros (lc & l2 & -> & [? ?] & c & l3 & -> & ->%bool_decide_eq_true_1 &
      dom & l4 & -> & [? ?] & d & tld & -> & ->%bool_decide_eq_true_1 & ? & ?).
    eauto 15.
  - intros (lc & dom & tld & -> & ? & ? & ? & ? & ? & ?).
    eexists _, _. split; [done|]. split; [done|].
    eexists _, _. split; [done|]. split; [by apply bool_decide_eq_true_2|].
    eexists _, _. split; [done|]. split; [done|].
    eexists _, _. split; [done|]. by split; [apply bool_decide_eq_true_2|].
Qed.

Lemma email_shape_non_empty : ¬ email_shape [].
Proof. intros ([|] & dom & tld & Heq & ?); done. Qed.

Definition at_sign : ascii := "@"%char.
Definition exactly_one (c : ascii) (l : list ascii) : Prop :=
  ∃ l1 l2, l = l1 ++ [c] ++ l2 ∧ (c ∉ l1) ∧ (c ∉ l2).

(** The address has exactly one [@]: none of the classes contains it. *)
Lemma email_shape_at l : email_shape l → exactly_one at_sign l.
Proof.
  intros (lc & dom & tld & -> & _ & Hlc & _ & Hdom & _ & Htld).
  exists lc, (dom ++ ["."%char] ++ tld). split; [done|].
  rewrite !Forall_forall in *.
  rewrite !elem_of_app, list_elem_of_singleton. split.
  - intros H%Hlc. vm_compute in H. done.
  - intros [H%Hdom|[H|H%Htld]]; vm_compute in H; done.
Qed.

(** ** Properties *)

(** C38: [validate.Email] accepts exactly the addresses [local@domain.tld] with a
    non-empty local part and domain over the documented characters and a top
    level domain of two letters or more; everything else gets the error of its
    case, and an accepted address contains exactly one [@]. *)
Theorem Email_spec (s : string) :
  (Email s = None ↔ email_shape (list_ascii_of_string s)) ∧
  (Email s = Some "email is required" ↔ s = "") ∧
  (Email s = Some "invalid email format" ↔
   s ≠ "" ∧ ¬ email_shape (list_ascii_of_string s)) ∧
  (Email s = None → exactly_one at_sign (list_ascii_of_string s)).
Proof.
  assert (email_shape (list_ascii_of_string s) →
          exactly_one at_sign (list_ascii_of_string s)) as Hat
    by apply email_shape_at.
  rewrite <-emailRe_shape, <-re_match_spec in *. unfold Email.
  case_bool_decide as Hs; [subst s|];
    destruct (re_match emailRe _) eqn:Hm; split_and!; try done; try naive_solver.
Qed.


(** The length check counts bytes, not characters: a password of five
    characters in nine bytes is accepted. *)
Lemma Password_counts_bytes `{UnicodeTables} :
  let pwd := string_of_bytes [0xC3; 0xA9; 0xC3; 0xA9; 0xC3; 0xA9; 0xC3; 0xA9; 0x31] in
  runes pwd = [0xE9; 0xE9; 0xE9; 0xE9; 0x31] ∧ Password pwd = None.
Proof. split; vm_compute; reflexivity. Qed.
