(* ===== verification/Crypto.v ===== *)
(** * Packages token, otp and password ([internal/lib])

    Refresh and reset tokens, one-time codes and password hashes.  Randomness
    comes from the port [RandRead] ([crypto/rand.Read]); argon2 is a library
    and a parameter. *)

From Stdlib Require Import Ascii String.
From S2P Require Import Prelude GoStd Encoding Ports.
Open Scope Z_scope.

(** ** token *)

Module token.

(** SHA-256 of the plaintext in hexadecimal. *)
Definition Hash (plain : string) : string :=
  hex_EncodeToString (sha256_Sum256 (bytes_of_string plain)).

(** The plaintext token for the client and the hash to store. *)
Definition Generate : prog portE (result (string * string)) :=
  call r <- RandRead 32;;
  match r with
  | Err e => Ret (Err (ErrorfW "generate random bytes" e))
  | Ok b =>
      let plain := URLEncoding_EncodeToString b in
      let h := sha256_Sum256 (bytes_of_string plain) in
      let hashed := hex_EncodeToString h in
      Ret (Ok (plain, hashed))
  end.

End token.
#[global] Arguments token.Hash : simpl never.

(** ** otp *)

Module otp.

Definition Generate : prog portE (result string) :=
  call r <- RandRead 4;;
  match r with
  | Err e => Ret (Err (ErrorfW "generate otp" e))
  | Ok b =>
      let n := be_Uint32 b mod 1000000 in
      Ret (Ok (fmt_0d 6 n))
  end.

End otp.

(** ** password *)

(** [golang.org/x/crypto/argon2]: the key derivation function (password, salt,
    rounds, memory, threads, key length) and the version it implements. *)
Class Argon2 := {
  argon2_IDKey : list Z → list Z → Z → Z → Z → Z → list Z;
  argon2_Version : Z
}.

(** A key has the requested length. *)
Class Argon2Spec `{Argon2} : Prop := {
  argon2_key_bytes p s t m th k : Forall byte_ok (argon2_IDKey p s t m th k);
  argon2_key_length p s t m th k :
    0 ≤ k < 2 ^ 32 → Z.of_nat (length (argon2_IDKey p s t m th k)) = k;
  argon2_version_nonneg : 0 ≤ argon2_Version
}.

Module password.
Section password.
Context `{Argon2}.

Definition memory : Z := 65536.
Definition iterations : Z := 3.
Definition parallelism : Z := 4.
Definition saltLen : nat := 16.
Definition keyLen : Z := 32.

(** [fmt.Sprintf("$argon2id$v=%d$m=%d,t=%d,p=%d$%s$%s", ...)]. *)
Definition encode_hash (version mem iters par : Z) (salt hash : string) : string :=
  "$argon2id$v=" +:+ fmt_d version +:+ "$m=" +:+ fmt_d mem +:+ ",t=" +:+ fmt_d iters
  +:+ ",p=" +:+ fmt_d par +:+ "$" +:+ salt +:+ "$" +:+ hash.

Definition Hash (plaintext : string) : prog portE (result string) :=
  call r <- RandRead saltLen;;
  match r with
  | Err e => Ret (Err (ErrorfW "generate salt" e))
  | Ok salt =>
      let hash := argon2_IDKey (bytes_of_string plaintext) salt
                    iterations memory parallelism keyLen in
      Ret (Ok (encode_hash argon2_Version memory iterations parallelism
                 (RawStdEncoding_EncodeToString salt)
                 (RawStdEncoding_EncodeToString hash)))
  end.

(** [fmt.Sscanf] of ["m=%d,t=%d,p=%d"] into a [uint32], a [uint32] and a
    [uint8], on the runes of the input.  White space before a number is
    skipped, a newline is an error, text after the last number is ignored. *)
Fixpoint skip_space (rs : list Z) : option (list Z) :=
  match rs with
  | [] => Some []
  | r :: rs' =>
      if r =? 10 then None
      else if unicode_IsSpace r then skip_space rs' else Some rs
  end.

Fixpoint span_digits (rs : list Z) : list Z * list Z :=
  match rs with
  | r :: rs' =>
      if is_digit_byte r then
        let '(ds, rest) := span_digits rs' in (r - 48 :: ds, rest)
      else ([], rs)
  | [] => ([], [])
  end.

Definition scan_uint (bits : Z) (rs : list Z) : option (Z * list Z) :=
  rs ← skip_space rs;
  match span_digits rs with
  | ([], _) => None
  | (ds, rest) =>
      let v := digits_value ds in
      if v <? 2 ^ bits then Some (v, rest) else None
  end.

Fixpoint scan_lit (lit rs : list Z) : option (list Z) :=
  match lit, rs with
  | [], _ => Some rs
  | c :: lit', r :: rs' => if c =? r then scan_lit lit' rs' else None
  | _ :: _, [] => None
  end.

Definition Sscanf_params (s : string) : option (Z * Z * Z) :=
  rs ← scan_lit (bytes_of_string "m=") (runes s);
  '(mem, rs) ← scan_uint 32 rs;
  rs ← scan_lit (bytes_of_string ",t=") rs;
  '(iters, rs) ← scan_uint 32 rs;
  rs ← scan_lit (bytes_of_string ",p=") rs;
  '(par, _) ← scan_uint 8 rs;
  Some (mem, iters, par).

(** Neither the algorithm nor the version of the stored hash is checked. *)
Definition Verify (plaintext encodedHash : string) : result bool :=
  match strings_Split "$" encodedHash with
  | [_; _; _; params; saltStr; hashStr] =>
      match Sscanf_params params with
      | None => Err (Errorf "parse hash params")
      | Some (mem, iters, parallel) =>
          match RawStdEncoding_DecodeString saltStr with
          | None => Err (Errorf "decode salt")
          | Some salt =>
              match RawStdEncoding_DecodeString hashStr with
              | None => Err (Errorf "decode hash")
              | Some storedHash =>
                  let computed :=
                    argon2_IDKey (bytes_of_string plaintext) salt iters mem parallel
                      (Z.of_nat (length storedHash) mod 2 ^ 32) in
                  Ok (bool_decide (computed = storedHash))
              end
          end
      end
  | _ => Err (Errorf "invalid hash format")
  end.

End password.
#[global] Arguments Hash {_} _ : simpl never.
#[global] Arguments Verify {_} _ _ : simpl never.
End password.

(** ** Lemmas *)

#[local] Ltac Zify.zify_post_hook ::= Z.to_euclidean_division_equations.

Lemma length_token_Hash s : String.length (token.Hash s) = 64%nat.
Proof.
  unfold token.Hash, hex_EncodeToString.
  rewrite length_string_of_bytes, length_hex_bytes.
  by rewrite (proj2 (sha256_Sum256_ok _)).
Qed.

Lemma token_Hash_not_empty s : token.Hash s ≠ "".
Proof. intros H. pose proof (length_token_Hash s) as Hl. by rewrite H in Hl. Qed.

Lemma token_Hash_hex s : Forall is_hex (bytes_of_string (token.Hash s)).
Proof.
  unfold token.Hash, hex_EncodeToString.
  pose proof (hex_bytes_is_hex _ (proj1 (sha256_Sum256_ok (bytes_of_string s)))) as Hh.
  rewrite bytes_of_string_of_bytes; [done|].
  eapply Forall_impl; [exact Hh|]. unfold is_hex, byte_ok. simpl. lia.
Qed.

Lemma exec_token_Generate tr r :
  exec token.Generate tr r →
  (∃ e, tr = [Call (RandRead 32) (Err e)] ∧ r = Err (ErrorfW "generate random bytes" e)) ∨
  (∃ b, tr = [Call (RandRead 32) (Ok b)] ∧
        r = Ok (URLEncoding_EncodeToString b, token.Hash (URLEncoding_EncodeToString b))).
Proof.
  simpl. intros ([b|e] & tr' & -> & [-> ->]); [right|left]; eauto.
Qed.

Lemma length_URLEncoding32 b :
  length b = 32%nat → String.length (URLEncoding_EncodeToString b) = 44%nat.
Proof.
  intros Hb. unfold URLEncoding_EncodeToString. rewrite length_string_of_bytes.
  do 33 (destruct b as [|? b]; try done).
Qed.

Section password_lemmas.
Context `{Argon2}.

Lemma scan_lit_app lit rs : password.scan_lit lit (lit ++ rs) = Some rs.
Proof. induction lit as [|c lit IH]; [done|]. simpl. by rewrite Z.eqb_refl. Qed.

Definition stops_digits (rest : list Z) : Prop :=
  match rest with [] => True | r :: _ => is_digit_byte r = false end.

Lemma span_digits_app ds rest :
  Forall (λ d, 0 ≤ d < 10) ds → stops_digits rest →
  password.span_digits (((λ d, 48 + d) <$> ds) ++ rest) = (ds, rest).
Proof.
  intros Hds Hrest. induction Hds as [|d ds Hd Hds IH].
  - destruct rest as [|r rest]; [done|]. simpl in *. by rewrite Hrest.
  - csimpl. rewrite IH. unfold is_digit_byte, in_range.
    replace ((48 <=? 48 + d) && (48 + d <=? 57)) with true by lia.
    by replace (48 + d - 48) with d by lia.
Qed.

Lemma skip_space_digits ds rest :
  ds ≠ [] → Forall (λ d, 0 ≤ d < 10) ds →
  password.skip_space (((λ d, 48 + d) <$> ds) ++ rest) = Some (((λ d, 48 + d) <$> ds) ++ rest).
Proof.
  intros Hne Hds. destruct Hds as [|d ds Hd Hds]; [done|]. csimpl.
  rewrite is_space_graphic by lia. by replace (48 + d =? 10) with false by lia.
Qed.

Lemma scan_uint_fmt bits n rest :
  0 ≤ n < 2 ^ bits → stops_digits rest →
  password.scan_uint bits (bytes_of_string (fmt_d n) ++ rest) = Some (n, rest).
Proof.
  intros Hn Hrest. unfold password.scan_uint.
  rewrite fmt_d_bytes by lia.
  destruct (digits_of_spec n) as (Hv & Hd & _ & Hne); [lia|].
  rewrite skip_space_digits by done. simpl.
  rewrite span_digits_app by done. rewrite Hv.
  replace (n <? 2 ^ bits) with true by lia.
  by destruct (digits_of n).
Qed.

Lemma Sscanf_params_fmt mem iters par :
  0 ≤ mem < 2 ^ 32 → 0 ≤ iters < 2 ^ 32 → 0 ≤ par < 2 ^ 8 →
  password.Sscanf_params
    ("m=" +:+ fmt_d mem +:+ ",t=" +:+ fmt_d iters +:+ ",p=" +:+ fmt_d par)
  = Some (mem, iters, par).
Proof.
  intros Hm Hi Hp. unfold password.Sscanf_params.
  rewrite runes_ascii.
  2:{ rewrite !bytes_of_string_app.
      pose proof (fmt_d_digits mem ltac:(lia)). pose proof (fmt_d_digits iters ltac:(lia)).
      pose proof (fmt_d_digits par ltac:(lia)).
      repeat (apply Forall_app; split);
        try (eapply Forall_impl; [eassumption|]; simpl; lia);
        repeat (apply Forall_cons; split; [done|]); apply Forall_nil_2. }
  rewrite !bytes_of_string_app, scan_lit_app. cbn [mbind option_bind].
  rewrite scan_uint_fmt by done. cbn [mbind option_bind].
  rewrite scan_lit_app. cbn [mbind option_bind].
  rewrite scan_uint_fmt by done. cbn [mbind option_bind].
  rewrite scan_lit_app. cbn [mbind option_bind].
  rewrite <-(app_nil_r (bytes_of_string (fmt_d par))).
  by rewrite scan_uint_fmt.
Qed.

Lemma Split_encode_hash v mem iters par salt hash :
  0 ≤ v → 0 ≤ mem → 0 ≤ iters → 0 ≤ par →
  Forall byte_ok salt → Forall byte_ok hash →
  strings_Split "$" (password.encode_hash v mem iters par
      (RawStdEncoding_EncodeToString salt) (RawStdEncoding_EncodeToString hash))
  = [""; "argon2id"; "v=" +:+ fmt_d v;
     "m=" +:+ fmt_d mem +:+ ",t=" +:+ fmt_d iters +:+ ",p=" +:+ fmt_d par;
     RawStdEncoding_EncodeToString salt; RawStdEncoding_EncodeToString hash].
Proof.
  intros Hv Hm Hi Hp Hs Hh.
  set (params := "m=" +:+ fmt_d mem +:+ ",t=" +:+ fmt_d iters +:+ ",p=" +:+ fmt_d par).
  set (S := RawStdEncoding_EncodeToString salt).
  set (H' := RawStdEncoding_EncodeToString hash).
  assert (password.encode_hash v mem iters par S H' =
    "" +:+ String "$" ("argon2id" +:+ String "$" (("v=" +:+ fmt_d v) +:+ String "$"
      (params +:+ String "$" (S +:+ String "$" H'))))) as ->.
  { unfold password.encode_hash, params. rewrite !str_app_assoc. reflexivity. }
  rewrite !strings_Split_cons; rewrite ?strings_Split_none; try done;
    unfold params, S, H'; rewrite ?no_byte_app; split_and?;
    first [done | apply fmt_d_no_byte; [done|by left]
          | apply RawStdEncoding_no_byte; done].
Qed.

(** Checking a password against an encoded hash recomputes the key with the
    encoded parameters and compares. *)
Lemma Verify_encode_hash p v mem iters par salt hash :
  0 ≤ v → 0 ≤ mem < 2 ^ 32 → 0 ≤ iters < 2 ^ 32 → 0 ≤ par < 2 ^ 8 →
  Forall byte_ok salt → Forall byte_ok hash →
  password.Verify p (password.encode_hash v mem iters par
      (RawStdEncoding_EncodeToString salt) (RawStdEncoding_EncodeToString hash))
  = Ok (bool_decide (argon2_IDKey (bytes_of_string p) salt iters mem par
                       (Z.of_nat (length hash) mod 2 ^ 32) = hash)).
Proof.
  intros Hv Hm Hi Hp Hs Hh. unfold password.Verify.
  rewrite Split_encode_hash by (done || lia).
  rewrite Sscanf_params_fmt by done.
  by rewrite !RawStdEncoding_roundtrip.
Qed.

End password_lemmas.

(** A hash made by [password.Hash] accepts the passwords with the same key. *)
Lemma Verify_hashed `{Argon2, !Argon2Spec} p q salt :
  Forall byte_ok salt →
  password.Verify q (password.encode_hash argon2_Version 65536 3 4
    (RawStdEncoding_EncodeToString salt)
    (RawStdEncoding_EncodeToString (argon2_IDKey (bytes_of_string p) salt 3 65536 4 32))) =
  Ok (bool_decide (argon2_IDKey (bytes_of_string q) salt 3 65536 4 32 =
                   argon2_IDKey (bytes_of_string p) salt 3 65536 4 32)).
Proof.
  intros Hs. rewrite Verify_encode_hash; try done;
    auto using argon2_version_nonneg, argon2_key_bytes.
  by rewrite argon2_key_length.
Qed.

(** ** Properties *)

(** The random source fills the whole buffer with bytes. *)
Definition rand_ok (tr : list (callrec portE)) : Prop :=
  ∀ n b, Call (RandRead n) (Ok b) ∈ tr → length b = n ∧ Forall byte_ok b.

(** C36: a password checked against a hash made by [password.Hash] is accepted
    exactly when its argon2id key under the stored salt and parameters is the
    stored key; the hashed password itself is always accepted.  [Hash] fails
    only when the random source fails. *)
Theorem password_roundtrip `{Argon2, !Argon2Spec} p tr r :
  exec (password.Hash p) tr r → rand_ok tr →
  match r with
  | Ok enc =>
      (∃ salt, tr = [Call (RandRead 16) (Ok salt)] ∧
        ∀ q, password.Verify q enc =
             Ok (bool_decide
                   (argon2_IDKey (bytes_of_string q) salt 3 65536 4 32 =
                    argon2_IDKey (bytes_of_string p) salt 3 65536 4 32))) ∧
      password.Verify p enc = Ok true
  | Err e => ∃ e', tr = [Call (RandRead 16) (Err e')] ∧ e = ErrorfW "generate salt" e'
  end.
Proof.
  intros Hex Hrand. unfold password.Hash in Hex. simpl in Hex.
  destruct Hex as ([salt|e] & tr' & -> & -> & ->); [|by eauto].
  destruct (Hrand 16%nat salt) as [_ Hs]; [by apply list_elem_of_singleton|].
  split.
  - exists salt. split; [done|]. intros q. by apply Verify_hashed.
  - rewrite Verify_hashed by done. by rewrite bool_decide_eq_true_2.
Qed.

(** A generated token is the URL-safe base64 text of 32 random bytes, 44
    characters long; what is stored is its SHA-256 digest in 64 hexadecimal
    characters, which is what [token.Hash] computes from the text the client
    sends back. *)
Lemma token_Generate_spec tr plain hashed :
  exec token.Generate tr (Ok (plain, hashed)) → rand_ok tr →
  hashed = token.Hash plain ∧
  String.length plain = 44%nat ∧
  String.length hashed = 64%nat ∧ Forall is_hex (bytes_of_string hashed) ∧
  ∃ b, tr = [Call (RandRead 32) (Ok b)] ∧ plain = URLEncoding_EncodeToString b.
Proof.
  intros [(e & _ & ?)|(b & -> & ?)]%exec_token_Generate Hrand; simplify_eq.
  destruct (Hrand 32%nat b) as [Hl _]; [by apply list_elem_of_singleton|].
  split_and!; [done|by apply length_URLEncoding32|apply length_token_Hash
              |apply token_Hash_hex|eauto].
Qed.

(** a one-time code is six decimal digits, and denotes the big-endian value
    of the four random bytes modulo one million. *)
Lemma otp_Generate_spec tr code :
  exec otp.Generate tr (Ok code) → rand_ok tr →
  ∃ b0 b1 b2 b3 ds,
    tr = [Call (RandRead 4) (Ok [b0; b1; b2; b3])] ∧
    bytes_of_string code = (λ d, 48 + d) <$> ds ∧ length ds = 6%nat ∧
    Forall (λ d, 0 ≤ d < 10) ds ∧
    digits_value ds = (((b0 * 256 + b1) * 256 + b2) * 256 + b3) mod 1000000.
Proof.
  simpl. intros ([b|e] & tr' & -> & -> & Heq) Hrand; simplify_eq.
  destruct (Hrand 4%nat b) as [Hl Hb]; [by apply list_elem_of_singleton|].
  destruct b as [|b0 [|b1 [|b2 [|b3 [|]]]]]; try done.
  rewrite be_Uint32_value by done.
  set (v := (((b0 * 256 + b1) * 256 + b2) * 256 + b3) mod 1000000).
  assert (0 ≤ v < 1000000) as Hv by (apply Z.mod_pos_bound; lia).
  destruct (digits_of_spec v) as (Hval & Hd & Hlen & _); [lia|].
  specialize (Hlen 6%nat ltac:(lia) ltac:(simpl; lia)).
  assert (Forall (λ d, 0 ≤ d < 10)
            (replicate (6 - length (digits_of v)) 0 ++ digits_of v)) as Hds.
  { apply Forall_app; split; [apply Forall_replicate; lia|done]. }
  eexists b0, b1, b2, b3, _. split_and!; [done| | |exact Hds|].
  - unfold fmt_0d. by apply bytes_of_string_of_digits.
  - rewrite length_app, length_replicate. lia.
  - by rewrite digits_value_zeros.
Qed.
