(* ===== verification/Service.v ===== *)
(** * The service ([internal/service/auth/auth.go])

    Every RPC handler of [AuthService] as a program of port calls, in the order
    in which the code makes them, with every early return.  A log line is a
    [Slog] call with its level and message; its attributes are left out.  The
    body of a [go] statement is queued as a [job], and [run_job] is what the
    goroutine does. *)

From Stdlib Require Import Ascii String.
From S2P Require Import Prelude GoStd Ports Validate Crypto.
Open Scope Z_scope.

(** ** The request context *)

(** The incoming gRPC metadata (keys in lower case, as gRPC delivers them) and
    the address of the peer. *)
Record Ctx := {
  ctx_md : option (gmap string (list string));
  ctx_peer : option string
}.

(** [md.Get(k)]. *)
Definition md_Get (md : gmap string (list string)) (k : string) : list string :=
  default [] (md !! k).

(** The loop over the parts of X-Forwarded-For, from the last to the first. *)
Fixpoint first_nonempty (parts : list string) : option string :=
  match parts with
  | [] => None
  | p :: parts' =>
      let ip := strings_TrimSpace p in
      if bool_decide (ip = "") then first_nonempty parts' else Some ip
  end.
Definition rightmost_ip (xff : string) : option string :=
  first_nonempty (reverse (strings_Split "," xff)).

Definition extractClientInfo (ctx : Ctx) : string * string :=
  let '(ipAddress, userAgent) :=
    match ctx_md ctx with
    | Some md =>
        let ipAddress :=
          match md_Get md "x-forwarded-for" with
          | xff :: _ => default "" (rightmost_ip xff)
          | [] => ""
          end in
        let userAgent :=
          match md_Get md "user-agent" with ua :: _ => ua | [] => "" end in
        let ipAddress :=
          if bool_decide (ipAddress = "") then
            match md_Get md "x-real-ip" with xri :: _ => xri | [] => ipAddress end
          else ipAddress in
        (ipAddress, userAgent)
    | None => ("", "")
    end in
  let ipAddress :=
    if bool_decide (ipAddress = "") then
      match ctx_peer ctx with
      | Some addr =>
          match net_SplitHostPort addr with
          | Some (host, _) => host
          | None => ipAddress
          end
      | None => ipAddress
      end
    else ipAddress in
  (ipAddress, userAgent).

(** ** The service and its helpers *)

(** Whether the optional dependencies are set, and the lifetime of a session. *)
Record AuthService := {
  svc_auditStore : bool;
  svc_hook : bool;
  svc_bruteGuard : bool;
  svc_refreshTTL : duration
}.

Module auth.

(** [auth.New]: a dependency that is not given is nil.  The stores, the token
    manager and the caches are what answers the calls. *)
Definition New (auditStore bruteGuard hook : bool) (refreshTTL : duration) : AuthService :=
  {| svc_auditStore := auditStore; svc_hook := hook; svc_bruteGuard := bruteGuard;
     svc_refreshTTL := refreshTTL |}.

End auth.

Abbreviation M := (prog portE).

Section service.
Context `{Argon2, UnicodeTables}.
Context (s : AuthService).

Definition internal_error : status := Status Internal "internal error".

Definition extractUserIDFromCtx (ctx : Ctx) : M (reply string) :=
  match ctx_md ctx with
  | None => Ret (Refuse (Status Unauthenticated "missing metadata"))
  | Some md =>
      match md_Get md "authorization" with
      | [] => Ret (Refuse (Status Unauthenticated "missing authorization header"))
      | hdr :: _ =>
          match strings_CutPrefix hdr "Bearer " with
          | None => Ret (Refuse (Status Unauthenticated "invalid authorization header format"))
          | Some tokenStr =>
              call r <- TokValidate tokenStr;;
              match r with
              | Err _ => Ret (Refuse (Status Unauthenticated "invalid access token"))
              | Ok claims => Ret (Reply (claims_UserID claims))
              end
          end
      end
  end.

Definition cacheSession (tokenHash : string) (sess : CachedSession) : M unit :=
  call now <- Now;;
  let ttl := time_Sub (cs_ExpiresAt sess) now in
  if ttl <=? 0 then Ret tt
  else
    call err <- CacheSet tokenHash sess ttl;;
    match err with
    | Some _ => do Slog LevelError "set session cache";; Ret tt
    | None => Ret tt
    end.

Definition getCachedSession (tokenHash : string) : M (result CachedSession) :=
  trigger (CacheGet tokenHash).

Definition deleteSessionFromCache (tokenHash : string) : M unit :=
  call err <- CacheDelete tokenHash;;
  match err with
  | Some _ => do Slog LevelError "delete session cache";; Ret tt
  | None => Ret tt
  end.

(** [for _, h := range hashes { s.deleteSessionFromCache(ctx, h) }]. *)
Fixpoint deleteSessionsFromCache (hashes : list string) : M unit :=
  match hashes with
  | [] => Ret tt
  | h :: hashes' => deleteSessionFromCache h;;; deleteSessionsFromCache hashes'
  end.

Definition logAudit (userID : option string) (eventType : AuditEventType)
    (ip ua : string) (meta : gmap string string) : M unit :=
  if negb (svc_auditStore s) then Ret tt
  else
    do Go (JAudit {| ae_UserID := userID; ae_EventType := eventType;
                     ae_IPAddress := ip; ae_UserAgent := ua; ae_Metadata := meta |});;
    Ret tt.

Definition fireHook (userID email : string) (eventType : AuditEventType)
    (ip ua : string) (meta : gmap string string) : M unit :=
  do Go (JHook {| he_Type := eventType; he_UserID := userID; he_UserEmail := email;
                  he_IPAddress := ip; he_UserAgent := ua; he_Metadata := meta |});;
  Ret tt.

(** What a queued goroutine does: it calls the store or the hook and logs an
    error.  Calling a method of a nil interface panics. *)
Inductive job_outcome := JobDone | JobLogged (msg : string) | JobPanic.

Definition run_job (audit_Log : AuditEvent → option error)
    (hook_OnEvent : HookEvent → option error) (j : job) : job_outcome :=
  match j with
  | JAudit e =>
      match audit_Log e with Some _ => JobLogged "audit log" | None => JobDone end
  | JHook e =>
      if negb (svc_hook s) then JobPanic
      else match hook_OnEvent e with Some _ => JobLogged "hook error" | None => JobDone end
  end.

(** ** Register *)

Record RegisterRequest := { reg_Email : string; reg_Password : string }.
Record RegisterResponse := { reg_UserId : string }.

Definition Register (ctx : Ctx) (req : RegisterRequest) : M (reply RegisterResponse) :=
  match Email (reg_Email req) with
  | Some err => Ret (Refuse (Status InvalidArgument err))
  | None =>
  match Password (reg_Password req) with
  | Some err => Ret (Refuse (Status InvalidArgument err))
  | None =>
      hash <- password.Hash (reg_Password req);;
      match hash with
      | Err _ => do Slog LevelError "hash password";; Ret (Refuse internal_error)
      | Ok hash =>
          call user <- UserCreate (reg_Email req) hash;;
          match user with
          | Err err =>
              if errors_Is err ErrUserAlreadyExists
              then Ret (Refuse (Status AlreadyExists "email already registered"))
              else do Slog LevelError "create user";; Ret (Refuse internal_error)
          | Ok user =>
              let '(ipAddr, userAgent) := extractClientInfo ctx in
              logAudit (Some (user_ID user)) AuditEventRegister ipAddr userAgent
                {["email" := user_Email user]};;;
              fireHook (user_ID user) (user_Email user) AuditEventRegister ipAddr userAgent
                {["email" := user_Email user]};;;
              do Slog LevelInfo "user registered";;
              Ret (Reply {| reg_UserId := user_ID user |})
          end
      end
  end
  end.

(** ** Login *)

Record LoginRequest := { login_Email : string; login_Password : string; login_DeviceId : string }.
Record TokenPair := { AccessToken : string; RefreshTokenPlain : string }.

Definition locked_status : status :=
  Status ResourceExhausted
    "account temporarily locked due to too many failed attempts, try again later".
Definition invalid_credentials : status := Status Unauthenticated "invalid credentials".

(** From a verified password to the response. *)
Definition login_issue (user : User) (req : LoginRequest) (ipAddr userAgent : string)
    : M (reply TokenPair) :=
  call accessToken <- TokGenerate (user_ID user) (user_Email user) ["user"];;
  match accessToken with
  | Err _ => do Slog LevelError "generate access token";; Ret (Refuse internal_error)
  | Ok accessToken =>
  refresh <- token.Generate;;
  match refresh with
  | Err _ => do Slog LevelError "generate refresh token";; Ret (Refuse internal_error)
  | Ok (plainRefresh, hashedRefresh) =>
      let deviceID := if bool_decide (login_DeviceId req = "")
                      then userAgent else login_DeviceId req in
      call now <- Now;;
      let sess := {| sess_ID := ""; sess_UserID := user_ID user; sess_UserEmail := "";
                     sess_TokenHash := hashedRefresh; sess_DeviceID := deviceID;
                     sess_UserAgent := userAgent; sess_IPAddress := ipAddr;
                     sess_ExpiresAt := time_Add now (svc_refreshTTL s);
                     sess_LastUsedAt := zero_time; sess_CreatedAt := zero_time |} in
      call created <- SessCreate sess;;
      match created with
      | Err _ => do Slog LevelError "create session";; Ret (Refuse internal_error)
      | Ok sess =>
          cacheSession hashedRefresh
            {| cs_SessionID := sess_ID sess; cs_UserID := user_ID user;
               cs_UserEmail := user_Email user; cs_DeviceID := deviceID;
               cs_ExpiresAt := sess_ExpiresAt sess |};;;
          let meta := {["email" := user_Email user; "device_id" := deviceID;
                        "session_id" := sess_ID sess]} in
          logAudit (Some (user_ID user)) AuditEventLoginSuccess ipAddr userAgent meta;;;
          fireHook (user_ID user) (user_Email user) AuditEventLoginSuccess ipAddr userAgent meta;;;
          do Slog LevelInfo "user logged in";;
          Ret (Reply {| AccessToken := accessToken; RefreshTokenPlain := plainRefresh |})
      end
  end
  end.

(** The branch of a wrong password. *)
Definition login_failed (user : User) (email ipAddr userAgent : string)
    : M (reply TokenPair) :=
  let failure :=
    logAudit (Some (user_ID user)) AuditEventLoginFailure ipAddr userAgent {["email" := email]};;;
    fireHook (user_ID user) (user_Email user) AuditEventLoginFailure ipAddr userAgent
      {["email" := email]};;;
    Ret (Refuse invalid_credentials) in
  if svc_bruteGuard s then
    call wasLocked <- GuardRecordFailure email;;
    match wasLocked with
    | Err _ => do Slog LevelError "record brute force failure";; failure
    | Ok true =>
        logAudit (Some (user_ID user)) AuditEventLoginBlocked ipAddr userAgent {["email" := email]};;;
        fireHook (user_ID user) (user_Email user) AuditEventLoginBlocked ipAddr userAgent
          {["email" := email]};;;
        Ret (Refuse locked_status)
    | Ok false => failure
    end
  else failure.

(** From the lockout check on. *)
Definition login_check (req : LoginRequest) (ipAddr userAgent : string)
    : M (reply TokenPair) :=
  call user <- UserGetByEmail (login_Email req);;
  match user with
  | Err err =>
      if errors_Is err ErrUserNotFound then
        logAudit None AuditEventLoginFailure ipAddr userAgent {["email" := login_Email req]};;;
        fireHook "" (login_Email req) AuditEventLoginFailure ipAddr userAgent
          {["email" := login_Email req]};;;
        Ret (Refuse invalid_credentials)
      else do Slog LevelError "get user";; Ret (Refuse internal_error)
  | Ok user =>
      match password.Verify (login_Password req) (user_PasswordHash user) with
      | Err _ => do Slog LevelError "verify password";; Ret (Refuse internal_error)
      | Ok false => login_failed user (login_Email req) ipAddr userAgent
      | Ok true =>
          if svc_bruteGuard s then
            do GuardReset (login_Email req);; login_issue user req ipAddr userAgent
          else login_issue user req ipAddr userAgent
      end
  end.

Definition Login (ctx : Ctx) (req : LoginRequest) : M (reply TokenPair) :=
  match Email (login_Email req) with
  | Some err => Ret (Refuse (Status InvalidArgument err))
  | None =>
      let '(ipAddr, userAgent) := extractClientInfo ctx in
      if svc_bruteGuard s then
        call locked <- GuardIsLocked (login_Email req);;
        match locked with
        | Err _ => do Slog LevelError "check brute force";; login_check req ipAddr userAgent
        | Ok true =>
            logAudit None AuditEventLoginBlocked ipAddr userAgent {["email" := login_Email req]};;;
            fireHook "" (login_Email req) AuditEventLoginBlocked ipAddr userAgent
              {["email" := login_Email req]};;;
            Ret (Refuse locked_status)
        | Ok false => login_check req ipAddr userAgent
        end
      else login_check req ipAddr userAgent
  end.

(** ** ValidateToken *)

Record ValidateTokenResponse := { vt_Valid : bool; vt_UserId : string; vt_Roles : list string }.

Definition ValidateToken (tok : string) : M (reply ValidateTokenResponse) :=
  call claims <- TokValidate tok;;
  match claims with
  | Err _ => Ret (Reply {| vt_Valid := false; vt_UserId := ""; vt_Roles := [] |})
  | Ok claims =>
      Ret (Reply {| vt_Valid := true; vt_UserId := claims_UserID claims;
                    vt_Roles := claims_Roles claims |})
  end.

(** ** RefreshToken *)

Record RefreshTokenRequest := { rr_RefreshToken : string; rr_DeviceId : string }.

Definition invalid_refresh : status := Status Unauthenticated "invalid refresh token".

(** From a session found in the cache or the store on. *)
Definition refresh_rotate (ctx : Ctx) (req : RefreshTokenRequest) (tokenHash : string)
    (cached : CachedSession) : M (reply TokenPair) :=
  call now <- Now;;
  if time_After now (cs_ExpiresAt cached) then
    call delErr <- SessDeleteByTokenHash tokenHash;;
    match delErr with
    | Some _ => do Slog LevelError "delete expired session";; Ret tt
    | None => Ret tt
    end;;;
    deleteSessionFromCache tokenHash;;;
    Ret (Refuse (Status Unauthenticated "refresh token expired"))
  else
  call newAccessToken <- TokGenerate (cs_UserID cached) (cs_UserEmail cached) ["user"];;
  match newAccessToken with
  | Err _ => do Slog LevelError "generate access token";; Ret (Refuse internal_error)
  | Ok newAccessToken =>
  refresh <- token.Generate;;
  match refresh with
  | Err _ => do Slog LevelError "generate refresh token";; Ret (Refuse internal_error)
  | Ok (newPlain, newHash) =>
      let '(ipAddr, userAgent) := extractClientInfo ctx in
      let deviceID := if bool_decide (rr_DeviceId req = "")
                      then cs_DeviceID cached else rr_DeviceId req in
      call now2 <- Now;;
      let newSess := {| sess_ID := ""; sess_UserID := cs_UserID cached; sess_UserEmail := "";
                        sess_TokenHash := newHash; sess_DeviceID := deviceID;
                        sess_UserAgent := userAgent; sess_IPAddress := ipAddr;
                        sess_ExpiresAt := time_Add now2 (svc_refreshTTL s);
                        sess_LastUsedAt := zero_time; sess_CreatedAt := zero_time |} in
      call rotated <- SessRotateToken tokenHash newSess;;
      match rotated with
      | Err err =>
          if errors_Is err ErrSessionNotFound then Ret (Refuse invalid_refresh)
          else do Slog LevelError "rotate session";; Ret (Refuse internal_error)
      | Ok newSess =>
          deleteSessionFromCache tokenHash;;;
          cacheSession newHash
            {| cs_SessionID := sess_ID newSess; cs_UserID := cs_UserID cached;
               cs_UserEmail := cs_UserEmail cached; cs_DeviceID := deviceID;
               cs_ExpiresAt := sess_ExpiresAt newSess |};;;
          logAudit (Some (cs_UserID cached)) AuditEventTokenRefresh ipAddr userAgent
            {["session_id" := sess_ID newSess]};;;
          fireHook (cs_UserID cached) (cs_UserEmail cached) AuditEventTokenRefresh ipAddr userAgent
            {["session_id" := sess_ID newSess]};;;
          Ret (Reply {| AccessToken := newAccessToken; RefreshTokenPlain := newPlain |})
      end
  end
  end.

Definition RefreshToken (ctx : Ctx) (req : RefreshTokenRequest) : M (reply TokenPair) :=
  let tokenHash := token.Hash (rr_RefreshToken req) in
  cached <- getCachedSession tokenHash;;
  match cached with
  | Ok cached => refresh_rotate ctx req tokenHash cached
  | Err _ =>
      call dbSess <- SessGetByTokenHash tokenHash;;
      match dbSess with
      | Err dbErr =>
          if errors_Is dbErr ErrSessionNotFound then Ret (Refuse invalid_refresh)
          else do Slog LevelError "get session from db";; Ret (Refuse internal_error)
      | Ok dbSess =>
          refresh_rotate ctx req tokenHash
            {| cs_SessionID := sess_ID dbSess; cs_UserID := sess_UserID dbSess;
               cs_UserEmail := sess_UserEmail dbSess; cs_DeviceID := sess_DeviceID dbSess;
               cs_ExpiresAt := sess_ExpiresAt dbSess |}
      end
  end.

(** ** Logout *)

Definition Logout (ctx : Ctx) (refreshToken : string) : M (reply unit) :=
  let tokenHash := token.Hash refreshToken in
  cached <- getCachedSession tokenHash;;
  let '(userID, userEmail) :=
    match cached with
    | Ok cached => (Some (cs_UserID cached), cs_UserEmail cached)
    | Err _ => (None, "")
    end in
  call err <- SessDeleteByTokenHash tokenHash;;
  match err with
  | Some _ => do Slog LevelError "delete session";; Ret (Refuse internal_error)
  | None =>
      deleteSessionFromCache tokenHash;;;
      let '(ipAddr, userAgent) := extractClientInfo ctx in
      logAudit userID AuditEventLogout ipAddr userAgent ∅;;;
      let uid := default "" userID in
      fireHook uid userEmail AuditEventLogout ipAddr userAgent ∅;;;
      Ret (Reply tt)
  end.

(** ** LogoutAll *)

(** From the authenticated user on.  The response counts the sessions in an
    [int32]. *)
Definition logout_all_of (ctx : Ctx) (userID : string) : M (reply Z) :=
  call res <- SessDeleteAllByUserID userID;;
  match res with
  | (_, Some _) => do Slog LevelError "delete all sessions";; Ret (Refuse internal_error)
  | (hashes, None) =>
      deleteSessionsFromCache hashes;;;
      let '(ipAddr, userAgent) := extractClientInfo ctx in
      let n := Z.of_nat (length hashes) in
      logAudit (Some userID) AuditEventLogoutAll ipAddr userAgent
        {["sessions_revoked" := fmt_d n]};;;
      fireHook userID "" AuditEventLogoutAll ipAddr userAgent
        {["sessions_revoked" := fmt_d n]};;;
      do Slog LevelInfo "all sessions revoked";;
      Ret (Reply (wrap32 n))
  end.

Definition LogoutAll (ctx : Ctx) : M (reply Z) :=
  userID <- extractUserIDFromCtx ctx;;
  match userID with
  | Refuse st => Ret (Refuse st)
  | Reply userID => logout_all_of ctx userID
  end.

(** ** ListSessions *)

Record SessionInfo := {
  si_SessionId : string;
  si_DeviceId : string;
  si_UserAgent : string;
  si_IpAddress : string;
  si_CreatedAt : Z;
  si_LastUsedAt : Z
}.

Definition session_info (sess : Session) : SessionInfo :=
  {| si_SessionId := sess_ID sess; si_DeviceId := sess_DeviceID sess;
     si_UserAgent := sess_UserAgent sess; si_IpAddress := sess_IPAddress sess;
     si_CreatedAt := time_Unix (sess_CreatedAt sess);
     si_LastUsedAt := time_Unix (sess_LastUsedAt sess) |}.

(** From the authenticated user on. *)
Definition list_sessions_of (userID : string) : M (reply (list SessionInfo)) :=
  call sessions <- SessListByUserID userID;;
  match sessions with
  | Err _ => do Slog LevelError "list sessions";; Ret (Refuse internal_error)
  | Ok sessions => Ret (Reply (map session_info sessions))
  end.

Definition ListSessions (ctx : Ctx) : M (reply (list SessionInfo)) :=
  userID <- extractUserIDFromCtx ctx;;
  match userID with
  | Refuse st => Ret (Refuse st)
  | Reply userID => list_sessions_of userID
  end.

(** ** RevokeSession *)

(** From the authenticated user on. *)
Definition revoke_session_of (ctx : Ctx) (sessionId userID : string) : M (reply unit) :=
  call tokenHash <- SessDeleteByID sessionId userID;;
  match tokenHash with
  | Err err =>
      if errors_Is err ErrSessionNotFound
      then Ret (Refuse (Status NotFound "session not found"))
      else do Slog LevelError "delete session";; Ret (Refuse internal_error)
  | Ok tokenHash =>
      deleteSessionFromCache tokenHash;;;
      let '(ipAddr, userAgent) := extractClientInfo ctx in
      logAudit (Some userID) AuditEventSessionRevoke ipAddr userAgent
        {["session_id" := sessionId]};;;
      fireHook userID "" AuditEventSessionRevoke ipAddr userAgent
        {["session_id" := sessionId]};;;
      Ret (Reply tt)
  end.

Definition RevokeSession (ctx : Ctx) (sessionId : string) : M (reply unit) :=
  userID <- extractUserIDFromCtx ctx;;
  match userID with
  | Refuse st => Ret (Refuse st)
  | Reply userID => revoke_session_of ctx sessionId userID
  end.

(** ** ChangePassword *)

Record ChangePasswordRequest := {
  cp_CurrentPassword : string;
  cp_NewPassword : string;
  cp_RefreshToken : string
}.

(** From a verified current password on. *)
Definition change_password_to (ctx : Ctx) (user : User) (userID : string)
    (req : ChangePasswordRequest) : M (reply unit) :=
  newHash <- password.Hash (cp_NewPassword req);;
  match newHash with
  | Err _ => do Slog LevelError "hash new password";; Ret (Refuse internal_error)
  | Ok newHash =>
  call err <- UserUpdatePasswordHash userID newHash;;
  match err with
  | Some _ => do Slog LevelError "update password hash";; Ret (Refuse internal_error)
  | None =>
      let keepHash := if bool_decide (cp_RefreshToken req = "") then ""
                      else token.Hash (cp_RefreshToken req) in
      call res <- SessDeleteAllByUserIDExcept userID keepHash;;
      let '(deletedHashes, err) := res in
      match err with
      | Some _ => do Slog LevelError "revoke other sessions";; Ret tt
      | None => Ret tt
      end;;;
      deleteSessionsFromCache deletedHashes;;;
      let '(ipAddr, userAgent) := extractClientInfo ctx in
      logAudit (Some userID) AuditEventPasswordChange ipAddr userAgent ∅;;;
      fireHook userID (user_Email user) AuditEventPasswordChange ipAddr userAgent ∅;;;
      do Slog LevelInfo "password changed";;
      Ret (Reply tt)
  end
  end.

(** From the authenticated user on. *)
Definition change_password_of (ctx : Ctx) (userID : string) (req : ChangePasswordRequest)
    : M (reply unit) :=
  match Password (cp_NewPassword req) with
  | Some err => Ret (Refuse (Status InvalidArgument err))
  | None =>
      call user <- UserGetByID userID;;
      match user with
      | Err _ => do Slog LevelError "get user";; Ret (Refuse internal_error)
      | Ok user =>
          match password.Verify (cp_CurrentPassword req) (user_PasswordHash user) with
          | Err _ => do Slog LevelError "verify password";; Ret (Refuse internal_error)
          | Ok false => Ret (Refuse invalid_credentials)
          | Ok true => change_password_to ctx user userID req
          end
      end
  end.

Definition ChangePassword (ctx : Ctx) (req : ChangePasswordRequest) : M (reply unit) :=
  userID <- extractUserIDFromCtx ctx;;
  match userID with
  | Refuse st => Ret (Refuse st)
  | Reply userID => change_password_of ctx userID req
  end.

(** ** RequestPasswordReset *)

Definition reset_ttl : duration := 15 * minute.

Definition RequestPasswordReset (ctx : Ctx) (email : string) : M (reply unit) :=
  match Email email with
  | Some err => Ret (Refuse (Status InvalidArgument err))
  | None =>
      call user <- UserGetByEmail email;;
      match user with
      | Err err =>
          if errors_Is err ErrUserNotFound then Ret (Reply tt)
          else do Slog LevelError "get user by email";; Ret (Refuse internal_error)
      | Ok user =>
      code <- otp.Generate;;
      match code with
      | Err _ => do Slog LevelError "generate otp";; Ret (Refuse internal_error)
      | Ok code =>
          call err <- ResetSaveOTP (user_ID user) email (token.Hash code) reset_ttl;;
          match err with
          | Some _ => do Slog LevelError "save otp";; Ret (Refuse internal_error)
          | None =>
              let '(ipAddr, userAgent) := extractClientInfo ctx in
              logAudit (Some (user_ID user)) AuditEventPasswordResetRequest ipAddr userAgent ∅;;;
              fireHook (user_ID user) (user_Email user) AuditEventPasswordResetRequest
                ipAddr userAgent {["otp_code" := code]};;;
              Ret (Reply tt)
          end
      end
      end
  end.

(** ** VerifyResetCode *)

Definition maxOTPAttempts : Z := 5.

Definition invalid_code : status := Status Unauthenticated "invalid or expired code".

(** From a correct code on. *)
Definition issue_reset_token (email : string) (record : OTPRecord) : M (reply string) :=
  call err <- ResetDeleteOTP email;;
  match err with
  | Some _ => do Slog LevelWarn "delete otp after verify";; Ret tt
  | None => Ret tt
  end;;;
  tok <- token.Generate;;
  match tok with
  | Err _ => do Slog LevelError "generate reset token";; Ret (Refuse internal_error)
  | Ok (plain, hash) =>
      call err <- ResetSaveResetToken hash (otp_UserID record) email reset_ttl;;
      match err with
      | Some _ => do Slog LevelError "save reset token";; Ret (Refuse internal_error)
      | None => Ret (Reply plain)
      end
  end.

Definition VerifyResetCode (email otp : string) : M (reply string) :=
  match Email email with
  | Some err => Ret (Refuse (Status InvalidArgument err))
  | None =>
      call record <- ResetGetOTP email;;
      match record with
      | Err err =>
          if errors_Is err ErrResetCodeNotFound then Ret (Refuse invalid_code)
          else do Slog LevelError "get otp";; Ret (Refuse internal_error)
      | Ok record =>
      call attempts <- ResetIncrOTPAttempts email;;
      match attempts with
      | Err err =>
          if errors_Is err ErrResetCodeNotFound then Ret (Refuse invalid_code)
          else do Slog LevelError "incr otp attempts";; Ret (Refuse internal_error)
      | Ok attempts =>
          if maxOTPAttempts <=? attempts then
            do ResetDeleteOTP email;;
            Ret (Refuse (Status Unauthenticated "too many attempts"))
          else if negb (bool_decide (token.Hash otp = otp_OTPHash record))
          then Ret (Refuse invalid_code)
          else issue_reset_token email record
      end
      end
  end.

(** ** ResetPassword *)

Definition ResetPassword (ctx : Ctx) (resetToken newPassword : string) : M (reply unit) :=
  match Password newPassword with
  | Some err => Ret (Refuse (Status InvalidArgument err))
  | None =>
      call tokenRec <- ResetGetResetToken (token.Hash resetToken);;
      match tokenRec with
      | Err err =>
          if errors_Is err ErrResetTokenNotFound
          then Ret (Refuse (Status Unauthenticated "invalid or expired reset token"))
          else do Slog LevelError "get reset token";; Ret (Refuse internal_error)
      | Ok tokenRec =>
      call err <- ResetDeleteResetToken (token.Hash resetToken);;
      match err with
      | Some _ => do Slog LevelError "delete reset token";; Ret (Refuse internal_error)
      | None =>
      newHash <- password.Hash newPassword;;
      match newHash with
      | Err _ => do Slog LevelError "hash new password";; Ret (Refuse internal_error)
      | Ok newHash =>
      call err <- UserUpdatePasswordHash (rt_UserID tokenRec) newHash;;
      match err with
      | Some _ => do Slog LevelError "update password hash";; Ret (Refuse internal_error)
      | None =>
          call res <- SessDeleteAllByUserID (rt_UserID tokenRec);;
          let '(deletedHashes, err) := res in
          match err with
          | Some _ => do Slog LevelError "revoke all sessions";; Ret tt
          | None => Ret tt
          end;;;
          deleteSessionsFromCache deletedHashes;;;
          let '(ipAddr, userAgent) := extractClientInfo ctx in
          logAudit (Some (rt_UserID tokenRec)) AuditEventPasswordReset ipAddr userAgent ∅;;;
          fireHook (rt_UserID tokenRec) (rt_Email tokenRec) AuditEventPasswordReset
            ipAddr userAgent ∅;;;
          do Slog LevelInfo "password reset";;
          Ret (Reply tt)
      end
      end
      end
      end
  end.

(** ** The twelve RPCs as one entry point *)

Inductive request :=
| ReqRegister (r : RegisterRequest)
| ReqLogin (r : LoginRequest)
| ReqValidateToken (token : string)
| ReqRefreshToken (r : RefreshTokenRequest)
| ReqLogout (refreshToken : string)
| ReqLogoutAll
| ReqListSessions
| ReqRevokeSession (sessionId : string)
| ReqChangePassword (r : ChangePasswordRequest)
| ReqRequestPasswordReset (email : string)
| ReqVerifyResetCode (email otp : string)
| ReqResetPassword (resetToken newPassword : string).

Inductive response :=
| RespRegister (r : RegisterResponse)
| RespTokens (r : TokenPair)
| RespValidate (r : ValidateTokenResponse)
| RespRevoked (n : Z)
| RespSessions (l : list SessionInfo)
| RespResetToken (tok : string)
| RespEmpty.

Definition respond {A} (f : A → response) (p : M (reply A)) : M (reply response) :=
  r <- p;;
  match r with
  | Reply a => Ret (Reply (f a))
  | Refuse st => Ret (Refuse st)
  end.

Definition serve (ctx : Ctx) (req : request) : M (reply response) :=
  match req with
  | ReqRegister r => respond RespRegister (Register ctx r)
  | ReqLogin r => respond RespTokens (Login ctx r)
  | ReqValidateToken tok => respond RespValidate (ValidateToken tok)
  | ReqRefreshToken r => respond RespTokens (RefreshToken ctx r)
  | ReqLogout tok => respond (λ _, RespEmpty) (Logout ctx tok)
  | ReqLogoutAll => respond RespRevoked (LogoutAll ctx)
  | ReqListSessions => respond RespSessions (ListSessions ctx)
  | ReqRevokeSession sid => respond (λ _, RespEmpty) (RevokeSession ctx sid)
  | ReqChangePassword r => respond (λ _, RespEmpty) (ChangePassword ctx r)
  | ReqRequestPasswordReset email => respond (λ _, RespEmpty) (RequestPasswordReset ctx email)
  | ReqVerifyResetCode email otp => respond RespResetToken (VerifyResetCode email otp)
  | ReqResetPassword tok pw => respond (λ _, RespEmpty) (ResetPassword ctx tok pw)
  end.

End service.
