(* ===== verification/Spec.v ===== *)
(** * What the service relies on: an abstract specification of the ports

    The abstract state holds the users by identifier, the sessions by token
    hash, the cache and reset entries with their expiry, the queued goroutines
    and the log, and (as a ghost) the row first stored under every token hash
    ever used: a token hash is inserted at most once, which holds as long as
    [token.Generate] does not repeat a token.  [port_spec] says, for every port
    operation, which answers and which new states are allowed: any backend
    operation may answer an error and leave the state alone.  [port_lossy] adds
    operations that were carried out and reported as failed, and stores that
    round times; [port_live] says what a backend that does not fail answers.
    They make the three relations [strict], [safe] and [live], against which the
    handlers are verified; a backend is correct if it refines one of them. *)

From Stdlib Require Import Ascii String.
From S2P Require Import Prelude GoStd Ports Crypto.
Open Scope Z_scope.

(** ** The abstract state *)

(** A session as a row of the store.  The joined [UserEmail] and the access
    time [LastUsedAt] are not part of it. *)
Record srow := {
  sr_ID : string;
  sr_UserID : string;
  sr_DeviceID : string;
  sr_UserAgent : string;
  sr_IPAddress : string;
  sr_ExpiresAt : time
}.

Definition row_of (s : Session) : srow :=
  {| sr_ID := sess_ID s; sr_UserID := sess_UserID s; sr_DeviceID := sess_DeviceID s;
     sr_UserAgent := sess_UserAgent s; sr_IPAddress := sess_IPAddress s;
     sr_ExpiresAt := sess_ExpiresAt s |}.

Definition with_ID (id : string) (r : srow) : srow :=
  {| sr_ID := id; sr_UserID := sr_UserID r; sr_DeviceID := sr_DeviceID r;
     sr_UserAgent := sr_UserAgent r; sr_IPAddress := sr_IPAddress r;
     sr_ExpiresAt := sr_ExpiresAt r |}.

Definition with_password (ph : string) (t : time) (u : User) : User :=
  {| user_ID := user_ID u; user_Email := user_Email u; user_PasswordHash := ph;
     user_CreatedAt := user_CreatedAt u; user_UpdatedAt := t |}.

Definition with_attempts (n : Z) (r : OTPRecord) : OTPRecord :=
  {| otp_UserID := otp_UserID r; otp_OTPHash := otp_OTPHash r; otp_Attempts := n |}.

Record astate := AState {
  a_now : time;
  a_users : gmap string User;
  a_sess : gmap string srow;
  a_cache : gmap string (CachedSession * time);
  a_otps : gmap string (OTPRecord * time);
  a_toks : gmap string (ResetTokenRecord * time);
  a_ever : gmap string srow;
  a_jobs : list job;
  a_log : list (level * string)
}.

Definition set_now (t : time) (a : astate) : astate :=
  AState t (a_users a) (a_sess a) (a_cache a) (a_otps a) (a_toks a) (a_ever a) (a_jobs a) (a_log a).
Definition set_users (m : gmap string User) (a : astate) : astate :=
  AState (a_now a) m (a_sess a) (a_cache a) (a_otps a) (a_toks a) (a_ever a) (a_jobs a) (a_log a).
Definition set_sess (m : gmap string srow) (a : astate) : astate :=
  AState (a_now a) (a_users a) m (a_cache a) (a_otps a) (a_toks a) (a_ever a) (a_jobs a) (a_log a).
Definition set_cache (m : gmap string (CachedSession * time)) (a : astate) : astate :=
  AState (a_now a) (a_users a) (a_sess a) m (a_otps a) (a_toks a) (a_ever a) (a_jobs a) (a_log a).
Definition set_otps (m : gmap string (OTPRecord * time)) (a : astate) : astate :=
  AState (a_now a) (a_users a) (a_sess a) (a_cache a) m (a_toks a) (a_ever a) (a_jobs a) (a_log a).
Definition set_toks (m : gmap string (ResetTokenRecord * time)) (a : astate) : astate :=
  AState (a_now a) (a_users a) (a_sess a) (a_cache a) (a_otps a) m (a_ever a) (a_jobs a) (a_log a).
Definition set_jobs (l : list job) (a : astate) : astate :=
  AState (a_now a) (a_users a) (a_sess a) (a_cache a) (a_otps a) (a_toks a) (a_ever a) l (a_log a).
Definition set_log (l : list (level * string)) (a : astate) : astate :=
  AState (a_now a) (a_users a) (a_sess a) (a_cache a) (a_otps a) (a_toks a) (a_ever a) (a_jobs a) l.

(** A new row [r] under the token hash [h] in the rows [m]: also the first row
    ever stored under that hash. *)
Definition add_sess (h : string) (r : srow) (m : gmap string srow) (a : astate) : astate :=
  AState (a_now a) (a_users a) (<[h := r]> m) (a_cache a) (a_otps a) (a_toks a)
    (<[h := r]> (a_ever a)) (a_jobs a) (a_log a).

(** [upto a' a]: [a'] is [a], some time later. *)
Definition upto (a' a : astate) : Prop := ∃ t, a_now a ≤ t ∧ a' = set_now t a.

Definition email_free (m : gmap string User) (email : string) : Prop :=
  ∀ id u, m !! id = Some u → user_Email u ≠ email.
Definition id_free (m : gmap string srow) (id : string) : Prop :=
  ∀ h r, m !! h = Some r → sr_ID r ≠ id.

(** The rows of a user, and what remains without them. *)
Definition rows_of (uid : string) (m : gmap string srow) : gmap string srow :=
  filter (λ kv, sr_UserID kv.2 = uid) m.
Definition rows_not_of (uid : string) (m : gmap string srow) : gmap string srow :=
  filter (λ kv, sr_UserID kv.2 ≠ uid) m.
Definition rows_except (uid keep : string) (m : gmap string srow) : gmap string srow :=
  filter (λ kv, sr_UserID kv.2 = uid ∧ kv.1 ≠ keep) m.
Definition rows_not_except (uid keep : string) (m : gmap string srow) : gmap string srow :=
  filter (λ kv, ¬ (sr_UserID kv.2 = uid ∧ kv.1 ≠ keep)) m.

(** An entry that is present and has not expired at [t]. *)
Definition fresh_entry {A} (m : gmap string (A * time)) (k : string) (t : time) (v : A) : Prop :=
  ∃ exp, m !! k = Some (v, exp) ∧ t ≤ exp.
Definition no_fresh_entry {A} (m : gmap string (A * time)) (k : string) (t : time) : Prop :=
  ∀ v exp, m !! k = Some (v, exp) → exp < t.

(** A clock reading during the operation. *)
Definition during (a a' : astate) (t : time) : Prop := a_now a ≤ t ≤ a_now a'.

(** ** Safety: the allowed answers and states *)

Definition port_spec {X} (e : portE X) : X → astate → astate → Prop :=
  match e in portE X return X → astate → astate → Prop with
  | UserCreate email ph => λ r a a',
      match r with
      | Ok u =>
          user_Email u = email ∧ user_PasswordHash u = ph ∧
          a_users a !! user_ID u = None ∧ email_free (a_users a) email ∧
          upto a' (set_users (<[user_ID u := u]> (a_users a)) a)
      | Err err =>
          upto a' a ∧
          (errors_Is err ErrUserAlreadyExists = true →
           ∃ id u, a_users a !! id = Some u ∧ user_Email u = email)
      end
  | UserGetByEmail email => λ r a a',
      upto a' a ∧
      match r with
      | Ok u => a_users a !! user_ID u = Some u ∧ user_Email u = email
      | Err err => errors_Is err ErrUserNotFound = true → email_free (a_users a) email
      end
  | UserGetByID id => λ r a a',
      upto a' a ∧
      match r with
      | Ok u => a_users a !! id = Some u
      | Err err => errors_Is err ErrUserNotFound = true → a_users a !! id = None
      end
  | UserUpdatePasswordHash uid ph => λ r a a',
      match r with
      | None => ∃ u t, a_users a !! uid = Some u ∧
          upto a' (set_users (<[uid := with_password ph t u]> (a_users a)) a)
      | Some err =>
          upto a' a ∧ (errors_Is err ErrUserNotFound = true → a_users a !! uid = None)
      end
  | SessCreate s => λ r a a',
      match r with
      | Ok x =>
          a_ever a !! sess_TokenHash s = None ∧ id_free (a_sess a) (sess_ID x) ∧
          sess_TokenHash x = sess_TokenHash s ∧ row_of x = with_ID (sess_ID x) (row_of s) ∧
          upto a' (add_sess (sess_TokenHash s) (row_of x) (a_sess a) a)
      | Err _ => upto a' a
      end
  | SessGetByTokenHash h => λ r a a',
      upto a' a ∧
      match r with
      | Ok x => sess_TokenHash x = h ∧ a_sess a !! h = Some (row_of x)
      | Err err => errors_Is err ErrSessionNotFound = true → a_sess a !! h = None
      end
  | SessDeleteByID sid uid => λ r a a',
      match r with
      | Ok h => ∃ row, a_sess a !! h = Some row ∧ sr_ID row = sid ∧ sr_UserID row = uid ∧
                       upto a' (set_sess (delete h (a_sess a)) a)
      | Err err =>
          upto a' a ∧
          (errors_Is err ErrSessionNotFound = true →
           ∀ h row, a_sess a !! h = Some row → sr_ID row = sid → sr_UserID row ≠ uid)
      end
  | SessDeleteByTokenHash h => λ r a a',
      match r with
      | None => upto a' (set_sess (delete h (a_sess a)) a)
      | Some _ => upto a' a
      end
  | SessRotateToken old s => λ r a a',
      match r with
      | Ok x =>
          is_Some (a_sess a !! old) ∧
          a_ever a !! sess_TokenHash s = None ∧
          id_free (delete old (a_sess a)) (sess_ID x) ∧
          sess_TokenHash x = sess_TokenHash s ∧ row_of x = with_ID (sess_ID x) (row_of s) ∧
          upto a' (add_sess (sess_TokenHash s) (row_of x) (delete old (a_sess a)) a)
      | Err err =>
          upto a' a ∧ (errors_Is err ErrSessionNotFound = true → a_sess a !! old = None)
      end
  | SessDeleteAllByUserID uid => λ r a a',
      match r with
      | (hs, None) =>
          hs ≡ₚ (map_to_list (rows_of uid (a_sess a))).*1 ∧
          upto a' (set_sess (rows_not_of uid (a_sess a)) a)
      | (_, Some _) => upto a' a
      end
  | SessDeleteAllByUserIDExcept uid keep => λ r a a',
      match r with
      | (hs, None) =>
          hs ≡ₚ (map_to_list (rows_except uid keep (a_sess a))).*1 ∧
          upto a' (set_sess (rows_not_except uid keep (a_sess a)) a)
      | (_, Some _) => upto a' a
      end
  | SessListByUserID uid => λ r a a',
      upto a' a ∧
      match r with
      | Ok l => (λ x, (sess_TokenHash x, row_of x)) <$> l
                ≡ₚ map_to_list (rows_of uid (a_sess a))
      | Err _ => True
      end
  | TokGenerate _ _ _ => λ _ a a', upto a' a
  | TokValidate _ => λ _ a a', upto a' a
  | CacheSet h cs ttl => λ r a a',
      match r with
      | None => ∃ t, during a a' t ∧
          upto a' (set_cache (<[h := (cs, time_Add t ttl)]> (a_cache a)) a)
      | Some _ => upto a' a
      end
  | CacheGet h => λ r a a',
      match r with
      | Ok cs => upto a' a ∧ ∃ t, during a a' t ∧ fresh_entry (a_cache a) h t cs
      | Err _ =>
          upto a' a ∨
          (upto a' (set_cache (delete h (a_cache a)) a) ∧
           no_fresh_entry (a_cache a) h (a_now a'))
      end
  | CacheDelete h => λ r a a',
      match r with
      | None => upto a' (set_cache (delete h (a_cache a)) a)
      | Some _ => upto a' a
      end
  | ResetSaveOTP uid email oh ttl => λ r a a',
      match r with
      | None => ∃ t, during a a' t ∧
          upto a' (set_otps (<[token.Hash email :=
            ({| otp_UserID := uid; otp_OTPHash := oh; otp_Attempts := 0 |},
             time_Add t ttl)]> (a_otps a)) a)
      | Some _ => upto a' a
      end
  | ResetGetOTP email => λ r a a',
      match r with
      | Ok rec => upto a' a ∧ ∃ t, during a a' t ∧
                  fresh_entry (a_otps a) (token.Hash email) t rec
      | Err err =>
          (upto a' a ∨ (upto a' (set_otps (delete (token.Hash email) (a_otps a)) a) ∧
                        no_fresh_entry (a_otps a) (token.Hash email) (a_now a'))) ∧
          (errors_Is err ErrResetCodeNotFound = true →
           no_fresh_entry (a_otps a) (token.Hash email) (a_now a'))
      end
  | ResetIncrOTPAttempts email => λ r a a',
      match r with
      | Ok n => ∃ rec exp t, during a a' t ∧ t ≤ exp ∧
          a_otps a !! token.Hash email = Some (rec, exp) ∧
          n = wrap64 (otp_Attempts rec + 1) ∧
          upto a' (set_otps (<[token.Hash email := (with_attempts n rec, exp)]> (a_otps a)) a)
      | Err err =>
          (upto a' a ∨ (upto a' (set_otps (delete (token.Hash email) (a_otps a)) a) ∧
                        no_fresh_entry (a_otps a) (token.Hash email) (a_now a'))) ∧
          (errors_Is err ErrResetCodeNotFound = true →
           no_fresh_entry (a_otps a) (token.Hash email) (a_now a'))
      end
  | ResetDeleteOTP email => λ r a a',
      match r with
      | None => upto a' (set_otps (delete (token.Hash email) (a_otps a)) a)
      | Some _ => upto a' a
      end
  | ResetSaveResetToken h uid email ttl => λ r a a',
      match r with
      | None => ∃ t, during a a' t ∧
          upto a' (set_toks (<[h := ({| rt_UserID := uid; rt_Email := email |},
                                     time_Add t ttl)]> (a_toks a)) a)
      | Some _ => upto a' a
      end
  | ResetGetResetToken h => λ r a a',
      match r with
      | Ok rec => upto a' a ∧ ∃ t, during a a' t ∧ fresh_entry (a_toks a) h t rec
      | Err err =>
          (upto a' a ∨ (upto a' (set_toks (delete h (a_toks a)) a) ∧
                        no_fresh_entry (a_toks a) h (a_now a'))) ∧
          (errors_Is err ErrResetTokenNotFound = true →
           no_fresh_entry (a_toks a) h (a_now a'))
      end
  | ResetDeleteResetToken h => λ r a a',
      match r with
      | None => upto a' (set_toks (delete h (a_toks a)) a)
      | Some _ => upto a' a
      end
  | GuardIsLocked _ => λ _ a a', upto a' a
  | GuardRecordFailure _ => λ _ a a', upto a' a
  | GuardReset _ => λ _ a a', upto a' a
  | Now => λ t a a', a_now a ≤ t ∧ a' = set_now t a
  | RandRead n => λ r a a',
      upto a' a ∧
      match r with
      | Ok b => length b = n ∧ Forall byte_ok b
      | Err _ => True
      end
  | Go j => λ _ a a', upto a' (set_jobs (a_jobs a ++ [j]) a)
  | Slog lvl msg => λ _ a a', upto a' (set_log (a_log a ++ [(lvl, msg)]) a)
  end.

(** ** Liveness: the answers of a backend that does not fail *)

Definition is_ok {A} (r : result A) : Prop :=
  match r with Ok _ => True | Err _ => False end.

Definition port_live {X} (e : portE X) : X → astate → astate → Prop :=
  match e in portE X return X → astate → astate → Prop with
  | UserCreate _ _ => λ r _ _,
      match r with Ok _ => True | Err err => errors_Is err ErrUserAlreadyExists = true end
  | UserGetByEmail _ | UserGetByID _ => λ r _ _,
      match r with Ok _ => True | Err err => errors_Is err ErrUserNotFound = true end
  | UserUpdatePasswordHash _ _ => λ r _ _,
      match r with None => True | Some err => errors_Is err ErrUserNotFound = true end
  | SessCreate _ => λ r _ _, is_ok r
  | SessGetByTokenHash _ => λ r _ _,
      match r with Ok _ => True | Err err => errors_Is err ErrSessionNotFound = true end
  | SessDeleteByID _ _ => λ r _ _,
      match r with Ok _ => True | Err err => errors_Is err ErrSessionNotFound = true end
  | SessDeleteByTokenHash _ => λ r _ _, r = None
  | SessRotateToken _ _ => λ r _ _,
      match r with Ok _ => True | Err err => errors_Is err ErrSessionNotFound = true end
  | SessDeleteAllByUserID _ => λ r _ _, r.2 = None
  | SessDeleteAllByUserIDExcept _ _ => λ r _ _, r.2 = None
  | SessListByUserID _ => λ r _ _, is_ok r
  | TokGenerate _ _ _ => λ r _ _, is_ok r
  | TokValidate _ => λ _ _ _, True
  | CacheSet _ _ _ => λ r _ _, r = None
  | CacheGet h => λ r a a',
      match r with Ok _ => True | Err _ => no_fresh_entry (a_cache a) h (a_now a') end
  | CacheDelete _ => λ r _ _, r = None
  | ResetSaveOTP _ _ _ _ => λ r _ _, r = None
  | ResetGetOTP _ => λ r _ _,
      match r with Ok _ => True | Err err => errors_Is err ErrResetCodeNotFound = true end
  | ResetIncrOTPAttempts _ => λ r _ _,
      match r with Ok _ => True | Err err => errors_Is err ErrResetCodeNotFound = true end
  | ResetDeleteOTP _ => λ r _ _, r = None
  | ResetSaveResetToken _ _ _ _ => λ r _ _, r = None
  | ResetGetResetToken _ => λ r _ _,
      match r with Ok _ => True | Err err => errors_Is err ErrResetTokenNotFound = true end
  | ResetDeleteResetToken _ => λ r _ _, r = None
  | GuardIsLocked _ => λ r _ _, is_ok r
  | GuardRecordFailure _ => λ r _ _, is_ok r
  | GuardReset _ => λ _ _ _, True
  | Now => λ _ _ _, True
  | RandRead _ => λ r _ _, is_ok r
  | Go _ => λ _ _ _, True
  | Slog _ _ => λ _ _ _, True
  end.

(** ** Faults: writes that took effect although the caller saw an error

    A call that times out may have been carried out; a store may keep times
    less precisely than it was given them, and may know another spelling of the
    identifier of a session.  [port_lossy] has these answers and states, beyond
    those of [port_spec]. *)

Definition with_expiry (e : time) (r : srow) : srow :=
  {| sr_ID := sr_ID r; sr_UserID := sr_UserID r; sr_DeviceID := sr_DeviceID r;
     sr_UserAgent := sr_UserAgent r; sr_IPAddress := sr_IPAddress r; sr_ExpiresAt := e |}.

(** The row of a session in a store that rounds times down to a multiple of
    [prec]. *)
Definition stored (prec : Z) (x : Session) (row : srow) : Prop :=
  ∃ e, e ≤ sess_ExpiresAt x < e + prec ∧ row = with_expiry e (row_of x).

(** An entry with the lifetime [ttl], to the millisecond. *)
Definition expires_about (a a' : astate) (ttl : duration) (exp : time) : Prop :=
  ∃ t, during a a' t ∧ t + ttl - millisecond < exp ≤ t + Z.max ttl millisecond.

Definition port_lossy (prec : Z) {X} (e : portE X) : X → astate → astate → Prop :=
  match e in portE X return X → astate → astate → Prop with
  | UserCreate email ph => λ r a a',
      ∃ err u, r = Err err ∧ errors_Is err ErrUserAlreadyExists = false ∧
        user_Email u = email ∧ user_PasswordHash u = ph ∧
        a_users a !! user_ID u = None ∧ email_free (a_users a) email ∧
        upto a' (set_users (<[user_ID u := u]> (a_users a)) a)
  | UserUpdatePasswordHash uid ph => λ r a a',
      ∃ err u t, r = Some err ∧ errors_Is err ErrUserNotFound = false ∧
        a_users a !! uid = Some u ∧
        upto a' (set_users (<[uid := with_password ph t u]> (a_users a)) a)
  | SessCreate s => λ r a a',
      ∃ x row, match r with Ok x' => x' = x | Err _ => True end ∧
        a_ever a !! sess_TokenHash s = None ∧ id_free (a_sess a) (sess_ID x) ∧
        sess_TokenHash x = sess_TokenHash s ∧ row_of x = with_ID (sess_ID x) (row_of s) ∧
        stored prec x row ∧ upto a' (add_sess (sess_TokenHash s) row (a_sess a) a)
  | SessDeleteByID sid uid => λ r a a',
      ∃ h row, match r with
        | Ok h' => h' = h
        | Err err => errors_Is err ErrSessionNotFound = false
        end ∧
        a_sess a !! h = Some row ∧ sr_UserID row = uid ∧
        upto a' (set_sess (delete h (a_sess a)) a)
  | SessDeleteByTokenHash h => λ r a a', r ≠ None ∧ upto a' (set_sess (delete h (a_sess a)) a)
  | SessRotateToken old s => λ r a a',
      ∃ x row, match r with
        | Ok x' => x' = x
        | Err err => errors_Is err ErrSessionNotFound = false
        end ∧
        is_Some (a_sess a !! old) ∧ a_ever a !! sess_TokenHash s = None ∧
        id_free (delete old (a_sess a)) (sess_ID x) ∧
        sess_TokenHash x = sess_TokenHash s ∧ row_of x = with_ID (sess_ID x) (row_of s) ∧
        stored prec x row ∧
        upto a' (add_sess (sess_TokenHash s) row (delete old (a_sess a)) a)
  | SessDeleteAllByUserID uid => λ r a a',
      r.2 ≠ None ∧ upto a' (set_sess (rows_not_of uid (a_sess a)) a)
  | SessDeleteAllByUserIDExcept uid keep => λ r a a',
      r.2 ≠ None ∧ upto a' (set_sess (rows_not_except uid keep (a_sess a)) a)
  | CacheSet h cs ttl => λ r a a',
      (r = None ∧ ttl ≤ 0 ∧ upto a' a) ∨
      (∃ exp, expires_about a a' ttl exp ∧
         upto a' (set_cache (<[h := (cs, exp)]> (a_cache a)) a))
  | CacheDelete h => λ r a a', r ≠ None ∧ upto a' (set_cache (delete h (a_cache a)) a)
  | ResetSaveOTP uid email oh ttl => λ r a a',
      ∃ exp, expires_about a a' ttl exp ∧
        upto a' (set_otps (<[token.Hash email :=
          ({| otp_UserID := uid; otp_OTPHash := oh; otp_Attempts := 0 |}, exp)]> (a_otps a)) a)
  | ResetIncrOTPAttempts email => λ r a a',
      (∃ rec exp exp' t n, during a a' t ∧ t ≤ exp ∧ exp - millisecond < exp' ≤ exp ∧
        a_otps a !! token.Hash email = Some (rec, exp) ∧
        n = wrap64 (otp_Attempts rec + 1) ∧
        match r with
        | Ok n' => n' = n
        | Err err => errors_Is err ErrResetCodeNotFound = false
        end ∧
        upto a' (set_otps (<[token.Hash email := (with_attempts n rec, exp')]> (a_otps a)) a)) ∨
      (* an entry in its last millisecond may be reported missing *)
      (∃ rec exp t, ¬ is_ok r ∧ during a a' t ∧ exp < t + millisecond ∧
        a_otps a !! token.Hash email = Some (rec, exp) ∧ upto a' a)
  | ResetDeleteOTP email => λ r a a',
      r ≠ None ∧ upto a' (set_otps (delete (token.Hash email) (a_otps a)) a)
  | ResetSaveResetToken h uid email ttl => λ r a a',
      ∃ exp, expires_about a a' ttl exp ∧
        upto a' (set_toks (<[h := ({| rt_UserID := uid; rt_Email := email |}, exp)]> (a_toks a)) a)
  | ResetDeleteResetToken h => λ r a a',
      r ≠ None ∧ upto a' (set_toks (delete h (a_toks a)) a)
  | _ => λ _ _ _, False
  end.

(** The specifications of a whole backend: one that may fail without effect
    ([strict]), one that also may fail half way and round times ([safe]), and
    one that does not fail ([live]). *)
Definition strict : spec portE astate := λ X e x a a', port_spec e x a a'.
Definition safe (prec : Z) : spec portE astate := λ X e x a a',
  port_spec e x a a' ∨ port_lossy prec e x a a'.
Definition live : spec portE astate := λ X e x a a', port_spec e x a a' ∧ port_live e x a a'.

(** ** Lemmas *)

Create HintDb aspec.

Lemma strict_safe prec X (e : portE X) x a a' : strict X e x a a' → safe prec X e x a a'.
Proof. by left. Qed.
Lemma live_strict X (e : portE X) x a a' : live X e x a a' → strict X e x a a'.
Proof. by intros []. Qed.
Lemma live_safe prec X (e : portE X) x a a' : live X e x a a' → safe prec X e x a a'.
Proof. by intros []; left. Qed.
#[export] Hint Resolve strict_safe live_strict live_safe : aspec.

(** A store that keeps times exactly keeps the row exactly. *)
Lemma stored_exact x row : stored 1 x row → row = row_of x.
Proof.
  intros (e & He & ->). assert (e = sess_ExpiresAt x) as -> by lia. by destruct x.
Qed.

Lemma rexec_live_strict {A} (p : prog portE A) a a' r :
  rexec live p a a' r → rexec strict p a a' r.
Proof. apply rexec_mono, live_strict. Qed.
Lemma rexec_strict_safe prec {A} (p : prog portE A) a a' r :
  rexec strict p a a' r → rexec (safe prec) p a a' r.
Proof. apply rexec_mono, strict_safe. Qed.
Lemma rexec_live_safe prec {A} (p : prog portE A) a a' r :
  rexec live p a a' r → rexec (safe prec) p a a' r.
Proof. apply rexec_mono, live_safe. Qed.

(** What an operation cannot change. *)
Lemma upto_frame a' a :
  upto a' a →
  a_users a' = a_users a ∧ a_sess a' = a_sess a ∧ a_cache a' = a_cache a ∧
  a_otps a' = a_otps a ∧ a_toks a' = a_toks a ∧ a_jobs a' = a_jobs a ∧
  a_log a' = a_log a ∧ a_now a ≤ a_now a'.
Proof. by intros (t & Ht & ->). Qed.

(** ** The invariant of the abstract state *)

(** Users are stored under their own identifier, no two have the same email;
    no two sessions have the same identifier; a stored session is the one first
    stored under its token hash. *)
Record awf (a : astate) : Prop := {
  awf_user_id id u : a_users a !! id = Some u → user_ID u = id;
  awf_email_unique id1 id2 u1 u2 :
    a_users a !! id1 = Some u1 → a_users a !! id2 = Some u2 →
    user_Email u1 = user_Email u2 → id1 = id2;
  awf_sess_unique h1 h2 r1 r2 :
    a_sess a !! h1 = Some r1 → a_sess a !! h2 = Some r2 →
    sr_ID r1 = sr_ID r2 → h1 = h2;
  awf_ever : a_sess a ⊆ a_ever a
}.

Lemma awf_upto a' a : upto a' a → awf a → awf a'.
Proof. intros (t & _ & ->) []. by split. Qed.

Lemma awf_set_sess_sub m a : m ⊆ a_sess a → awf a → awf (set_sess m a).
Proof.
  intros Hsub [H1 H2 H3 H4]. split; simpl; [done..| |by etrans].
  intros h1 h2 r1 r2 Hl1 Hl2. eapply H3; by eapply lookup_weaken.
Qed.

Lemma awf_add_sess h r m a :
  m ⊆ a_sess a → a_ever a !! h = None → id_free m (sr_ID r) →
  awf a → awf (add_sess h r m a).
Proof.
  intros Hm Hh Hfree Ha%(awf_set_sess_sub _ _ Hm). destruct Ha as [H1 H2 H3 H4].
  split; simpl in *; [done..| |by apply insert_mono].
  intros h1 h2 r1 r2 Hl1 Hl2 Hid.
  apply lookup_insert_Some in Hl1 as [[<- <-]|[Hne1 Hl1]],
    Hl2 as [[<- <-]|[Hne2 Hl2]]; [done| | |by eapply H3].
  - by destruct (Hfree _ _ Hl2).
  - by destruct (Hfree _ _ Hl1).
Qed.

Lemma awf_insert_user u a :
  email_free (delete (user_ID u) (a_users a)) (user_Email u) → awf a →
  awf (set_users (<[user_ID u := u]> (a_users a)) a).
Proof.
  intros Hfree [H1 H2 H3 H4]. split; simpl; [| |done..].
  - intros id u' [[<- <-]|[_ Hl]]%lookup_insert_Some; eauto.
  - intros id1 id2 u1 u2 Hl1 Hl2 Hem.
    apply lookup_insert_Some in Hl1 as [[<- <-]|[Hne1 Hl1]],
      Hl2 as [[<- <-]|[Hne2 Hl2]]; [done| | |by eapply H2].
    + destruct (Hfree id2 u2); [by rewrite lookup_delete_ne|done].
    + destruct (Hfree id1 u1); [by rewrite lookup_delete_ne|done].
Qed.

Lemma awf_frame m1 m2 m3 l1 l2 a :
  awf a → awf (AState (a_now a) (a_users a) (a_sess a) m1 m2 m3 (a_ever a) l1 l2).
Proof. intros []. by split. Qed.

(** Case analysis on an allowed call. *)
Ltac inv_spec H :=
  unfold safe, port_lossy, stored in H; simpl in H; repeat case_match;
  repeat match goal with
  | H : _ ∨ _ |- _ => destruct H
  | H : ∃ _, _ |- _ => destruct H
  | H : _ ∧ _ |- _ => destruct H
  end.

(** A password update keeps the identifier and the email. *)
Lemma awf_update uid ph t u a :
  a_users a !! uid = Some u → awf a →
  awf (set_users (<[uid := with_password ph t u]> (a_users a)) a).
Proof.
  intros Hl Ha. assert (uid = user_ID (with_password ph t u)) as Hid
    by (symmetry; exact (awf_user_id a Ha uid u Hl)).
  rewrite Hid. apply awf_insert_user; [|done].
  intros id u' [Hne Hl']%lookup_delete_Some Hem. apply Hne. rewrite <-Hid.
  exact (awf_email_unique a Ha uid id u u' Hl Hl' (eq_sym Hem)).
Qed.

Lemma awf_create u a :
  email_free (a_users a) (user_Email u) → awf a →
  awf (set_users (<[user_ID u := u]> (a_users a)) a).
Proof.
  intros Hfree Ha. apply awf_insert_user; [|done].
  intros id u' [_ Hl]%lookup_delete_Some. exact (Hfree _ _ Hl).
Qed.

(** Every port operation preserves the invariant. *)
Lemma port_spec_awf prec X (e : portE X) x a a' : safe prec X e x a a' → awf a → awf a'.
Proof.
  intros Hs Ha.
  assert (∀ m1 m2 m3 l1 l2,
    upto a' (AState (a_now a) (a_users a) (a_sess a) m1 m2 m3 (a_ever a) l1 l2) → awf a')
    as Hframe by (intros; eapply awf_upto; [eassumption|by apply awf_frame]).
  assert (∀ m, m ⊆ a_sess a → upto a' (set_sess m a) → awf a') as Hsub
    by (intros; eapply awf_upto; [eassumption|by apply awf_set_sess_sub]).
  destruct e; inv_spec Hs; subst; try done;
    first
      [ by eapply awf_upto
      | by eapply Hframe
      | eapply Hsub; [|eassumption]; first [apply delete_subseteq | apply map_filter_subseteq]
      | eapply awf_upto; [eassumption|];
        first [ by apply awf_create | by apply awf_update
              | by apply awf_add_sess
              | apply awf_add_sess; [apply delete_subseteq|done..] ]
      | apply (awf_upto _ a); [eexists; eauto|done] ].
Qed.
#[export] Hint Resolve port_spec_awf : aspec.

(** ** Facts that no operation can undo *)

(** [consumed h a]: the token hash [h] has been issued and has no session any
    more. *)
Definition consumed (h : string) (a : astate) : Prop :=
  is_Some (a_ever a !! h) ∧ a_sess a !! h = None.

Lemma a_ever_mono prec X (e : portE X) x a a' : safe prec X e x a a' → a_ever a ⊆ a_ever a'.
Proof.
  intros Hs. destruct e; inv_spec Hs;
    try match goal with H : upto _ _ |- _ => destruct H as (? & _ & ->) end;
    subst; simpl; try done; by apply insert_subseteq.
Qed.

(** Once issued and removed, a token hash never has a session again. *)
Lemma consumed_stable prec h X (e : portE X) x a a' :
  safe prec X e x a a' → consumed h a → consumed h a'.
Proof.
  intros Hs [Hev Hno]. split.
  - destruct Hev as [r Hr]. exists r. by eapply lookup_weaken, (a_ever_mono prec).
  - destruct e; inv_spec Hs;
      try match goal with H : upto _ _ |- _ => destruct H as (? & _ & ->) end;
      subst; simpl; try done;
      rewrite ?lookup_insert_ne by (intros <-; destruct Hev; congruence); try done;
      rewrite ?lookup_delete_None; auto;
      unfold rows_not_of, rows_not_except; apply map_lookup_filter_None; auto.
Qed.
#[export] Hint Resolve consumed_stable : aspec.

(** Time does not run backwards. *)
Lemma a_now_mono prec X (e : portE X) x a a' : safe prec X e x a a' → a_now a ≤ a_now a'.
Proof.
  intros Hs. destruct e; inv_spec Hs;
    try match goal with H : upto _ _ |- _ => destruct H as (? & ? & ->) end;
    subst; simpl in *; done.
Qed.
#[export] Hint Resolve a_now_mono : aspec.
