(* ===== verification/Stores.v ===== *)
(** * Interfaces of the storage adapters

    The Go interfaces [ports.UserStore], [ports.SessionStore],
    [ports.SessionCache] and [ports.PasswordResetStore] as classes of
    operations on a state, and for each a class of what an implementation that
    does not fail promises, in terms of an abstract view of its state.  A clock
    reading and a fresh UUID are arguments of the operations that ask for
    one. *)

From Stdlib Require Import Ascii String.
From S2P Require Import Prelude GoStd Ports Crypto Spec.
Open Scope Z_scope.

(** ** Users *)

Class UserStore (S : Type) := {
  us_Create : time → time → string → string → string → S → S * result User;
  us_GetByEmail : string → S → S * result User;
  us_GetByID : string → S → S * result User;
  us_UpdatePasswordHash : time → string → string → S → S * option error
}.

Class UserStoreOk (S : Type) `{UserStore S} := {
  us_abs : S → gmap string User;
  us_wf : S → Prop;
  us_Create_ok t1 t2 id email ph s s' r :
    us_wf s → us_abs s !! id = None → us_Create t1 t2 id email ph s = (s', r) →
    us_wf s' ∧
    match r with
    | Ok u => user_ID u = id ∧ user_Email u = email ∧ user_PasswordHash u = ph ∧
              email_free (us_abs s) email ∧ us_abs s' = <[id := u]> (us_abs s)
    | Err err => err = ErrUserAlreadyExists ∧ us_abs s' = us_abs s ∧
                 ∃ id u, us_abs s !! id = Some u ∧ user_Email u = email
    end;
  us_GetByEmail_ok email s s' r :
    us_wf s → us_GetByEmail email s = (s', r) →
    us_wf s' ∧ us_abs s' = us_abs s ∧
    match r with
    | Ok u => us_abs s !! user_ID u = Some u ∧ user_Email u = email
    | Err err => err = ErrUserNotFound ∧ email_free (us_abs s) email
    end;
  us_GetByID_ok id s s' r :
    us_wf s → us_GetByID id s = (s', r) →
    us_wf s' ∧ us_abs s' = us_abs s ∧
    match r with
    | Ok u => us_abs s !! id = Some u
    | Err err => err = ErrUserNotFound ∧ us_abs s !! id = None
    end;
  us_UpdatePasswordHash_ok t uid ph s s' r :
    us_wf s → us_UpdatePasswordHash t uid ph s = (s', r) →
    us_wf s' ∧
    match r with
    | None => ∃ u, us_abs s !! uid = Some u ∧
                   us_abs s' = <[uid := with_password ph t u]> (us_abs s)
    | Some err => err = ErrUserNotFound ∧ us_abs s !! uid = None ∧ us_abs s' = us_abs s
    end
}.

(** ** Sessions *)

Class SessionStore (S : Type) := {
  ss_Create : time → string → Session → S → S * result Session;
  ss_GetByTokenHash : time → string → S → S * result Session;
  ss_DeleteByID : string → string → S → S * result string;
  ss_DeleteByTokenHash : string → S → S * option error;
  ss_RotateToken : time → string → string → Session → S → S * result Session;
  ss_DeleteAllByUserID : string → S → S * (list string * option error);
  ss_DeleteAllByUserIDExcept : string → string → S → S * (list string * option error);
  ss_ListByUserID : string → S → S * result (list Session)
}.

(** The identifier a session gets: its own, or the fresh one when it has none. *)
Definition new_session_ID (id : string) (s : Session) : string :=
  if bool_decide (sess_ID s = "") then id else sess_ID s.

(** What inserting a session needs: neither its token hash nor its identifier
    is in use. *)
Definition insertable (m : gmap string srow) (id : string) (s : Session) : Prop :=
  m !! sess_TokenHash s = None ∧ id_free m (new_session_ID id s).

#[global] Instance id_free_dec m id : Decision (id_free m id).
Proof.
  refine (cast_if (decide (map_Forall (λ _ r, sr_ID r ≠ id) m))); abstract done.
Defined.
#[global] Instance insertable_dec m id s : Decision (insertable m id s).
Proof. unfold insertable. apply _. Defined.

(** The session an insertion stores: the given one with its identifier. *)
Definition inserted (id : string) (s x : Session) : Prop :=
  sess_ID x = new_session_ID id s ∧ sess_TokenHash x = sess_TokenHash s ∧
  row_of x = with_ID (sess_ID x) (row_of s).

Class SessionStoreOk (S : Type) `{SessionStore S} := {
  ss_abs : S → gmap string srow;
  ss_wf : S → Prop;
  ss_Create_ok t id sess s s' r :
    ss_wf s → insertable (ss_abs s) id sess → ss_Create t id sess s = (s', r) →
    ss_wf s' ∧
    ∃ x, r = Ok x ∧ inserted id sess x ∧
         ss_abs s' = <[sess_TokenHash sess := row_of x]> (ss_abs s);
  ss_GetByTokenHash_ok t h s s' r :
    ss_wf s → ss_GetByTokenHash t h s = (s', r) →
    ss_wf s' ∧ ss_abs s' = ss_abs s ∧
    match r with
    | Ok x => sess_TokenHash x = h ∧ ss_abs s !! h = Some (row_of x)
    | Err err => err = ErrSessionNotFound ∧ ss_abs s !! h = None
    end;
  ss_DeleteByID_ok sid uid s s' r :
    ss_wf s → ss_DeleteByID sid uid s = (s', r) →
    ss_wf s' ∧
    match r with
    | Ok h => ∃ row, ss_abs s !! h = Some row ∧ sr_ID row = sid ∧ sr_UserID row = uid ∧
                     ss_abs s' = delete h (ss_abs s)
    | Err err => err = ErrSessionNotFound ∧ ss_abs s' = ss_abs s ∧
                 ∀ h row, ss_abs s !! h = Some row → sr_ID row = sid → sr_UserID row ≠ uid
    end;
  ss_DeleteByTokenHash_ok h s s' r :
    ss_wf s → ss_DeleteByTokenHash h s = (s', r) →
    ss_wf s' ∧ r = None ∧ ss_abs s' = delete h (ss_abs s);
  ss_RotateToken_ok t id old sess s s' r :
    ss_wf s → insertable (delete old (ss_abs s)) id sess →
    ss_RotateToken t id old sess s = (s', r) →
    ss_wf s' ∧
    match r with
    | Ok x => is_Some (ss_abs s !! old) ∧ inserted id sess x ∧
              ss_abs s' = <[sess_TokenHash sess := row_of x]> (delete old (ss_abs s))
    | Err err => err = ErrSessionNotFound ∧ ss_abs s !! old = None ∧ ss_abs s' = ss_abs s
    end;
  ss_DeleteAllByUserID_ok uid s s' r :
    ss_wf s → ss_DeleteAllByUserID uid s = (s', r) →
    ss_wf s' ∧ r.2 = None ∧ ss_abs s' = rows_not_of uid (ss_abs s) ∧
    r.1 ≡ₚ (map_to_list (rows_of uid (ss_abs s))).*1;
  ss_DeleteAllByUserIDExcept_ok uid keep s s' r :
    ss_wf s → ss_DeleteAllByUserIDExcept uid keep s = (s', r) →
    ss_wf s' ∧ r.2 = None ∧ ss_abs s' = rows_not_except uid keep (ss_abs s) ∧
    r.1 ≡ₚ (map_to_list (rows_except uid keep (ss_abs s))).*1;
  ss_ListByUserID_ok uid s s' r :
    ss_wf s → ss_ListByUserID uid s = (s', r) →
    ss_wf s' ∧ ss_abs s' = ss_abs s ∧
    ∃ l, r = Ok l ∧ (λ x, (sess_TokenHash x, row_of x)) <$> l
                    ≡ₚ map_to_list (rows_of uid (ss_abs s))
}.

(** ** The session cache *)

Class SessionCache (S : Type) := {
  sc_Set : time → string → CachedSession → duration → S → S * option error;
  sc_Get : time → string → S → S * result CachedSession;
  sc_Delete : string → S → S * option error
}.

Class SessionCacheOk (S : Type) `{SessionCache S} := {
  sc_abs : S → gmap string (CachedSession * time);
  sc_Set_ok t h cs ttl s s' r :
    sc_Set t h cs ttl s = (s', r) →
    r = None ∧ sc_abs s' = <[h := (cs, time_Add t ttl)]> (sc_abs s);
  sc_Get_ok t h s s' r :
    sc_Get t h s = (s', r) →
    match r with
    | Ok cs => sc_abs s' = sc_abs s ∧ fresh_entry (sc_abs s) h t cs
    | Err _ => sc_abs s' = delete h (sc_abs s) ∧ no_fresh_entry (sc_abs s) h t
    end;
  sc_Delete_ok h s s' r :
    sc_Delete h s = (s', r) → r = None ∧ sc_abs s' = delete h (sc_abs s)
}.

(** ** Password reset *)

Class PasswordResetStore (S : Type) := {
  rs_SaveOTP : time → string → string → string → duration → S → S * option error;
  rs_GetOTP : time → string → S → S * result OTPRecord;
  rs_IncrOTPAttempts : time → string → S → S * result Z;
  rs_DeleteOTP : string → S → S * option error;
  rs_SaveResetToken : time → string → string → string → duration → S → S * option error;
  rs_GetResetToken : time → string → S → S * result ResetTokenRecord;
  rs_DeleteResetToken : string → S → S * option error
}.

Class PasswordResetStoreOk (S : Type) `{PasswordResetStore S} := {
  rs_otps : S → gmap string (OTPRecord * time);
  rs_toks : S → gmap string (ResetTokenRecord * time);
  rs_SaveOTP_ok t uid email oh ttl s s' r :
    rs_SaveOTP t uid email oh ttl s = (s', r) →
    r = None ∧ rs_toks s' = rs_toks s ∧
    rs_otps s' = <[token.Hash email :=
      ({| otp_UserID := uid; otp_OTPHash := oh; otp_Attempts := 0 |}, time_Add t ttl)]>
      (rs_otps s);
  rs_GetOTP_ok t email s s' r :
    rs_GetOTP t email s = (s', r) →
    rs_toks s' = rs_toks s ∧
    match r with
    | Ok rec => rs_otps s' = rs_otps s ∧ fresh_entry (rs_otps s) (token.Hash email) t rec
    | Err err => err = ErrResetCodeNotFound ∧
                 rs_otps s' = delete (token.Hash email) (rs_otps s) ∧
                 no_fresh_entry (rs_otps s) (token.Hash email) t
    end;
  rs_IncrOTPAttempts_ok t email s s' r :
    rs_IncrOTPAttempts t email s = (s', r) →
    rs_toks s' = rs_toks s ∧
    match r with
    | Ok n => ∃ rec exp, rs_otps s !! token.Hash email = Some (rec, exp) ∧ t ≤ exp ∧
        n = wrap64 (otp_Attempts rec + 1) ∧
        rs_otps s' = <[token.Hash email := (with_attempts n rec, exp)]> (rs_otps s)
    | Err err => err = ErrResetCodeNotFound ∧
                 rs_otps s' = delete (token.Hash email) (rs_otps s) ∧
                 no_fresh_entry (rs_otps s) (token.Hash email) t
    end;
  rs_DeleteOTP_ok email s s' r :
    rs_DeleteOTP email s = (s', r) →
    r = None ∧ rs_toks s' = rs_toks s ∧
    rs_otps s' = delete (token.Hash email) (rs_otps s);
  rs_SaveResetToken_ok t h uid email ttl s s' r :
    rs_SaveResetToken t h uid email ttl s = (s', r) →
    r = None ∧ rs_otps s' = rs_otps s ∧
    rs_toks s' = <[h := ({| rt_UserID := uid; rt_Email := email |}, time_Add t ttl)]> (rs_toks s);
  rs_GetResetToken_ok t h s s' r :
    rs_GetResetToken t h s = (s', r) →
    rs_otps s' = rs_otps s ∧
    match r with
    | Ok rec => rs_toks s' = rs_toks s ∧ fresh_entry (rs_toks s) h t rec
    | Err err => err = ErrResetTokenNotFound ∧ rs_toks s' = delete h (rs_toks s) ∧
                 no_fresh_entry (rs_toks s) h t
    end;
  rs_DeleteResetToken_ok h s s' r :
    rs_DeleteResetToken h s = (s', r) →
    r = None ∧ rs_otps s' = rs_otps s ∧ rs_toks s' = delete h (rs_toks s)
}.
