(* ===== verification/Memory.v ===== *)
(** * The in-memory adapters

    [internal/adapters/storage/memory] and [internal/adapters/cache/memory].
    The two storage adapters keep pointers: the maps [byID] and [byEmail] (or
    [byHash]) refer to the same object, and a write through one is seen through
    the other, so their model has a heap.  Every method holds the mutex for its
    whole body, hence is one atomic step.  A copy ([cp := *u]) is a value. *)

From Stdlib Require Import Ascii String.
From S2P Require Import Prelude GoStd Ports Crypto Spec Stores.
Open Scope Z_scope.

#[global] Instance User_inhabited : Inhabited User :=
  populate {| user_ID := ""; user_Email := ""; user_PasswordHash := "";
              user_CreatedAt := 0; user_UpdatedAt := 0 |}.
#[global] Instance Session_inhabited : Inhabited Session :=
  populate {| sess_ID := ""; sess_UserID := ""; sess_UserEmail := ""; sess_TokenHash := "";
              sess_DeviceID := ""; sess_UserAgent := ""; sess_IPAddress := "";
              sess_ExpiresAt := 0; sess_LastUsedAt := 0; sess_CreatedAt := 0 |}.

(** ** UserStore ([storage/memory/user.go]) *)

Module MemUsers.

Record t := {
  heap : gmap nat User;
  next : nat;
  byID : gmap string nat;
  byEmail : gmap string nat
}.

Definition NewUserStore : t := {| heap := ∅; next := 0; byID := ∅; byEmail := ∅ |}.

(** The new object is returned itself, not a copy. *)
Definition Create (now1 now2 : time) (id email passwordHash : string) (s : t) : t * result User :=
  match byEmail s !! email with
  | Some _ => (s, Err ErrUserAlreadyExists)
  | None =>
      let u := {| user_ID := id; user_Email := email; user_PasswordHash := passwordHash;
                  user_CreatedAt := now1; user_UpdatedAt := now2 |} in
      let l := next s in
      ({| heap := <[l := u]> (heap s); next := S l;
          byID := <[id := l]> (byID s); byEmail := <[email := l]> (byEmail s) |}, Ok u)
  end.

Definition GetByEmail (email : string) (s : t) : t * result User :=
  match byEmail s !! email with
  | None => (s, Err ErrUserNotFound)
  | Some l => (s, Ok (heap s !!! l))
  end.

Definition GetByID (id : string) (s : t) : t * result User :=
  match byID s !! id with
  | None => (s, Err ErrUserNotFound)
  | Some l => (s, Ok (heap s !!! l))
  end.

(** The object is changed in place. *)
Definition UpdatePasswordHash (now : time) (userID passwordHash : string) (s : t)
    : t * option error :=
  match byID s !! userID with
  | None => (s, Some ErrUserNotFound)
  | Some l =>
      ({| heap := <[l := with_password passwordHash now (heap s !!! l)]> (heap s);
          next := next s; byID := byID s; byEmail := byEmail s |}, None)
  end.

#[global] Instance store : UserStore t := {|
  us_Create := Create; us_GetByEmail := GetByEmail; us_GetByID := GetByID;
  us_UpdatePasswordHash := UpdatePasswordHash |}.

(** The two maps refer to the same objects. *)
Record wf (s : t) : Prop := {
  wf_byID id l : byID s !! id = Some l →
    ∃ u, heap s !! l = Some u ∧ user_ID u = id ∧ byEmail s !! user_Email u = Some l;
  wf_byEmail em l : byEmail s !! em = Some l →
    ∃ u, heap s !! l = Some u ∧ user_Email u = em ∧ byID s !! user_ID u = Some l;
  wf_heap l u : heap s !! l = Some u → (l < next s)%nat
}.

Definition abs (s : t) : gmap string User := omap (λ l, heap s !! l) (byID s).

End MemUsers.

(** ** SessionStore ([storage/memory/session.go]) *)

Module MemSessions.

Record t := {
  heap : gmap nat Session;
  next : nat;
  byID : gmap string nat;
  byHash : gmap string nat
}.

Definition NewSessionStore : t := {| heap := ∅; next := 0; byID := ∅; byHash := ∅ |}.

Definition with_LastUsedAt (now : time) (x : Session) : Session :=
  {| sess_ID := sess_ID x; sess_UserID := sess_UserID x; sess_UserEmail := sess_UserEmail x;
     sess_TokenHash := sess_TokenHash x; sess_DeviceID := sess_DeviceID x;
     sess_UserAgent := sess_UserAgent x; sess_IPAddress := sess_IPAddress x;
     sess_ExpiresAt := sess_ExpiresAt x; sess_LastUsedAt := now;
     sess_CreatedAt := sess_CreatedAt x |}.

(** The argument after [sess.ID], [CreatedAt] and [LastUsedAt] are set. *)
Definition filled_in (now : time) (id : string) (x : Session) : Session :=
  {| sess_ID := new_session_ID id x; sess_UserID := sess_UserID x;
     sess_UserEmail := sess_UserEmail x;
     sess_TokenHash := sess_TokenHash x; sess_DeviceID := sess_DeviceID x;
     sess_UserAgent := sess_UserAgent x; sess_IPAddress := sess_IPAddress x;
     sess_ExpiresAt := sess_ExpiresAt x; sess_LastUsedAt := now; sess_CreatedAt := now |}.

(** A copy of the argument is put under its identifier and its token hash. *)
Definition Create (now : time) (id : string) (sess : Session) (s : t) : t * result Session :=
  let sess := filled_in now id sess in
  let l := next s in
  ({| heap := <[l := sess]> (heap s); next := S l;
      byID := <[sess_ID sess := l]> (byID s);
      byHash := <[sess_TokenHash sess := l]> (byHash s) |}, Ok sess).

Definition GetByTokenHash (now : time) (tokenHash : string) (s : t) : t * result Session :=
  match byHash s !! tokenHash with
  | None => (s, Err ErrSessionNotFound)
  | Some l =>
      let sess := with_LastUsedAt now (heap s !!! l) in
      ({| heap := <[l := sess]> (heap s); next := next s;
          byID := byID s; byHash := byHash s |}, Ok sess)
  end.

Definition remove (id hash : string) (s : t) : t :=
  {| heap := heap s; next := next s;
     byID := delete id (byID s); byHash := delete hash (byHash s) |}.

Definition DeleteByID (sessionID userID : string) (s : t) : t * result string :=
  match byID s !! sessionID with
  | None => (s, Err ErrSessionNotFound)
  | Some l =>
      let sess := heap s !!! l in
      if bool_decide (sess_UserID sess ≠ userID) then (s, Err ErrSessionNotFound)
      else
        let hash := sess_TokenHash sess in
        (remove sessionID hash s, Ok hash)
  end.

Definition DeleteByTokenHash (tokenHash : string) (s : t) : t * option error :=
  match byHash s !! tokenHash with
  | Some l => (remove (sess_ID (heap s !!! l)) tokenHash s, None)
  | None => (s, None)
  end.

Definition RotateToken (now : time) (id oldHash : string) (newSess : Session) (s : t)
    : t * result Session :=
  match byHash s !! oldHash with
  | None => (s, Err ErrSessionNotFound)
  | Some l =>
      let s := remove (sess_ID (heap s !!! l)) oldHash s in
      let newSess := filled_in now id newSess in
      let l := next s in
      ({| heap := <[l := newSess]> (heap s); next := S l;
          byID := <[sess_ID newSess := l]> (byID s);
          byHash := <[sess_TokenHash newSess := l]> (byHash s) |}, Ok newSess)
  end.

(** The loop [for id, sess := range s.byID] that deletes the entries it
    selects, and collects their hashes. *)
Fixpoint delete_loop (sel : Session → bool) (entries : list (string * nat))
    (hashes : list string) (s : t) : t * list string :=
  match entries with
  | [] => (s, hashes)
  | (id, l) :: entries' =>
      let sess := heap s !!! l in
      if sel sess
      then delete_loop sel entries' (hashes ++ [sess_TokenHash sess])
             (remove id (sess_TokenHash sess) s)
      else delete_loop sel entries' hashes s
  end.

Section range.
Context `{MapRange}.

Definition DeleteAllByUserID (userID : string) (s : t) : t * (list string * option error) :=
  let '(s', hashes) :=
    delete_loop (λ sess, bool_decide (sess_UserID sess = userID)) (map_range (byID s)) [] s in
  (s', (hashes, None)).

Definition DeleteAllByUserIDExcept (userID keepTokenHash : string) (s : t)
    : t * (list string * option error) :=
  let '(s', hashes) :=
    delete_loop
      (λ sess, bool_decide (sess_UserID sess = userID) &&
               bool_decide (sess_TokenHash sess ≠ keepTokenHash))
      (map_range (byID s)) [] s in
  (s', (hashes, None)).

Definition ListByUserID (userID : string) (s : t) : t * result (list Session) :=
  (s, Ok (filter (λ sess, sess_UserID sess = userID)
            ((λ e : string * nat, heap s !!! e.2) <$> map_range (byID s)))).

#[global] Instance store : SessionStore t := {|
  ss_Create := Create; ss_GetByTokenHash := GetByTokenHash; ss_DeleteByID := DeleteByID;
  ss_DeleteByTokenHash := DeleteByTokenHash; ss_RotateToken := RotateToken;
  ss_DeleteAllByUserID := DeleteAllByUserID;
  ss_DeleteAllByUserIDExcept := DeleteAllByUserIDExcept;
  ss_ListByUserID := ListByUserID |}.

End range.

(** The two maps refer to the same objects. *)
Record wf (s : t) : Prop := {
  wf_byID id l : byID s !! id = Some l →
    ∃ x, heap s !! l = Some x ∧ sess_ID x = id ∧ byHash s !! sess_TokenHash x = Some l;
  wf_byHash h l : byHash s !! h = Some l →
    ∃ x, heap s !! l = Some x ∧ sess_TokenHash x = h ∧ byID s !! sess_ID x = Some l;
  wf_heap l x : heap s !! l = Some x → (l < next s)%nat
}.

Definition abs (s : t) : gmap string srow := omap (λ l, row_of <$> heap s !! l) (byHash s).

End MemSessions.

(** ** SessionCache ([cache/memory/cache.go]) *)

Module MemCache.

(** [items]: the session and the time at which the entry expires. *)
Abbreviation t := (gmap string (CachedSession * time)).

Definition New : t := ∅.

Definition Set_ (now : time) (tokenHash : string) (sess : CachedSession) (ttl : duration)
    (c : t) : t * option error :=
  (<[tokenHash := (sess, time_Add now ttl)]> c, None).

Definition Get (now : time) (tokenHash : string) (c : t) : t * result CachedSession :=
  match c !! tokenHash with
  | Some (sess, expiresAt) =>
      if time_After now expiresAt
      then (delete tokenHash c, Err (Errorf ("cache miss: " +:+ tokenHash)))
      else (c, Ok sess)
  | None => (delete tokenHash c, Err (Errorf ("cache miss: " +:+ tokenHash)))
  end.

Definition Delete (tokenHash : string) (c : t) : t * option error :=
  (delete tokenHash c, None).

#[global] Instance cache : SessionCache t := {|
  sc_Set := Set_; sc_Get := Get; sc_Delete := Delete |}.

End MemCache.

(** ** PasswordResetStore ([cache/memory/reset.go]) *)

Module MemReset.

Record t := {
  otps : gmap string (OTPRecord * time);
  resetTokens : gmap string (ResetTokenRecord * time)
}.

Definition NewResetStore : t := {| otps := ∅; resetTokens := ∅ |}.

Definition set_otps (m : gmap string (OTPRecord * time)) (s : t) : t :=
  {| otps := m; resetTokens := resetTokens s |}.
Definition set_tokens (m : gmap string (ResetTokenRecord * time)) (s : t) : t :=
  {| otps := otps s; resetTokens := m |}.

Definition SaveOTP (now : time) (userID email otpHash : string) (ttl : duration) (s : t)
    : t * option error :=
  (set_otps (<[token.Hash email :=
     ({| otp_UserID := userID; otp_OTPHash := otpHash; otp_Attempts := 0 |},
      time_Add now ttl)]> (otps s)) s, None).

Definition GetOTP (now : time) (email : string) (s : t) : t * result OTPRecord :=
  match otps s !! token.Hash email with
  | Some (record, expiresAt) =>
      if time_After now expiresAt
      then (set_otps (delete (token.Hash email) (otps s)) s, Err ErrResetCodeNotFound)
      else (s, Ok record)
  | None => (set_otps (delete (token.Hash email) (otps s)) s, Err ErrResetCodeNotFound)
  end.

Definition IncrOTPAttempts (now : time) (email : string) (s : t) : t * result Z :=
  let k := token.Hash email in
  match otps s !! k with
  | Some (record, expiresAt) =>
      if time_After now expiresAt
      then (set_otps (delete k (otps s)) s, Err ErrResetCodeNotFound)
      else
        let attempts := wrap64 (otp_Attempts record + 1) in
        (set_otps (<[k := (with_attempts attempts record, expiresAt)]> (otps s)) s, Ok attempts)
  | None => (set_otps (delete k (otps s)) s, Err ErrResetCodeNotFound)
  end.

Definition DeleteOTP (email : string) (s : t) : t * option error :=
  (set_otps (delete (token.Hash email) (otps s)) s, None).

Definition SaveResetToken (now : time) (tokenHash userID email : string) (ttl : duration) (s : t)
    : t * option error :=
  (set_tokens (<[tokenHash := ({| rt_UserID := userID; rt_Email := email |},
                               time_Add now ttl)]> (resetTokens s)) s, None).

Definition GetResetToken (now : time) (tokenHash : string) (s : t) : t * result ResetTokenRecord :=
  match resetTokens s !! tokenHash with
  | Some (record, expiresAt) =>
      if time_After now expiresAt
      then (set_tokens (delete tokenHash (resetTokens s)) s, Err ErrResetTokenNotFound)
      else (s, Ok record)
  | None => (set_tokens (delete tokenHash (resetTokens s)) s, Err ErrResetTokenNotFound)
  end.

Definition DeleteResetToken (tokenHash : string) (s : t) : t * option error :=
  (set_tokens (delete tokenHash (resetTokens s)) s, None).

#[global] Instance store : PasswordResetStore t := {|
  rs_SaveOTP := SaveOTP; rs_GetOTP := GetOTP; rs_IncrOTPAttempts := IncrOTPAttempts;
  rs_DeleteOTP := DeleteOTP; rs_SaveResetToken := SaveResetToken;
  rs_GetResetToken := GetResetToken; rs_DeleteResetToken := DeleteResetToken |}.

End MemReset.
