(* ===== verification/MemoryProofs.v ===== *)
(** * The in-memory adapters implement their interfaces

    For each adapter: an invariant that every operation preserves, and an
    abstract view under which every operation does what the interface
    promises. *)

From Stdlib Require Import Ascii String.
From S2P Require Import Prelude GoStd Ports Crypto Spec Stores Memory.
Open Scope Z_scope.

(** ** Users *)

Module MemUsersProofs.
Import MemUsers.

Lemma user_lookup_abs s id u :
  abs s !! id = Some u ↔ ∃ l, byID s !! id = Some l ∧ heap s !! l = Some u.
Proof. unfold abs. rewrite lookup_omap, bind_Some. done. Qed.

Lemma user_lookup_abs_None s id : wf s → abs s !! id = None ↔ byID s !! id = None.
Proof.
  intros Hwf. unfold abs. rewrite lookup_omap.
  destruct (byID s !! id) as [l|] eqn:Hl; [|done].
  destruct (wf_byID s Hwf id l Hl) as (u & Hu & _). simpl. by rewrite Hu.
Qed.

Lemma heap_fresh s : wf s → heap s !! next s = None.
Proof.
  intros Hwf. destruct (heap s !! next s) as [u|] eqn:Hu; [|done].
  apply (wf_heap s Hwf) in Hu. lia.
Qed.

Lemma lookup_byEmail s em :
  wf s → byEmail s !! em = None ↔ email_free (abs s) em.
Proof.
  intros Hwf. split.
  - intros Hn id u (l & Hl & Hu)%user_lookup_abs Hem.
    destruct (wf_byID s Hwf id l Hl) as (u' & Hu' & _ & He). simplify_eq.
  - intros Hfree. destruct (byEmail s !! em) as [l|] eqn:Hl; [|done].
    destruct (wf_byEmail s Hwf em l Hl) as (u & Hu & Hem & Hid).
    destruct (Hfree (user_ID u) u); [apply user_lookup_abs; eauto|done].
Qed.

(** A location is referred to by one identifier and one email. *)
Lemma user_byID_inj s id1 id2 l :
  wf s → byID s !! id1 = Some l → byID s !! id2 = Some l → id1 = id2.
Proof.
  intros Hwf H1 H2.
  destruct (wf_byID s Hwf _ _ H1) as (u & Hu & <- & _).
  destruct (wf_byID s Hwf _ _ H2) as (u' & Hu' & <- & _). congruence.
Qed.

Lemma user_wf_new : wf NewUserStore.
Proof. split; intros *; simpl; rewrite lookup_empty; done. Qed.

Lemma user_heap_insert_next s u l v :
  wf s → heap s !! l = Some v → <[next s := u]> (heap s) !! l = Some v.
Proof.
  intros Hwf Hl. rewrite lookup_insert_ne; [done|].
  apply (wf_heap s Hwf) in Hl. lia.
Qed.

Lemma Create_wf s t1 t2 id em ph :
  wf s → abs s !! id = None → wf (Create t1 t2 id em ph s).1.
Proof.
  intros Hwf Hid. apply user_lookup_abs_None in Hid; [|done]. unfold Create.
  destruct (byEmail s !! em) as [l|] eqn:Hem; [done|]. split; simpl.
  - intros id' l [[<- <-]|[Hne Hl]]%lookup_insert_Some.
    + eexists. split; [apply lookup_insert_eq|]. simpl. by rewrite lookup_insert_eq.
    + destruct (wf_byID s Hwf _ _ Hl) as (u & Hu & Huid & Hue). exists u.
      split; [by apply user_heap_insert_next|]. split; [done|].
      rewrite lookup_insert_ne; [done|]. intros ->. congruence.
  - intros em' l [[<- <-]|[Hne Hl]]%lookup_insert_Some.
    + eexists. split; [apply lookup_insert_eq|]. simpl. by rewrite lookup_insert_eq.
    + destruct (wf_byEmail s Hwf _ _ Hl) as (u & Hu & Hue & Huid). exists u.
      split; [by apply user_heap_insert_next|]. split; [done|].
      rewrite lookup_insert_ne; [done|]. intros ->. congruence.
  - intros l u [[<- <-]|[Hne Hl]]%lookup_insert_Some; [lia|].
    apply (wf_heap s Hwf) in Hl. lia.
Qed.

Lemma Create_abs s t1 t2 id em ph s' u :
  wf s → Create t1 t2 id em ph s = (s', Ok u) → abs s' = <[id := u]> (abs s).
Proof.
  intros Hwf. unfold Create. destruct (byEmail s !! em) as [l|] eqn:Hem; [done|].
  intros [= <- <-]. apply map_eq. intros id'. unfold abs. simpl.
  rewrite lookup_omap, !lookup_insert. case_decide; simpl.
  - by rewrite lookup_insert_eq.
  - rewrite lookup_omap. destruct (byID s !! id') as [l|] eqn:Hl; [|done]. simpl.
    destruct (wf_byID s Hwf _ _ Hl) as (u & Hu & _).
    rewrite Hu. by apply user_heap_insert_next.
Qed.

Lemma Update_wf s t uid ph : wf s → wf (UpdatePasswordHash t uid ph s).1.
Proof.
  intros Hwf. unfold UpdatePasswordHash.
  destruct (byID s !! uid) as [l|] eqn:Hl; [|done].
  destruct (wf_byID s Hwf _ _ Hl) as (u & Hu & Hid & Hem).
  rewrite (lookup_total_correct _ _ _ Hu). split; simpl.
  - intros id' l' Hl'. destruct (decide (l = l')) as [<-|Hne].
    + exists (with_password ph t u). rewrite lookup_insert_eq. simpl.
      split_and!; [done| |done]. subst. by eapply user_byID_inj.
    + destruct (wf_byID s Hwf _ _ Hl') as (u' & Hu' & ?). exists u'.
      by rewrite lookup_insert_ne.
  - intros em' l' Hl'. destruct (decide (l = l')) as [<-|Hne].
    + exists (with_password ph t u). rewrite lookup_insert_eq. simpl.
      destruct (wf_byEmail s Hwf _ _ Hl') as (u' & Hu' & ?).
      simplify_eq. subst. eauto.
    + destruct (wf_byEmail s Hwf _ _ Hl') as (u' & Hu' & ?). exists u'.
      by rewrite lookup_insert_ne.
  - intros l' u' [[<- <-]|[Hne Hl']]%lookup_insert_Some; by eapply wf_heap.
Qed.

Lemma Update_abs s t uid ph s' :
  wf s → UpdatePasswordHash t uid ph s = (s', None) →
  ∃ u, abs s !! uid = Some u ∧ abs s' = <[uid := with_password ph t u]> (abs s).
Proof.
  intros Hwf. unfold UpdatePasswordHash.
  destruct (byID s !! uid) as [l|] eqn:Hl; [|done].
  destruct (wf_byID s Hwf _ _ Hl) as (u & Hu & Hid & Hem).
  rewrite (lookup_total_correct _ _ _ Hu). intros [= <-].
  exists u. split; [apply user_lookup_abs; eauto|].
  apply map_eq. intros id'. unfold abs. simpl.
  rewrite lookup_omap, lookup_insert. case_decide as Heq.
  - subst id'. rewrite Hl. simpl. by rewrite lookup_insert_eq.
  - rewrite lookup_omap. destruct (byID s !! id') as [l'|] eqn:Hl'; [|done]. simpl.
    rewrite lookup_insert_ne; [done|]. intros <-. apply Heq. by eapply user_byID_inj.
Qed.

#[global] Instance store_ok : UserStoreOk t.
Proof.
  refine {| us_abs := abs; us_wf := wf |}.
  - (* Create *)
    intros t1 t2 id em ph s s' r Hwf Hid Heq. simpl in Heq.
    pose proof (Create_wf s t1 t2 id em ph Hwf Hid) as Hwf'. rewrite Heq in Hwf'.
    split; [done|]. destruct r as [u|err].
    + pose proof (Create_abs _ _ _ _ _ _ _ _ Hwf Heq) as Habs.
      unfold Create in Heq. destruct (byEmail s !! em) as [l|] eqn:Hem; [done|].
      simplify_eq. simpl in *. apply lookup_byEmail in Hem; [|done]. done.
    + unfold Create in Heq. destruct (byEmail s !! em) as [l|] eqn:Hem; simplify_eq.
      destruct (wf_byEmail _ Hwf _ _ Hem) as (u & Hu & Hue & Huid).
      split_and!; [done..|]. exists (user_ID u), u. split; [|done]. apply user_lookup_abs. eauto.
  - (* GetByEmail *)
    intros em s s' r Hwf. simpl. unfold GetByEmail.
    destruct (byEmail s !! em) as [l|] eqn:Hem; intros [= <- <-].
    + destruct (wf_byEmail _ Hwf _ _ Hem) as (u & Hu & Hue & Huid).
      rewrite (lookup_total_correct _ _ _ Hu).
      split_and!; [done..| |done]. apply user_lookup_abs. eauto.
    + by rewrite <-lookup_byEmail.
  - (* GetByID *)
    intros id s s' r Hwf. simpl. unfold GetByID.
    destruct (byID s !! id) as [l|] eqn:Hid; intros [= <- <-].
    + destruct (wf_byID _ Hwf _ _ Hid) as (u & Hu & _).
      rewrite (lookup_total_correct _ _ _ Hu).
      split_and!; [done..|]. apply user_lookup_abs. eauto.
    + by rewrite user_lookup_abs_None.
  - (* UpdatePasswordHash *)
    intros t0 uid ph s s' r Hwf Heq. simpl in Heq.
    pose proof (Update_wf s t0 uid ph Hwf) as Hwf'. rewrite Heq in Hwf'.
    split; [done|]. destruct r as [err|]; [|by eapply Update_abs].
    unfold UpdatePasswordHash in Heq.
    destruct (byID s !! uid) as [l|] eqn:Hl; simplify_eq.
    by rewrite user_lookup_abs_None.
Defined.

End MemUsersProofs.

(** ** Sessions *)

Module MemSessionsProofs.
Import MemSessions.

Lemma session_lookup_abs s h r :
  abs s !! h = Some r ↔
  ∃ l x, byHash s !! h = Some l ∧ heap s !! l = Some x ∧ row_of x = r.
Proof.
  unfold abs. rewrite lookup_omap, bind_Some. setoid_rewrite fmap_Some. naive_solver.
Qed.

Lemma session_lookup_abs_None s h : wf s → abs s !! h = None ↔ byHash s !! h = None.
Proof.
  intros Hwf. unfold abs. rewrite lookup_omap.
  destruct (byHash s !! h) as [l|] eqn:Hl; [|done].
  destruct (wf_byHash s Hwf h l Hl) as (x & Hx & _). simpl. by rewrite Hx.
Qed.

Lemma byHash_inj s h1 h2 l :
  wf s → byHash s !! h1 = Some l → byHash s !! h2 = Some l → h1 = h2.
Proof.
  intros Hwf H1 H2.
  destruct (wf_byHash s Hwf _ _ H1) as (x & Hx & <- & _).
  destruct (wf_byHash s Hwf _ _ H2) as (x' & Hx' & <- & _). congruence.
Qed.

Lemma session_byID_inj s id1 id2 l :
  wf s → byID s !! id1 = Some l → byID s !! id2 = Some l → id1 = id2.
Proof.
  intros Hwf H1 H2.
  destruct (wf_byID s Hwf _ _ H1) as (x & Hx & <- & _).
  destruct (wf_byID s Hwf _ _ H2) as (x' & Hx' & <- & _). congruence.
Qed.

Lemma id_free_byID s id : wf s → id_free (abs s) id → byID s !! id = None.
Proof.
  intros Hwf Hfree. destruct (byID s !! id) as [l|] eqn:Hl; [|done].
  destruct (wf_byID s Hwf _ _ Hl) as (x & Hx & Hid & Hh).
  destruct (Hfree (sess_TokenHash x) (row_of x)); [apply session_lookup_abs; eauto|done].
Qed.

Lemma session_wf_new : wf NewSessionStore.
Proof. split; intros *; simpl; rewrite lookup_empty; done. Qed.

(** *** Insertion *)

Definition insert_session (x : Session) (s : t) : t :=
  {| heap := <[next s := x]> (heap s); next := S (next s);
     byID := <[sess_ID x := next s]> (byID s);
     byHash := <[sess_TokenHash x := next s]> (byHash s) |}.

Lemma session_heap_insert_next s x l y :
  wf s → heap s !! l = Some y → <[next s := x]> (heap s) !! l = Some y.
Proof.
  intros Hwf Hl. rewrite lookup_insert_ne; [done|].
  apply (wf_heap s Hwf) in Hl. lia.
Qed.

Lemma insert_session_wf s x :
  wf s → byID s !! sess_ID x = None → byHash s !! sess_TokenHash x = None →
  wf (insert_session x s).
Proof.
  intros Hwf Hid Hh. split; simpl.
  - intros id' l [[<- <-]|[Hne Hl]]%lookup_insert_Some.
    + eexists. split; [apply lookup_insert_eq|]. by rewrite lookup_insert_eq.
    + destruct (wf_byID s Hwf _ _ Hl) as (y & Hy & Hyid & Hyh). exists y.
      split; [by apply session_heap_insert_next|]. split; [done|].
      by rewrite lookup_insert_ne by congruence.
  - intros h' l [[<- <-]|[Hne Hl]]%lookup_insert_Some.
    + eexists. split; [apply lookup_insert_eq|]. by rewrite lookup_insert_eq.
    + destruct (wf_byHash s Hwf _ _ Hl) as (y & Hy & Hyh & Hyid). exists y.
      split; [by apply session_heap_insert_next|]. split; [done|].
      by rewrite lookup_insert_ne by congruence.
  - intros l y [[<- <-]|[Hne Hl]]%lookup_insert_Some; [lia|].
    apply (wf_heap s Hwf) in Hl. lia.
Qed.

Lemma insert_session_abs s x :
  wf s → abs (insert_session x s) = <[sess_TokenHash x := row_of x]> (abs s).
Proof.
  intros Hwf. apply map_eq. intros h'. unfold abs. simpl.
  rewrite lookup_omap, !lookup_insert. case_decide; simpl.
  - by rewrite lookup_insert_eq.
  - rewrite lookup_omap. destruct (byHash s !! h') as [l|] eqn:Hl; [|done]. simpl.
    destruct (wf_byHash s Hwf _ _ Hl) as (y & Hy & _).
    rewrite Hy. by rewrite (session_heap_insert_next _ _ _ y).
Qed.

Lemma inserted_filled_in now id x : inserted id x (filled_in now id x).
Proof. done. Qed.

(** *** Removal *)

Lemma remove_wf s l x :
  wf s → byHash s !! sess_TokenHash x = Some l → heap s !! l = Some x →
  wf (remove (sess_ID x) (sess_TokenHash x) s).
Proof.
  intros Hwf Hl Hx.
  destruct (wf_byHash s Hwf _ _ Hl) as (x' & Hx' & _ & Hid). simplify_eq.
  split; simpl.
  - intros id' l' [Hne Hl']%lookup_delete_Some.
    destruct (wf_byID s Hwf _ _ Hl') as (y & Hy & <- & Hyh). exists y.
    split_and!; [done..|]. rewrite lookup_delete_ne; [done|].
    intros Heq. rewrite <-Heq in Hyh. by simplify_eq.
  - intros h' l' [Hne Hl']%lookup_delete_Some.
    destruct (wf_byHash s Hwf _ _ Hl') as (y & Hy & <- & Hyid). exists y.
    split_and!; [done..|]. rewrite lookup_delete_ne; [done|].
    intros Heq. rewrite <-Heq in Hyid. by simplify_eq.
  - apply (wf_heap s Hwf).
Qed.

Lemma remove_abs id h s : abs (remove id h s) = delete h (abs s).
Proof.
  apply map_eq. intros h'. unfold abs. simpl.
  rewrite lookup_omap, !lookup_delete. case_decide; [done|]. by rewrite lookup_omap.
Qed.

(** *** The deleting loop *)

Lemma delete_loop_spec sel entries hashes s s' hashes' :
  wf s → NoDup entries.*1 →
  (∀ id l, (id, l) ∈ entries → byID s !! id = Some l) →
  delete_loop sel entries hashes s = (s', hashes') →
  wf s' ∧ heap s' = heap s ∧
  ∃ dels, hashes' = hashes ++ dels ∧
    dels = (λ e : string * nat, sess_TokenHash (heap s !!! e.2)) <$>
             filter (λ e : string * nat, Is_true (sel (heap s !!! e.2))) entries ∧
    ∀ h, byHash s' !! h = if decide (h ∈ dels) then None else byHash s !! h.
Proof.
  revert hashes s. induction entries as [|[id l] entries IH];
    intros hashes s Hwf Hnd Hin Heq; simpl in Heq.
  { simplify_eq. split; [done|]. split; [done|]. exists [].
    split_and!; [by rewrite app_nil_r|done|done]. }
  apply NoDup_cons in Hnd as [Hnid Hnd].
  assert (byID s !! id = Some l) as Hid by (apply Hin; left).
  destruct (wf_byID s Hwf _ _ Hid) as (x & Hx & Hxid & Hxh).
  rewrite filter_cons. simpl. rewrite (lookup_total_correct _ _ _ Hx) in *.
  destruct (sel x); simpl in *.
  - apply IH in Heq as (Hwf' & Hheap & dels & -> & Hdels & HbyHash).
    + split; [done|]. split; [done|]. exists (sess_TokenHash x :: dels).
      rewrite <-app_assoc. csimpl. rewrite (lookup_total_correct _ _ _ Hx).
      split_and!; [done|by rewrite Hdels|].
      intros h. rewrite HbyHash. simpl.
      destruct (decide (h ∈ dels)), (decide (h ∈ sess_TokenHash x :: dels)) as [Hd|Hd];
        rewrite ?elem_of_cons in Hd; try tauto.
      * destruct Hd as [->|]; [by rewrite lookup_delete_eq|done].
      * rewrite lookup_delete_ne; [done|]. naive_solver.
    + subst id. by eapply remove_wf.
    + done.
    + intros id' l' Hin'. simpl. rewrite lookup_delete_ne; [by apply Hin; right|].
      intros ->. apply Hnid. apply list_elem_of_fmap. by exists (id', l').
  - apply IH in Heq as (Hwf' & Hheap & dels & -> & Hdels & HbyHash); [by eauto 10|done..|].
    intros id' l' Hin'. apply Hin. by right.
Qed.

(** The entries the loop selects are the selected rows. *)
Section deleted.
Context `{MapRange} (sel : Session → bool) (Q : string * srow → Prop).
Context `{!∀ kv, Decision (Q kv)}.
Hypothesis sel_Q : ∀ x, Is_true (sel x) ↔ Q (sess_TokenHash x, row_of x).

Definition selected (s : t) : list (string * nat) :=
  filter (λ e : string * nat, Is_true (sel (heap s !!! e.2))) (map_range (byID s)).

Lemma selected_rows s :
  wf s →
  (λ e : string * nat, (sess_TokenHash (heap s !!! e.2), row_of (heap s !!! e.2))) <$> selected s
  ≡ₚ map_to_list (filter Q (abs s)).
Proof.
  intros Hwf. apply NoDup_Permutation.
  - apply NoDup_fmap_2_strong.
    + intros [id1 l1] [id2 l2] [_ H1%elem_of_map_range]%list_elem_of_filter
        [_ H2%elem_of_map_range]%list_elem_of_filter [= Hh _].
      simpl in *.
      destruct (wf_byID s Hwf _ _ H1) as (x1 & Hx1 & <- & Hh1).
      destruct (wf_byID s Hwf _ _ H2) as (x2 & Hx2 & <- & Hh2).
      rewrite (lookup_total_correct _ _ _ Hx1), (lookup_total_correct _ _ _ Hx2) in Hh.
      rewrite Hh in Hh1. by simplify_eq.
    + apply NoDup_filter. eapply NoDup_fmap_1. apply NoDup_map_range.
  - apply NoDup_map_to_list.
  - intros [h r]. rewrite elem_of_map_to_list, map_lookup_filter_Some, session_lookup_abs,
      list_elem_of_fmap.
    unfold selected. setoid_rewrite list_elem_of_filter. split.
    + intros ([id l] & [= -> ->] & Hsel & Hin%elem_of_map_range). simpl in *.
      destruct (wf_byID s Hwf _ _ Hin) as (x & Hx & Hxid & Hxh).
      rewrite (lookup_total_correct _ _ _ Hx) in *. split; [eauto|]. by apply sel_Q.
    + intros [(l & x & Hl & Hx & <-) HQ].
      destruct (wf_byHash s Hwf _ _ Hl) as (x' & Hx' & <- & Hid). simplify_eq.
      exists (sess_ID x, l). simpl. rewrite (lookup_total_correct _ _ _ Hx).
      split_and!; [done|by apply sel_Q|by apply elem_of_map_range].
Qed.

Lemma delete_loop_all s s' hashes :
  wf s → delete_loop sel (map_range (byID s)) [] s = (s', hashes) →
  wf s' ∧ abs s' = filter (λ kv, ¬ Q kv) (abs s) ∧
  hashes ≡ₚ (map_to_list (filter Q (abs s))).*1.
Proof.
  intros Hwf Heq.
  apply delete_loop_spec in Heq as (Hwf' & Hheap & dels & -> & Hdels & HbyHash);
    [|done|apply NoDup_map_range|intros id l Hin; by apply elem_of_map_range].
  assert (dels ≡ₚ (map_to_list (filter Q (abs s))).*1) as Hperm.
  { rewrite <-selected_rows by done. rewrite Hdels. fold (selected s).
    rewrite <-list_fmap_compose. done. }
  split; [done|]. split; [|done].
  apply map_eq. intros h. apply option_eq. intros r.
  rewrite map_lookup_filter_Some, !session_lookup_abs, Hheap. setoid_rewrite HbyHash.
  assert (h ∈ dels ↔ ∃ r, abs s !! h = Some r ∧ Q (h, r)) as Hd.
  { rewrite Hperm, list_elem_of_fmap. split.
    - intros ([h' r'] & -> & [? ?]%elem_of_map_to_list%map_lookup_filter_Some). eauto.
    - intros (r' & ? & ?). exists (h, r'). split; [done|].
      apply elem_of_map_to_list, map_lookup_filter_Some. done. }
  setoid_rewrite session_lookup_abs in Hd. split.
  - intros (l & x & Hl & Hx & <-). case_decide as Hdel; [done|].
    split; [eauto|]. intros HQ. apply Hdel, Hd. eauto 10.
  - intros [(l & x & Hl & Hx & <-) HnQ]. exists l, x.
    rewrite decide_False; [done|].
    intros (r & (l' & x' & Hl' & Hx' & <-) & HQ)%Hd. by simplify_eq.
Qed.

End deleted.

(** *** The interface *)

Section store_ok.
Context `{MapRange}.

Lemma GetByTokenHash_spec now h s s' r :
  wf s → GetByTokenHash now h s = (s', r) →
  wf s' ∧ abs s' = abs s ∧
  match r with
  | Ok x => sess_TokenHash x = h ∧ abs s !! h = Some (row_of x)
  | Err err => err = ErrSessionNotFound ∧ abs s !! h = None
  end.
Proof.
  intros Hwf. unfold GetByTokenHash. destruct (byHash s !! h) as [l|] eqn:Hl;
    intros [= <- <-]; [|by rewrite session_lookup_abs_None].
  destruct (wf_byHash s Hwf _ _ Hl) as (x & Hx & Hxh & Hxid).
  rewrite (lookup_total_correct _ _ _ Hx). split_and!; [| |done|apply session_lookup_abs; by eauto].
  - split; simpl.
    + intros id l' Hl'. destruct (wf_byID s Hwf _ _ Hl') as (y & Hy & Hyid & Hyh).
      destruct (decide (l = l')) as [<-|Hne].
      * simplify_eq. eexists. by rewrite lookup_insert_eq.
      * exists y. by rewrite lookup_insert_ne.
    + intros h' l' Hl'. destruct (wf_byHash s Hwf _ _ Hl') as (y & Hy & Hyh & Hyid).
      destruct (decide (l = l')) as [<-|Hne].
      * simplify_eq. eexists. rewrite lookup_insert_eq. split; [done|]. by subst.
      * exists y. by rewrite lookup_insert_ne.
    + intros l' y [[<- <-]|[Hne Hl']]%lookup_insert_Some; by eapply wf_heap.
  - apply map_eq. intros h'. unfold abs. simpl. rewrite !lookup_omap.
    destruct (byHash s !! h') as [l'|]; [|done]. simpl.
    rewrite lookup_insert. case_decide; [|done]. subst. by rewrite Hx.
Qed.

#[global] Instance store_ok : SessionStoreOk t.
Proof.
  refine {| ss_abs := abs; ss_wf := wf |}.
  - (* Create *)
    intros now id sess s s' r Hwf [Hh Hid] [= <- <-].
    apply session_lookup_abs_None in Hh; [|done]. apply id_free_byID in Hid; [|done].
    split; [by apply (insert_session_wf s (filled_in now id sess))|].
    eexists. split_and!; [done|apply inserted_filled_in|].
    by apply (insert_session_abs s (filled_in now id sess)).
  - (* GetByTokenHash *) intros now h s s' r Hwf Heq. by apply GetByTokenHash_spec in Heq.
  - (* DeleteByID *)
    intros sid uid s s' r Hwf. simpl. unfold DeleteByID.
    destruct (byID s !! sid) as [l|] eqn:Hl.
    + destruct (wf_byID s Hwf _ _ Hl) as (x & Hx & Hxid & Hxh).
      rewrite (lookup_total_correct _ _ _ Hx). case_bool_decide as Hu; intros [= <- <-].
      * split_and!; [done..|]. intros h row (l' & y & Hl' & Hy & <-)%session_lookup_abs Hid. simpl in *.
        destruct (wf_byHash s Hwf _ _ Hl') as (y' & Hy' & _ & Hyid). simplify_eq. congruence.
      * subst sid. split; [by eapply remove_wf|].
        exists (row_of x). rewrite remove_abs. split_and!; [apply session_lookup_abs; eauto|done..].
    + intros [= <- <-]. split_and!; [done..|].
      intros h row (l' & y & Hl' & Hy & <-)%session_lookup_abs Hid. simpl in *.
      destruct (wf_byHash s Hwf _ _ Hl') as (y' & Hy' & _ & Hyid). by simplify_eq.
  - (* DeleteByTokenHash *)
    intros h s s' r Hwf. simpl. unfold DeleteByTokenHash.
    destruct (byHash s !! h) as [l|] eqn:Hl; intros [= <- <-].
    + destruct (wf_byHash s Hwf _ _ Hl) as (x & Hx & Hxh & Hxid). subst h.
      rewrite (lookup_total_correct _ _ _ Hx), remove_abs.
      split; [by eapply remove_wf|done].
    + split_and!; [done..|]. by rewrite delete_id by by apply session_lookup_abs_None.
  - (* RotateToken *)
    intros now id old sess s s' r Hwf [Hh Hid]. simpl. unfold RotateToken.
    destruct (byHash s !! old) as [l|] eqn:Hl; intros [= <- <-].
    + destruct (wf_byHash s Hwf _ _ Hl) as (x & Hx & Hxh & Hxid). subst old.
      rewrite (lookup_total_correct _ _ _ Hx).
      assert (wf (remove (sess_ID x) (sess_TokenHash x) s)) as Hwf1 by by eapply remove_wf.
      rewrite <-(remove_abs (sess_ID x)) in Hh, Hid |- *.
      apply session_lookup_abs_None in Hh; [|done]. apply id_free_byID in Hid; [|done].
      split; [by apply (insert_session_wf (remove (sess_ID x) (sess_TokenHash x) s) (filled_in now id sess))|].
      split_and!; [|apply inserted_filled_in|].
      * exists (row_of x). apply session_lookup_abs. eauto.
      * by apply (insert_session_abs (remove (sess_ID x) (sess_TokenHash x) s) (filled_in now id sess)).
    + by rewrite session_lookup_abs_None.
  - (* DeleteAllByUserID *)
    intros uid s s' r Hwf. simpl. unfold DeleteAllByUserID.
    destruct (delete_loop _ _ _ _) as [s1 hashes] eqn:Hloop. intros [= <- <-].
    apply (delete_loop_all _ (λ kv, sr_UserID kv.2 = uid)) in Hloop as (? & ? & ?);
      [done|intros x; apply bool_decide_spec|done].
  - (* DeleteAllByUserIDExcept *)
    intros uid keep s s' r Hwf. simpl. unfold DeleteAllByUserIDExcept.
    destruct (delete_loop _ _ _ _) as [s1 hashes] eqn:Hloop. intros [= <- <-].
    apply (delete_loop_all _ (λ kv, sr_UserID kv.2 = uid ∧ kv.1 ≠ keep)) in Hloop
      as (? & ? & ?); [done| |done].
    intros x. rewrite andb_True, !bool_decide_spec. done.
  - (* ListByUserID *)
    intros uid s s' r Hwf [= <- <-]. split_and!; [done..|].
    eexists. split; [done|].
    unfold rows_of.
    rewrite <-(selected_rows (λ x, bool_decide (sess_UserID x = uid))
                 (λ kv, sr_UserID kv.2 = uid) ltac:(intros x; apply bool_decide_spec) s Hwf).
    unfold selected.
    rewrite (filter_fmap_swap (λ e : string * nat, heap s !!! e.2) _
               (λ e, Is_true (bool_decide (sess_UserID (heap s !!! e.2) = uid))))
      by (intros e; apply bool_decide_spec).
    by rewrite <-list_fmap_compose.
Defined.

End store_ok.
End MemSessionsProofs.

(** ** The session cache and the reset store *)

#[global] Instance MemCache_ok : SessionCacheOk MemCache.t.
Proof.
  refine {| sc_abs := λ c : MemCache.t, c |}.
  - by intros t0 h cs ttl s s' r [= <- <-].
  - intros t0 h s s' r. simpl. unfold MemCache.Get, fresh_entry, no_fresh_entry, time_After.
    destruct (s !! h) as [[cs exp]|]; [destruct (Z.ltb_spec exp t0)|]; intros [= <- <-];
      naive_solver lia.
  - by intros h s s' r [= <- <-].
Defined.

Module MemResetProofs.
Import MemReset.

#[global] Instance store_ok : PasswordResetStoreOk t.
Proof.
  refine {| rs_otps := otps; rs_toks := resetTokens |}; simpl.
  - by intros t0 uid email oh ttl s s' r [= <- <-].
  - intros t0 email s s' r. unfold GetOTP, fresh_entry, no_fresh_entry, time_After.
    destruct (otps s !! _) as [[rec exp]|]; [destruct (Z.ltb_spec exp t0)|]; intros [= <- <-];
      naive_solver lia.
  - intros t0 email s s' r. unfold IncrOTPAttempts, no_fresh_entry, time_After.
    destruct (otps s !! _) as [[rec exp]|]; [destruct (Z.ltb_spec exp t0)|]; intros [= <- <-];
      naive_solver lia.
  - by intros email s s' r [= <- <-].
  - by intros t0 h uid email ttl s s' r [= <- <-].
  - intros t0 h s s' r. unfold GetResetToken, fresh_entry, no_fresh_entry, time_After.
    destruct (resetTokens s !! _) as [[rec exp]|]; [destruct (Z.ltb_spec exp t0)|];
      intros [= <- <-]; naive_solver lia.
  - by intros h s s' r [= <- <-].
Defined.

End MemResetProofs.
