(* ===== verification/ServiceSafety.v ===== *)
(** * The handlers, whatever the backends answer

    Theorems on the calls a handler makes and on what it returns that hold for
    every answer of every port: they rest on the control flow of
    [internal/service/auth/auth.go] alone. *)

From Stdlib Require Import Ascii String.
From S2P Require Import Prelude GoStd Ports Validate Crypto Service.
Open Scope Z_scope.

#[local] Opaque Email Password extractClientInfo.
#[local] Arguments strings_CutPrefix : simpl never.

(** ** Inversion of executions *)

Section helpers.
Context `{Argon2, UnicodeTables} (s : AuthService).

(** The queue entries of one audit record and one hook event. *)
Definition audit_calls (uid : option string) (ty : AuditEventType) (ip ua : string)
    (meta : gmap string string) : list (callrec portE) :=
  if svc_auditStore s
  then [Call (Go (JAudit {| ae_UserID := uid; ae_EventType := ty; ae_IPAddress := ip;
                            ae_UserAgent := ua; ae_Metadata := meta |})) tt]
  else [].
Definition hook_call (uid email : string) (ty : AuditEventType) (ip ua : string)
    (meta : gmap string string) : callrec portE :=
  Call (Go (JHook {| he_Type := ty; he_UserID := uid; he_UserEmail := email;
                     he_IPAddress := ip; he_UserAgent := ua; he_Metadata := meta |})) tt.

Lemma exec_logAudit uid ty ip ua meta tr u :
  exec (logAudit s uid ty ip ua meta) tr u → tr = audit_calls uid ty ip ua meta.
Proof.
  unfold logAudit, audit_calls. destruct (svc_auditStore s); simpl.
  - intros ([] & tr' & -> & [-> _]). done.
  - by intros [-> _].
Qed.

Lemma exec_fireHook uid email ty ip ua meta tr u :
  exec (fireHook uid email ty ip ua meta) tr u → tr = [hook_call uid email ty ip ua meta].
Proof. by intros ([] & tr' & -> & [-> _]). Qed.

(** Calls that only use the cache, the clock and the log. *)
Definition cache_call (c : callrec portE) : bool :=
  match call_op c with
  | CacheSet _ _ _ | CacheGet _ | CacheDelete _ | Now | Slog _ _ => true
  | _ => false
  end.

Lemma exec_cacheSession h cs tr u :
  exec (cacheSession h cs) tr u → Forall cache_call tr.
Proof.
  intros (t & tr' & -> & Hex). cbv zeta in Hex. destruct (_ <=? 0); [destruct Hex as [-> _]; by repeat constructor|].
  destruct Hex as (err & tr'' & -> & Hex). destruct err.
  - destruct Hex as (x & tr3 & -> & [-> _]). by repeat constructor.
  - destruct Hex as [-> _]. by repeat constructor.
Qed.

Lemma exec_deleteSessionFromCache h tr u :
  exec (deleteSessionFromCache h) tr u → Forall cache_call tr.
Proof.
  intros (err & tr' & -> & Hex). destruct err.
  - destruct Hex as (x & tr3 & -> & [-> _]). by repeat constructor.
  - destruct Hex as [-> _]. by repeat constructor.
Qed.

Lemma exec_deleteSessionsFromCache hs tr u :
  exec (deleteSessionsFromCache hs) tr u → Forall cache_call tr.
Proof.
  revert tr; induction hs as [|h hs IH]; intros tr; [by intros [-> _]|].
  unfold deleteSessionsFromCache; fold deleteSessionsFromCache.
  intros (tr1 & tr2 & a & -> & H1 & H2)%exec_bind. apply Forall_app.
  split; [by eapply exec_deleteSessionFromCache|by eapply IH].
Qed.
End helpers.

#[local] Opaque logAudit fireHook cacheSession deleteSessionFromCache deleteSessionsFromCache.

(** One step of the inversion of an [exec] hypothesis. *)
Ltac exec_step :=
  first
    [ exec_generic
    | match goal with
      | H : exec (logAudit _ _ _ _ _ _) _ _ |- _ => apply exec_logAudit in H; subst
      | H : exec (fireHook _ _ _ _ _ _) _ _ |- _ => apply exec_fireHook in H; subst
      | H : exec (cacheSession _ _) _ _ |- _ => apply exec_cacheSession in H
      | H : exec (deleteSessionFromCache _) _ _ |- _ => apply exec_deleteSessionFromCache in H
      | H : exec (deleteSessionsFromCache _) _ _ |- _ => apply exec_deleteSessionsFromCache in H
      end ].
Ltac exec_inv := repeat (exec_step; try discriminate; simplify_eq).

(** A call that stands in a trace. *)
Ltac in_trace :=
  solve [repeat first [apply list_elem_of_here | apply list_elem_of_further
                      | apply elem_of_app; (left; in_trace) || (right; in_trace)]].

Ltac in_cases H :=
  repeat first [apply elem_of_cons in H as [->|H] | apply elem_of_app in H as [H|H]
               | exfalso; by apply elem_of_nil in H].

(** A property of every call of a trace. *)
Ltac split_Forall :=
  repeat first [apply Forall_nil_2 | apply Forall_app; split | apply Forall_cons; split].

Section service.
Context `{Argon2, UnicodeTables} (s : AuthService).

(** C13: A [Login] that succeeds found the account by email, verified the
    password against its stored hash, was not told by the brute-force guard
    that the account is locked, and stored a session of that user under the
    hash of the refresh token it returns; the access token it returns is the
    one generated for that user. *)
Theorem Login_success_sound ctx req tr tp :
  exec (Login s ctx req) tr (Reply tp) →
  Email (login_Email req) = None ∧
  (svc_bruteGuard s = true →
     ∃ ans, head tr = Some (Call (GuardIsLocked (login_Email req)) ans) ∧ ans ≠ Ok true) ∧
  ∃ user sess stored,
    Call (UserGetByEmail (login_Email req)) (Ok user) ∈ tr ∧
    password.Verify (login_Password req) (user_PasswordHash user) = Ok true ∧
    Call (TokGenerate (user_ID user) (user_Email user) ["user"]) (Ok (AccessToken tp)) ∈ tr ∧
    Call (SessCreate sess) (Ok stored) ∈ tr ∧
    sess_UserID sess = user_ID user ∧
    sess_TokenHash sess = token.Hash (RefreshTokenPlain tp).
Proof.
  unfold Login, login_check, login_failed, login_issue, token.Generate.
  intros Hex. exec_inv;
    (split_and!; [done|by eauto|]; eexists _, _, _;
     split_and!; [| |in_trace|in_trace|done|done]; [in_trace|done]).
Qed.

(** The guard's answer to the first question of [Login]. *)
Definition lock_answer (c : callrec portE) : option (result bool) :=
  match call_op c in portE X return X → option (result bool) with
  | GuardIsLocked _ => Some
  | _ => λ _, None
  end (call_res c).

(** While the guard reports the account as locked, [Login] answers
    ResourceExhausted and never asks any store, the token manager or the
    random source. *)
Lemma Login_locked ctx req tr r :
  svc_bruteGuard s = true → Email (login_Email req) = None →
  exec (Login s ctx req) tr r →
  head tr ≫= lock_answer = Some (Ok true) →
  r = Refuse locked_status ∧
  Forall (λ c, ∃ j, c = Call (Go j) tt) (tail tr).
Proof.
  intros Hg He. unfold Login. rewrite He, Hg. intros Hex. exec_step. exec_step.
  exec_step; simpl; intros Hh; simplify_eq; exec_inv.
  split; [done|]. unfold audit_calls, hook_call.
  destruct (svc_auditStore s); repeat constructor; eauto.
Qed.

(** ** Who may act *)

(** The token of an "authorization: Bearer" header. *)
Definition bearer (ctx : Ctx) : option string :=
  md ← ctx_md ctx; hdr ← head (md_Get md "authorization"); strings_CutPrefix hdr "Bearer ".

Definition needs_token (req : request) : bool :=
  match req with
  | ReqLogoutAll | ReqListSessions | ReqRevokeSession _ | ReqChangePassword _ => true
  | _ => false
  end.

(** A call that reads or changes nothing but the data of user [uid]. *)
Definition acts_for (uid : string) (c : callrec portE) : Prop :=
  match call_op c with
  | UserGetByID id => id = uid
  | UserUpdatePasswordHash u _ | SessDeleteByID _ u | SessDeleteAllByUserID u
  | SessDeleteAllByUserIDExcept u _ | SessListByUserID u => u = uid
  | Go (JAudit e) => ae_UserID e = Some uid
  | Go (JHook e) => he_UserID e = uid
  | CacheDelete _ | CacheGet _ | CacheSet _ _ _ | Now | RandRead _ | Slog _ _ => True
  | _ => False
  end.

Lemma cache_call_acts_for uid tr : Forall cache_call tr → Forall (acts_for uid) tr.
Proof.
  intros Hc. eapply Forall_impl; [exact Hc|]. intros [X [] x]; simpl; done.
Qed.

Lemma audit_acts_for uid ty ip ua meta :
  Forall (acts_for uid) (audit_calls s (Some uid) ty ip ua meta).
Proof. unfold audit_calls. destruct (svc_auditStore s); by repeat constructor. Qed.

Lemma exec_extractUserID ctx tr r :
  exec (extractUserIDFromCtx ctx) tr r →
  match bearer ctx with
  | None => tr = [] ∧ ∃ m, r = Refuse (Status Unauthenticated m)
  | Some tok => ∃ ans, tr = [Call (TokValidate tok) ans] ∧
      r = match ans with
          | Err _ => Refuse (Status Unauthenticated "invalid access token")
          | Ok claims => Reply (claims_UserID claims)
          end
  end.
Proof.
  unfold extractUserIDFromCtx, bearer. destruct (ctx_md ctx) as [md|]; simpl; [|by intros [-> ->]; eauto].
  destruct (md_Get md "authorization") as [|hdr hs]; simpl; [by intros [-> ->]; eauto|].
  destruct (strings_CutPrefix hdr "Bearer ") as [tok|]; [|by intros [-> ->]; eauto].
  intros (ans & tr' & -> & Hex). exists ans. destruct ans; by destruct Hex as [-> ->].
Qed.
End service.
#[local] Opaque extractUserIDFromCtx.

Section service2.
Context `{Argon2, UnicodeTables} (s : AuthService).

(** An answer given in the name of the bearer of an accepted token: without
    one, there is no other call and the answer is Unauthenticated. *)
Definition authorised (ctx : Ctx) (tr : list (callrec portE)) (r : reply response) : Prop :=
  match bearer ctx with
  | None => tr = [] ∧ ∃ m, r = Refuse (Status Unauthenticated m)
  | Some tok => ∃ ans tr', tr = Call (TokValidate tok) ans :: tr' ∧
      match ans with
      | Err _ => tr' = [] ∧ r = Refuse (Status Unauthenticated "invalid access token")
      | Ok claims => Forall (acts_for (claims_UserID claims)) tr'
      end
  end.

Lemma guarded_exec ctx req tr r :
  needs_token req = true → exec (serve s ctx req) tr r → authorised ctx tr r.
Proof.
  unfold authorised.
  intros Hn Hex. destruct req; try discriminate Hn; unfold serve, respond in Hex;
    apply exec_bind in Hex as (tr1 & tr2 & a & -> & Hex & Hr);
    apply exec_bind in Hex as (tr3 & tr4 & b & -> & Hid & Hex);
    apply exec_extractUserID in Hid; destruct (bearer ctx) as [tok|];
    try (destruct Hid as [-> [m ->]]; exec_inv; simpl; by eauto);
    destruct Hid as (ans & -> & ->);
    (destruct ans as [claims|err]; [|exec_inv; eexists _, _; done]);
    exists (Ok claims); rewrite <-app_assoc; eexists; (split; [done|]);
    unfold logout_all_of, list_sessions_of, revoke_session_of, change_password_of,
      change_password_to, password.Hash in *; exec_inv;
    split_Forall; solve [done | auto using audit_acts_for, cache_call_acts_for].
Qed.

End service2.

(** ** Errors and events *)

Ltac unfold_handlers H :=
  unfold Register, Login, login_check, login_failed, login_issue, ValidateToken,
    RefreshToken, refresh_rotate, Logout, LogoutAll, ListSessions, RevokeSession,
    ChangePassword, logout_all_of, list_sessions_of, revoke_session_of, change_password_of,
    change_password_to, RequestPasswordReset, VerifyResetCode,
    issue_reset_token, ResetPassword, token.Generate, otp.Generate, password.Hash,
    getCachedSession in H.
Ltac inv_extractUserID :=
  match goal with
  | H : exec (extractUserIDFromCtx ?ctx) _ _ |- _ =>
      apply exec_extractUserID in H; destruct (bearer ctx) eqn:?;
      [destruct H as ([] & ? & ?)|destruct H as (? & ? & ?)]
  end.

Section events.
Context `{Argon2, UnicodeTables} (s : AuthService).

(** Whenever an RPC answers Internal, it says nothing but "internal error"
    to the client and has written an error line to the log. *)
Lemma internal_error_logged ctx req tr st :
  exec (serve s ctx req) tr (Refuse st) → st_code st = Internal →
  st_msg st = "internal error" ∧ ∃ msg x, Call (Slog LevelError msg) x ∈ tr.
Proof.
  intros Hex Hc. destruct req; unfold serve, respond in Hex; unfold_handlers Hex; exec_inv;
    try inv_extractUserID; simplify_eq/=;
    (split; [done|]; eexists _, _; in_trace).
Qed.

(** The goroutines an RPC starts. *)
Definition job_of (c : callrec portE) : option job :=
  match call_op c with Go j => Some j | _ => None end.
Definition jobs_of (tr : list (callrec portE)) : list job := omap job_of tr.

Definition event_jobs (uid : option string) (email : string) (ty : AuditEventType)
    (client : string * string) (meta hmeta : gmap string string) : list job :=
  (if svc_auditStore s
   then [JAudit {| ae_UserID := uid; ae_EventType := ty; ae_IPAddress := client.1;
                   ae_UserAgent := client.2; ae_Metadata := meta |}]
   else []) ++
  [JHook {| he_Type := ty; he_UserID := default "" uid; he_UserEmail := email;
            he_IPAddress := client.1; he_UserAgent := client.2; he_Metadata := hmeta |}].

(** The event of a request that succeeds.  A password-reset request for an
    unknown email also succeeds, without one. *)
Definition success_event (req : request) : option AuditEventType :=
  match req with
  | ReqRegister _ => Some AuditEventRegister
  | ReqLogin _ => Some AuditEventLoginSuccess
  | ReqRefreshToken _ => Some AuditEventTokenRefresh
  | ReqLogout _ => Some AuditEventLogout
  | ReqLogoutAll => Some AuditEventLogoutAll
  | ReqRevokeSession _ => Some AuditEventSessionRevoke
  | ReqChangePassword _ => Some AuditEventPasswordChange
  | ReqResetPassword _ _ => Some AuditEventPasswordReset
  | _ => None
  end.

Lemma jobs_of_app tr1 tr2 : jobs_of (tr1 ++ tr2) = jobs_of tr1 ++ jobs_of tr2.
Proof. unfold jobs_of. induction tr1 as [|c tr1 IH]; [done|]. csimpl. by destruct (job_of c); simpl; rewrite IH. Qed.

Lemma jobs_of_cache tr : Forall cache_call tr → jobs_of tr = [].
Proof.
  induction 1 as [|[X e x] tr Hc _ IH]; [done|]. unfold jobs_of. csimpl. rewrite <-IH.
  by destruct e.
Qed.

Lemma jobs_of_cons c tr : jobs_of (c :: tr) = option_list (job_of c) ++ jobs_of tr.
Proof. unfold jobs_of. csimpl. by destruct (job_of c). Qed.

Lemma jobs_of_audit uid ty ip ua meta :
  jobs_of (audit_calls s uid ty ip ua meta) =
  if svc_auditStore s
  then [JAudit {| ae_UserID := uid; ae_EventType := ty; ae_IPAddress := ip;
                  ae_UserAgent := ua; ae_Metadata := meta |}]
  else [].
Proof. unfold audit_calls. by destruct (svc_auditStore s). Qed.

(** What the goroutines of an RPC are. *)
Definition good_events (ctx : Ctx) (req : request) (r : reply response) (js : list job) : Prop :=
  (js = [] ∧ ∀ resp, r = Reply resp → success_event req = None) ∨
  ∃ uid email ty meta hmeta,
    js = event_jobs uid email ty (extractClientInfo ctx) meta hmeta ∧
    meta !! "otp_code" = None ∧
    (hmeta = meta ∨ ty = AuditEventPasswordResetRequest) ∧
    ∀ resp ty', r = Reply resp → success_event req = Some ty' → ty = ty'.

Lemma good_events_none ctx req r js :
  js = [] → (∀ resp, r = Reply resp → success_event req = None) → good_events ctx req r js.
Proof. by left. Qed.

Lemma good_events_one ctx req r uid uid' email ty ip ua meta hmeta :
  extractClientInfo ctx = (ip, ua) → uid' = default "" uid →
  meta !! "otp_code" = None → (hmeta = meta ∨ ty = AuditEventPasswordResetRequest) →
  (∀ resp ty', r = Reply resp → success_event req = Some ty' → ty = ty') →
  good_events ctx req r
    ((if svc_auditStore s
      then [JAudit {| ae_UserID := uid; ae_EventType := ty; ae_IPAddress := ip;
                      ae_UserAgent := ua; ae_Metadata := meta |}]
      else []) ++
     [JHook {| he_Type := ty; he_UserID := uid'; he_UserEmail := email;
               he_IPAddress := ip; he_UserAgent := ua; he_Metadata := hmeta |}]).
Proof. intros Hc -> Hm Hh Hty. right. exists uid, email, ty, meta, hmeta. by rewrite Hc. Qed.

Ltac simpl_jobs :=
  repeat first [rewrite jobs_of_app | rewrite jobs_of_cons | rewrite jobs_of_audit
               | rewrite jobs_of_cache by done];
  change (jobs_of []) with (@nil job); cbn [job_of call_op hook_call option_list app];
  rewrite ?app_nil_r.

End events.

(** ** Password reset *)

(** The user whose password a call sets. *)
Definition password_set (c : callrec portE) : option (string * string) :=
  match call_op c with UserUpdatePasswordHash uid ph => Some (uid, ph) | _ => None end.

Section reset.
Context `{Argon2, UnicodeTables} (s : AuthService).

Lemma cache_no_password tr c : Forall cache_call tr → c ∈ tr → password_set c = None.
Proof. rewrite Forall_forall. intros Hf Hin. apply Hf in Hin. by destruct c as [X []]. Qed.

Lemma audit_no_password uid ty ip ua meta c :
  c ∈ audit_calls s uid ty ip ua meta → password_set c = None.
Proof.
  unfold audit_calls. destruct (svc_auditStore s); [|by intros ?%elem_of_nil].
  by intros ->%list_elem_of_singleton.
Qed.

(** C24: [ResetPassword] sets a password only after the store has returned the
    record of the presented reset token and has then deleted that token, and it
    sets the password of the user in that record. *)
Theorem ResetPassword_needs_token ctx tok pw tr r c uid ph :
  exec (ResetPassword s ctx tok pw) tr r → c ∈ tr → password_set c = Some (uid, ph) →
  Password pw = None ∧
  ∃ rec rest, rt_UserID rec = uid ∧
    tr = Call (ResetGetResetToken (token.Hash tok)) (Ok rec) ::
         Call (ResetDeleteResetToken (token.Hash tok)) None :: rest.
Proof.
  intros Hex Hin Hset. unfold ResetPassword, password.Hash in Hex. exec_inv;
    in_cases Hin; try discriminate Hset;
    try (by erewrite cache_no_password in Hset);
    try (by erewrite audit_no_password in Hset);
    injection Hset as <- _; (split; [done|]; by eexists _, _).
Qed.
End reset.
