(* ===== verification/ServiceSpec.v ===== *)
(** * The handlers against the specification of their ports

    What each RPC does to users, sessions, one-time codes and reset tokens,
    when the backends answer as [live] allows, that is without failures.  The
    states before and after are those of one RPC running alone; [Concurrency]
    has the theorems on interleavings and failures. *)

From Stdlib Require Import Ascii String.
From S2P Require Import Prelude GoStd Encoding Ports Validate Crypto Service Spec.
Open Scope Z_scope.

#[local] Opaque Email Password extractClientInfo.
#[local] Arguments strings_CutPrefix : simpl never.

(** ** Calls that leave users, sessions, codes and tokens alone *)

Record same_core (a a' : astate) : Prop := {
  core_users : a_users a' = a_users a;
  core_sess : a_sess a' = a_sess a;
  core_otps : a_otps a' = a_otps a;
  core_toks : a_toks a' = a_toks a;
  core_ever : a_ever a' = a_ever a;
  core_now : a_now a ≤ a_now a'
}.

#[global] Instance same_core_preorder : PreOrder same_core.
Proof.
  split.
  - intros a. by split.
  - intros a b c [] []. split; try congruence. lia.
Qed.

Definition core_op (X : Type) (e : portE X) : Prop :=
  match e with
  | TokGenerate _ _ _ | TokValidate _ | CacheSet _ _ _ | CacheGet _ | CacheDelete _
  | GuardIsLocked _ | GuardRecordFailure _ | GuardReset _ | Now | RandRead _ | Go _
  | Slog _ _ | UserGetByEmail _ | UserGetByID _ | SessGetByTokenHash _ | SessListByUserID _ => True
  | _ => False
  end.

Lemma safe_core prec X (e : portE X) x a a' :
  core_op X e → safe prec X e x a a' → same_core a a'.
Proof.
  intros Hc Hs. destruct e; try done; inv_spec Hs;
    repeat match goal with H : upto _ _ |- _ => destruct H as (? & ? & ->) end;
    subst; by split.
Qed.

Lemma rexec_safe_core prec {A} (p : prog portE A) a a' r :
  all_calls core_op p → rexec (safe prec) p a a' r → same_core a a'.
Proof. intros Hp. eapply rexec_ord; [apply _|apply safe_core|done]. Qed.
Lemma rexec_core {A} (p : prog portE A) a a' r :
  all_calls core_op p → rexec strict p a a' r → same_core a a'.
Proof. intros Hp Hex%(rexec_strict_safe 1). by eapply rexec_safe_core. Qed.

Create HintDb core_calls.
Ltac core_calls := simpl; repeat first [done | split | intros ? | case_match].

Section helpers.
Context `{Argon2, UnicodeTables} (s : AuthService).

Lemma core_cacheSession h cs : all_calls core_op (cacheSession h cs).
Proof. core_calls. Qed.
Lemma core_deleteSessionFromCache h : all_calls core_op (deleteSessionFromCache h).
Proof. core_calls. Qed.
Lemma core_deleteSessionsFromCache hs : all_calls core_op (deleteSessionsFromCache hs).
Proof.
  induction hs; [done|]. apply all_calls_bind; [apply core_deleteSessionFromCache|done].
Qed.
Lemma core_logAudit uid ty ip ua meta : all_calls core_op (logAudit s uid ty ip ua meta).
Proof. unfold logAudit. core_calls. Qed.
Lemma core_fireHook uid email ty ip ua meta : all_calls core_op (fireHook uid email ty ip ua meta).
Proof. core_calls. Qed.
Lemma core_extractUserID ctx : all_calls core_op (extractUserIDFromCtx ctx).
Proof. unfold extractUserIDFromCtx. core_calls. Qed.

(** The two ways to draw random bytes. *)
Lemma rexec_Hash `{!Argon2Spec} pw a a' r :
  rexec strict (password.Hash pw) a a' r →
  same_core a a' ∧ match r with Ok enc => password.Verify pw enc = Ok true | Err _ => True end.
Proof.
  intros Hex. split; [eapply rexec_core, Hex; unfold password.Hash; core_calls|].
  destruct Hex as ([salt|e] & b & (_ & Hs) & Hex); destruct Hex as [-> ->]; [|done].
  destruct Hs as [_ Hs]. rewrite (Verify_hashed pw pw salt Hs). by rewrite bool_decide_eq_true_2.
Qed.
Lemma rexec_Generate a a' r :
  rexec strict token.Generate a a' r →
  same_core a a' ∧ match r with Ok (plain, hashed) => hashed = token.Hash plain | Err _ => True end.
Proof.
  intros Hex. split; [eapply rexec_core, Hex; unfold token.Generate; core_calls|].
  by destruct Hex as ([b0|e] & b & _ & [-> ->]).
Qed.
Lemma rexec_live_Hash `{!Argon2Spec} pw a a' r :
  rexec live (password.Hash pw) a a' r →
  same_core a a' ∧ ∃ enc, r = Ok enc ∧ password.Verify pw enc = Ok true.
Proof.
  intros Hex. pose proof Hex as (? & ? & [_ Hl] & Hr).
  apply rexec_live_strict, rexec_Hash in Hex as [Hc Hv]. split; [done|].
  destruct x; [|done]. destruct Hr as [_ ->]. eauto.
Qed.
Lemma rexec_live_Generate a a' r :
  rexec live token.Generate a a' r →
  same_core a a' ∧ ∃ plain, r = Ok (plain, token.Hash plain).
Proof.
  intros Hex. pose proof Hex as (? & ? & [_ Hl] & Hr).
  apply rexec_live_strict, rexec_Generate in Hex as [Hc Hv]. split; [done|].
  destruct x; [|done]. destruct Hr as [_ ->]. eauto.
Qed.
End helpers.
Lemma rexec_live_otp a a' r :
  rexec live otp.Generate a a' r → same_core a a' ∧ ∃ code, r = Ok code.
Proof.
  intros Hex. split.
  - eapply rexec_core; [|by apply rexec_live_strict]. unfold otp.Generate. core_calls.
  - destruct Hex as ([b0|e] & b & [_ Hl] & [-> ->]); [eauto|done].
Qed.
#[export] Hint Resolve core_cacheSession core_deleteSessionFromCache
  core_deleteSessionsFromCache core_logAudit core_fireHook core_extractUserID : core_calls.

(** One step of the inversion of a run. *)
Ltac rexec_step :=
  match goal with
  | H : rexec _ (Ret _) _ _ _ |- _ => destruct H as [? ?]; subst
  | H : rexec _ (Vis _ _) _ _ _ |- _ =>
      let x := fresh "x" in let b := fresh "b" in let Hs := fresh "Hs" in
      destruct H as (x & b & Hs & H); cbv beta iota zeta in H
  | H : rexec _ (trigger _) _ _ _ |- _ =>
      let x := fresh "x" in let b := fresh "b" in let Hs := fresh "Hs" in
      destruct H as (x & b & Hs & [? ?]); subst
  | H : rexec _ (bind (match ?d with _ => _ end) _) _ _ _ |- _ => destruct d eqn:?
  | H : rexec _ (bind _ _) _ _ _ |- _ =>
      let H1 := fresh "H1" in let b := fresh "b" in let x := fresh "x" in
      apply rexec_bind in H as (b & x & H1 & H); cbv beta iota zeta in H
  | H : rexec _ (match ?d with _ => _ end) _ _ _ |- _ => destruct d eqn:?
  end.

(** ** Calls that leave the cache alone, and calls that empty it *)

Section cache.
Context `{Argon2, UnicodeTables} (s : AuthService).

Definition same_cache (a a' : astate) : Prop := a_cache a' = a_cache a.
#[global] Instance same_cache_preorder : PreOrder same_cache.
Proof. split; [done|]. unfold same_cache. intros a b c. congruence. Qed.

Definition quiet_op (X : Type) (e : portE X) : Prop :=
  match e with Go _ | Slog _ _ => True | _ => False end.

Lemma rexec_quiet {A} (p : prog portE A) a a' r :
  all_calls quiet_op p → rexec live p a a' r → same_cache a a'.
Proof.
  intros Hp. eapply rexec_ord; [apply _| |exact Hp].
  intros X e x b b' Hq [Hs _]. destruct e; try done; destruct Hs as (? & ? & ->); done.
Qed.

Lemma quiet_logAudit uid ty ip ua meta : all_calls quiet_op (logAudit s uid ty ip ua meta).
Proof. unfold logAudit. core_calls. Qed.
Lemma quiet_fireHook uid email ty ip ua meta : all_calls quiet_op (fireHook uid email ty ip ua meta).
Proof. core_calls. Qed.

Lemma rexec_delete h a a' r :
  rexec live (deleteSessionFromCache h) a a' r →
  a_cache a' = delete h (a_cache a).
Proof.
  intros (err & b & [Hs Hl] & Hex). simpl in *. subst err.
  destruct Hex as [-> _]. by destruct Hs as (? & ? & ->).
Qed.

Lemma rexec_deletes hs a a' r :
  rexec live (deleteSessionsFromCache hs) a a' r →
  ∀ h, a_cache a' !! h = if decide (h ∈ hs) then None else a_cache a !! h.
Proof.
  revert a; induction hs as [|h0 hs IH]; intros a Hex h.
  - by destruct Hex as [-> _].
  - apply rexec_bind in Hex as (b & x & H1' & Hex). rewrite (IH _ Hex).
    rewrite (rexec_delete _ _ _ _ H1').
    destruct (decide (h ∈ hs)), (decide (h ∈ h0 :: hs)) as [Hin|Hin];
      rewrite ?elem_of_cons in Hin; try tauto.
    + destruct Hin as [->|]; [by rewrite lookup_delete_eq|done].
    + rewrite lookup_delete_ne; [done|]. naive_solver.
Qed.

(** Deleting the keys of [m] from the cache leaves none of them in it. *)
Lemma keys_gone {A B} (m : gmap string A) (c c' : gmap string B) hs :
  hs ≡ₚ (map_to_list m).*1 →
  (∀ h, c' !! h = if decide (h ∈ hs) then None else c !! h) →
  ∀ h, is_Some (m !! h) → c' !! h = None.
Proof. intros Hk Hc h Hh. by rewrite Hc, decide_True by by eapply elem_of_keys. Qed.
End cache.

Lemma live_inv X (e : portE X) x a a' :
  live X e x a a' → strict X e x a a' ∧ port_live e x a a'.
Proof. done. Qed.

Lemma safe_same_core prec X (e : portE X) x a a' :
  safe prec X e x a a' → core_op X e → same_core a a'.
Proof. intros Hs He. by eapply safe_core. Qed.
Lemma strict_core X (e : portE X) x a a' :
  strict X e x a a' → core_op X e → same_core a a'.
Proof. intros Hs He. by eapply (safe_core 1), strict_safe. Qed.

(** A call that leaves the core alone is recorded as such, another one is
    turned into its effect. *)
Ltac effect H :=
  first
    [ let Hc := fresh "Hcore" in
      pose proof (strict_core _ _ _ _ _ H I) as Hc; destruct Hc
    | idtac ];
  unfold strict in H; simpl in H.
Ltac cache_fact pf :=
  let Hq := fresh "Hcache" in pose proof pf as Hq; unfold same_cache in Hq.
Ltac rexec_call :=
  match goal with
  | H : True |- _ => clear H
  | H : is_ok (Ok _) |- _ => clear H
  | H : is_ok (Err _) |- _ => destruct H
  | H : _ ∧ _ |- _ => destruct H
  | H : ∃ _, _ |- _ => destruct H
  | H : rexec live (password.Hash _) _ _ _ |- _ => apply rexec_live_Hash in H as [[] (? & ? & ?)]
  | H : rexec live otp.Generate _ _ _ |- _ => apply rexec_live_otp in H as [[] (? & ?)]
  | H : rexec live token.Generate _ _ _ |- _ => apply rexec_live_Generate in H as [[] (? & ?)]
  | H : rexec strict (password.Hash _) _ _ _ |- _ => apply rexec_Hash in H as [[] ?]
  | H : rexec strict token.Generate _ _ _ |- _ => apply rexec_Generate in H as [[] ?]
  | H : live _ _ _ _ _ |- _ =>
      let Hl := fresh "Hl" in apply live_inv in H as [H Hl]; simpl in Hl
  | H : rexec live (logAudit _ _ _ _ _ _) _ _ _ |- _ =>
      cache_fact (rexec_quiet _ _ _ _ (quiet_logAudit _ _ _ _ _ _) H); apply rexec_live_strict in H
  | H : rexec live (fireHook _ _ _ _ _ _) _ _ _ |- _ =>
      cache_fact (rexec_quiet _ _ _ _ (quiet_fireHook _ _ _ _ _ _) H); apply rexec_live_strict in H
  | H : rexec live (deleteSessionFromCache _) _ _ _ |- _ =>
      cache_fact (rexec_delete _ _ _ _ H); apply rexec_live_strict in H
  | H : rexec live (deleteSessionsFromCache _) _ _ _ |- _ =>
      cache_fact (rexec_deletes _ _ _ _ H); apply rexec_live_strict in H
  | H : rexec live (cacheSession _ _) _ _ _ |- _ => apply rexec_live_strict in H
  | H : rexec strict ?p _ _ _ |- _ =>
      apply rexec_core in H; [destruct H|solve [auto with core_calls]]
  | H : strict _ _ _ _ _ |- _ => effect H
  | H : upto _ _ |- _ => destruct H as (? & ? & ->)
  end.
Ltac rexec_inv := repeat (first [rexec_call | rexec_step]; try discriminate; simplify_eq).

(** Express every state in terms of the first one. *)
Ltac core_rewrite :=
  simpl in *;
  repeat match goal with
  | H : a_users _ = _ |- _ => try rewrite H in *; clear H
  | H : a_sess _ = _ |- _ => try rewrite H in *; clear H
  | H : a_otps _ = _ |- _ => try rewrite H in *; clear H
  | H : a_toks _ = _ |- _ => try rewrite H in *; clear H
  | H : a_ever _ = _ |- _ => try rewrite H in *; clear H
  | H : a_cache _ = _ |- _ => try rewrite H in *; clear H
  end.
(** The same, keeping the equations. *)
Ltac core_keep :=
  simpl in *;
  repeat match goal with
  | H : a_sess ?b = _, H' : context [a_sess ?b] |- _ =>
      lazymatch type of H' with a_sess b = _ => fail | _ => rewrite H in H' end
  | H : a_users ?b = _, H' : context [a_users ?b] |- _ =>
      lazymatch type of H' with a_users b = _ => fail | _ => rewrite H in H' end
  end.
Ltac core_solve := simpl in *; split; simpl; congruence || lia.

(** An entry that was found expired may have been removed. *)
Ltac inv_either :=
  match goal with H : upto _ _ ∨ _ |- _ => destruct H as [(? & ? & ->)|[(? & ? & ->) ?]] end.

(** Use what an error answer says. *)
Ltac use_errors :=
  repeat match goal with
  | H : errors_Is ?e ?x = true → _, H' : errors_Is ?e ?x = true |- _ => specialize (H H')
  | H : true = true → _ |- _ => specialize (H eq_refl)
  end.

(** ** Register and Login *)

Section accounts.
Context `{Argon2, !Argon2Spec, UnicodeTables} (s : AuthService).

Lemma Register_live ctx req a a' r :
  rexec live (Register s ctx req) a a' r →
  match Email (reg_Email req), Password (reg_Password req) with
  | Some err, _ | None, Some err => r = Refuse (Status InvalidArgument err) ∧ a' = a
  | None, None =>
      (∃ u, r = Reply {| reg_UserId := user_ID u |} ∧
         email_free (a_users a) (reg_Email req) ∧ a_users a !! user_ID u = None ∧
         a_users a' = <[user_ID u := u]> (a_users a) ∧
         user_Email u = reg_Email req ∧
         password.Verify (reg_Password req) (user_PasswordHash u) = Ok true ∧
         a_sess a' = a_sess a) ∨
      (r = Refuse (Status AlreadyExists "email already registered") ∧ same_core a a' ∧
       ∃ id u, a_users a !! id = Some u ∧ user_Email u = reg_Email req)
  end.
Proof.
  unfold Register. intros Hex. rexec_inv; try done.
  - left. core_rewrite. by exists a0.
  - right. split_and!; [done|core_solve|]. core_rewrite. auto.
Qed.


(** The session a login or a refresh leaves behind. *)
Definition opened (uid : string) (before : gmap string srow) (tp : TokenPair) (a a' : astate)
    : Prop :=
  ∃ t row, during a a' t ∧
    a_ever a !! token.Hash (RefreshTokenPlain tp) = None ∧
    a_sess a' = <[token.Hash (RefreshTokenPlain tp) := row]> before ∧
    sr_UserID row = uid ∧ sr_ExpiresAt row = time_Add t (svc_refreshTTL s) ∧
    a_users a' = a_users a.

Lemma Login_live ctx req a a' r :
  rexec live (Login s ctx req) a a' r → Email (login_Email req) = None →
  (svc_bruteGuard s = true ∧ r = Refuse locked_status ∧ same_core a a') ∨
  (email_free (a_users a) (login_Email req) ∧
   r = Refuse invalid_credentials ∧ same_core a a') ∨
  (∃ u, a_users a !! user_ID u = Some u ∧ user_Email u = login_Email req ∧
     match password.Verify (login_Password req) (user_PasswordHash u) with
     | Ok true => ∃ tp, r = Reply tp ∧ opened (user_ID u) (a_sess a) tp a a'
     | Ok false => r = Refuse invalid_credentials ∧ same_core a a'
     | Err _ => r = Refuse internal_error ∧ same_core a a'
     end).
Proof.
  intros Hex He. unfold Login, login_check, login_failed, login_issue in Hex. rewrite He in Hex.
  rexec_inv;
    first
      [ left; split_and!; [done|done|core_solve]
      | right; left; split_and!; [core_rewrite; by auto|done|core_solve]
      | right; right; eexists; split_and!;
        [core_rewrite; by eauto|done|];
        match goal with H : password.Verify _ _ = _ |- _ => rewrite H end;
        first [split; [done|core_solve]|idtac] ];
    (eexists; split; [done|]; eexists _, _; core_rewrite;
     match goal with H : row_of _ = _ |- _ => rewrite H end;
     split_and!; [|done..]; unfold during; simpl; lia).
Qed.

(** C3: With backends that do not fail, [Login] with a well-formed email ends in
    one of these ways: the guard refuses it; the email is unknown or the
    password wrong, both answered the same way and without any effect on users
    and sessions; or the password matches the account, and exactly one session
    is added, under the hash of the refresh token handed out, for that account
    and with the configured lifetime. *)
Theorem Login_spec ctx req a a' r :
  rexec live (Login s ctx req) a a' r → Email (login_Email req) = None →
  (svc_bruteGuard s = true ∧ r = Refuse locked_status ∧ same_core a a') ∨
  (email_free (a_users a) (login_Email req) ∧
   r = Refuse invalid_credentials ∧ same_core a a') ∨
  (∃ u, a_users a !! user_ID u = Some u ∧ user_Email u = login_Email req ∧
     match password.Verify (login_Password req) (user_PasswordHash u) with
     | Ok true => ∃ tp, r = Reply tp ∧ opened (user_ID u) (a_sess a) tp a a'
     | Ok false => r = Refuse invalid_credentials ∧ same_core a a'
     | Err _ => r = Refuse internal_error ∧ same_core a a'
     end).
Proof. apply Login_live. Qed.
End accounts.

(** ** Sessions *)

(** A cache entry describes the session first stored under its token hash; the
    store may have rounded its expiry down, to a multiple of [prec]. *)
Definition cs_matches (prec : Z) (cs : CachedSession) (row : srow) : Prop :=
  cs_SessionID cs = sr_ID row ∧ cs_UserID cs = sr_UserID row ∧
  cs_DeviceID cs = sr_DeviceID row ∧
  sr_ExpiresAt row ≤ cs_ExpiresAt cs < sr_ExpiresAt row + prec.
Definition coherent (prec : Z) (a : astate) : Prop :=
  ∀ h cs exp, a_cache a !! h = Some (cs, exp) →
    ∃ row, a_ever a !! h = Some row ∧ cs_matches prec cs row.

Lemma coherent_row prec a h t cs row :
  awf a → coherent prec a → fresh_entry (a_cache a) h t cs → a_sess a !! h = Some row →
  cs_matches prec cs row.
Proof.
  intros Hwf Hc (exp & Hcs & _) Hrow. destruct (Hc _ _ _ Hcs) as (row' & Hev & Hm).
  eapply lookup_weaken in Hrow; [|by apply awf_ever]. by simplify_eq.
Qed.

Section sessions.
Context `{Argon2, !Argon2Spec, UnicodeTables} (s : AuthService).

Lemma during_core a b a' t : same_core a b → during b a' t → during a a' t.
Proof. intros [] []. split; lia. Qed.

Lemma opened_core a b a' uid m tp :
  same_core a b → opened s uid m tp b a' → opened s uid m tp a a'.
Proof.
  intros Hc (t & row & Hd & ? & ? & ? & ? & ?). exists t, row.
  pose proof (during_core _ _ _ _ Hc Hd). destruct Hc. split_and!; congruence.
Qed.

(** What [refresh_rotate] does with the session it is given. *)
Lemma refresh_rotate_spec ctx req cached a a' r :
  rexec live (refresh_rotate s ctx req (token.Hash (rr_RefreshToken req)) cached) a a' r →
  let h := token.Hash (rr_RefreshToken req) in
  (∃ t, during a a' t ∧ cs_ExpiresAt cached < t ∧
     r = Refuse (Status Unauthenticated "refresh token expired") ∧
     a_sess a' = delete h (a_sess a) ∧ a_users a' = a_users a) ∨
  (∃ t, during a a' t ∧ t ≤ cs_ExpiresAt cached ∧
     match a_sess a !! h with
     | None => r = Refuse invalid_refresh ∧ same_core a a'
     | Some _ => ∃ tp, r = Reply tp ∧ opened s (cs_UserID cached) (delete h (a_sess a)) tp a a'
     end).
Proof.
  intros Hex h. unfold refresh_rotate in Hex. rexec_inv.
  all: match goal with H : time_After _ _ = _ |- _ => unfold time_After in H end; subst h.
  - left. exists x. unfold during. core_rewrite. split_and!; try done; lia.
  - right. exists x. unfold opened, during. core_rewrite. split_and!; [lia..|].
    match goal with H : is_Some _ |- _ => destruct H as [row' ->] end.
    eexists. split; [done|].
    match goal with
    | H : row_of ?y = ?z |- _ =>
        match z with context [time_Add ?t _] => exists t, (row_of y); rewrite H end
    end.
    split_and!; done || lia.
  - right. exists x. unfold during. split_and!; [simpl in *; lia..|].
    use_errors. core_keep. match goal with H : _ = None |- _ => rewrite H end.
    split; [done|core_solve].
Qed.

(** The outcome of a refresh whose token has hash [h]. *)
Definition refreshed (h : string) (a a' : astate) (r : reply TokenPair) : Prop :=
  match a_sess a !! h with
  | None => (∃ m, r = Refuse (Status Unauthenticated m)) ∧
            a_sess a' = a_sess a ∧ a_users a' = a_users a
  | Some row =>
      (∃ t, during a a' t ∧ sr_ExpiresAt row < t ∧
         r = Refuse (Status Unauthenticated "refresh token expired") ∧
         a_sess a' = delete h (a_sess a)) ∨
      (∃ t tp, during a a' t ∧ t ≤ sr_ExpiresAt row ∧ r = Reply tp ∧
         opened s (sr_UserID row) (delete h (a_sess a)) tp a a')
  end.

Lemma rotate_found ctx req cached a b a' r :
  rexec live (refresh_rotate s ctx req (token.Hash (rr_RefreshToken req)) cached) b a' r →
  same_core a b →
  (∀ row, a_sess a !! token.Hash (rr_RefreshToken req) = Some row →
     cs_UserID cached = sr_UserID row ∧ cs_ExpiresAt cached = sr_ExpiresAt row) →
  refreshed (token.Hash (rr_RefreshToken req)) a a' r.
Proof.
  intros Hex Hc Hrow. apply refresh_rotate_spec in Hex. simpl in Hex.
  rewrite (core_sess _ _ Hc) in Hex. unfold refreshed.
  destruct Hex as [(t & Hd & Ht & -> & Hs & Hu)|(t & Hd & Ht & Hex)];
    apply (during_core _ _ _ _ Hc) in Hd;
    destruct (a_sess a !! _) as [row|] eqn:Hl;
    try (destruct (Hrow _ eq_refl) as [Huid Hexp]; rewrite Hexp in Ht).
  - left. eauto.
  - rewrite delete_id in Hs by done. destruct Hc. split; [by eexists|]. split; congruence.
  - destruct Hex as (tp & -> & Ho). right. exists t, tp. rewrite Huid in Ho.
    eauto using opened_core.
  - destruct Hex as [-> Hc']. destruct (transitivity Hc Hc'). split; [by eexists|done].
Qed.

Lemma RefreshToken_live ctx req a a' r :
  rexec live (RefreshToken s ctx req) a a' r → awf a → coherent 1 a →
  refreshed (token.Hash (rr_RefreshToken req)) a a' r.
Proof.
  intros Hex Hwf Hco. unfold RefreshToken, getCachedSession in Hex.
  apply rexec_bind in Hex as (b & cached & (c & b' & Hget & [-> ->]) & Hex).
  pose proof (strict_core _ _ _ _ _ (live_strict _ _ _ _ _ Hget) I) as Hc1.
  destruct c as [cs|err]; cbv beta iota zeta in Hex.
  { destruct Hget as [[_ (t & _ & Hfresh)] _].
    eapply rotate_found in Hex; eauto. intros row Hrow.
    destruct (coherent_row _ _ _ _ _ _ Hwf Hco Hfresh Hrow) as (_ & -> & _ & ?).
    split; [done|lia]. }
  destruct Hex as (db & b2 & Hdb & Hex).
  pose proof (strict_core _ _ _ _ _ (live_strict _ _ _ _ _ Hdb) I) as Hc2.
  destruct Hdb as [[_ Hdb] Hlive]. simpl in Hlive. destruct db as [x|err'].
  - eapply rotate_found in Hex; [done|by etrans|]. intros row Hrow.
    destruct Hdb as [_ Hdb]. rewrite (core_sess _ _ Hc1) in Hdb. simplify_eq. done.
  - rewrite Hlive in Hex. destruct Hex as [-> ->]. rewrite (core_sess _ _ Hc1) in Hdb.
    unfold refreshed. rewrite (Hdb Hlive). destruct (transitivity Hc1 Hc2). split; [by eexists|done].
Qed.

(** C2: With backends that do not fail, [RefreshToken] succeeds exactly when the
    presented token has a session that has not expired: that session is
    removed and one session of the same user, with a fresh lifetime and under
    the hash of the new refresh token, takes its place.  An expired session is
    deleted and refused; a token without a session is refused and nothing
    changes, even if the cache still knows it. *)
Theorem RefreshToken_spec ctx req a a' r :
  rexec live (RefreshToken s ctx req) a a' r → awf a → coherent 1 a →
  refreshed (token.Hash (rr_RefreshToken req)) a a' r.
Proof. apply RefreshToken_live. Qed.

(** The session under [h] and its cache entry are gone, and nothing else is. *)
Definition logged_out (h : string) (a a' : astate) : Prop :=
  a_users a' = a_users a ∧ a_sess a' = delete h (a_sess a) ∧ a_cache a' !! h = None.

(** With backends that do not fail, [Logout] always succeeds; afterwards the
    presented token has neither a session nor a cache entry, and no other
    session is touched. *)
Lemma Logout_spec ctx tok a a' r :
  rexec live (Logout s ctx tok) a a' r → r = Reply tt ∧ logged_out (token.Hash tok) a a'.
Proof.
  unfold Logout, getCachedSession, logged_out. intros Hex. rexec_inv;
    core_rewrite; by rewrite lookup_delete_eq.
Qed.

(** C29: With backends that do not fail, [LogoutAll] removes exactly the sessions
    of the authenticated user, leaves none of them in the cache, and answers
    their number. *)
Theorem LogoutAll_spec ctx uid a a' r :
  rexec live (logout_all_of s ctx uid) a a' r →
  r = Reply (wrap32 (Z.of_nat (size (rows_of uid (a_sess a))))) ∧
  a_sess a' = rows_not_of uid (a_sess a) ∧ a_users a' = a_users a ∧
  ∀ h, is_Some (rows_of uid (a_sess a) !! h) → a_cache a' !! h = None.
Proof.
  unfold logout_all_of. intros Hex. rexec_inv. core_rewrite.
  match goal with H : _ ≡ₚ _ |- _ => rename H into Hkeys end.
  rewrite (length_keys _ _ Hkeys). split_and!; [done..|]. by eapply keys_gone.
Qed.


End sessions.

(** ** Passwords *)

Section passwords.
Context `{Argon2, !Argon2Spec, UnicodeTables} (s : AuthService).

(** The account [uid] gets a hash that verifies [pw]; nothing else of any
    account changes. *)
Definition password_changed (uid pw : string) (u : User) (a a' : astate) : Prop :=
  ∃ ph t, password.Verify pw ph = Ok true ∧
    a_users a' = <[uid := with_password ph t u]> (a_users a).

(** The sessions [gone] are removed from the sessions and from the cache. *)
Definition sessions_revoked (gone : gmap string srow) (left : gmap string srow) (a' : astate) : Prop :=
  a_sess a' = left ∧ ∀ h, is_Some (gone !! h) → a_cache a' !! h = None.

(** The session [ChangePassword] keeps. *)
Definition keep_hash (req : ChangePasswordRequest) : string :=
  if bool_decide (cp_RefreshToken req = "") then "" else token.Hash (cp_RefreshToken req).

(** C27: With backends that do not fail, [ChangePassword] with an acceptable new
    password and the right current one makes the account verify the new
    password and revokes every session of the user but the one of the presented
    refresh token; with a wrong current password nothing changes. *)
Theorem ChangePassword_spec ctx uid req a a' r :
  rexec live (change_password_of s ctx uid req) a a' r →
  match Password (cp_NewPassword req) with
  | Some err => r = Refuse (Status InvalidArgument err) ∧ a' = a
  | None =>
      match a_users a !! uid with
      | None => r = Refuse internal_error ∧ same_core a a'
      | Some u =>
          match password.Verify (cp_CurrentPassword req) (user_PasswordHash u) with
          | Ok true =>
              r = Reply tt ∧ password_changed uid (cp_NewPassword req) u a a' ∧
              sessions_revoked (rows_except uid (keep_hash req) (a_sess a))
                (rows_not_except uid (keep_hash req) (a_sess a)) a'
          | Ok false => r = Refuse invalid_credentials ∧ same_core a a'
          | Err _ => r = Refuse internal_error ∧ same_core a a'
          end
      end
  end.
Proof.
  unfold change_password_of, change_password_to, password_changed, sessions_revoked.
  fold (keep_hash req). intros Hex. rexec_inv; try done; core_keep; use_errors; simplify_eq;
    match goal with H : a_users a !! uid = _ |- _ => rewrite H end;
    repeat match goal with H : password.Verify _ (user_PasswordHash _) = _ |- _ => rewrite H end;
    try (split; [done|core_solve]).
  split_and!; [done|by eauto|done|].
  repeat match goal with H : a_cache _ = _ |- _ => rewrite H end. by eapply keys_gone.
Qed.

(** C25: With backends that do not fail, [ResetPassword] with a reset token that
    is stored and has not expired consumes the token, makes the account verify
    the new password and revokes every session of the user; with any other
    token it is refused and no account or session changes. *)
Theorem ResetPassword_spec ctx tok pw a a' r :
  rexec live (ResetPassword s ctx tok pw) a a' r →
  match Password pw with
  | Some err => r = Refuse (Status InvalidArgument err) ∧ a' = a
  | None =>
      (no_fresh_entry (a_toks a) (token.Hash tok) (a_now a') ∧
       r = Refuse (Status Unauthenticated "invalid or expired reset token") ∧
       a_users a' = a_users a ∧ a_sess a' = a_sess a) ∨
      (∃ rec t, during a a' t ∧ fresh_entry (a_toks a) (token.Hash tok) t rec ∧
         a_toks a' = delete (token.Hash tok) (a_toks a) ∧
         match a_users a !! rt_UserID rec with
         | Some u =>
             r = Reply tt ∧ password_changed (rt_UserID rec) pw u a a' ∧
             sessions_revoked (rows_of (rt_UserID rec) (a_sess a))
               (rows_not_of (rt_UserID rec) (a_sess a)) a'
         | None => r = Refuse internal_error ∧ a_users a' = a_users a ∧ a_sess a' = a_sess a
         end)
  end.
Proof.
  unfold ResetPassword, password_changed, sessions_revoked.
  intros Hex. rexec_inv; try done; core_keep; use_errors.
  - right. eexists _, _. unfold during in *. simpl in *.
    match goal with H : a_users a !! _ = _ |- _ => rewrite H end.
    split_and!; [..|done|done|done|done|done]; lia.
  - right. eexists _, _. unfold during in *. simpl in *.
    match goal with H : a_users a !! _ = _ |- _ => rewrite H end.
    split_and!; [..|done|congruence|done|by eauto|done|]; [lia..|].
    repeat match goal with H : a_cache _ = _ |- _ => rewrite H end. by eapply keys_gone.
  - left. inv_either. all: by split_and!.
Qed.


(** The outcome of checking [otp] against a stored code. *)
Definition code_checked (email otp : string) (rec : OTPRecord) (exp : time)
    (a a' : astate) (r : reply string) : Prop :=
  let k := token.Hash email in
  let n := wrap64 (otp_Attempts rec + 1) in
  if 5 <=? n then
    r = Refuse (Status Unauthenticated "too many attempts") ∧
    a_otps a' = delete k (a_otps a) ∧ a_toks a' = a_toks a
  else if bool_decide (token.Hash otp = otp_OTPHash rec) then
    ∃ tok t, r = Reply tok ∧ during a a' t ∧ a_otps a' = delete k (a_otps a) ∧
      a_toks a' = <[token.Hash tok :=
        ({| rt_UserID := otp_UserID rec; rt_Email := email |}, time_Add t (15 * minute))]>
        (a_toks a)
  else
    r = Refuse (Status Unauthenticated "invalid or expired code") ∧
    a_otps a' = <[k := (with_attempts n rec, exp)]> (a_otps a) ∧ a_toks a' = a_toks a.

(** C26: With backends that do not fail, [VerifyResetCode] counts an attempt, and
    then: refuses and discards the code when this is the fifth attempt or a
    later one, whether the code is right or not; otherwise exchanges a right
    code, once, for a reset token of 15 minutes for the same account, and
    refuses a wrong one.  Without a stored code it refuses. *)
Theorem VerifyResetCode_spec email otp a a' r :
  rexec live (VerifyResetCode email otp) a a' r → Email email = None →
  a_users a' = a_users a ∧ a_sess a' = a_sess a ∧
  ((no_fresh_entry (a_otps a) (token.Hash email) (a_now a') ∧
    r = Refuse (Status Unauthenticated "invalid or expired code") ∧ a_toks a' = a_toks a) ∨
   (∃ rec exp, a_otps a !! token.Hash email = Some (rec, exp) ∧
      code_checked email otp rec exp a a' r)).
Proof.
  unfold VerifyResetCode, issue_reset_token, maxOTPAttempts, code_checked. intros Hex He.
  rewrite He in Hex. rexec_inv; use_errors;
    try match goal with H : fresh_entry (a_otps a) _ _ _ |- _ => destruct H as (? & ? & ?) end;
    unfold during in *; core_rewrite; simplify_eq;
    try (split_and!; [done..|]; right; eexists _, _; (split; [done|]);
         match goal with H : (_ <=? _) = _ |- _ => rewrite H end;
         repeat match goal with H : negb _ = _ |- _ =>
           apply negb_true_iff in H || apply negb_false_iff in H; rewrite H end;
         rewrite ?delete_insert_eq).
  - done.
  - done.
  - case_bool_decide; [|done].
    refine (ex_intro _ _ (ex_intro _ _ (conj eq_refl (conj _ (conj eq_refl eq_refl))))). lia.
  - inv_either; (split_and!; [done..|]; left; split_and!; done).
  - inv_either; (split_and!; [done..|]; left; split_and!; done).
Qed.
End passwords.
