(* ===== verification/Concurrency.v ===== *)
(** * Concurrent RPCs

    Any number of RPCs run at the same time; every port call is atomic, and a
    scheduler decides which RPC makes the next one.  The ports answer as
    [safe prec] allows: any call may fail, a failed call may have been carried
    out all the same, and the session store may round times to a multiple of
    [prec] nanoseconds. *)

From Stdlib Require Import Ascii String.
From S2P Require Import Prelude GoStd Encoding Ports Validate Crypto Service Spec ServiceSafety.
From S2P Require Import ServiceSpec.
Open Scope Z_scope.

(** ** The cache stays coherent *)

Definition ever_le (a a' : astate) : Prop := a_ever a ⊆ a_ever a'.
#[global] Instance ever_le_preorder : PreOrder ever_le.
Proof. unfold ever_le. split; [intros a; done|]. intros a b c ??. by etrans. Qed.

(** Every operation but [CacheSet] keeps the cache coherent by itself. *)
Definition no_set (X : Type) (e : portE X) : Prop :=
  match e with CacheSet _ _ _ => False | _ => True end.

Lemma coherent_mono prec a a' :
  coherent prec a → a_ever a ⊆ a_ever a' → a_cache a' ⊆ a_cache a → coherent prec a'.
Proof.
  intros Hc Hev Hca h cs exp Hl. destruct (Hc h cs exp) as (row & Hrow & Hm).
  - by eapply lookup_weaken.
  - exists row. split; [|done]. by eapply lookup_weaken.
Qed.

Lemma no_set_coherent prec X (e : portE X) x a a' :
  no_set X e → safe prec X e x a a' → coherent prec a → coherent prec a'.
Proof.
  intros Hn Hs Hc. apply (coherent_mono prec a); [done|by eapply a_ever_mono|].
  destruct e; try done; inv_spec Hs;
    try match goal with H : upto _ _ |- _ => destruct H as (? & _ & ->) end;
    subst; simpl; done || apply delete_subseteq.
Qed.

Lemma set_coherent prec h cs ttl x a a' row :
  safe prec _ (CacheSet h cs ttl) x a a' → coherent prec a →
  a_ever a !! h = Some row → cs_matches prec cs row → coherent prec a'.
Proof.
  intros Hs Hc Hrow Hm.
  assert (∀ exp, upto a' (set_cache (<[h := (cs, exp)]> (a_cache a)) a) → coherent prec a') as Hset.
  { intros exp (? & _ & ->) h' cs' exp'. simpl.
    intros [[<- [= <- <-]]|[_ Hl]]%lookup_insert_Some; [eauto|by eapply Hc]. }
  inv_spec Hs; first [eapply Hset; eassumption|by match goal with H : upto _ _ |- _ => destruct H as (? & _ & ->) end].
Qed.

(** [keeps p]: started at any time, the calls of [p] keep the cache coherent. *)
Abbreviation rgc prec p a := (rg (safe prec) (coherent prec) ever_le p a (λ _ _, True)).
Definition keeps (prec : Z) {A} (p : prog portE A) : Prop := ∀ a, rgc prec p a.

Create HintDb keeps.

Section keeps.
Context (prec : Z) {A B : Type}.

Lemma keeps_Ret (r : A) : keeps prec (Ret r).
Proof. done. Qed.

Lemma keeps_Vis {X} (e : portE X) (k : X → prog portE A) :
  no_set X e → (∀ x, keeps prec (k x)) → keeps prec (Vis e k).
Proof.
  intros Hn Hk a a1 x a2 _ Hc Hs. split; [by eapply no_set_coherent|apply Hk].
Qed.

Lemma keeps_bind (p : prog portE A) (f : A → prog portE B) :
  keeps prec p → (∀ r, keeps prec (f r)) → keeps prec (bind p f).
Proof.
  intros Hp Hf a. apply rg_bind. eapply rg_weaken; [apply Hp|]. intros r a' _. apply Hf.
Qed.

Lemma keeps_all_calls (p : prog portE A) : all_calls no_set p → keeps prec p.
Proof.
  induction p as [r|X e k IH]; simpl; [by intros _ a|].
  intros [Hn Hk]. apply keeps_Vis; auto.
Qed.
End keeps.

(** Once the session is stored, its cache entry may be written. *)
Lemma rg_cacheSession prec h cs row a :
  a_ever a !! h = Some row → cs_matches prec cs row → rgc prec (cacheSession h cs) a.
Proof.
  intros Hrow Hm a1 t a2 H1 Hc Hs.
  split; [exact (no_set_coherent prec _ Now t a1 a2 I Hs Hc)|].
  assert (a_ever a2 !! h = Some row) as Hrow2.
  { eapply lookup_weaken; [exact Hrow|]. etrans; [exact H1|by eapply a_ever_mono]. }
  cbv zeta. case_match; [done|]. intros a3 x a4 H3 Hc3 Hs3.
  split; [|by destruct x; [apply keeps_Vis; [done|intros _; apply keeps_Ret]|]].
  eapply set_coherent; [done..| |done]. by eapply lookup_weaken.
Qed.

Section service.
Context `{Argon2, UnicodeTables} (prec : Z) (s : AuthService).

Lemma keeps_logAudit uid ty ip ua meta : keeps prec (logAudit s uid ty ip ua meta).
Proof. apply keeps_all_calls. unfold logAudit. core_calls. Qed.
Lemma keeps_fireHook uid email ty ip ua meta : keeps prec (fireHook uid email ty ip ua meta).
Proof. apply keeps_all_calls. core_calls. Qed.
Lemma keeps_delete h : keeps prec (deleteSessionFromCache h).
Proof. apply keeps_all_calls. core_calls. Qed.
Lemma keeps_deletes hs : keeps prec (deleteSessionsFromCache hs).
Proof. induction hs; [by intros a|]. apply keeps_bind; [apply keeps_delete|done]. Qed.
Lemma keeps_extractUserID ctx : keeps prec (extractUserIDFromCtx ctx).
Proof. apply keeps_all_calls. unfold extractUserIDFromCtx. core_calls. Qed.
Lemma keeps_Hash pw : keeps prec (password.Hash pw).
Proof. apply keeps_all_calls. unfold password.Hash. core_calls. Qed.
Lemma keeps_Generate : keeps prec token.Generate.
Proof. apply keeps_all_calls. unfold token.Generate. core_calls. Qed.
Lemma keeps_otp : keeps prec otp.Generate.
Proof. apply keeps_all_calls. unfold otp.Generate. core_calls. Qed.
End service.
#[export] Hint Resolve keeps_logAudit keeps_fireHook keeps_delete keeps_deletes
  keeps_extractUserID keeps_Hash keeps_Generate keeps_otp : keeps.

(** Walk through a handler. *)
Ltac keeps_step :=
  first
    [ apply keeps_Ret
    | solve [auto with keeps]
    | match goal with
      | |- keeps _ (match ?d with _ => _ end) => destruct d
      | |- keeps _ (bind (match ?d with _ => _ end) _) => destruct d
      | |- keeps _ (let '(_, _) := ?d in _) => destruct d
      end
    | apply keeps_bind; [|intros ?]
    | apply keeps_Vis; [exact I|intros ?]
    | progress cbv zeta ].
Ltac keeps_all := repeat keeps_step.

Section handlers.
Context `{Argon2, UnicodeTables} (prec : Z) (s : AuthService).
Hypothesis prec_pos : 0 < prec.

Lemma stored_row_of x : stored prec x (row_of x).
Proof. exists (sess_ExpiresAt x). split; [lia|by destruct x]. Qed.

(** After a successful insertion the new row is known for good. *)
Lemma keeps_create sess (k : result Session → prog portE (reply TokenPair)) :
  (∀ x row a, a_ever a !! sess_TokenHash sess = Some row → stored prec x row →
              row_of x = with_ID (sess_ID x) (row_of sess) → rgc prec (k (Ok x)) a) →
  (∀ err, keeps prec (k (Err err))) → keeps prec (Vis (SessCreate sess) k).
Proof.
  intros Hok Herr a a1 x a2 _ Hc Hs.
  split; [exact (no_set_coherent prec _ (SessCreate sess) x a1 a2 I Hs Hc)|].
  destruct x as [x|err]; [|apply Herr].
  destruct Hs as [(_ & _ & _ & Hrow & (t & _ & ->))
                 |(y & row & -> & _ & _ & _ & Hrow & Hst & (t & _ & ->))];
    (eapply Hok; [apply lookup_insert_eq|eauto using stored_row_of|done]).
Qed.

Lemma keeps_rotate old sess (k : result Session → prog portE (reply TokenPair)) :
  (∀ x row a, a_ever a !! sess_TokenHash sess = Some row → stored prec x row →
              row_of x = with_ID (sess_ID x) (row_of sess) → rgc prec (k (Ok x)) a) →
  (∀ err, keeps prec (k (Err err))) → keeps prec (Vis (SessRotateToken old sess) k).
Proof.
  intros Hok Herr a a1 x a2 _ Hc Hs.
  split; [exact (no_set_coherent prec _ (SessRotateToken old sess) x a1 a2 I Hs Hc)|].
  destruct x as [x|err]; [|apply Herr].
  destruct Hs as [(_ & _ & _ & _ & Hrow & (t & _ & ->))
                 |(y & row & -> & _ & _ & _ & _ & Hrow & Hst & (t & _ & ->))];
    (eapply Hok; [apply lookup_insert_eq|eauto using stored_row_of|done]).
Qed.

Lemma matches_stored cs x row :
  stored prec x row → cs_SessionID cs = sess_ID x → cs_UserID cs = sr_UserID (row_of x) →
  cs_DeviceID cs = sr_DeviceID (row_of x) → cs_ExpiresAt cs = sess_ExpiresAt x →
  cs_matches prec cs row.
Proof. intros (e & He & ->) ? ? ? Hexp. split_and!; [done..| |]; rewrite Hexp; simpl; lia. Qed.

(** The cache entry written for a stored session describes it. *)
Lemma rg_cache_then {B} h cs row a (p : prog portE B) :
  a_ever a !! h = Some row → cs_matches prec cs row → keeps prec p →
  rgc prec (cacheSession h cs;;; p) a.
Proof.
  intros Hrow Hm Hp. apply rg_bind. eapply rg_weaken; [by eapply rg_cacheSession|].
  intros _ a' _. apply Hp.
Qed.

Lemma keeps_login_issue user req ip ua : keeps prec (login_issue s user req ip ua).
Proof.
  unfold login_issue. apply keeps_Vis; [done|]. intros [acc|]; [|keeps_all].
  apply keeps_bind; [auto with keeps|]. intros [[plain hashed]|]; [|keeps_all]. cbv zeta.
  apply keeps_Vis; [done|]. intros t. apply keeps_create; [|intros; keeps_all].
  intros x row a Hev Hst Hrow. eapply rg_cache_then; [exact Hev| |keeps_all].
  apply matches_stored with x; rewrite ?Hrow; done.
Qed.

Lemma keeps_refresh_rotate ctx req h cached : keeps prec (refresh_rotate s ctx req h cached).
Proof.
  unfold refresh_rotate. apply keeps_Vis; [done|]. intros t. case_match; [keeps_all|].
  apply keeps_Vis; [done|]. intros [acc|]; [|keeps_all].
  apply keeps_bind; [auto with keeps|]. intros [[plain hashed]|]; [|keeps_all].
  case_match. cbv zeta. apply keeps_Vis; [done|]. intros t2.
  apply keeps_rotate; [|intros; keeps_all]. intros x row a Hev Hst Hrow.
  apply rg_bind. eapply rg_weaken; [apply rg_ord; [apply _|exact (a_ever_mono prec)|apply keeps_delete]|].
  intros r' a' Ha'. eapply rg_cache_then; [by eapply lookup_weaken| |keeps_all].
  apply matches_stored with x; rewrite ?Hrow; done.
Qed.

Lemma keeps_Login ctx req : keeps prec (Login s ctx req).
Proof.
  assert (∀ ip ua, keeps prec (login_check s req ip ua)) as Hcheck.
  { intros ip ua. unfold login_check, login_failed.
    pose proof keeps_login_issue. keeps_all. }
  unfold Login. keeps_all.
Qed.

Lemma keeps_RefreshToken ctx req : keeps prec (RefreshToken s ctx req).
Proof.
  unfold RefreshToken, getCachedSession, trigger. pose proof keeps_refresh_rotate. keeps_all.
Qed.

Lemma keeps_serve ctx req : keeps prec (serve s ctx req).
Proof.
  pose proof keeps_Login. pose proof keeps_RefreshToken.
  unfold serve, respond, Register, ValidateToken, Logout, getCachedSession, trigger, LogoutAll,
    logout_all_of, ListSessions, list_sessions_of, RevokeSession, revoke_session_of,
    ChangePassword, change_password_of, change_password_to, RequestPasswordReset,
    VerifyResetCode, issue_reset_token, ResetPassword.
  keeps_all.
Qed.

Lemma rexec_coherent ctx req a a' r :
  rexec (safe prec) (serve s ctx req) a a' r → coherent prec a → coherent prec a'.
Proof.
  intros Hex Hc.
  by destruct (rexec_rg (safe prec) (coherent prec) ever_le _ _ _ _ _ Hex Hc (keeps_serve ctx req a)).
Qed.

(** C7: Whatever RPCs run at the same time and however their calls interleave,
    users keep distinct emails, sessions keep distinct identifiers, and every
    cache entry describes the session that was stored under its token hash:
    a refresh served from the cache acts for the right user and expiry. *)
Theorem interleaving_invariant a ps tr a' ps' :
  psteps (safe prec) a ps tr a' ps' → Forall (λ p, ∃ ctx req, p = serve s ctx req) ps →
  awf a → coherent prec a → awf a' ∧ coherent prec a'.
Proof.
  intros Hps Hall Hwf Hco. split.
  - eapply rcalls_invariant; [exact (port_spec_awf prec)|by eapply psteps_rcalls|done].
  - eapply (psteps_rg (safe prec) (coherent prec) ever_le); [exact (a_ever_mono prec)|exact Hps|done|].
    eapply Forall_impl; [exact Hall|]. intros p (ctx & req & ->). apply keeps_serve.
Qed.
End handlers.

(** ** A refresh token works at most once *)

(** A successful rotation of the session under [h]. *)
Definition rotates (h : string) (c : callrec portE) : bool :=
  match call_op c in portE X return X → bool with
  | SessRotateToken old _ => λ r,
      bool_decide (old = h) && match r with Ok _ => true | Err _ => false end
  | _ => λ _, false
  end (call_res c).

Lemma rotates_inv prec h c a a' :
  rotates h c = true → safe prec (call_ty c) (call_op c) (call_res c) a a' → awf a →
  is_Some (a_sess a !! h) ∧ consumed h a'.
Proof.
  destruct c as [X e x]. destruct e; try done. unfold rotates. simpl.
  intros [Hold%bool_decide_eq_true Hx]%andb_true_iff. subst h. destruct x as [x|]; [|done].
  intros Hrot Hwf.
  assert (is_Some (a_sess a !! oldHash) ∧ a_ever a !! sess_TokenHash newSession = None ∧
    ∃ row, upto a' (add_sess (sess_TokenHash newSession) row (delete oldHash (a_sess a)) a))
    as (Hs & Hnew & row & (t & _ & ->)) by (destruct Hrot as [?|?]; naive_solver).
  split; [done|]. destruct Hs as [old Hold].
  assert (a_ever a !! oldHash = Some old) as Hev
    by (eapply lookup_weaken; [exact Hold|by apply awf_ever]).
  assert (sess_TokenHash newSession ≠ oldHash) by (intros <-; congruence).
  split; simpl.
  - rewrite lookup_insert_ne by done. eauto.
  - by rewrite lookup_insert_ne, lookup_delete_eq by done.
Qed.

(** Once consumed, a token hash is never rotated. *)
Lemma consumed_no_rotate prec h a tr a' c :
  rcalls (safe prec) a tr a' → awf a → consumed h a → c ∈ tr → rotates h c = false.
Proof.
  induction 1 as [a|a a1 a' c0 tr HR Hc IH]; intros Hwf Hcons Hin; [by apply elem_of_nil in Hin|].
  apply elem_of_cons in Hin as [->|Hin].
  - apply not_true_iff_false. intros Hrot.
    destruct (rotates_inv prec _ _ _ _ Hrot HR Hwf) as [[r Hr] _].
    destruct Hcons as [_ Hno]. congruence.
  - apply IH; [by eapply port_spec_awf|by eapply consumed_stable|done].
Qed.

Lemma rotate_once prec h a tr1 c1 tr2 c2 tr3 a' :
  rcalls (safe prec) a (tr1 ++ c1 :: tr2 ++ c2 :: tr3) a' → awf a →
  rotates h c1 = true → rotates h c2 = true → False.
Proof.
  intros (b & H1 & H2)%rcalls_app Hwf Hr1 Hr2. inversion H2 as [|? b1 ? ? ? HR Hrest]; subst.
  assert (awf b) as Hwfb by (eapply rcalls_invariant; [exact (port_spec_awf prec)|exact H1|done]).
  destruct (rotates_inv prec _ _ _ _ Hr1 HR Hwfb) as [_ Hcons].
  assert (rotates h c2 = false); [|congruence].
  eapply consumed_no_rotate; [exact Hrest|by eapply port_spec_awf|done|].
  apply elem_of_app. right. by left.
Qed.

Section once.
Context `{Argon2, UnicodeTables} (prec : Z) (s : AuthService).

(** A refresh that succeeds has rotated the session of its token. *)
Lemma refresh_rotates ctx req tr resp :
  exec (serve s ctx (ReqRefreshToken req)) tr (Reply resp) →
  ∃ c, c ∈ tr ∧ rotates (token.Hash (rr_RefreshToken req)) c = true.
Proof.
  intros Hex. unfold serve, respond, RefreshToken, refresh_rotate, getCachedSession,
    token.Generate in Hex.
  exec_inv;
    (eexists (Call (SessRotateToken (token.Hash (rr_RefreshToken req)) _) (Ok _)); split; [in_trace|];
     unfold rotates; simpl; by rewrite bool_decide_eq_true_2).
Qed.

(** At most one refresh of a token succeeds. *)
Lemma one_refresh a ps tr a' ps' i j ctx1 ctx2 req1 req2 resp1 resp2 :
  psteps (safe prec) a ps tr a' ps' → awf a →
  ps !! i = Some (serve s ctx1 (ReqRefreshToken req1)) →
  ps !! j = Some (serve s ctx2 (ReqRefreshToken req2)) →
  ps' !! i = Some (Ret (Reply resp1)) → ps' !! j = Some (Ret (Reply resp2)) →
  rr_RefreshToken req1 = rr_RefreshToken req2 → i = j.
Proof.
  intros Hps Hwf Hi Hj Hi' Hj' Htok.
  destruct (refresh_rotates _ _ _ _ (psteps_exec _ _ _ _ _ _ _ _ _ Hps Hi Hi')) as (c1 & Hc1 & Hr1).
  destruct (refresh_rotates _ _ _ _ (psteps_exec _ _ _ _ _ _ _ _ _ Hps Hj Hj')) as (c2 & Hc2 & Hr2).
  apply elem_of_calls_of in Hc1, Hc2. rewrite Htok in Hr1.
  destruct (decide (i = j)) as [|Hne]; [done|]. exfalso.
  apply psteps_rcalls in Hps.
  destruct (two_elements tr (i, c1) (j, c2)) as (t1 & t2 & t3 & [->| ->]); [done..|congruence| |];
    rewrite !fmap_app in Hps; csimpl in Hps; rewrite fmap_app in Hps; csimpl in Hps;
    eauto using rotate_once.
Qed.

(** C1: However many RPCs run at the same time and however their calls
    interleave, at most one [RefreshToken] with a given refresh token succeeds:
    a stolen token cannot be replayed, not even concurrently. *)
Theorem refresh_at_most_once a ps tr a' ps' i j ctx1 ctx2 req1 req2 resp1 resp2 :
  psteps (safe prec) a ps tr a' ps' → awf a →
  ps !! i = Some (serve s ctx1 (ReqRefreshToken req1)) →
  ps !! j = Some (serve s ctx2 (ReqRefreshToken req2)) →
  ps' !! i = Some (Ret (Reply resp1)) → ps' !! j = Some (Ret (Reply resp2)) →
  rr_RefreshToken req1 = rr_RefreshToken req2 → i = j.
Proof. apply one_refresh. Qed.

(** A consumed token is refused, whatever runs and however it interleaves. *)
Lemma consumed_refused a ps tr a' ps' i ctx req resp :
  psteps (safe prec) a ps tr a' ps' → awf a → consumed (token.Hash (rr_RefreshToken req)) a →
  ps !! i = Some (serve s ctx (ReqRefreshToken req)) →
  ps' !! i ≠ Some (Ret (Reply resp)).
Proof.
  intros Hps Hwf Hcons Hi Hi'.
  destruct (refresh_rotates _ _ _ _ (psteps_exec _ _ _ _ _ _ _ _ _ Hps Hi Hi')) as (c & Hc & Hr).
  apply elem_of_calls_of in Hc.
  assert (rotates (token.Hash (rr_RefreshToken req)) c = false); [|congruence].
  eapply consumed_no_rotate; [by eapply psteps_rcalls|done..|].
  apply list_elem_of_fmap. by exists (i, c).
Qed.

(** Inversion of a run with faults: a call that leaves the core alone is
    recorded as such. *)
Ltac safe_call :=
  match goal with
  | H : _ ∧ _ |- _ => destruct H
  | H : ∃ _, _ |- _ => destruct H
  | H : rexec (safe _) ?p _ _ _ |- _ =>
      apply rexec_safe_core in H; [destruct H|solve [auto with core_calls]]
  | H : safe _ _ _ _ _ _ |- _ =>
      first [ let Hc := fresh in pose proof (safe_same_core _ _ _ _ _ _ H I) as Hc; destruct Hc; clear H
            | destruct H as [H|H]; simpl in H ]
  | H : upto _ _ |- _ => destruct H as (? & ? & ->)
  end.
Ltac safe_inv := repeat (first [safe_call | rexec_step]; try discriminate; try done; simplify_eq).

Lemma row_consumed a a1 h row :
  awf a → a_sess a !! h = Some row → a_ever a1 = a_ever a → a_sess a1 !! h = None →
  consumed h a1.
Proof.
  intros Hwf Hrow Hev Hno. split; [|done]. rewrite Hev. exists row.
  eapply lookup_weaken; [done|by apply awf_ever].
Qed.

(** C8: After a successful [Logout], even one whose cache calls failed, the
    session's refresh token is dead: no [RefreshToken] with it succeeds later,
    whatever else runs and however the calls interleave. *)
Theorem logout_is_final ctx tok a a1 row ps tr a' ps' i ctx2 req resp :
  rexec (safe prec) (Logout s ctx tok) a a1 (Reply tt) → awf a →
  a_sess a !! token.Hash tok = Some row →
  psteps (safe prec) a1 ps tr a' ps' →
  ps !! i = Some (serve s ctx2 (ReqRefreshToken req)) → rr_RefreshToken req = tok →
  ps' !! i ≠ Some (Ret (Reply resp)).
Proof.
  intros Hex Hwf Hrow Hps Hi <-. eapply consumed_refused; [exact Hps| | |exact Hi].
  - eapply rexec_invariant; [exact (port_spec_awf prec)|exact Hex|done].
  - unfold Logout, getCachedSession in Hex. safe_inv;
      (eapply row_consumed; [exact Hwf|exact Hrow|..]; core_rewrite; [done|apply lookup_delete_eq]).
Qed.

(** C9: After a successful [LogoutAll] the same holds for every refresh token
    whose session belonged to the user. *)
Theorem logout_all_is_final ctx uid n a a1 tok row ps tr a' ps' i ctx2 req resp :
  rexec (safe prec) (logout_all_of s ctx uid) a a1 (Reply n) → awf a →
  a_sess a !! token.Hash tok = Some row → sr_UserID row = uid →
  psteps (safe prec) a1 ps tr a' ps' →
  ps !! i = Some (serve s ctx2 (ReqRefreshToken req)) → rr_RefreshToken req = tok →
  ps' !! i ≠ Some (Ret (Reply resp)).
Proof.
  intros Hex Hwf Hrow Huid Hps Hi <-. eapply consumed_refused; [exact Hps| | |exact Hi].
  - eapply rexec_invariant; [exact (port_spec_awf prec)|exact Hex|done].
  - unfold logout_all_of in Hex. safe_inv;
      (eapply row_consumed; [exact Hwf|exact Hrow|..]; core_rewrite; [done|]);
      apply map_lookup_filter_None; right; intros row'; simpl; naive_solver.
Qed.
End once.

(** ** Guesses at a one-time code *)

(** An attempt at the code under key [k] that was counted below the limit: the
    code the client sent is compared only after one. *)
Definition passes (k : string) (c : callrec portE) : bool :=
  match call_op c in portE X return X → bool with
  | ResetIncrOTPAttempts email => λ r,
      bool_decide (token.Hash email = k) &&
      match r with Ok n => n <? maxOTPAttempts | Err _ => false end
  | _ => λ _, false
  end (call_res c).

(** A new code for key [k]. *)
Definition saves (k : string) (c : callrec portE) : bool :=
  match call_op c with
  | ResetSaveOTP _ email _ _ => bool_decide (token.Hash email = k)
  | _ => false
  end.

(** The attempts used for the code under [k], if there is one. *)
Definition attempts_in (k : string) (lo hi : Z) (a : astate) : Prop :=
  ∀ rec exp, a_otps a !! k = Some (rec, exp) → lo ≤ otp_Attempts rec ≤ hi.

(** Every operation but a count or a new code for [k] leaves the code under [k]
    alone or removes it. *)
Lemma otps_frame prec k X (e : portE X) x a a' :
  safe prec X e x a a' →
  match e with
  | ResetIncrOTPAttempts email | ResetSaveOTP _ email _ _ => token.Hash email ≠ k
  | _ => True
  end →
  a_otps a' !! k = a_otps a !! k ∨ a_otps a' !! k = None.
Proof.
  intros Hs He. destruct e; inv_spec Hs;
    try match goal with H : upto _ _ |- _ => destruct H as (? & _ & ->) end;
    subst; simpl; try done; rewrite ?lookup_insert_ne by done; auto;
    match goal with |- context [delete ?k' _ !! k] =>
      destruct (decide (k' = k)) as [->|]; [rewrite lookup_delete_eq|rewrite lookup_delete_ne by done]
    end; auto.
Qed.

(** An attempt leaves the code alone or removes it, and then does not pass; or it
    counts it. *)
Lemma incr_cases prec email x a a' :
  safe prec _ (ResetIncrOTPAttempts email) x a a' →
  (passes (token.Hash email) (Call (ResetIncrOTPAttempts email) x) = false ∧
   (a_otps a' !! token.Hash email = None ∨
    a_otps a' !! token.Hash email = a_otps a !! token.Hash email)) ∨
  (∃ rec exp exp', a_otps a !! token.Hash email = Some (rec, exp) ∧
     match x with Ok n => n = wrap64 (otp_Attempts rec + 1) | Err _ => True end ∧
     upto a' (set_otps (<[token.Hash email :=
       (with_attempts (wrap64 (otp_Attempts rec + 1)) rec, exp')]> (a_otps a)) a)).
Proof.
  intros [Hs|[(rec & exp & exp' & t & n & _ & _ & _ & Hl & -> & Hx & Hup)|
    (rec & exp & t & Hx & _ & _ & _ & (t' & _ & ->))]].
  - destruct x as [n|err]; simpl in Hs.
    + destruct Hs as (rec & exp & t & _ & _ & Hl & -> & Hup). right. eauto 10.
    + left. split; [unfold passes; simpl; by rewrite andb_false_r|].
      destruct Hs as [[(? & _ & ->)|[(? & _ & ->) _]] _]; simpl; [auto|].
      rewrite lookup_delete_eq. auto.
  - right. exists rec, exp, exp'. split_and!; [done|by destruct x|done].
  - left. split; [|by right]. unfold passes. destruct x; [done|]. apply andb_false_r.
Qed.

(** A count raises the lower bound; a passing one stays below the limit. *)
Lemma attempts_step prec k lo hi c a a' :
  safe prec (call_ty c) (call_op c) (call_res c) a a' → saves k c = false →
  0 ≤ lo → hi < 2 ^ 62 → attempts_in k lo hi a →
  attempts_in k (lo + if passes k c then 1 else 0) (hi + 1) a' ∧
  (passes k c = true → lo + 1 ≤ 4).
Proof.
  intros Hs Hsave Hlo Hhi Ha.
  assert (passes k c = false → a_otps a' !! k = a_otps a !! k ∨ a_otps a' !! k = None →
    attempts_in k (lo + if passes k c then 1 else 0) (hi + 1) a' ∧
    (passes k c = true → lo + 1 ≤ 4)) as Hframe.
  { intros Hp Hk. split; [|by rewrite Hp]. rewrite Hp. intros rec exp Hl.
    destruct Hk as [Hk|Hk]; [|congruence]. rewrite Hk in Hl. apply Ha in Hl. lia. }
  destruct c as [X e x]. simpl in Hs.
  destruct e; try (apply Hframe; [done|by eapply otps_frame]);
    unfold saves in Hsave; simpl in Hsave.
  - apply bool_decide_eq_false in Hsave. apply Hframe; [done|by eapply otps_frame].
  - destruct (decide (token.Hash email = k)) as [<-|Hne];
      [|apply Hframe; [unfold passes; simpl; by rewrite bool_decide_eq_false_2|by eapply otps_frame]].
    destruct (incr_cases _ _ _ _ _ Hs) as [(Hp & Hk)|(rec & exp & exp' & Hl & Hx & (t' & _ & ->))].
    + apply Hframe; [exact Hp|destruct Hk; auto].
    + pose proof (Ha _ _ Hl) as Hb.
      assert (wrap64 (otp_Attempts rec + 1) = otp_Attempts rec + 1) as Hw by (apply wrap64_id; lia).
      rewrite Hw in *. unfold passes. simpl. rewrite bool_decide_eq_true_2 by done. simpl.
      unfold maxOTPAttempts. split.
      * intros rec' exp''. simpl. rewrite lookup_insert_eq. intros [= <- <-]. simpl.
        destruct x as [n|]; [subst n; destruct (_ <? 5)|]; lia.
      * destruct x as [n|]; [|done]. subst n. intros ?%Z.ltb_lt. lia.
Qed.

Lemma passes_bound prec k lo hi a tr a' :
  rcalls (safe prec) a tr a' → Forall (λ c, saves k c = false) tr →
  0 ≤ lo → hi + Z.of_nat (length tr) ≤ 2 ^ 62 → attempts_in k lo hi a →
  Z.of_nat (length (filter (λ c, passes k c = true) tr)) ≤ Z.max 0 (4 - lo).
Proof.
  intros Hc. revert lo hi. induction Hc as [a|a a1 a' c tr HR Hc IH];
    intros lo hi Hs Hlo Hhi Ha; simpl in *; [lia|].
  apply Forall_cons in Hs as [Hs Hss].
  destruct (attempts_step prec k lo hi c a a1 HR Hs) as [Ha1 Hp]; [done|lia|done|].
  apply (IH (lo + if passes k c then 1 else 0) (hi + 1)) in Hss; [|destruct (passes k c); lia|lia|done].
  rewrite filter_cons. destruct (passes k c); simpl in *; [|lia].
  specialize (Hp eq_refl). lia.
Qed.

