(* ===== verification/World.v ===== *)
(** * Running the service: an executable world and its refinement

    The handlers run against any implementations of the storage interfaces of
    [Stores], a brute-force guard, a token manager, a clock, a random source
    and a source of UUIDs.  [handle] interprets every port operation;
    [handle_refines] shows that it implements the abstract specification
    [live] of [Spec], so the theorems of [ServiceSpec] and [Concurrency] hold
    of its runs and of its interleavings. *)

From Stdlib Require Import Ascii String.
From S2P Require Import Prelude GoStd Encoding Ports Validate Crypto Service Spec Stores Memory.
From S2P Require Import MemoryProofs.
Open Scope Z_scope.

(** ** Interfaces without a store *)

(** [bruteforce.Guard], as the service sees it. *)
Class Guard (G : Type) := {
  g_IsLocked : time → string → G → G * result bool;
  g_RecordFailure : time → string → G → G * result bool;
  g_Reset : string → G → G
}.
Class GuardOk (G : Type) `{Guard G} : Prop := {
  g_IsLocked_ok t email g : is_ok (g_IsLocked t email g).2;
  g_RecordFailure_ok t email g : is_ok (g_RecordFailure t email g).2
}.

(** [ports.AccessTokenManager]. *)
Class TokenManager := {
  tm_Generate : time → time → string → string → list string → result string;
  tm_Validate : time → string → result Claims
}.
Class TokenManagerOk `{TokenManager} : Prop := {
  tm_Generate_ok t t' uid email roles : is_ok (tm_Generate t t' uid email roles)
}.

(** The clock, the random source and the source of UUIDs, by the number of
    calls made so far. *)
Class Env := {
  env_clock : nat → time;
  env_rand : nat → nat → list Z;
  env_uuid : nat → string
}.
Class EnvOk `{Env} : Prop := {
  env_clock_mono n : env_clock n ≤ env_clock (S n);
  env_rand_ok n len : length (env_rand n len) = len ∧ Forall byte_ok (env_rand n len)
}.

Section world.
Context {US SS SC RS G : Type}.
Context `{!UserStore US, !SessionStore SS, !SessionCache SC, !PasswordResetStore RS, !Guard G}.
Context `{!UserStoreOk US, !SessionStoreOk SS, !SessionCacheOk SC, !PasswordResetStoreOk RS}.
Context `{!TokenManager, !Env}.

(** [w_ever] and [w_collided] are ghosts: the first row stored under every
    token hash, and whether a generated identifier was already in use. *)
Record world := World {
  w_users : US;
  w_sess : SS;
  w_cache : SC;
  w_reset : RS;
  w_guard : G;
  w_tick : nat;
  w_jobs : list job;
  w_log : list (level * string);
  w_ever : gmap string srow;
  w_collided : bool
}.

Definition abs (w : world) : astate :=
  AState (env_clock (w_tick w)) (us_abs (w_users w)) (ss_abs (w_sess w)) (sc_abs (w_cache w))
    (rs_otps (w_reset w)) (rs_toks (w_reset w)) (w_ever w) (w_jobs w) (w_log w).

Record wwf (w : world) : Prop := {
  wwf_users : us_wf (w_users w);
  wwf_sess : ss_wf (w_sess w);
  wwf_ever : ss_abs (w_sess w) ⊆ w_ever w
}.

(** Two readings of the clock within a call. *)
Definition t1 (w : world) : time := env_clock (S (w_tick w)).
Definition t2 (w : world) : time := env_clock (S (S (w_tick w))).

Definition on_users {X} (f : US → US * X) (w : world) : world * X :=
  let '(u, x) := f (w_users w) in
  (World u (w_sess w) (w_cache w) (w_reset w) (w_guard w) (S (S (w_tick w)))
     (w_jobs w) (w_log w) (w_ever w) (w_collided w), x).
Definition on_sess {X} (f : SS → SS * X) (w : world) : world * X :=
  let '(s, x) := f (w_sess w) in
  (World (w_users w) s (w_cache w) (w_reset w) (w_guard w) (S (S (w_tick w)))
     (w_jobs w) (w_log w) (w_ever w) (w_collided w), x).
Definition on_cache {X} (f : SC → SC * X) (w : world) : world * X :=
  let '(c, x) := f (w_cache w) in
  (World (w_users w) (w_sess w) c (w_reset w) (w_guard w) (S (S (w_tick w)))
     (w_jobs w) (w_log w) (w_ever w) (w_collided w), x).
Definition on_reset {X} (f : RS → RS * X) (w : world) : world * X :=
  let '(r, x) := f (w_reset w) in
  (World (w_users w) (w_sess w) (w_cache w) r (w_guard w) (S (S (w_tick w)))
     (w_jobs w) (w_log w) (w_ever w) (w_collided w), x).
Definition on_guard {X} (f : G → G * X) (w : world) : world * X :=
  let '(g, x) := f (w_guard w) in
  (World (w_users w) (w_sess w) (w_cache w) (w_reset w) g (S (S (w_tick w)))
     (w_jobs w) (w_log w) (w_ever w) (w_collided w), x).
Definition pass {X} (x : X) (jobs : list job) (log : list (level * string)) (w : world)
    : world * X :=
  (World (w_users w) (w_sess w) (w_cache w) (w_reset w) (w_guard w) (S (S (w_tick w)))
     (w_jobs w ++ jobs) (w_log w ++ log) (w_ever w) (w_collided w), x).

(** The ghosts. *)
Definition collide (b : bool) (w : world) : world :=
  World (w_users w) (w_sess w) (w_cache w) (w_reset w) (w_guard w) (w_tick w)
    (w_jobs w) (w_log w) (w_ever w) (w_collided w || b).
Definition issue (h : string) (r : result Session) (w : world) : world :=
  World (w_users w) (w_sess w) (w_cache w) (w_reset w) (w_guard w) (w_tick w)
    (w_jobs w) (w_log w)
    (match r with Ok x => <[h := row_of x]> (w_ever w) | Err _ => w_ever w end) (w_collided w).

(** A new session cannot be told from an old one: its token hash was used
    before, or its identifier is in use. *)
Definition sess_collision (m : gmap string srow) (id : string) (s : Session) (w : world) : bool :=
  bool_decide (¬ (w_ever w !! sess_TokenHash s = None ∧ id_free m (new_session_ID id s))).

Definition handle : impl portE world := λ X e w,
  match e in portE X return world * X with
  | UserCreate email ph =>
      let id := env_uuid (w_tick w) in
      on_users (us_Create (t1 w) (t2 w) id email ph)
        (collide (bool_decide (us_abs (w_users w) !! id ≠ None)) w)
  | UserGetByEmail email => on_users (us_GetByEmail email) w
  | UserGetByID id => on_users (us_GetByID id) w
  | UserUpdatePasswordHash uid ph => on_users (us_UpdatePasswordHash (t1 w) uid ph) w
  | SessCreate s =>
      let id := env_uuid (w_tick w) in
      let '(w', r) := on_sess (ss_Create (t1 w) id s)
        (collide (sess_collision (ss_abs (w_sess w)) id s w) w) in
      (issue (sess_TokenHash s) r w', r)
  | SessGetByTokenHash h => on_sess (ss_GetByTokenHash (t1 w) h) w
  | SessDeleteByID sid uid => on_sess (ss_DeleteByID sid uid) w
  | SessDeleteByTokenHash h => on_sess (ss_DeleteByTokenHash h) w
  | SessRotateToken old s =>
      let id := env_uuid (w_tick w) in
      let '(w', r) := on_sess (ss_RotateToken (t1 w) id old s)
        (collide (sess_collision (delete old (ss_abs (w_sess w))) id s w) w) in
      (issue (sess_TokenHash s) r w', r)
  | SessDeleteAllByUserID uid => on_sess (ss_DeleteAllByUserID uid) w
  | SessDeleteAllByUserIDExcept uid keep => on_sess (ss_DeleteAllByUserIDExcept uid keep) w
  | SessListByUserID uid => on_sess (ss_ListByUserID uid) w
  | TokGenerate uid email roles => pass (tm_Generate (t1 w) (t2 w) uid email roles) [] [] w
  | TokValidate tok => pass (tm_Validate (t1 w) tok) [] [] w
  | CacheSet h cs ttl => on_cache (sc_Set (t1 w) h cs ttl) w
  | CacheGet h => on_cache (sc_Get (t1 w) h) w
  | CacheDelete h => on_cache (sc_Delete h) w
  | ResetSaveOTP uid email oh ttl => on_reset (rs_SaveOTP (t1 w) uid email oh ttl) w
  | ResetGetOTP email => on_reset (rs_GetOTP (t1 w) email) w
  | ResetIncrOTPAttempts email => on_reset (rs_IncrOTPAttempts (t1 w) email) w
  | ResetDeleteOTP email => on_reset (rs_DeleteOTP email) w
  | ResetSaveResetToken h uid email ttl => on_reset (rs_SaveResetToken (t1 w) h uid email ttl) w
  | ResetGetResetToken h => on_reset (rs_GetResetToken (t1 w) h) w
  | ResetDeleteResetToken h => on_reset (rs_DeleteResetToken h) w
  | GuardIsLocked email => on_guard (g_IsLocked (t1 w) email) w
  | GuardRecordFailure email => on_guard (g_RecordFailure (t1 w) email) w
  | GuardReset email => on_guard (λ g, (g_Reset email g, tt)) w
  | Now =>
      (World (w_users w) (w_sess w) (w_cache w) (w_reset w) (w_guard w) (S (w_tick w))
         (w_jobs w) (w_log w) (w_ever w) (w_collided w), env_clock (S (w_tick w)))
  | RandRead n => pass (Ok (env_rand (w_tick w) n)) [] [] w
  | Go j => pass tt [j] [] w
  | Slog lvl msg => pass tt [] [(lvl, msg)] w
  end.

(** ** Refinement *)

Context `{!GuardOk G, !TokenManagerOk, !EnvOk}.

Lemma clock_two n : env_clock n ≤ env_clock (S (S n)).
Proof. etrans; apply env_clock_mono. Qed.

Lemma no_fresh_later {A} (m : gmap string (A * time)) k t t' :
  no_fresh_entry m k t → t ≤ t' → no_fresh_entry m k t'.
Proof. intros Hn Ht v exp Hl. apply Hn in Hl. lia. Qed.

(** One call of [handle], evaluated. *)
Ltac run_call Hh :=
  unfold handle, on_users, on_sess, on_cache, on_reset, on_guard, pass in Hh; simpl in Hh;
  try match type of Hh with
  | context [let '(_, _) := ?c in _] =>
      let Hf := fresh "Hf" in let st := fresh "st" in let ans := fresh "ans" in
      lazymatch c with
      | let '(_, _) := ?d in _ => destruct d as [st ans] eqn:Hf
      | _ => destruct c as [st ans] eqn:Hf
      end
  end; simpl in Hh; injection Hh as <- <-; simpl in *.

(** The state after a call, some time later. *)
Ltac upto_solve :=
  eexists; split; [apply clock_two|];
  unfold abs, set_now, set_users, set_sess, set_cache, set_otps, set_toks, set_jobs, set_log,
    add_sess; simpl; rewrite ?app_nil_r; congruence.
Ltac during_solve := split; apply env_clock_mono.

Definition refines {X} (e : portE X) : Prop := ∀ w w' x,
  handle X e w = (w', x) → wwf w → w_collided w' = false →
  live X e x (abs w) (abs w') ∧ wwf w'.

Lemma users_refine :
  (∀ email ph, refines (UserCreate email ph)) ∧ (∀ email, refines (UserGetByEmail email)) ∧
  (∀ id, refines (UserGetByID id)) ∧ (∀ uid ph, refines (UserUpdatePasswordHash uid ph)).
Proof.
  split_and!; intros; intros w w' x Hh [Hu Hs Hev] Hcol; run_call Hh; unfold live; simpl.
  - apply orb_false_iff in Hcol as [_ Hfree%bool_decide_eq_false].
    apply us_Create_ok in Hf as [Hwf Hf]; [|done|by apply dec_stable]. split; [|by split].
    destruct ans as [u'|err].
    + destruct Hf as (Hid & <- & <- & Hfr & Habs). rewrite <-Hid in *. split; [|done].
      split_and!; try done.
      * by apply dec_stable.
      * upto_solve.
    + destruct Hf as (-> & Habs & Hex). split; [|done]. split; [upto_solve|done].
  - apply us_GetByEmail_ok in Hf as (Hwf & Habs & Hf); [|done]. split; [|by split].
    split; [|destruct ans; naive_solver]. split; [upto_solve|destruct ans; naive_solver].
  - apply us_GetByID_ok in Hf as (Hwf & Habs & Hf); [|done]. split; [|by split].
    split; [|destruct ans; naive_solver]. split; [upto_solve|destruct ans; naive_solver].
  - apply us_UpdatePasswordHash_ok in Hf as [Hwf Hf]; [|done]. split; [|by split].
    destruct ans as [err|].
    + destruct Hf as (-> & Hno & Habs). split; [|done]. split; [upto_solve|done].
    + destruct Hf as (u' & Hl & Habs). split; [|done]. exists u', (t1 w).
      split; [done|]. upto_solve.
Qed.

(** A session that does not collide can be inserted. *)
Lemma no_collision w b id sess :
  w_collided w || sess_collision b id sess w = false →
  b ⊆ w_ever w →
  w_ever w !! sess_TokenHash sess = None ∧ insertable b id sess.
Proof.
  intros [_ [Hh Hid]%bool_decide_eq_false%dec_stable]%orb_false_iff Hb.
  split; [done|]. split; [|done]. by eapply lookup_weaken_None.
Qed.

Lemma sessions_insert_refine :
  (∀ sess, refines (SessCreate sess)) ∧ (∀ old sess, refines (SessRotateToken old sess)).
Proof.
  split; intros; intros w w' x Hh [Hu Hs Hev] Hcol; run_call Hh; unfold live; simpl.
  - apply no_collision in Hcol as [Hnew Hins]; [|done].
    apply ss_Create_ok in Hf as (Hwf & x & -> & (Hid & Hth & Hrow) & Habs); [|done..].
    split; [|split; simpl; [done..|rewrite Habs; by apply insert_mono]]. split; [|done].
    destruct Hins as [_ Hfree]. rewrite <-Hid in Hfree. split_and!; try done. upto_solve.
  - assert (delete old (ss_abs (w_sess w)) ⊆ w_ever w) as Hsub
      by (etrans; [apply delete_subseteq|done]).
    apply no_collision in Hcol as [Hnew Hins]; [|done].
    apply ss_RotateToken_ok in Hf as [Hwf Hf]; [|done..]. destruct ans as [x|err].
    + destruct Hf as (Hold & (Hid & Hth & Hrow) & Habs).
      split; [|split; simpl; [done..|rewrite Habs; by apply insert_mono]]. split; [|done].
      destruct Hins as [_ Hfree]. rewrite <-Hid in Hfree. split_and!; try done. upto_solve.
    + destruct Hf as (-> & Hno & Habs). split; [|split; simpl; [done..|by rewrite Habs]].
      split; [|done]. split; [upto_solve|done].
Qed.

Lemma sessions_refine :
  (∀ h, refines (SessGetByTokenHash h)) ∧ (∀ sid uid, refines (SessDeleteByID sid uid)) ∧
  (∀ h, refines (SessDeleteByTokenHash h)) ∧ (∀ uid, refines (SessDeleteAllByUserID uid)) ∧
  (∀ uid keep, refines (SessDeleteAllByUserIDExcept uid keep)) ∧
  (∀ uid, refines (SessListByUserID uid)).
Proof.
  split_and!; intros; intros w w' x Hh [Hu Hs Hev] Hcol; run_call Hh; unfold live; simpl.
  - apply ss_GetByTokenHash_ok in Hf as (Hwf & Habs & Hf); [|done].
    split; [|split; simpl; [done..|by rewrite Habs]].
    split; [|destruct ans; naive_solver]. split; [upto_solve|destruct ans; naive_solver].
  - apply ss_DeleteByID_ok in Hf as [Hwf Hf]; [|done]. destruct ans as [h|err].
    + destruct Hf as (row & Hl & Hid & Huid & Habs).
      split; [|split; simpl; [done..|rewrite Habs; etrans; [apply delete_subseteq|done]]].
      split; [|done]. exists row. split_and!; try done. upto_solve.
    + destruct Hf as (-> & Habs & Hno). split; [|split; simpl; [done..|by rewrite Habs]].
      split; [|done]. split; [upto_solve|done].
  - apply ss_DeleteByTokenHash_ok in Hf as (Hwf & -> & Habs); [|done].
    split; [|split; simpl; [done..|rewrite Habs; etrans; [apply delete_subseteq|done]]].
    split; [upto_solve|done].
  - apply ss_DeleteAllByUserID_ok in Hf as (Hwf & Hnone & Habs & Hk); [|done].
    destruct ans as [hs err]; simpl in *; subst err.
    split; [|split; simpl; [done..|rewrite Habs; etrans; [apply map_filter_subseteq|done]]].
    split; [|done]. split; [done|upto_solve].
  - apply ss_DeleteAllByUserIDExcept_ok in Hf as (Hwf & Hnone & Habs & Hk); [|done].
    destruct ans as [hs err]; simpl in *; subst err.
    split; [|split; simpl; [done..|rewrite Habs; etrans; [apply map_filter_subseteq|done]]].
    split; [|done]. split; [done|upto_solve].
  - apply ss_ListByUserID_ok in Hf as (Hwf & Habs & l & -> & Hl); [|done].
    split; [|split; simpl; [done..|by rewrite Habs]].
    split; [|done]. split; [upto_solve|done].
Qed.

Lemma cache_refine :
  (∀ h cs ttl, refines (CacheSet h cs ttl)) ∧ (∀ h, refines (CacheGet h)) ∧
  (∀ h, refines (CacheDelete h)).
Proof.
  split_and!; intros; intros w w' x Hh [Hu Hs Hev] Hcol; run_call Hh; unfold live; simpl;
    (split; [|by split]).
  - apply sc_Set_ok in Hf as [-> Habs]. split; [|done]. exists (t1 w).
    split; [during_solve|upto_solve].
  - apply sc_Get_ok in Hf. destruct ans as [cs|err]; destruct Hf as [Habs Hf].
    + split; [|done]. split; [upto_solve|]. exists (t1 w). split; [during_solve|done].
    + assert (no_fresh_entry (sc_abs (w_cache w)) h (env_clock (S (S (w_tick w))))) as Hn
        by (eapply no_fresh_later; [done|apply env_clock_mono]).
      split; [|done]. right. split; [upto_solve|done].
  - apply sc_Delete_ok in Hf as [-> Habs]. split; [upto_solve|done].
Qed.

Lemma codes_refine :
  (∀ uid email oh ttl, refines (ResetSaveOTP uid email oh ttl)) ∧
  (∀ email, refines (ResetGetOTP email)) ∧ (∀ email, refines (ResetIncrOTPAttempts email)) ∧
  (∀ email, refines (ResetDeleteOTP email)).
Proof.
  split_and!; intros; intros w w' x Hh [Hu Hs Hev] Hcol; run_call Hh; unfold live; simpl;
    (split; [|by split]).
  - apply rs_SaveOTP_ok in Hf as (-> & Htoks & Habs). split; [|done]. exists (t1 w).
    split; [during_solve|upto_solve].
  - apply rs_GetOTP_ok in Hf as [Htoks Hf]. destruct ans as [rec|err].
    + destruct Hf as [Habs Hf]. split; [|done]. split; [upto_solve|]. exists (t1 w).
      split; [during_solve|done].
    + destruct Hf as (-> & Habs & Hf). eapply no_fresh_later in Hf; [|apply env_clock_mono].
      split; [|done]. split; [right; split; [upto_solve|done]|done].
  - apply rs_IncrOTPAttempts_ok in Hf as [Htoks Hf]. destruct ans as [n|err].
    + destruct Hf as (rec & exp & Hl & Hexp & -> & Habs). split; [|done].
      exists rec, exp, (t1 w). split; [during_solve|]. split_and!; [done..|upto_solve].
    + destruct Hf as (-> & Habs & Hf). eapply no_fresh_later in Hf; [|apply env_clock_mono].
      split; [|done]. split; [right; split; [upto_solve|done]|done].
  - apply rs_DeleteOTP_ok in Hf as (-> & Htoks & Habs). split; [upto_solve|done].
Qed.

Lemma reset_tokens_refine :
  (∀ h uid email ttl, refines (ResetSaveResetToken h uid email ttl)) ∧
  (∀ h, refines (ResetGetResetToken h)) ∧ (∀ h, refines (ResetDeleteResetToken h)).
Proof.
  split_and!; intros; intros w w' x Hh [Hu Hs Hev] Hcol; run_call Hh; unfold live; simpl;
    (split; [|by split]).
  - apply rs_SaveResetToken_ok in Hf as (-> & Hotps & Habs). split; [|done]. exists (t1 w).
    split; [during_solve|upto_solve].
  - apply rs_GetResetToken_ok in Hf as [Hotps Hf]. destruct ans as [rec|err].
    + destruct Hf as [Habs Hf]. split; [|done]. split; [upto_solve|]. exists (t1 w).
      split; [during_solve|done].
    + destruct Hf as (-> & Habs & Hf). eapply no_fresh_later in Hf; [|apply env_clock_mono].
      split; [|done]. split; [right; split; [upto_solve|done]|done].
  - apply rs_DeleteResetToken_ok in Hf as (-> & Hotps & Habs). split; [upto_solve|done].
Qed.

Lemma guard_refine :
  (∀ email, refines (GuardIsLocked email)) ∧ (∀ email, refines (GuardRecordFailure email)) ∧
  (∀ email, refines (GuardReset email)).
Proof.
  split_and!; intros; intros w w' x Hh [Hu Hs Hev] Hcol; run_call Hh; unfold live; simpl;
    (split; [|by split]).
  - split; [upto_solve|]. pose proof (g_IsLocked_ok (t1 w) email (w_guard w)). by rewrite Hf in *.
  - split; [upto_solve|]. pose proof (g_RecordFailure_ok (t1 w) email (w_guard w)).
    by rewrite Hf in *.
  - split; [upto_solve|done].
Qed.

Lemma rest_refine :
  (∀ uid email roles, refines (TokGenerate uid email roles)) ∧
  (∀ tok, refines (TokValidate tok)) ∧ refines Now ∧ (∀ n, refines (RandRead n)) ∧
  (∀ j, refines (Go j)) ∧ (∀ lvl msg, refines (Slog lvl msg)).
Proof.
  split_and!; intros; intros w w' x Hh [Hu Hs Hev] Hcol; run_call Hh; unfold live; simpl;
    (split; [|by split]).
  - split; [upto_solve|]. apply tm_Generate_ok.
  - split; [upto_solve|done].
  - split; [|done]. split; [apply env_clock_mono|done].
  - split; [|done]. split; [upto_solve|]. apply env_rand_ok.
  - split; [upto_solve|done].
  - split; [upto_solve|done].
Qed.

(** Every port call of the world is one that [live] allows, as long as no
    generated identifier repeats. *)
Lemma handle_refines X (e : portE X) : refines e.
Proof.
  destruct users_refine as (?&?&?&?), sessions_insert_refine as (?&?),
    sessions_refine as (?&?&?&?&?&?), cache_refine as (?&?&?), codes_refine as (?&?&?&?),
    reset_tokens_refine as (?&?&?), guard_refine as (?&?&?), rest_refine as (?&?&?&?&?&?).
  destruct e; auto.
Qed.

Lemma collided_mono X (e : portE X) w : w_collided w = true → w_collided (handle X e w).1 = true.
Proof.
  intros Hc. destruct (handle X e w) as [w' x] eqn:Hh.
  destruct e; run_call Hh; rewrite ?Hc; done.
Qed.

Lemma run_collided {A} (p : prog portE A) w :
  w_collided w = true → w_collided (run handle p w).1 = true.
Proof. apply (run_invariant handle (λ w, w_collided w = true)). exact collided_mono. Qed.

(** A run to the end. *)
Lemma run_refines {A} (p : prog portE A) w w' r :
  run handle p w = (w', r) → wwf w → w_collided w' = false →
  rexec live p (abs w) (abs w') r ∧ wwf w'.
Proof.
  revert w. induction p as [a|X e k IH]; intros w Hrun Hwf Hcol; simpl in Hrun.
  - simplify_eq. done.
  - destruct (handle X e w) as [w1 x] eqn:Hh.
    assert (w_collided w1 = false) as Hcol1.
    { apply not_true_iff_false. intros H3%(run_collided (k x)). rewrite Hrun in H3. simpl in H3. congruence. }
    destruct (handle_refines X e w w1 x Hh Hwf Hcol1) as [Hlive Hwf1].
    destruct (IH x w1 Hrun Hwf1 Hcol) as [Hex Hwf']. split; [|done]. simpl. eauto.
Qed.

(** Any interleaving. *)
Lemma sched_refines {A} sched (ps : list (prog portE A)) w w' ps' :
  run_sched handle sched (w, ps) = (w', ps') → wwf w → w_collided w' = false →
  (∃ tr, psteps live (abs w) ps tr (abs w') ps') ∧ wwf w'.
Proof.
  revert w ps. induction sched as [|i sched IH]; intros w ps Hrun Hwf Hcol; simpl in Hrun.
  { simplify_eq. split; [|done]. exists []. constructor. }
  unfold pool_step in Hrun. simpl in Hrun.
  destruct (ps !! i) as [p|] eqn:Hi; [|by apply IH].
  destruct p as [r|X e k]; simpl in Hrun; [by apply IH|].
  destruct (handle X e w) as [w1 x] eqn:Hh.
  assert (w_collided w1 = false) as Hcol1.
  { apply not_true_iff_false. intros Hc1.
    assert (w_collided (run_sched handle sched (w1, <[i:=k x]> ps)).1 = true) as Hc2
      by (apply (sched_invariant handle (λ w, w_collided w = true)); [exact collided_mono|done]).
    rewrite Hrun in Hc2. simpl in Hc2. congruence. }
  destruct (handle_refines X e w w1 x Hh Hwf Hcol1) as [Hlive Hwf1].
  destruct (IH _ _ Hrun Hwf1 Hcol) as [[tr Htr] Hwf']. split; [|done].
  eexists. by econstructor.
Qed.

Lemma run_live {A} (p : prog portE A) w :
  wwf w → w_collided (run handle p w).1 = false →
  rexec live p (abs w) (abs (run handle p w).1) (run handle p w).2 ∧ wwf (run handle p w).1.
Proof. intros Hwf Hcol. apply run_refines; [by destruct (run handle p w)|done..]. Qed.

End world.
