(* ===== verification/Termination.v ===== *)
(** * Every RPC ends

    A bound on the calls an RPC makes, whatever the ports answer.  The only loop
    of the handlers that makes calls runs over the token hashes a port has
    returned: such an answer buys two more calls for each of them. *)

From Stdlib Require Import Ascii String.
From S2P Require Import Prelude GoStd Encoding Ports Validate Crypto Service.
Open Scope Z_scope.

#[local] Opaque Email Password extractClientInfo.

(** ** Programs with a bound *)

(** The calls an answer allows for. *)
Definition weight {X} (e : portE X) : X → nat :=
  match e in portE X return X → nat with
  | SessDeleteAllByUserID _ => λ r, (2 * length r.1)%nat
  | SessDeleteAllByUserIDExcept _ _ => λ r, (2 * length r.1)%nat
  | _ => λ _, 0%nat
  end.
Definition call_weight (c : callrec portE) : nat := weight (call_op c) (call_res c).

(** [p] makes at most [n] calls, not counting those its answers allow for. *)
Fixpoint within {A} (n : nat) (p : prog portE A) : Prop :=
  match p with
  | Ret _ => True
  | Vis e k => ∃ n', n = S n' ∧ ∀ x, within (n' + weight e x) (k x)
  end.

Lemma within_mono {A} n m (p : prog portE A) : (n ≤ m)%nat → within n p → within m p.
Proof.
  revert n m; induction p as [a|X e k IH]; intros n m Hle; [done|].
  intros (n' & -> & Hk). exists (m - 1)%nat. split; [lia|]. intros x. eapply IH, Hk. lia.
Qed.

Lemma within_Vis {A X} n (e : portE X) (k : X → prog portE A) :
  (∀ x, weight e x = 0%nat) → (∀ x, within n (k x)) → within (S n) (Vis e k).
Proof. intros Hw Hk. exists n. split; [done|]. intros x. by rewrite Hw, Nat.add_0_r. Qed.

Lemma within_bind {A B} a b n (p : prog portE A) (f : A → prog portE B) :
  within a p → n = (a + b)%nat → (∀ r, within b (f r)) → within n (bind p f).
Proof.
  intros Hp -> Hf. revert a Hp; induction p as [r|X e k IH]; intros a Hp; simpl.
  - eapply within_mono, Hf. lia.
  - destruct Hp as (n' & -> & Hk). exists (n' + b)%nat. split; [lia|]. intros x.
    replace (n' + b + weight e x)%nat with (n' + weight e x + b)%nat by lia. apply IH, Hk.
Qed.

(** One after the other, when nothing is left for the second. *)
Lemma within_respond {A} n (f : A → response) (p : prog portE (reply A)) :
  within n p → within n (respond f p).
Proof. intros Hp. apply (within_bind n 0); [done|lia|]. by intros []. Qed.

(** ** The parts of the handlers *)

(** [within] of a program by its shape. *)
Ltac within_step :=
  match goal with
  | |- within _ (Ret _) => exact I
  | |- within (S _) (Vis _ _) => apply within_Vis; [done|intros ?]
  | |- within _ (trigger _) => unfold trigger
  | |- within _ (match ?d with _ => _ end) => destruct d
  | |- within ?n (let _ := _ in _) => cbv zeta
  | |- within ?n (bind (match ?d with _ => _ end) _) => destruct d
  | |- within ?n (bind (Ret _) _) => cbn [bind]
  | |- within ?n (bind (Vis _ _) _) => cbn [bind]
  | |- within ?n (bind ?p _) =>
      let H := fresh in
      eassert (within _ p) as H by eauto with within nocore;
      match type of H with within ?a _ =>
        let b := eval compute in (n - a)%nat in
        refine (within_bind a b n p _ H eq_refl _); clear H; intros ?; cbv beta iota zeta
      end
  end.
Ltac within_solve := repeat (within_step; cbv beta iota zeta).

Create HintDb within.

Section parts.
Context `{Argon2, UnicodeTables} (s : AuthService).

Lemma within_logAudit uid ty ip ua meta : within 1 (logAudit s uid ty ip ua meta).
Proof. unfold logAudit. within_solve. Qed.
Lemma within_fireHook uid email ty ip ua meta : within 1 (fireHook uid email ty ip ua meta).
Proof. unfold fireHook. within_solve. Qed.
Lemma within_cacheSession h cs : within 3 (cacheSession h cs).
Proof. unfold cacheSession. within_solve. Qed.
Lemma within_getCachedSession h : within 1 (getCachedSession h).
Proof. unfold getCachedSession. within_solve. Qed.
Lemma within_deleteSessionFromCache h : within 2 (deleteSessionFromCache h).
Proof. unfold deleteSessionFromCache. within_solve. Qed.
Lemma within_token : within 1 token.Generate.
Proof. unfold token.Generate. within_solve. Qed.
Lemma within_otp : within 1 otp.Generate.
Proof. unfold otp.Generate. within_solve. Qed.
Lemma within_Hash pw : within 1 (password.Hash pw).
Proof. unfold password.Hash. within_solve. Qed.
Lemma within_extract ctx : within 1 (extractUserIDFromCtx ctx).
Proof. unfold extractUserIDFromCtx. within_solve. Qed.

Lemma within_deleteSessions hs : within (2 * length hs) (deleteSessionsFromCache hs).
Proof.
  induction hs as [|h hs IH]; [done|]. cbn [deleteSessionsFromCache length].
  apply (within_bind 2 (2 * length hs)); [apply within_deleteSessionFromCache|lia|done].
Qed.
End parts.
#[export] Hint Resolve within_logAudit within_fireHook within_cacheSession within_getCachedSession
  within_deleteSessionFromCache within_token within_otp within_Hash within_extract : within.

(** ** The handlers *)

Section handlers.
Context `{Argon2, UnicodeTables} (s : AuthService).

(** A loop over the hashes in an answer, after a log line. *)
Lemma within_delete_loop {A} b (f : unit → prog portE A) hs :
  (∀ r, within b (f r)) → within (b + 2 * length hs) (bind (deleteSessionsFromCache hs) f).
Proof. intros Hf. apply (within_bind (2 * length hs) b); [apply within_deleteSessions|lia|done]. Qed.
Lemma within_log_delete_loop {A} (err : option error) msg b (f : unit → prog portE A) hs :
  (∀ r, within b (f r)) →
  within (S b + 2 * length hs)
    (bind (match err with Some _ => do Slog LevelError msg;; Ret tt | None => Ret tt end)
       (λ _, bind (deleteSessionsFromCache hs) f)).
Proof.
  intros Hf. apply (within_bind 1 (b + 2 * length hs)); [within_solve|lia|].
  intros _. by apply within_delete_loop.
Qed.

Lemma within_Register ctx req : within 14 (Register s ctx req).
Proof. unfold Register. within_solve. Qed.
Lemma within_Login ctx req : within 14 (Login s ctx req).
Proof. unfold Login, login_check, login_failed, login_issue. within_solve. Qed.
Lemma within_ValidateToken tok : within 14 (ValidateToken tok).
Proof. unfold ValidateToken. within_solve. Qed.
Lemma within_RefreshToken ctx req : within 14 (RefreshToken s ctx req).
Proof. unfold RefreshToken, refresh_rotate. within_solve. Qed.
Lemma within_Logout ctx tok : within 14 (Logout s ctx tok).
Proof. unfold Logout. within_solve. Qed.
Lemma within_LogoutAll ctx : within 14 (LogoutAll s ctx).
Proof.
  unfold LogoutAll. within_step. case_match; [|done]. unfold logout_all_of.
  eexists. split; [reflexivity|]. intros [hs [err|]].
  - apply (within_mono 12); [simpl; lia|within_solve].
  - apply (within_delete_loop 12). intros _. within_solve.
Qed.
Lemma within_ListSessions ctx : within 14 (ListSessions ctx).
Proof. unfold ListSessions, list_sessions_of. within_solve. Qed.
Lemma within_RevokeSession ctx sid : within 14 (RevokeSession s ctx sid).
Proof. unfold RevokeSession, revoke_session_of. within_solve. Qed.
Lemma within_ChangePassword ctx req : within 14 (ChangePassword s ctx req).
Proof.
  unfold ChangePassword, change_password_of, change_password_to. within_solve.
  all: eexists; split; [reflexivity|]; intros [hs err].
  all: apply (within_mono (S 4 + 2 * length hs));
    [simpl; lia|apply within_log_delete_loop; intros _; within_solve].
Qed.
Lemma within_RequestPasswordReset ctx email : within 14 (RequestPasswordReset s ctx email).
Proof. unfold RequestPasswordReset. within_solve. Qed.
Lemma within_VerifyResetCode email code : within 14 (VerifyResetCode email code).
Proof. unfold VerifyResetCode, issue_reset_token. within_solve. Qed.
Lemma within_ResetPassword ctx tok pw : within 14 (ResetPassword s ctx tok pw).
Proof.
  unfold ResetPassword. within_solve.
  all: eexists; split; [reflexivity|]; intros [hs err].
  all: apply (within_mono (S 4 + 2 * length hs));
    [simpl; lia|apply within_log_delete_loop; intros _; within_solve].
Qed.
End handlers.

(** ** Any number of RPCs *)

Section pool.
Context `{Argon2, UnicodeTables} (s : AuthService).

Lemma within_serve ctx req : within 14 (serve s ctx req).
Proof.
  destruct req; apply within_respond;
    auto using within_Register, within_Login, within_ValidateToken, within_RefreshToken, within_Logout,
      within_LogoutAll, within_ListSessions, within_RevokeSession, within_ChangePassword,
      within_RequestPasswordReset, within_VerifyResetCode, within_ResetPassword.
Qed.

(** A step of one program uses up one of its calls. *)
Lemma pool_within {St} (R : spec portE St) {A} a (ps : list (prog portE A)) tr a' ps' ns :
  psteps R a ps tr a' ps' → Forall2 within ns ps →
  (length tr ≤ sum_list ns + sum_list (call_weight <$> tr.*2))%nat.
Proof.
  intros Hps. revert ns. induction Hps as [a ps|a a1 a' ps ps' i X e k x tr Hi HR _ IH]; intros ns Hns;
    csimpl; [lia|].
  destruct (Forall2_lookup_r _ _ _ _ _ Hns Hi) as (n & Hn & (n' & -> & Hk)).
  specialize (IH (<[i := (n' + weight e x)%nat]> ns)).
  assert (sum_list (<[i := (n' + weight e x)%nat]> ns) + 1 = sum_list ns + weight e x)%nat as Hsum.
  { clear -Hn. revert i Hn; induction ns as [|m ns IHn]; intros [|i]; simpl; try done.
    - intros [= ->]. lia.
    - intros Hn. specialize (IHn i Hn). lia. }
  unfold call_weight in *. simpl in *. specialize (IH (Forall2_insert _ _ _ _ _ _ Hns (Hk x))). lia.
Qed.

(** C11: Every RPC ends: however any number of them interleave and whatever the
    ports answer, they make at most fourteen calls each, and two more for every
    token hash that a deletion of sessions has returned. *)
Theorem rpcs_terminate {St} (R : spec portE St) a ps tr a' ps' :
  psteps R a ps tr a' ps' → Forall (λ p, ∃ ctx req, p = serve s ctx req) ps →
  (length tr ≤ 14 * length ps + sum_list (call_weight <$> tr.*2))%nat.
Proof.
  intros Hps Hall. replace (14 * length ps)%nat with (sum_list (replicate (length ps) 14%nat)).
  - eapply pool_within; [exact Hps|]. apply Forall2_replicate_l; [done|].
    eapply Forall_impl; [exact Hall|]. intros p (ctx & req & ->). apply within_serve.
  - rewrite sum_list_replicate. lia.
Qed.
End pool.
