(* ===== verification/Liveness.v ===== *)
(** * A new user is served

    Sequences of RPCs of one client on ports that do not fail ([live]): who
    registers can log in, and the tokens can be refreshed again and again as
    long as each is used in time.  Each RPC is one request to the server
    ([serve]). *)

From Stdlib Require Import Ascii String.
From S2P Require Import Prelude GoStd Encoding Ports Validate Crypto Service Spec ServiceSafety.
From S2P Require Import ServiceSpec Concurrency.
Open Scope Z_scope.

Section client.
Context `{Argon2Spec, UnicodeTables} (s : AuthService) (ctx : Ctx).

(** Exchange a refresh token [n] times. *)
Fixpoint refresh_chain (n : nat) (tok : string) : prog portE (reply string) :=
  match n with
  | O => Ret (Reply tok)
  | S n' =>
      r <- serve s ctx (ReqRefreshToken {| rr_RefreshToken := tok; rr_DeviceId := "" |});;
      match r with
      | Reply (RespTokens tp) => refresh_chain n' (RefreshTokenPlain tp)
      | Reply _ => Ret (Refuse internal_error)
      | Refuse st => Ret (Refuse st)
      end
  end.

(** Register, log in, and refresh [n] times. *)
Definition new_user_session (n : nat) (email pw : string) : prog portE (reply string) :=
  r <- serve s ctx (ReqRegister {| reg_Email := email; reg_Password := pw |});;
  match r with
  | Refuse st => Ret (Refuse st)
  | Reply _ =>
      r <- serve s ctx (ReqLogin {| login_Email := email; login_Password := pw; login_DeviceId := "" |});;
      match r with
      | Refuse st => Ret (Refuse st)
      | Reply (RespTokens tp) => refresh_chain n (RefreshTokenPlain tp)
      | Reply _ => Ret (Refuse internal_error)
      end
  end.

(** ** What each request leaves behind *)

Lemma rexec_respond {A} (f : A → response) (p : prog portE (reply A)) a a' r :
  rexec live (respond f p) a a' r →
  ∃ r', rexec live p a a' r' ∧
    r = match r' with Reply x => Reply (f x) | Refuse st => Refuse st end.
Proof.
  intros (b & r' & Hp & Hr)%rexec_bind. exists r'.
  destruct r' as [x|st]; destruct Hr as [-> ->]; by split.
Qed.

Lemma live_now {A} (p : prog portE A) a a' r : rexec live p a a' r → a_now a ≤ a_now a'.
Proof.
  intros (tr & _ & Hc)%rexec_exec.
  eapply (rcalls_invariant live (λ b, a_now a ≤ a_now b)); [|exact Hc|done].
  intros X e x b b' Hb Hle. pose proof (a_now_mono 1 X e x b b' (live_safe 1 X e x b b' Hb)). lia.
Qed.

Lemma serve_keeps req a a' r :
  rexec live (serve s ctx req) a a' r → awf a → coherent 1 a → awf a' ∧ coherent 1 a'.
Proof.
  intros Hex Hwf Hco. apply (rexec_live_safe 1) in Hex. split; [|by eapply rexec_coherent].
  apply rexec_exec in Hex as (tr & _ & Hc).
  eapply rcalls_invariant; [exact (port_spec_awf 1)|exact Hc|done].
Qed.

(** A session that does not expire meanwhile can be refreshed for ever. *)
Lemma refresh_chain_served n tok a a' r row :
  rexec live (refresh_chain n tok) a a' r → awf a → coherent 1 a →
  a_sess a !! token.Hash tok = Some row → a_now a' ≤ sr_ExpiresAt row →
  a_now a' ≤ a_now a + svc_refreshTTL s →
  ∃ tok', r = Reply tok'.
Proof.
  revert tok a row; induction n as [|n IH]; intros tok a row; cbn [refresh_chain].
  { intros [-> ->]. by eexists. }
  intros (a1 & r1 & Hr & Hex)%rexec_bind Hwf Hco Hrow Hexp Httl.
  destruct (serve_keeps _ _ _ _ Hr Hwf Hco) as [Hwf1 Hco1].
  pose proof (live_now _ _ _ _ Hr). pose proof (live_now _ _ _ _ Hex).
  apply rexec_respond in Hr as (r' & Hr & ->).
  pose proof (RefreshToken_live s _ _ _ _ _ Hr Hwf Hco) as Hspec. unfold refreshed in Hspec.
  simpl in Hspec. rewrite Hrow in Hspec.
  destruct Hspec as [(t & [? ?] & ? & _)|(t & tp & [? ?] & _ & -> & Hopen)]; [lia|].
  destruct Hopen as (t' & row' & [? ?] & _ & Hsess & _ & Hexp' & _).
  eapply (IH _ _ row'); [exact Hex|done|done| | |lia].
  - by rewrite Hsess, lookup_insert_eq.
  - rewrite Hexp'. unfold time_Add. lia.
Qed.

(** C12: On backends that do not fail, a user who registers with a valid email and
    password, logs in with them and refreshes the tokens any number of times,
    all within the lifetime of a refresh token, is served: the only possible
    refusals are that the email was already registered and, with the
    brute-force guard, that the account is locked. *)
Theorem new_user_served n email pw a a' r :
  rexec live (new_user_session n email pw) a a' r → awf a → coherent 1 a →
  Email email = None → Password pw = None → a_now a' ≤ a_now a + svc_refreshTTL s →
  (∃ tok, r = Reply tok) ∨
  (r = Refuse (Status AlreadyExists "email already registered") ∧ ¬ email_free (a_users a) email) ∨
  (svc_bruteGuard s = true ∧ r = Refuse locked_status).
Proof.
  intros (a1 & r1 & Hreg & Hex)%rexec_bind Hwf Hco He Hp Httl.
  destruct (serve_keeps _ _ _ _ Hreg Hwf Hco) as [Hwf1 Hco1].
  pose proof (live_now _ _ _ _ Hreg).
  apply rexec_respond in Hreg as (r' & Hreg & ->).
  pose proof (Register_live _ _ _ _ _ _ Hreg) as Hspec. simpl in Hspec. rewrite He, Hp in Hspec.
  destruct Hspec as [(u & -> & _ & _ & Husers & Hemail & Hver & _)|(-> & _ & id & u & Hu & Heq)].
  2: { destruct Hex as [-> ->]. right. left. split; [done|]. intros Hfree. by eapply Hfree. }
  apply rexec_bind in Hex as (a2 & r2 & Hlogin & Hex).
  destruct (serve_keeps _ _ _ _ Hlogin Hwf1 Hco1) as [Hwf2 Hco2].
  pose proof (live_now _ _ _ _ Hlogin). pose proof (live_now _ _ _ _ Hex).
  apply rexec_respond in Hlogin as (r'' & Hlogin & ->).
  assert (a_users a1 !! user_ID u = Some u) as Hu by by rewrite Husers, lookup_insert_eq.
  destruct (Login_live s _ _ _ _ _ Hlogin He) as [(? & -> & _)|[(Hfree & _)|(u' & Hu' & Heq & Hres)]].
  - destruct Hex as [-> ->]. by right; right.
  - exfalso. by eapply Hfree.
  - simpl in Heq, Hres. assert (user_ID u' = user_ID u) as Hid.
    { eapply awf_email_unique; [exact Hwf1|exact Hu'|exact Hu|congruence]. }
    rewrite Hid, Hu in Hu'. injection Hu' as <-. rewrite Hver in Hres.
    destruct Hres as (tp & -> & (t & row & [? ?] & _ & Hsess & _ & Hexp & _)).
    left. eapply refresh_chain_served; [exact Hex|done|done| | |lia].
    + by rewrite Hsess, lookup_insert_eq.
    + rewrite Hexp. unfold time_Add. lia.
Qed.
End client.
