(* ===== verification/Redis.v ===== *)
(** * Redis, as the adapters use it

    The server and the client library are not part of the repository.  They
    are parameters: [luaE] is the signature of the commands a script calls,
    scripts are programs over it, and [RedisClient] has the client calls the
    code makes.  [RedisSpec] states the documented behaviour of the commands on
    a view of the stored keys: a call does what the command documents, or it
    fails; a script runs as one atomic step. *)

From Stdlib Require Import Ascii String.
From S2P Require Import Prelude GoStd Ports.
Open Scope Z_scope.

(** ** Commands and scripts *)

Inductive luaE : Type → Type :=
| INCR (key : string) : luaE Z
| EXPIRE (key : string) (secs : Z) : luaE unit
| LGET (key : string) : luaE (option string)
| PTTL (key : string) : luaE Z
| SETPX (key value : string) (ms : Z) : luaE unit
(* an error of the script itself: it ends there and the call fails *)
| RAISE : luaE Empty_set.

(** [luaIncrExpire] of [lib/bruteforce] and [lib/ratelimit]:
    count up, and give a new counter its time to live. *)
Definition luaIncrExpire (key : string) (secs : Z) : prog luaE Z :=
  call count <- INCR key;;
  if count =? 1 then do EXPIRE key secs;; Ret count
  else Ret count.

(** ** The client *)

Class RedisClient (R : Type) := {
  rc_Exists : time → string → R → R * result Z;
  rc_Get : time → string → R → R * result string;
  rc_Set : time → string → string → duration → R → R * option error;
  rc_Del : time → list string → R → R * option error;
  rc_Eval : time → prog luaE Z → R → R * result Z
}.

(** ** What the commands do *)

(** The keys with their values and, if they have one, the time they expire. *)
Abbreviation view := (gmap string (string * option time)).

Definition expired (t : time) (exp : option time) : bool :=
  match exp with Some e => e <? t | None => false end.

(** The value of a key at time [t]. *)
Definition value_at (t : time) (k : string) (v : view) : option (string * option time) :=
  match v !! k with
  | Some (x, exp) => if expired t exp then None else Some (x, exp)
  | None => None
  end.

(** A key that was not there counts as 0. *)
Definition counter_at (t : time) (k : string) (v : view) (n : Z) (exp : option time) : Prop :=
  (value_at t k v = None ∧ n = 0 ∧ exp = None) ∨ value_at t k v = Some (fmt_d n, exp).

Definition lua_spec (t : time) : spec luaE view := λ X e,
  match e in luaE X return X → view → view → Prop with
  | INCR k => λ r v v', ∃ n exp, counter_at t k v n exp ∧ r = n + 1 ∧
                 v' = <[k := (fmt_d (n + 1), exp)]> v
  | EXPIRE k secs => λ _ v v',
      match value_at t k v with
      | Some (x, _) => v' = if 0 <? secs then <[k := (x, Some (t + secs * second))]> v
                            else delete k v
      | None => v' = v
      end
  | LGET k => λ r v v', r = fst <$> value_at t k v ∧ v' = v
  | PTTL k => λ r v v', v' = v ∧
      match value_at t k v with
      | Some (_, Some e) => r = (e - t) / millisecond
      | Some (_, None) => r = -1
      | None => r = -2
      end
  | SETPX k x ms => λ _ v v', 0 < ms ∧ v' = <[k := (x, Some (t + ms * millisecond))]> v
  | RAISE => λ _ _ _, False
  end.

(** An error of the client library, not one of the service's own. *)
Definition foreign_err (err : error) : Prop :=
  errors_Is err ErrResetCodeNotFound = false ∧ errors_Is err ErrResetTokenNotFound = false.

Definition delete_keys (ks : list string) (v : view) : view := foldr delete v ks.

(** A write that fails did nothing, or was carried out and its answer lost (the
    scripts of the service raise errors before their first write).  [SET] keeps
    a key for [ttl], to the millisecond. *)
Class RedisSpec (R : Type) `{RedisClient R} := {
  rc_view : R → view;
  rc_Exists_ok t k s s' r :
    rc_Exists t k s = (s', r) → rc_view s' = rc_view s ∧
    match r with
    | Ok n => n = match value_at t k (rc_view s) with Some _ => 1 | None => 0 end
    | Err err => err ≠ RedisNil
    end;
  rc_Get_ok t k s s' r :
    rc_Get t k s = (s', r) → rc_view s' = rc_view s ∧
    match r with
    | Ok x => fst <$> value_at t k (rc_view s) = Some x
    | Err err => errors_Is err RedisNil = true → value_at t k (rc_view s) = None
    end;
  rc_Set_ok t k x ttl s s' r :
    rc_Set t k x ttl s = (s', r) → 0 < ttl →
    (r ≠ None ∧ rc_view s' = rc_view s) ∨
    ∃ e, t + ttl - millisecond < e ≤ t + Z.max ttl millisecond ∧
         rc_view s' = <[k := (x, Some e)]> (rc_view s);
  rc_Del_ok t ks s s' r :
    rc_Del t ks s = (s', r) →
    (r ≠ None ∧ rc_view s' = rc_view s) ∨ rc_view s' = delete_keys ks (rc_view s);
  rc_Eval_ok t script s s' r :
    rc_Eval t script s = (s', r) →
    match r with
    | Ok z => rexec (lua_spec t) script (rc_view s) (rc_view s') z
    | Err err => errors_Is err RedisNil = false ∧
        (rc_view s' = rc_view s ∨ ∃ z, rexec (lua_spec t) script (rc_view s) (rc_view s') z)
    end;
  rc_errors t s :
    (∀ k x ttl s' err, rc_Set t k x ttl s = (s', Some err) → foreign_err err) ∧
    (∀ ks s' err, rc_Del t ks s = (s', Some err) → foreign_err err) ∧
    (∀ k s' err, rc_Get t k s = (s', Err err) → foreign_err err) ∧
    (∀ script s' err, rc_Eval t script s = (s', Err err) → foreign_err err)
}.

(** ** Lemmas *)

Lemma value_at_insert t k x exp v :
  expired t exp = false → value_at t k (<[k := (x, exp)]> v) = Some (x, exp).
Proof. unfold value_at. rewrite lookup_insert_eq. by intros ->. Qed.

Lemma value_at_ne t k k' x v :
  k ≠ k' → value_at t k' (<[k := x]> v) = value_at t k' v.
Proof. intros Hne. unfold value_at. by rewrite lookup_insert_ne. Qed.

Lemma value_at_delete_keys t k ks v :
  value_at t k (delete_keys ks v) = if decide (k ∈ ks) then None else value_at t k v.
Proof.
  induction ks as [|k' ks IH]; [done|]. simpl. unfold value_at in *.
  destruct (decide (k' = k)) as [->|Hne].
  - rewrite lookup_delete_eq, decide_True; [done|by left].
  - rewrite lookup_delete_ne by done. rewrite IH.
    destruct (decide (k ∈ ks)), (decide (k ∈ k' :: ks)) as [Hin|Hin];
      rewrite ?elem_of_cons in Hin; naive_solver.
Qed.

(** What the script does: count up from [n], and give a first count a time to
    live of [secs] seconds. *)
Lemma luaIncrExpire_spec t k secs v v' z :
  0 < secs → rexec (lua_spec t) (luaIncrExpire k secs) v v' z →
  ∃ n exp, counter_at t k v n exp ∧ z = n + 1 ∧
    v' = <[k := (fmt_d z, if z =? 1 then Some (t + secs * second) else exp)]> v.
Proof.
  intros Hsecs (z' & v1 & (n & exp & Hc & -> & ->) & Hex).
  destruct (Z.eqb_spec (n + 1) 1) as [Hn|Hn].
  - destruct Hex as ([] & v2 & Hexp & [-> ->]).
    exists n, exp. split; [done|]. split; [done|].
    rewrite (proj2 (Z.eqb_eq _ _) Hn).
    simpl in Hexp. unfold value_at in Hexp. rewrite lookup_insert_eq in Hexp.
    destruct (expired t exp) eqn:He.
    { exfalso. destruct Hc as [(_ & _ & ->)|Hv]; [done|]. unfold value_at in Hv.
      destruct (v !! k) as [[x e]|]; [|done]. case_match; simplify_eq. congruence. }
    rewrite (proj2 (Z.ltb_lt _ _) Hsecs) in Hexp. by rewrite insert_insert_eq in Hexp.
  - destruct Hex as [-> ->]. exists n, exp.
    by rewrite (proj2 (Z.eqb_neq _ _) Hn).
Qed.

(** A counter has one value. *)
Lemma counter_unique t k v n1 e1 n2 e2 :
  counter_at t k v n1 e1 → counter_at t k v n2 e2 → n1 = n2 ∧ e1 = e2.
Proof.
  intros [(H1 & -> & ->)|H1] [(H2 & -> & ->)|H2]; try done; try congruence.
  rewrite H1 in H2. injection H2 as Hf ->. by apply fmt_d_injective in Hf.
Qed.

(** The counter under [k] stands at [n] until [E]. *)
Definition counter_until (k : string) (n : Z) (E : time) (v : view) : Prop :=
  ∀ t, t ≤ E → counter_at t k v n (Some E).

Lemma counter_until_insert k n E v : counter_until k n E (<[k := (fmt_d n, Some E)]> v).
Proof. intros t Ht. right. rewrite value_at_insert; [done|]. simpl. apply Z.ltb_ge. lia. Qed.
