(* ===== verification/Bruteforce.v ===== *)
(** * Brute-force protection ([internal/lib/bruteforce/bruteforce.go])

    The guard keeps its counters in Redis and falls back to an in-process map
    when a Redis call fails.  Each method is a function of the state of Redis
    and of that map; one clock reading stands for the time of a call, on the
    server and in the process. *)

From Stdlib Require Import Ascii String.
From S2P Require Import Prelude GoStd Ports Spec Redis World.
Open Scope Z_scope.

Module bruteforce.

Definition attemptsKeyPrefix : string := "bf:attempts:".
Definition lockedKeyPrefix : string := "bf:locked:".

(** ** The in-process record *)

Record localEntry := LocalEntry {
  count : Z;
  windowEnd : time;
  lockedUntil : time
}.

Definition new_entry : localEntry := LocalEntry 0 zero_time zero_time.

Definition isLocked (now : time) (e : localEntry) : bool := time_Before now (lockedUntil e).

Definition recordFailure (now : time) (maxAttempts : Z) (window lockoutTTL : duration)
    (e : localEntry) : localEntry * bool :=
  let '(c, we) :=
    if time_After now (windowEnd e) then (0, time_Add now window) else (count e, windowEnd e) in
  let c := wrap64 (c + 1) in
  if maxAttempts <=? c
  then (LocalEntry 0 we (time_Add now lockoutTTL), true)
  else (LocalEntry c we (lockedUntil e), false).

(** ** The guard *)

Section guard.
Context {R : Type} `{!RedisClient R}.

Record Guard := {
  redis : R;
  local : gmap string localEntry;
  maxAttempts : Z;
  window : duration;
  lockoutTTL : duration
}.

Definition New (r : R) (maxA : Z) (win ttl : duration) : Guard :=
  {| redis := r; local := ∅; maxAttempts := maxA; window := win; lockoutTTL := ttl |}.

Definition set_redis (r : R) (g : Guard) : Guard :=
  {| redis := r; local := local g; maxAttempts := maxAttempts g; window := window g;
     lockoutTTL := lockoutTTL g |}.
Definition set_local (m : gmap string localEntry) (g : Guard) : Guard :=
  {| redis := redis g; local := m; maxAttempts := maxAttempts g; window := window g;
     lockoutTTL := lockoutTTL g |}.

(** [LoadOrStore]: the entry, stored if it was not there. *)
Definition getLocalEntry (email : string) (g : Guard) : Guard * localEntry :=
  let e := default new_entry (local g !! email) in
  (set_local (<[email := e]> (local g)) g, e).

Definition IsLocked (now : time) (email : string) (g : Guard) : Guard * result bool :=
  let '(r, n) := rc_Exists now (lockedKeyPrefix +:+ email) (redis g) in
  let g := set_redis r g in
  match n with
  | Err _ =>
      let '(g, e) := getLocalEntry email g in
      (g, Ok (isLocked now e))
  | Ok n => (g, Ok (0 <? n))
  end.

(** [int64(g.window.Seconds())]: whole seconds, for a window of less than 2^23
    seconds, where the conversion to [float64] is exact enough. *)
Definition window_secs (w : duration) : Z := Z.quot w second.

Definition RecordFailure (now : time) (email : string) (g : Guard) : Guard * result bool :=
  let attemptsKey := attemptsKeyPrefix +:+ email in
  let '(r, cnt) := rc_Eval now (luaIncrExpire attemptsKey (window_secs (window g))) (redis g) in
  let g := set_redis r g in
  match cnt with
  | Err _ =>
      let '(g, e) := getLocalEntry email g in
      let '(e, wasLocked) := recordFailure now (maxAttempts g) (window g) (lockoutTTL g) e in
      (set_local (<[email := e]> (local g)) g, Ok wasLocked)
  | Ok cnt =>
      if maxAttempts g <=? cnt then
        let '(r, err) := rc_Set now (lockedKeyPrefix +:+ email) "1" (lockoutTTL g) (redis g) in
        let g := set_redis r g in
        match err with
        | Some err => (g, Err (ErrorfW "bruteforce lock" err))
        | None =>
            let '(r, _) := rc_Del now [attemptsKey] (redis g) in
            (set_redis r g, Ok true)
        end
      else (g, Ok false)
  end.

Definition Reset (now : time) (email : string) (g : Guard) : Guard :=
  let '(r, _) := rc_Del now [attemptsKeyPrefix +:+ email; lockedKeyPrefix +:+ email] (redis g) in
  let g := set_redis r g in
  set_local (delete email (local g)) g.

(** The conversion of the counter's text to an [int] is the client's: it is
    given as [atoi]. *)
Definition AttemptsRemaining (atoi : string → option Z) (now : time) (email : string)
    (g : Guard) : Guard * result Z :=
  match IsLocked now email g with
  | (g, Err err) => (g, Err err)
  | (g, Ok true) => (g, Ok 0)
  | (g, Ok false) =>
      let '(r, c) := rc_Get now (attemptsKeyPrefix +:+ email) (redis g) in
      let g := set_redis r g in
      let fallback (g : Guard) :=
        let '(g, e) := getLocalEntry email g in
        (g, Ok (Z.max (maxAttempts g - count e) 0)) in
      match c with
      | Err err => if errors_Is err RedisNil then (g, Ok (maxAttempts g)) else fallback g
      | Ok s =>
          match atoi s with
          | Some n => (g, Ok (Z.max (maxAttempts g - n) 0))
          | None => fallback g
          end
      end
  end.
End guard.
Arguments Guard : clear implicits.

(** The guard as the service sees it.  The time of [Reset] does not matter. *)
#[global] Instance guard_ops {R} `{!RedisClient R} : World.Guard (Guard R) := {|
  g_IsLocked := IsLocked; g_RecordFailure := RecordFailure;
  g_Reset := Reset 0 |}.

(** ** The in-process record locks after [maxAttempts] failures *)

Section local.
Context (maxA : Z) (win ttl : duration).

(** Failures at the given times. *)
Fixpoint record_all (ts : list time) (e : localEntry) : localEntry * list bool :=
  match ts with
  | [] => (e, [])
  | t :: ts' =>
      let '(e', b) := recordFailure t maxA win ttl e in
      let '(e'', bs) := record_all ts' e' in (e'', b :: bs)
  end.

Lemma recordFailure_counts t e :
  t ≤ windowEnd e → 0 ≤ count e → count e + 1 < maxA → maxA < 2 ^ 62 →
  recordFailure t maxA win ttl e = (LocalEntry (count e + 1) (windowEnd e) (lockedUntil e), false).
Proof.
  intros Ht Hc Hm Hb. unfold recordFailure, time_After.
  rewrite (proj2 (Z.ltb_ge _ _) Ht), wrap64_id by lia.
  by rewrite (proj2 (Z.leb_gt _ _) Hm).
Qed.

Lemma recordFailure_locks t e :
  t ≤ windowEnd e → 0 ≤ count e → maxA ≤ count e + 1 → count e < 2 ^ 62 →
  recordFailure t maxA win ttl e = (LocalEntry 0 (windowEnd e) (t + ttl), true).
Proof.
  intros Ht Hc Hm Hb. unfold recordFailure, time_After.
  rewrite (proj2 (Z.ltb_ge _ _) Ht), wrap64_id by lia.
  by rewrite (proj2 (Z.leb_le _ _) Hm).
Qed.

(** A failure after the window has closed counts from zero. *)
Lemma recordFailure_opens t e :
  windowEnd e < t → recordFailure t maxA win ttl e =
  recordFailure t maxA win ttl (LocalEntry 0 (time_Add t win) (lockedUntil e)).
Proof.
  intros Ht. unfold recordFailure, time_After. simpl. rewrite (proj2 (Z.ltb_lt _ _) Ht).
  by destruct (_ <? t).
Qed.

Lemma record_all_counts (ts : list time) e :
  Forall (λ t : time, t ≤ windowEnd e) ts → 0 ≤ count e →
  count e + Z.of_nat (length ts) < maxA → maxA < 2 ^ 62 →
  record_all ts e =
    (LocalEntry (count e + Z.of_nat (length ts)) (windowEnd e) (lockedUntil e),
     replicate (length ts) false).
Proof.
  revert e. induction ts as [|t ts IH]; intros e Hts Hc Hm Hb; simpl.
  { destruct e. simpl. by rewrite Z.add_0_r. }
  apply Forall_cons in Hts as [Ht Hts]. simpl in Hm.
  rewrite recordFailure_counts by (done || lia). rewrite IH by (simpl; done || lia). simpl.
  do 2 f_equal. lia.
Qed.

Lemma record_all_app (ts1 ts2 : list time) e :
  record_all (ts1 ++ ts2) e =
    let '(e1, bs1) := record_all ts1 e in
    let '(e2, bs2) := record_all ts2 e1 in (e2, bs1 ++ bs2).
Proof.
  revert e. induction ts1 as [|t ts1 IH]; intros e; simpl.
  - by destruct (record_all ts2 e).
  - destruct (recordFailure t maxA win ttl e) as [e1 b]. rewrite IH.
    destruct (record_all ts1 e1) as [e2 bs]. by destruct (record_all ts2 e2).
Qed.
End local.


(** In the in-process record, starting with a failure after the last window
    has closed, [maxAttempts] failures within [window] of the first one report
    a lockout exactly at the last of them, and the account is then locked for
    exactly [lockoutTTL] from that failure on. *)
Lemma local_lockout maxA win ttl e (t0 : time) (ts : list time) (tn : time) :
  head (ts ++ [tn]) = Some t0 → windowEnd e < t0 →
  Forall (λ t : time, t ≤ t0 + win) (ts ++ [tn]) →
  Z.of_nat (length ts) + 1 = maxA → maxA < 2 ^ 62 →
  ∃ e', record_all maxA win ttl (ts ++ [tn]) e = (e', replicate (length ts) false ++ [true]) ∧
        ∀ t, isLocked t e' = true ↔ t < tn + ttl.
Proof.
  intros Hhead Hopen Hall Hlen Hb.
  set (e0 := LocalEntry 0 (time_Add t0 win) (lockedUntil e)).
  assert (record_all maxA win ttl (ts ++ [tn]) e = record_all maxA win ttl (ts ++ [tn]) e0) as ->.
  { destruct ts as [|t ts]; simpl in *; injection Hhead as ->;
      by rewrite (recordFailure_opens maxA win ttl _ e). }
  apply Forall_app in Hall as [Hts Htn]. apply Forall_cons in Htn as [Htn _].
  unfold time_Add in e0. subst e0.
  rewrite record_all_app, record_all_counts by (simpl; done || lia). simpl.
  rewrite recordFailure_locks by (cbn [count windowEnd]; lia). eexists. split; [done|].
  intros t. unfold isLocked, time_Before. simpl. by rewrite Z.ltb_lt.
Qed.

(** ** With Redis up, so does the guard *)

(** No call fails; a counter can be counted up. *)
Class RedisUp (R : Type) `{RedisSpec R} : Prop := {
  up_Exists t k s : is_ok (rc_Exists t k s).2;
  up_Set t k x ttl s : (rc_Set t k x ttl s).2 = None;
  up_Del t ks s : (rc_Del t ks s).2 = None;
  up_Eval t k secs s : (∃ n exp, counter_at t k (rc_view s) n exp) →
    is_ok (rc_Eval t (luaIncrExpire k secs) s).2
}.

Section redis.
Context {R : Type} `{!RedisClient R, !RedisSpec R, !RedisUp R}.

#[global] Instance guard_ok : GuardOk (Guard R).
Proof.
  split; intros t email g; simpl.
  - unfold IsLocked. pose proof (up_Exists t (lockedKeyPrefix +:+ email) (redis g)).
    destruct (rc_Exists _ _ _) as [r [n|]]; done.
  - unfold RecordFailure.
    destruct (rc_Eval _ _ _) as [r [n|]]; [|simpl; by destruct (recordFailure _ _ _ _ _)]. simpl. case_match; [|done].
    pose proof (up_Set t (lockedKeyPrefix +:+ email) "1" (lockoutTTL g) r) as Hset.
    destruct (rc_Set _ _ _ _ _) as [r' o]. simpl in Hset. subst o.
    by destruct (rc_Del _ _ _).
Qed.

(** The lock is held at [t]. *)
Definition lock_held (t : time) (email : string) (g : Guard R) : Prop :=
  is_Some (value_at t (lockedKeyPrefix +:+ email) (rc_view (redis g))).

Lemma IsLocked_held t email g :
  (IsLocked t email g).2 = Ok true ↔ lock_held t email g.
Proof.
  unfold IsLocked, lock_held. pose proof (up_Exists t (lockedKeyPrefix +:+ email) (redis g)) as Hup.
  destruct (rc_Exists _ _ _) as [r [n|]] eqn:Hex; [|done].
  apply rc_Exists_ok in Hex as [_ ->]. simpl.
  by destruct (value_at _ _ _).
Qed.

(** One failure: the counter goes up, or the account is locked and the counter
    removed. *)
Lemma RecordFailure_redis now email g n exp :
  0 < window_secs (window g) → 0 < lockoutTTL g →
  counter_at now (attemptsKeyPrefix +:+ email) (rc_view (redis g)) n exp →
  ∃ g', RecordFailure now email g = (g', Ok (maxAttempts g <=? n + 1)) ∧
    maxAttempts g' = maxAttempts g ∧ window g' = window g ∧ lockoutTTL g' = lockoutTTL g ∧
    if maxAttempts g <=? n + 1
    then ∀ t, t ≤ now + lockoutTTL g - millisecond → lock_held t email g'
    else rc_view (redis g') = <[attemptsKeyPrefix +:+ email :=
           (fmt_d (n + 1),
            if n + 1 =? 1 then Some (now + window_secs (window g) * second) else exp)]>
           (rc_view (redis g)).
Proof.
  intros Hw Httl Hc. unfold RecordFailure.
  set (key := attemptsKeyPrefix +:+ email) in *.
  pose proof (up_Eval now key (window_secs (window g)) (redis g) ltac:(eauto)) as Hup.
  destruct (rc_Eval _ _ _) as [r [z|]] eqn:Hev; [|done]. clear Hup.
  apply rc_Eval_ok, luaIncrExpire_spec in Hev as (n' & exp' & Hc' & -> & Hv); [|done].
  destruct (counter_unique _ _ _ _ _ _ _ Hc Hc') as [<- <-]. simpl.
  destruct (maxAttempts g <=? n + 1) eqn:Hm; [|by eexists].
  pose proof (up_Set now (lockedKeyPrefix +:+ email) "1" (lockoutTTL g) r) as Hset.
  destruct (rc_Set _ _ _ _ _) as [r1 o] eqn:Hs. simpl in Hset. subst o.
  pose proof (up_Del now [key] r1) as Hdel.
  destruct (rc_Del _ _ _) as [r2 o] eqn:Hd. simpl in Hdel. subst o.
  eexists. split; [done|]. split_and!; try done. intros t Ht.
  apply rc_Set_ok in Hs as [[? _]|(e & He & Hv1)]; [done| |done].
  apply rc_Del_ok in Hd as [[? _]|Hd]; [done|].
  unfold lock_held. simpl. rewrite Hd, value_at_delete_keys, decide_False, Hv1.
  - rewrite value_at_insert; [by eauto|]. simpl. apply Z.ltb_ge. lia.
  - by intros Hin%list_elem_of_singleton.
Qed.

(** Failures at the given times. *)
Fixpoint fail_all (ts : list time) (email : string) (g : Guard R) : Guard R * list (result bool) :=
  match ts with
  | [] => (g, [])
  | t :: ts' =>
      let '(g1, b) := RecordFailure t email g in
      let '(g2, bs) := fail_all ts' email g1 in (g2, b :: bs)
  end.

(** The counter of an account stands at [k] until [E]. *)
Abbreviation counted email k E g :=
  (counter_until (attemptsKeyPrefix +:+ email) k E (rc_view (redis g))).

(** One more failure while the window is open. *)
Lemma fail_next t email g k E :
  0 < window_secs (window g) → 0 < lockoutTTL g → counted email k E g → 1 ≤ k → t ≤ E →
  ∃ g', RecordFailure t email g = (g', Ok (maxAttempts g <=? k + 1)) ∧
    maxAttempts g' = maxAttempts g ∧ window g' = window g ∧ lockoutTTL g' = lockoutTTL g ∧
    if maxAttempts g <=? k + 1
    then ∀ t', t' ≤ t + lockoutTTL g - millisecond → lock_held t' email g'
    else counted email (k + 1) E g'.
Proof.
  intros Hw Httl Hc Hk Ht.
  destruct (RecordFailure_redis t email g k (Some E) Hw Httl (Hc t Ht))
    as (g' & Hrec & Hm & Hwin & Hl & Hif).
  exists g'. split_and!; try done. destruct (maxAttempts g <=? k + 1); [done|].
  rewrite (proj2 (Z.eqb_neq (k + 1) 1)) in Hif by lia. rewrite Hif. apply counter_until_insert.
Qed.

Lemma fail_all_lock (ts : list time) (tn : time) email g k (E : time) :
  0 < window_secs (window g) → 0 < lockoutTTL g → counted email k E g → 1 ≤ k →
  Forall (λ t : time, t ≤ E) (ts ++ [tn]) → k + Z.of_nat (length ts) + 1 = maxAttempts g →
  ∃ g', fail_all (ts ++ [tn]) email g = (g', replicate (length ts) (Ok false) ++ [Ok true]) ∧
    ∀ t, t ≤ tn + lockoutTTL g - millisecond → lock_held t email g'.
Proof.
  revert g k. induction ts as [|t ts IH]; intros g k Hw Httl Hc Hk Hall Hlen; simpl in *;
    apply Forall_cons in Hall as [Ht Hall].
  - destruct (fail_next tn email g k E) as (g' & Hrec & Hm & Hwin & Hl & Hif); [done..|].
    rewrite (proj2 (Z.leb_le _ _)) in Hrec, Hif by lia. rewrite Hrec. by exists g'.
  - destruct (fail_next t email g k E) as (g' & Hrec & Hm & Hwin & Hl & Hif); [done..|].
    rewrite (proj2 (Z.leb_gt _ _)) in Hrec, Hif by lia. rewrite Hrec.
    destruct (IH g' (k + 1)) as (g2 & Hall2 & Hlock); [by rewrite ?Hwin, ?Hl|by rewrite ?Hl|done|lia|done|lia|].
    rewrite Hall2. exists g2. split; [done|]. by rewrite <-Hl.
Qed.

(** With Redis up, starting from an account with no recorded failure,
    [maxAttempts] failed logins within the window (whole seconds, counted from
    the first failure) report a lockout exactly at the last of them, and
    [IsLocked] then answers true until the lockout time is over, to the
    millisecond. *)
Lemma redis_lockout (ts : list time) (tn t0 : time) email g :
  0 < window_secs (window g) → 0 < lockoutTTL g →
  value_at t0 (attemptsKeyPrefix +:+ email) (rc_view (redis g)) = None →
  head (ts ++ [tn]) = Some t0 →
  Forall (λ t : time, t ≤ t0 + window_secs (window g) * second) (ts ++ [tn]) →
  Z.of_nat (length ts) + 1 = maxAttempts g →
  ∃ g', fail_all (ts ++ [tn]) email g = (g', replicate (length ts) (Ok false) ++ [Ok true]) ∧
    ∀ t, t ≤ tn + lockoutTTL g - millisecond → (IsLocked t email g').2 = Ok true.
Proof.
  intros Hw Httl Hnone Hhead Hall Hlen. setoid_rewrite IsLocked_held.
  destruct (RecordFailure_redis t0 email g 0 None Hw Httl) as (g' & Hrec & Hm & Hwin & Hl & Hif);
    [by left|].
  destruct ts as [|t ts]; simpl in *; injection Hhead as ->.
  - rewrite <-Hlen in *. rewrite Hrec. by exists g'.
  - rewrite (proj2 (Z.leb_gt _ _)) in Hrec, Hif by lia. rewrite Hrec.
    apply Forall_cons in Hall as [_ Hall].
    destruct (fail_all_lock ts tn email g' 1 (t0 + window_secs (window g) * second))
      as (g2 & Hall2 & Hlock); [by rewrite ?Hwin|by rewrite Hl|rewrite Hif; apply counter_until_insert|done|done|unfold time in *; lia|].
    rewrite Hall2. exists g2. split; [done|]. by rewrite <-Hl.
Qed.

(** With Redis up, [Reset] after a successful login lifts a lockout and
    forgets the failures. *)
Lemma Reset_unlocks t0 t email g :
  (IsLocked t email (Reset t0 email g)).2 = Ok false ∧
  value_at t (attemptsKeyPrefix +:+ email) (rc_view (redis (Reset t0 email g))) = None ∧
  local (Reset t0 email g) !! email = None.
Proof.
  assert (¬ lock_held t email (Reset t0 email g) ∧
    value_at t (attemptsKeyPrefix +:+ email) (rc_view (redis (Reset t0 email g))) = None ∧
    local (Reset t0 email g) !! email = None) as (Hno & Hat & Hloc).
  { unfold lock_held, Reset.
    pose proof (up_Del t0 [attemptsKeyPrefix +:+ email; lockedKeyPrefix +:+ email] (redis g)) as Hup.
    destruct (rc_Del _ _ _) as [r o] eqn:Hd. simpl in *. subst o. apply rc_Del_ok in Hd as [[? _]|Hd]; [done|].
    rewrite Hd, !value_at_delete_keys, !decide_True by (rewrite !elem_of_cons; auto).
    split_and!; [by intros []|done|apply lookup_delete_eq]. }
  split; [|done]. rewrite <-IsLocked_held in Hno.
  pose proof (g_IsLocked_ok t email (Reset t0 email g)) as Hok. simpl in Hok.
  destruct (IsLocked t email (Reset t0 email g)).2 as [[]|]; done.
Qed.
End redis.

End bruteforce.
