(* ===== verification/Lockout.v ===== *)
(** * Wrong passwords lock the account

    [Login] ([internal/service/auth/auth.go]) together with the brute-force guard
    it asks ([internal/lib/bruteforce]) and the Redis behind that: what a
    sequence of logins does to an account.  The stores, the token manager and
    the clock of the service may answer anything. *)

From Stdlib Require Import Ascii String.
From S2P Require Import Prelude GoStd Ports Validate Crypto Service ServiceSafety World Redis Bruteforce.
Import bruteforce.
Open Scope Z_scope.

#[local] Opaque Email Password extractClientInfo.
#[local] Opaque logAudit fireHook cacheSession deleteSessionFromCache deleteSessionsFromCache.

(** ** The guard behind the service *)

Section guard_calls.
Context {R : Type} `{!RedisClient R}.

(** The guard's part of a call at time [t]. *)
Definition guard_call (t : time) (c : callrec portE) (g g' : Guard R) : Prop :=
  match call_op c in portE X return X → Prop with
  | GuardIsLocked email => λ ans, IsLocked t email g = (g', ans)
  | GuardRecordFailure email => λ ans, RecordFailure t email g = (g', ans)
  | GuardReset email => λ _, g' = Reset t email g
  | _ => λ _, g' = g
  end (call_res c).

(** Calls answered by the guard, each at some time from [lo] to [hi]. *)
Inductive answered (lo hi : time) : Guard R → list (callrec portE) → Guard R → Prop :=
| answered_nil g : answered lo hi g [] g
| answered_cons t c tr g g1 g2 :
    lo ≤ t ≤ hi → guard_call t c g g1 → answered lo hi g1 tr g2 → answered lo hi g (c :: tr) g2.

Definition asks_guard (c : callrec portE) : bool :=
  match call_op c with
  | GuardIsLocked _ | GuardRecordFailure _ | GuardReset _ => true
  | _ => false
  end.

Lemma answered_app lo hi g tr1 tr2 g2 :
  answered lo hi g (tr1 ++ tr2) g2 → ∃ g1, answered lo hi g tr1 g1 ∧ answered lo hi g1 tr2 g2.
Proof.
  revert g. induction tr1 as [|c tr1 IH]; intros g Ha; simpl in Ha.
  - exists g. split; [constructor|done].
  - inversion Ha as [|t c' tr g' g1 g2' Ht Hc Hrest]; subst.
    destruct (IH _ Hrest) as (g3 & H1 & H2). exists g3. split; [by econstructor|done].
Qed.

Lemma answered_other lo hi g tr g' :
  answered lo hi g tr g' → Forall (λ c, asks_guard c = false) tr → g' = g.
Proof.
  induction 1 as [|t c tr g g1 g2 Ht Hc Ha IH]; [done|]. intros [Hn Hf]%Forall_cons.
  rewrite (IH Hf). destruct c as [X e x]. by destruct e.
Qed.
End guard_calls.

(** ** The calls of a login with a wrong password *)

(** The account a login looked up. *)
Definition found_user (c : callrec portE) : option User :=
  match call_op c in portE X return X → option User with
  | UserGetByEmail _ => λ ans, match ans with Ok user => Some user | Err _ => None end
  | _ => λ _, None
  end (call_res c).

Section login.
Context `{Argon2, UnicodeTables} (s : AuthService).

(** It found the account and its password did not match. *)
Definition wrong_password (req : LoginRequest) (tr : list (callrec portE)) : Prop :=
  ∃ user, head (omap found_user tr) = Some user ∧
    password.Verify (login_Password req) (user_PasswordHash user) = Ok false.

Lemma audit_not_guard uid ty ip ua meta :
  Forall (λ c, asks_guard c = false) (audit_calls s uid ty ip ua meta).
Proof. unfold audit_calls. destruct (svc_auditStore s); by repeat constructor. Qed.
Lemma found_user_audit uid ty ip ua meta : omap found_user (audit_calls s uid ty ip ua meta) = [].
Proof. unfold audit_calls. by destruct (svc_auditStore s). Qed.

(** What a login does with the guard: tell it of the failure, and nothing else. *)
Definition reports (email : string) (tr : list (callrec portE)) (r : reply TokenPair) : Prop :=
  ∃ pre ans rest, tr = pre ++ Call (GuardRecordFailure email) ans :: rest ∧
    Forall (λ c, asks_guard c = false) pre ∧ Forall (λ c, asks_guard c = false) rest ∧
    r = Refuse match ans with Ok true => locked_status | _ => invalid_credentials end.

Lemma login_failed_reports user email ip ua tr r :
  svc_bruteGuard s = true → exec (login_failed s user email ip ua) tr r → reports email tr r.
Proof.
  intros Hg Hex. unfold login_failed in Hex. rewrite Hg in Hex. unfold reports.
  exec_inv; (eexists [], _, _; split; [done|]; split; [constructor|]; split; [|done]);
    split_Forall; auto using audit_not_guard.
Qed.

Lemma login_check_reports req ip ua tr r :
  svc_bruteGuard s = true → exec (login_check s req ip ua) tr r → wrong_password req tr →
  reports (login_Email req) tr r.
Proof.
  intros Hg (ans & tr1 & -> & Hex) (user & Hu & Hv). destruct ans as [user'|err].
  - injection Hu as ->. rewrite Hv in Hex. apply login_failed_reports in Hex; [|done].
    destruct Hex as (pre & ans & rest & -> & Hpre & Hrest & ->).
    exists (Call (UserGetByEmail (login_Email req)) (Ok user) :: pre), ans, rest.
    split_and!; try done. by constructor.
  - exec_inv; csimpl in Hu; rewrite ?omap_app, ?found_user_audit in Hu; done.
Qed.

(** The guard is asked first, and told of the failure after that. *)
Lemma wrong_login_calls ctx req tr r :
  svc_bruteGuard s = true → exec (Login s ctx req) tr r → wrong_password req tr →
  Email (login_Email req) = None ∧
  ∃ locked tr', tr = Call (GuardIsLocked (login_Email req)) locked :: tr' ∧
    reports (login_Email req) tr' r.
Proof.
  intros Hg Hex Hw. unfold Login in Hex. rewrite Hg in Hex.
  destruct (Email (login_Email req)) eqn:He.
  { destruct Hex as [-> ->]. destruct Hw as (user & [=] & _). }
  split; [done|]. destruct (extractClientInfo ctx) as [ip ua].
  destruct Hex as (locked & tr1 & -> & Hex). exists locked, tr1. split; [done|].
  destruct Hw as (user & Hu & Hv). csimpl in Hu. destruct locked as [[]|err].
  - exec_inv. rewrite !omap_app, found_user_audit in Hu. done.
  - by eapply login_check_reports; [|exact Hex|exists user].
  - destruct Hex as ([] & tr2 & -> & Hex).
    destruct (login_check_reports _ _ _ _ _ Hg Hex) as (pre & ans & rest & -> & Hpre & Hrest & ->);
      [by exists user|].
    exists (Call (Slog LevelError "check brute force") tt :: pre), ans, rest.
    split_and!; try done. by constructor.
Qed.
End login.

(** ** Lockout *)

Section lockout.
Context `{Argon2, UnicodeTables} {R : Type} `{!RedisClient R, !RedisSpec R, !RedisUp R}.
Context (s : AuthService) (email : string).
Hypothesis guarded : svc_bruteGuard s = true.

(** A login at the times [t.1] to [t.2] with a wrong password. *)
Definition wrong_login (t : time * time) (g : Guard R) (r : reply TokenPair) (g' : Guard R) : Prop :=
  ∃ ctx req tr, login_Email req = email ∧ exec (Login s ctx req) tr r ∧ wrong_password req tr ∧
    answered t.1 t.2 g tr g'.

(** One after the other. *)
Inductive wrong_logins : list (time * time) → Guard R → list (reply TokenPair) → Guard R → Prop :=
| wrong_nil g : wrong_logins [] g [] g
| wrong_cons t ts g r g1 rs g2 :
    wrong_login t g r g1 → wrong_logins ts g1 rs g2 → wrong_logins (t :: ts) g (r :: rs) g2.

(** The settings of a guard do not change. *)
Definition same_settings (g g' : Guard R) : Prop :=
  maxAttempts g' = maxAttempts g ∧ window g' = window g ∧ lockoutTTL g' = lockoutTTL g.

Lemma IsLocked_keeps t e g g' ans :
  IsLocked t e g = (g', ans) → rc_view (redis g') = rc_view (redis g) ∧ same_settings g g'.
Proof.
  unfold IsLocked. destruct (rc_Exists t (lockedKeyPrefix +:+ e) (redis g)) as [r [n|]] eqn:He;
    apply rc_Exists_ok in He as [Hv _]; intros [= <- _]; by split.
Qed.

(** A wrong password is one failure on the guard, some time during the login. *)
Lemma wrong_login_failure t g r g' :
  wrong_login t g r g' →
  Email email = None ∧ ∃ now g1 ans, t.1 ≤ now ≤ t.2 ∧ rc_view (redis g1) = rc_view (redis g) ∧
    same_settings g g1 ∧ RecordFailure now email g1 = (g', ans) ∧
    r = Refuse match ans with Ok true => locked_status | _ => invalid_credentials end.
Proof.
  intros (ctx & req & tr & He & Hex & Hw & Ha).
  destruct (wrong_login_calls s ctx req tr r guarded Hex Hw) as (Hemail & locked & tr' & -> & Hrep).
  destruct Hrep as (pre & ans & rest & -> & Hpre & Hrest & ->). rewrite He in *. split; [done|].
  inversion Ha as [|t1 c tr1 g0 g1 g2 Ht1 Hlock Ha1]; subst.
  apply IsLocked_keeps in Hlock as [Hview Hset].
  apply answered_app in Ha1 as (g2 & Hpre' & Ha2). apply answered_other in Hpre'; [|done]. subst g2.
  inversion Ha2 as [|t2 c tr2 g0' g2 g3 Ht2 Hrec Ha3]; subst.
  apply answered_other in Ha3; [|done]. subst g2.
  by exists t2, g1, ans.
Qed.

(** The answers to [n] wrong passwords, the last of which locks. *)
Definition locking (n : nat) : list (reply TokenPair) :=
  replicate n (Refuse invalid_credentials) ++ [Refuse locked_status].

(** While the counter stands at [k] until [E]. *)
Lemma wrong_logins_lock ts tn g rs g' k (E : time) :
  wrong_logins (ts ++ [tn]) g rs g' →
  0 < window_secs (window g) → 0 < lockoutTTL g → 1 ≤ k →
  counter_until (attemptsKeyPrefix +:+ email) k E (rc_view (redis g)) →
  Forall (λ t : time * time, t.2 ≤ E) (ts ++ [tn]) → k + Z.of_nat (length ts) + 1 = maxAttempts g →
  rs = locking (length ts) ∧ ∀ t, t ≤ tn.1 + lockoutTTL g - millisecond → lock_held t email g'.
Proof.
  revert g rs k. induction ts as [|t ts IH]; intros g rs k Hw Hwin Httl Hk Hc Hts Hn; simpl in *;
    inversion Hw as [|? ? ? r g1 rs' ? Hone Hrest]; subst; apply Forall_cons in Hts as [Ht Hts];
    destruct (wrong_login_failure _ _ _ _ Hone) as (_ & now & g0 & ans & Hnow & Hv & (Hm & Hwn & Hl) & Hrec & ->);
    rewrite <-Hv in Hc;
    destruct (fail_next now email g0 k E) as (g1' & Hrec' & Hm' & Hwn' & Hl' & Hif);
    try (rewrite ?Hwn, ?Hl; done || lia); rewrite Hrec in Hrec'; simplify_eq; rewrite Hm in *.
  - inversion Hrest; subst. rewrite (proj2 (Z.leb_le _ _)) in * by lia. split; [done|].
    intros t Ht'. apply Hif. rewrite Hl. unfold time in *. lia.
  - rewrite (proj2 (Z.leb_gt _ _)) in * by lia.
    destruct (IH g1' rs' (k + 1) Hrest) as [-> Hlock];
      try (rewrite ?Hm', ?Hwn', ?Hl', ?Hwn, ?Hl; done || lia).
    split; [done|]. intros t' Ht'. apply Hlock. rewrite Hl', Hl. lia.
Qed.

(** The lock of the account, as Redis has it. *)
Definition lock_of (g : Guard R) : option (string * option time) :=
  rc_view (redis g) !! (lockedKeyPrefix +:+ email).

Lemma lock_held_same t g g' : lock_of g' = lock_of g → lock_held t email g → lock_held t email g'.
Proof. unfold lock_of, lock_held, value_at. by intros ->. Qed.

(** Once locked, a login is refused without a look at the password. *)
Lemma locked_login ctx req tr r lo hi g g' :
  login_Email req = email → Email email = None → exec (Login s ctx req) tr r →
  answered lo hi g tr g' → (∀ t, t ≤ hi → lock_held t email g) →
  r = Refuse locked_status ∧ Forall (λ c, ∃ j, c = Call (Go j) tt) (tail tr) ∧ lock_of g' = lock_of g.
Proof.
  intros He Hemail Hex Ha Hlock.
  pose proof (Login_locked s ctx req tr r guarded ltac:(by rewrite He) Hex) as Hlocked.
  unfold Login in Hex. rewrite He, Hemail, guarded in Hex. destruct (extractClientInfo ctx) as [ip ua].
  destruct Hex as (locked & tr1 & -> & _).
  inversion Ha as [|t c tr' g0 g1 g2 Ht Hcall Hrest]; subst.
  change (IsLocked t email g = (g1, locked)) in Hcall. simpl in Hlocked.
  pose proof (proj2 (IsLocked_held t email g) (Hlock t (proj2 Ht))) as Htrue.
  rewrite Hcall in Htrue. simpl in Htrue. subst locked.
  destruct (Hlocked eq_refl) as [-> Hgo]. split_and!; [done..|].
  assert (g' = g1) as ->.
  { eapply answered_other; [exact Hrest|]. eapply Forall_impl; [exact Hgo|]. by intros c [j ->]. }
  unfold lock_of. by apply IsLocked_keeps in Hcall as [-> _].
Qed.

(** C14: With Redis up, wrong passwords lock an account: when [maxAttempts] logins
    with wrong passwords follow one another within the window, all but the last
    are answered "invalid credentials" and the last one that the account is
    locked; from then on, until the lockout time is over (to the millisecond),
    every login to that account, also with the right password, is answered the
    same, without looking at any store, making a token or drawing a random
    number, and leaves the lock as it is. *)
Theorem wrong_passwords_lock ts tn g rs g' (t0 : time) :
  wrong_logins (ts ++ [tn]) g rs g' →
  0 < window_secs (window g) → 0 < lockoutTTL g →
  (∀ t, t0 ≤ t → value_at t (attemptsKeyPrefix +:+ email) (rc_view (redis g)) = None) →
  Forall (λ t : time * time, t0 ≤ t.1 ∧ t.2 ≤ t0 + window_secs (window g) * second) (ts ++ [tn]) →
  Z.of_nat (length ts) + 1 = maxAttempts g →
  rs = locking (length ts) ∧
  ∀ ctx req tr r lo hi g1 g2,
    lock_of g1 = lock_of g' → hi ≤ tn.1 + lockoutTTL g - millisecond →
    login_Email req = email → exec (Login s ctx req) tr r → answered lo hi g1 tr g2 →
    r = Refuse locked_status ∧ Forall (λ c, ∃ j, c = Call (Go j) tt) (tail tr) ∧ lock_of g2 = lock_of g'.
Proof.
  intros Hw Hwin Httl Hnone Hts Hn.
  assert (Email email = None ∧ rs = locking (length ts) ∧
    ∀ t, t ≤ tn.1 + lockoutTTL g - millisecond → lock_held t email g') as (Hemail & -> & Hlock).
  2: { split; [done|]. intros * Hsame Hhi He Hex Ha. rewrite <-Hsame. eapply locked_login; try done.
       intros t Ht. apply (lock_held_same _ _ _ Hsame), Hlock. unfold time in *. lia. }
  destruct ts as [|t1 ts]; simpl in *; inversion Hw as [|? ? ? r g1 rs' ? Hone Hrest]; subst;
    apply Forall_cons in Hts as [[Hlo Hhi] Hts];
    destruct (wrong_login_failure _ _ _ _ Hone) as (Hemail & now & g0 & ans & Hnow & Hv & (Hm & Hwn & Hl) & Hrec & ->);
    (destruct (RecordFailure_redis now email g0 0 None) as (g1' & Hrec' & Hm' & Hwn' & Hl' & Hif);
      [by rewrite Hwn|by rewrite Hl|left; rewrite Hv; split; [apply Hnone; lia|done]|]);
    rewrite Hrec in Hrec'; simplify_eq; rewrite Hm in *; (split; [done|]).
  - inversion Hrest; subst. rewrite (proj2 (Z.leb_le _ _)) in * by lia. split; [done|].
    intros t Ht. apply Hif. rewrite Hl. unfold time in *. lia.
  - rewrite (proj2 (Z.leb_gt _ _)) in * by lia.
    destruct (wrong_logins_lock ts tn g1' rs' g' 1 (now + window_secs (window g) * second) Hrest)
      as [-> Hlock]; try (rewrite ?Hm', ?Hwn', ?Hl', ?Hwn, ?Hl; done || lia).
    + rewrite Hif, Hwn. apply counter_until_insert.
    + eapply Forall_impl; [exact Hts|]. simpl. intros t [_ Ht]. unfold time in *. lia.
    + split; [done|]. intros t Ht. apply Hlock. rewrite Hl', Hl. lia.
Qed.
End lockout.
