(* ===== verification/RateLimit.v ===== *)
(** * Rate limiting and interceptors

    [internal/lib/ratelimit/ratelimit.go] and [internal/interceptor]. *)

From Stdlib Require Import Ascii String.
From S2P Require Import Prelude GoStd Ports Service Spec Redis Bruteforce.
Open Scope Z_scope.

(** ** The limiter *)

Module ratelimit.

Definition keyPrefix : string := "rl:".

Record Limiter := New { limit : Z; window : duration }.

Definition Limit (l : Limiter) : Z := limit l.
Definition Window (l : Limiter) : duration := window l.

(** The Redis key of a client in the current window. *)
Definition redisKey (l : Limiter) (now : time) (key : string) : string :=
  let windowStart := time_Unix (time_Truncate now (window l)) in
  keyPrefix +:+ key +:+ ":" +:+ fmt_d windowStart.

(** [int64(l.window * 2 / time.Second)]. *)
Definition ttlSecs (l : Limiter) : Z := Z.quot (wrap64 (window l * 2)) second.

Section allow.
Context {R : Type} `{!RedisClient R}.

(** On a Redis failure the request is let through, with an error. *)
Definition Allow (l : Limiter) (now : time) (key : string) (r : R) : R * (bool * option error) :=
  let '(r, count) := rc_Eval now (luaIncrExpire (redisKey l now key) (ttlSecs l)) r in
  match count with
  | Err err => (r, (true, Some (ErrorfW "rate limiter redis error" err)))
  | Ok count => (r, (count <=? limit l, None))
  end.

(** Requests at the given times. *)
Fixpoint allow_all (l : Limiter) (ts : list time) (key : string) (r : R)
    : R * list (bool * option error) :=
  match ts with
  | [] => (r, [])
  | t :: ts' =>
      let '(r, a) := Allow l t key r in
      let '(r, rest) := allow_all l ts' key r in (r, a :: rest)
  end.
End allow.

Section up.
Context {R : Type} `{!RedisClient R, !RedisSpec R, !bruteforce.RedisUp R}.
Context (l : Limiter) (key : string).
Hypothesis window_second : second ≤ window l < 2 ^ 61.

Lemma ttlSecs_covers : 0 < ttlSecs l ∧ window l ≤ ttlSecs l * second.
Proof.
  unfold ttlSecs. rewrite wrap64_id by (unfold second in *; lia).
  pose proof (Z.quot_rem' (window l * 2) second) as Hq.
  pose proof (Z.rem_bound_pos (window l * 2) second) as Hr.
  unfold second in *. split; [|lia]. apply Z.quot_str_pos. lia.
Qed.

(** The [n]-th request in a window is allowed iff [n ≤ limit]. *)
Lemma Allow_counts now r n exp :
  counter_at now (redisKey l now key) (rc_view r) n exp →
  ∃ r', Allow l now key r = (r', (n + 1 <=? limit l, None)) ∧
    rc_view r' = <[redisKey l now key :=
      (fmt_d (n + 1), if n + 1 =? 1 then Some (now + ttlSecs l * second) else exp)]> (rc_view r).
Proof.
  intros Hc. unfold Allow.
  pose proof (bruteforce.up_Eval now (redisKey l now key) (ttlSecs l) r ltac:(eauto)) as Hup.
  destruct (rc_Eval _ _ _) as [r' [z|]] eqn:Hev; [|done].
  apply rc_Eval_ok, luaIncrExpire_spec in Hev as (n' & exp' & Hc' & -> & Hv);
    [|by apply ttlSecs_covers].
  destruct (counter_unique _ _ _ _ _ _ _ Hc Hc') as [<- <-]. by exists r'.
Qed.

(** The verdicts on [m] requests after [n] earlier ones. *)
Definition verdicts (n : Z) (m : nat) : list (bool * option error) :=
  (λ i, (n + Z.of_nat i <=? limit l, None)) <$> seq 1 m.

Lemma verdicts_cons n m : verdicts n (S m) = (n + 1 <=? limit l, None) :: verdicts (n + 1) m.
Proof.
  unfold verdicts. rewrite <-cons_seq, <-fmap_S_seq. csimpl. f_equal.
  rewrite <-list_fmap_compose. apply list_fmap_ext. intros i x _. simpl. do 2 f_equal. lia.
Qed.

Lemma allow_all_counts (ts : list time) k r n (E : time) :
  1 ≤ n → counter_until k n E (rc_view r) →
  Forall (λ t : time, redisKey l t key = k ∧ t ≤ E) ts →
  (allow_all l ts key r).2 = verdicts n (length ts).
Proof.
  revert r n. induction ts as [|t ts IH]; intros r n Hn Hc Hts; [done|].
  apply Forall_cons in Hts as [[Hk Ht] Hts]. simpl. rewrite verdicts_cons.
  destruct (Allow_counts t r n (Some E)) as (r' & Ha & Hv); [by rewrite Hk; apply Hc|].
  rewrite Ha. rewrite Hk in Hv. rewrite (proj2 (Z.eqb_neq (n + 1) 1)) in Hv by lia.
  specialize (IH r' (n + 1)). destruct (allow_all l ts key r') as [r2 rest]. simpl in *.
  rewrite IH; [done|lia|rewrite Hv; apply counter_until_insert|done].
Qed.

(** With Redis up and a window of at least a second, among the requests of
    one client in one window exactly the first [limit] are allowed. *)
Lemma fixed_window (ts : list time) t0 r :
  value_at t0 (redisKey l t0 key) (rc_view r) = None →
  Forall (λ t : time, time_Truncate t (window l) = time_Truncate t0 (window l)) ts →
  (allow_all l (t0 :: ts) key r).2 =
  (λ i, (Z.of_nat i <=? limit l, None)) <$> seq 1 (S (length ts)).
Proof.
  intros Hnone Hts. change (_ <$> _) with (verdicts 0 (S (length ts))).
  rewrite verdicts_cons. simpl.
  destruct (Allow_counts t0 r 0 None) as (r' & -> & Hv); [by left|]. simpl in Hv.
  pose proof (allow_all_counts ts (redisKey l t0 key) r' 1 (t0 + ttlSecs l * second)) as Hall.
  destruct (allow_all l ts key r') as [r2 rest]. simpl in *.
  rewrite Hall; [done|done|rewrite Hv; apply counter_until_insert|].
  eapply Forall_impl; [exact Hts|]. intros t Ht. split; [unfold redisKey; by rewrite Ht|].
  destruct ttlSecs_covers as [_ Hcov].
  pose proof (time_Truncate_bounds t (window l)). pose proof (time_Truncate_bounds t0 (window l)).
  unfold second in *. simpl in Ht. lia.
Qed.
End up.
End ratelimit.

(** ** Interceptors *)

Definition shortMethod (full : string) : string :=
  match last_index_byte "/" full with
  | Some idx => str_drop (idx + 1) full
  | None => full
  end.

Definition peerIP (ctx : Ctx) : string :=
  match ctx_peer ctx with
  | None => ""
  | Some addr =>
      match last_index_byte ":" addr with
      | Some idx => str_take idx addr
      | None => addr
      end
  end.

Definition extractIP (ctx : Ctx) : string :=
  match ctx_md ctx with
  | Some md =>
      match md_Get md "x-forwarded-for" with
      | xff :: _ =>
          match rightmost_ip xff with
          | Some ip => ip
          | None => peerIP ctx
          end
      | [] => peerIP ctx
      end
  | None => peerIP ctx
  end.

Definition sensitiveMethods : gmap string bool :=
  {["Login" := true; "Register" := true; "ChangePassword" := true;
    "RequestPasswordReset" := true; "VerifyResetCode" := true; "ResetPassword" := true]}.

(** What an interceptor calls: the limiters, the next handler, the clock and the
    log.  [H] is what the handler returns: a response or an error status. *)
Inductive interE (H : Type) : Type → Type :=
| AllowGlobal (key : string) : interE H (bool * option error)
| AllowLogin (key : string) : interE H (bool * option error)
| Handler : interE H (reply H)
| Clock : interE H time
| Warn (msg : string) : interE H unit
| Info (method ip : string) (dur : duration) (status : option code) : interE H unit.
Arguments AllowGlobal {H} key.
Arguments AllowLogin {H} key.
Arguments Handler {H}.
Arguments Clock {H}.
Arguments Warn {H} msg.
Arguments Info {H} method ip dur status.

Section interceptors.
Context {H : Type} (globalLimiter loginLimiter : ratelimit.Limiter).

Definition too_many (what : string) (l : ratelimit.Limiter) : status :=
  Status ResourceExhausted
    ("too many " +:+ what +:+ " from your IP, try again in " +:+
     Duration_String (ratelimit.Window l)).

(** The stricter limit, then the handler. *)
Definition rate_limit_login (ip method : string) : prog (interE H) (reply H) :=
  if default false (sensitiveMethods !! method) then
    call a <- AllowLogin ("auth:" +:+ ip);;
    match a with
    | (_, Some _) => do Warn "auth rate limit check failed, failing open";; trigger Handler
    | (true, None) => trigger Handler
    | (false, None) => Ret (Refuse (too_many "login attempts" loginLimiter))
    end
  else trigger Handler.

Definition RateLimit (ctx : Ctx) (fullMethod : string) : prog (interE H) (reply H) :=
  let ip := extractIP ctx in
  let method := shortMethod fullMethod in
  call a <- AllowGlobal ip;;
  match a with
  | (_, Some _) =>
      do Warn "rate limit check failed, failing open";; rate_limit_login ip method
  | (true, None) => rate_limit_login ip method
  | (false, None) => Ret (Refuse (too_many "requests" globalLimiter))
  end.

(** [d.Round(time.Millisecond)]: to the nearest millisecond, halves away from
    zero. *)
Definition round_ms (d : duration) : duration :=
  let a := Z.abs d in
  let r := a mod millisecond in
  let a' := if 2 * r <? millisecond then a - r else a - r + millisecond in
  if d <? 0 then - a' else a'.

(** [None] is [codes.OK]. *)
Definition Logging (ctx : Ctx) (fullMethod : string) : prog (interE H) (reply H) :=
  call start <- Clock;;
  call resp <- Handler;;
  let c := match resp with Reply _ => None | Refuse st => Some (st_code st) end in
  call now <- Clock;;
  do Info (shortMethod fullMethod) (peerIP ctx) (round_ms (time_Sub now start)) c;;
  Ret resp.
End interceptors.



(** ** The client's address cannot be forged through X-Forwarded-For *)

(** The last entry of the list wins, whatever stands before it. *)
Lemma rightmost_ip_last forged n ip :
  graphic ip → ip ≠ "" → no_byte "," ip →
  rightmost_ip (forged +:+ String "," (string_of_bytes (replicate n 0x20) +:+ ip)) = Some ip.
Proof.
  intros Hg Hne Hc. unfold rightmost_ip. rewrite strings_Split_snoc.
  - rewrite reverse_snoc. simpl. rewrite strings_TrimSpace_graphic by done.
    by rewrite bool_decide_eq_false_2.
  - apply no_byte_app. split; [|done]. apply no_byte_bytes.
    rewrite bytes_of_string_of_bytes by (apply Forall_replicate; unfold byte_ok; lia).
    intros [Heq _]%elem_of_replicate. vm_compute in Heq. done.
Qed.
