(* ===== verification/RedisMem.v ===== *)
(** * A Redis in memory

    An instance of the Redis interface: it shows that the laws of [Redis] can
    be met, and lets the guard and the limiter run. *)

From Stdlib Require Import Ascii String.
From S2P Require Import Prelude GoStd Ports Redis Bruteforce Spec.
Open Scope Z_scope.

(** ** Integers from their text *)

Definition parse_digits (s : string) : Z :=
  digits_value ((λ b, b - 48) <$> bytes_of_string s).
Definition parse_int (s : string) : Z :=
  match s with
  | String "-" s' => - parse_digits s'
  | _ => parse_digits s
  end.
(** The integer a text stands for, if it is the text of one. *)
Definition to_int (s : string) : option Z :=
  if bool_decide (fmt_d (parse_int s) = s) then Some (parse_int s) else None.

Lemma parse_digits_of n : 0 ≤ n → parse_digits (string_of_digits (digits_of n)) = n.
Proof.
  intros Hn. destruct (digits_of_spec n Hn) as (Hv & Hd & _). unfold parse_digits.
  rewrite bytes_of_string_of_digits by done. rewrite <-list_fmap_compose.
  rewrite <-Hv at 2. f_equal. rewrite <-(list_fmap_id (digits_of n)) at 2.
  apply list_fmap_ext. intros i x _. simpl. lia.
Qed.

Lemma parse_fmt_d n : parse_int (fmt_d n) = n.
Proof.
  destruct (Z.ltb_spec n 0) as [Hn|Hn].
  - unfold fmt_d. rewrite (proj2 (Z.ltb_lt _ _) Hn). simpl. rewrite parse_digits_of; lia.
  - pose proof (fmt_d_digits n Hn) as Hd. pose proof (parse_digits_of n Hn) as Hp.
    unfold fmt_d in *. rewrite (proj2 (Z.ltb_ge _ _) Hn) in *.
    destruct (string_of_digits (digits_of n)) as [|c s]; [done|].
    unfold parse_int. destruct (decide (c = "-"%char)) as [->|Hc].
    + exfalso. apply Forall_cons in Hd as [Hd _]. vm_compute in Hd. naive_solver.
    + rewrite <-Hp. destruct c as [[] [] [] [] [] [] [] []]; done.
Qed.

Lemma to_int_fmt n : to_int (fmt_d n) = Some n.
Proof. unfold to_int. rewrite parse_fmt_d. by rewrite bool_decide_eq_true_2. Qed.

Lemma to_int_sound s n : to_int s = Some n → s = fmt_d n.
Proof. unfold to_int. case_bool_decide as Hb; intros [= <-]. done. Qed.

(** ** The server *)

Module RedisMem.

(** A command, unless it is an error. *)
Definition lua_cmd (t : time) {X} (e : luaE X) : view → option (view * X) :=
  match e in luaE X return view → option (view * X) with
  | INCR k => λ v,
      match value_at t k v with
      | None => Some (<[k := (fmt_d 1, None)]> v, 1)
      | Some (s, exp) =>
          n ← to_int s; Some (<[k := (fmt_d (n + 1), exp)]> v, n + 1)
      end
  | EXPIRE k secs => λ v,
      match value_at t k v with
      | Some (x, _) => Some (if 0 <? secs then <[k := (x, Some (t + secs * second))]> v
                             else delete k v, tt)
      | None => Some (v, tt)
      end
  | LGET k => λ v, Some (v, fst <$> value_at t k v)
  | PTTL k => λ v,
      Some (v, match value_at t k v with
               | Some (_, Some e) => (e - t) / millisecond
               | Some (_, None) => -1
               | None => -2
               end)
  | SETPX k x ms => λ v,
      if 0 <? ms then Some (<[k := (x, Some (t + ms * millisecond))]> v, tt) else None
  | RAISE => λ _, None
  end.

Fixpoint lua_run (t : time) (p : prog luaE Z) (v : view) : option (view * Z) :=
  match p with
  | Ret z => Some (v, z)
  | Vis e k => match lua_cmd t e v with Some (v', x) => lua_run t (k x) v' | None => None end
  end.

#[global] Instance client : RedisClient view := {|
  rc_Exists t k v := (v, Ok match value_at t k v with Some _ => 1 | None => 0 end);
  rc_Get t k v :=
    (v, match value_at t k v with Some (x, _) => Ok x | None => Err RedisNil end);
  rc_Set t k x ttl v := (<[k := (x, Some (t + ttl))]> v, None);
  rc_Del t ks v := (delete_keys ks v, None);
  rc_Eval t script v :=
    match lua_run t script v with
    | Some (v', z) => (v', Ok z)
    | None => (v, Err (Errorf "ERR"))
    end
|}.

Lemma lua_cmd_sound t X (e : luaE X) x v v' :
  lua_cmd t e v = Some (v', x) → lua_spec t X e x v v'.
Proof.
  destruct e; simpl.
  - unfold counter_at. destruct (value_at t key v) as [[s exp]|].
    + intros (n & Hn%to_int_sound & [= <- <-])%bind_Some. subst s. eauto 10.
    + intros [= <- <-]. exists 0, None. auto.
  - by destruct (value_at t key v) as [[]|]; intros [= <- <-].
  - by intros [= <- <-].
  - intros [= <- <-]. split; [done|]. by destruct (value_at t key v) as [[? []]|].
  - destruct (Z.ltb_spec 0 ms); intros [= <- <-]. done.
  - done.
Qed.

Lemma lua_run_sound t p v v' z :
  lua_run t p v = Some (v', z) → rexec (lua_spec t) p v v' z.
Proof.
  revert v; induction p as [r|X e k IH]; intros v; simpl; [by intros [= <- <-]|].
  destruct (lua_cmd t e v) as [[v1 x]|] eqn:Hc; [|done]. intros Hrun.
  exists x, v1. split; [by apply lua_cmd_sound|by apply IH].
Qed.

#[global] Instance client_spec : RedisSpec view.
Proof.
  refine {| rc_view := λ v : view, v |}; simpl.
  - intros t k s s' r [= <- <-]. done.
  - intros t k s s' r [= <- <-]. split; [done|].
    by destruct (value_at t k s) as [[]|].
  - intros t k x ttl s s' r [= <- <-] Httl. right. exists (t + ttl). split; [|done].
    unfold millisecond. lia.
  - intros t ks s s' r [= <- <-]. by right.
  - intros t p s s' r. destruct (lua_run t p s) as [[v' z]|] eqn:Hrun; intros [= <- <-]; [by apply lua_run_sound|].
    split; [done|by left].
  - intros t s. split_and!; intros *; [done..| |].
    + destruct (value_at t k s) as [[]|]; [done|]. by intros [= _ <-].
    + destruct (lua_run t script s) as [[]|]; [done|]. by intros [= _ <-].
Defined.

#[global] Instance client_up : bruteforce.RedisUp view.
Proof.
  split; [done..|]. intros t k secs v (n & exp & Hc).
  change (rc_view v) with v in Hc. simpl.
  destruct Hc as [(Hv & _)|Hv]; rewrite Hv, ?to_int_fmt; simpl.
  - by rewrite value_at_insert.
  - destruct (n + 1 =? 1); [|done]. simpl. by repeat case_match; simplify_eq.
Qed.

End RedisMem.
