(* ===== verification/Postgres.v ===== *)
(** * The PostgreSQL adapters ([internal/adapters/storage/postgres])

    The methods of [UserRepository], [SessionRepository] and [AuditRepository]
    as programs of calls to the pgx pool and transactions.  PostgreSQL and pgx
    are not part of the repository: [stmt] has the SQL statements of the code,
    [meaning] what SQL and the schema of [migrations/] say about them on the
    tables, and [pg_spec] how the client library answers.  Any statement may
    fail, and one that fails may have been carried out; a transaction changes
    the tables when it commits.  The parameters of type [uuid] that carry a
    user are taken to be in the spelling the database generated. *)

From Stdlib Require Import Ascii String Sorted.
From S2P Require Import Prelude GoStd Ports Crypto Spec.
Open Scope Z_scope.

(** ** Statements *)

Inductive stmt : Type → Type :=
(* INSERT INTO users (email, password_hash) VALUES ($1, $2)
   RETURNING id, email, password_hash, created_at, updated_at *)
| InsertUser (email passwordHash : string) : stmt User
(* SELECT id, email, password_hash, created_at, updated_at FROM users WHERE email = $1 *)
| SelectUserByEmail (email : string) : stmt User
(* SELECT id, email, password_hash, created_at, updated_at FROM users WHERE id = $1 *)
| SelectUserByID (id : string) : stmt User
(* UPDATE users SET password_hash = $2, updated_at = now() WHERE id = $1 *)
| UpdatePassword (userID passwordHash : string) : stmt unit
(* INSERT INTO sessions (user_id, token_hash, device_id, user_agent, ip_address, expires_at)
   VALUES ($1, $2, $3, $4, $5, $6) RETURNING id, created_at, last_used_at *)
| InsertSession (userID tokenHash deviceID userAgent ipAddress : string) (expiresAt : time)
    : stmt (string * time * time)
(* SELECT s.id, s.user_id, u.email, s.token_hash, s.device_id, s.user_agent, s.ip_address,
   s.expires_at, s.last_used_at, s.created_at
   FROM sessions s JOIN users u ON u.id = s.user_id WHERE s.token_hash = $1 *)
| SelectSession (tokenHash : string) : stmt Session
(* DELETE FROM sessions WHERE id = $1 AND user_id = $2 RETURNING token_hash *)
| DeleteSessionByID (sessionID userID : string) : stmt string
(* DELETE FROM sessions WHERE token_hash = $1 *)
| DeleteSessionByHash (tokenHash : string) : stmt string
(* DELETE FROM sessions WHERE user_id = $1 RETURNING token_hash *)
| DeleteSessionsOf (userID : string) : stmt string
(* DELETE FROM sessions WHERE user_id = $1 AND token_hash != $2 RETURNING token_hash *)
| DeleteSessionsExcept (userID keep : string) : stmt string
(* SELECT id, user_id, token_hash, device_id, user_agent, ip_address, expires_at, last_used_at,
   created_at FROM sessions WHERE user_id = $1 ORDER BY last_used_at DESC *)
| SelectSessionsOf (userID : string) : stmt Session
(* INSERT INTO audit_events (user_id, event_type, ip_address, user_agent, metadata)
   VALUES ($1, $2, $3, $4, $5) *)
| InsertAudit (userID : option string) (eventType ip ua : string) (meta : option string)
    : stmt unit.

(** The calls of the client: on the pool, or on the open transaction.  The rows
    of a [Query] are what [Scan] answers for each, and what [rows.Err()]
    answers after the last. *)
Inductive pgE : Type → Type :=
| QueryRow {A} (tx : bool) (q : stmt A) : pgE (result A)
| Exec {A} (tx : bool) (q : stmt A) : pgE (result Z)
| Query {A} (q : stmt A) : pgE (result (list (result A) * option error))
| Begin : pgE (option error)
| Commit : pgE (option error)
| Rollback : pgE (option error).

(** ** UserRepository ([user.go]) *)

Module UserRepository.

Definition Create (email passwordHash : string) : prog pgE (result User) :=
  call u <- QueryRow false (InsertUser email passwordHash);;
  match u with
  | Err err =>
      if bool_decide (errors_As_PgError err = Some "23505") then Ret (Err ErrUserAlreadyExists)
      else Ret (Err (ErrorfW "create user" err))
  | Ok u => Ret (Ok u)
  end.

Definition GetByEmail (email : string) : prog pgE (result User) :=
  call u <- QueryRow false (SelectUserByEmail email);;
  match u with
  | Err err =>
      if errors_Is err PgxErrNoRows then Ret (Err ErrUserNotFound)
      else Ret (Err (ErrorfW "get user by email" err))
  | Ok u => Ret (Ok u)
  end.

Definition GetByID (id : string) : prog pgE (result User) :=
  call u <- QueryRow false (SelectUserByID id);;
  match u with
  | Err err =>
      if errors_Is err PgxErrNoRows then Ret (Err ErrUserNotFound)
      else Ret (Err (ErrorfW "get user by id" err))
  | Ok u => Ret (Ok u)
  end.

Definition UpdatePasswordHash (userID passwordHash : string) : prog pgE (option error) :=
  call tag <- Exec false (UpdatePassword userID passwordHash);;
  match tag with
  | Err err => Ret (Some (ErrorfW "update password hash" err))
  | Ok n => if n =? 0 then Ret (Some ErrUserNotFound) else Ret None
  end.

End UserRepository.

(** ** SessionRepository ([session.go]) *)

Module SessionRepository.

(** [Scan(&s.ID, &s.CreatedAt, &s.LastUsedAt)]. *)
Definition scanned (s : Session) (r : string * time * time) : Session :=
  {| sess_ID := r.1.1; sess_UserID := sess_UserID s; sess_UserEmail := sess_UserEmail s;
     sess_TokenHash := sess_TokenHash s; sess_DeviceID := sess_DeviceID s;
     sess_UserAgent := sess_UserAgent s; sess_IPAddress := sess_IPAddress s;
     sess_ExpiresAt := sess_ExpiresAt s; sess_LastUsedAt := r.2; sess_CreatedAt := r.1.2 |}.

Definition insertQ (s : Session) : stmt (string * time * time) :=
  InsertSession (sess_UserID s) (sess_TokenHash s) (sess_DeviceID s) (sess_UserAgent s)
    (sess_IPAddress s) (sess_ExpiresAt s).

Definition Create (s : Session) : prog pgE (result Session) :=
  call r <- QueryRow false (insertQ s);;
  match r with
  | Err err => Ret (Err err)
  | Ok row => Ret (Ok (scanned s row))
  end.

Definition GetByTokenHash (tokenHash : string) : prog pgE (result Session) :=
  call s <- QueryRow false (SelectSession tokenHash);;
  match s with
  | Err err =>
      if errors_Is err PgxErrNoRows then Ret (Err ErrSessionNotFound)
      else Ret (Err (ErrorfW "get session by token hash" err))
  | Ok s => Ret (Ok s)
  end.

Definition DeleteByID (sessionID userID : string) : prog pgE (result string) :=
  call h <- QueryRow false (DeleteSessionByID sessionID userID);;
  match h with
  | Err err =>
      if errors_Is err PgxErrNoRows then Ret (Err ErrSessionNotFound)
      else Ret (Err (ErrorfW "delete session" err))
  | Ok tokenHash => Ret (Ok tokenHash)
  end.

Definition DeleteByTokenHash (tokenHash : string) : prog pgE (option error) :=
  call r <- Exec false (DeleteSessionByHash tokenHash);;
  match r with
  | Err err => Ret (Some (ErrorfW "delete session by token hash" err))
  | Ok _ => Ret None
  end.

(** Every return after [Begin] runs the deferred [tx.Rollback]. *)
Definition RotateToken (oldHash : string) (newSession : Session) : prog pgE (result Session) :=
  call err <- Begin;;
  match err with
  | Some err => Ret (Err (ErrorfW "begin tx" err))
  | None =>
  call tag <- Exec true (DeleteSessionByHash oldHash);;
  match tag with
  | Err err => do Rollback;; Ret (Err (ErrorfW "delete old session" err))
  | Ok n =>
  if n =? 0 then do Rollback;; Ret (Err ErrSessionNotFound)
  else
  call r <- QueryRow true (insertQ newSession);;
  match r with
  | Err err => do Rollback;; Ret (Err (ErrorfW "create new session" err))
  | Ok row =>
      call err <- Commit;;
      do Rollback;;
      match err with
      | Some err => Ret (Err err)
      | None => Ret (Ok (scanned newSession row))
      end
  end
  end
  end.

(** The loop [for rows.Next()]: the scanned rows, or the error of a [Scan]. *)
Fixpoint scan_loop {A} (msg : string) (rows : list (result A)) (acc : list A) : result (list A) :=
  match rows with
  | [] => Ok acc
  | Err err :: _ => Err (ErrorfW msg err)
  | Ok a :: rows' => scan_loop msg rows' (acc ++ [a])
  end.

Definition collect_hashes (msg : string) (rows : result (list (result string) * option error))
    : list string * option error :=
  match rows with
  | Err err => ([], Some (ErrorfW msg err))
  | Ok (rows, rows_Err) =>
      match scan_loop "scan token hash" rows [] with
      | Err err => ([], Some err)
      | Ok hashes => (hashes, rows_Err)
      end
  end.

Definition DeleteAllByUserID (userID : string) : prog pgE (list string * option error) :=
  call rows <- Query (DeleteSessionsOf userID);;
  Ret (collect_hashes "delete all sessions" rows).

Definition DeleteAllByUserIDExcept (userID keepTokenHash : string)
    : prog pgE (list string * option error) :=
  call rows <- Query (if bool_decide (keepTokenHash = "") then DeleteSessionsOf userID
                      else DeleteSessionsExcept userID keepTokenHash);;
  Ret (collect_hashes "delete sessions except one" rows).

Definition ListByUserID (userID : string) : prog pgE (result (list Session)) :=
  call rows <- Query (SelectSessionsOf userID);;
  match rows with
  | Err err => Ret (Err (ErrorfW "list sessions" err))
  | Ok (rows, rows_Err) =>
      match scan_loop "scan session" rows [] with
      | Err err => Ret (Err err)
      | Ok sessions =>
          match rows_Err with
          | Some err => Ret (Err err)
          | None => Ret (Ok sessions)
          end
      end
  end.

End SessionRepository.

(** ** What the statements do *)

(** PostgreSQL's reading of a [uuid], in the spelling it prints. *)
Class PgUuid := { uuid_input : string → option string }.

(** The tables.  [t_ever] is a ghost: the row first stored under every token
    hash; the model has the runs in which no new token repeats an old one. *)
Record tables := Tables {
  t_users : gmap string User;
  t_sess : gmap string Session;
  t_ever : gmap string srow;
  t_audit : list (option string * string * string * string * option string)
}.

Definition set_t_users (m : gmap string User) (d : tables) : tables :=
  Tables m (t_sess d) (t_ever d) (t_audit d).
Definition set_t_sess (m : gmap string Session) (d : tables) : tables :=
  Tables (t_users d) m (t_ever d) (t_audit d).
Definition add_session (x : Session) (d : tables) : tables :=
  Tables (t_users d) (<[sess_TokenHash x := x]> (t_sess d))
    (<[sess_TokenHash x := row_of x]> (t_ever d)) (t_audit d).

(** [timestamptz] has microseconds; pgx rounds down. *)
Definition trunc_us (t : time) : time := t / microsecond * microsecond.

Definition with_email (email : string) (x : Session) : Session :=
  {| sess_ID := sess_ID x; sess_UserID := sess_UserID x; sess_UserEmail := email;
     sess_TokenHash := sess_TokenHash x; sess_DeviceID := sess_DeviceID x;
     sess_UserAgent := sess_UserAgent x; sess_IPAddress := sess_IPAddress x;
     sess_ExpiresAt := sess_ExpiresAt x; sess_LastUsedAt := sess_LastUsedAt x;
     sess_CreatedAt := sess_CreatedAt x |}.

(** [DELETE ... WHERE P RETURNING token_hash]. *)
Definition deletes (P : Session → Prop) `{∀ x, Decision (P x)} (d d' : tables)
    (hashes : list string) : Prop :=
  hashes ≡ₚ (map_to_list (filter (λ kv, P kv.2) (t_sess d))).*1 ∧
  d' = set_t_sess (filter (λ kv, ¬ P kv.2) (t_sess d)) d.

Section meaning.
Context `{PgUuid}.

(** The tables after a statement and the rows it returns (or counts). *)
Definition meaning {A} (q : stmt A) : tables → tables → list A → Prop :=
  match q in stmt A return tables → tables → list A → Prop with
  | InsertUser email ph => λ d d' rows,
      ∃ u, rows = [u] ∧ user_Email u = email ∧ user_PasswordHash u = ph ∧
        t_users d !! user_ID u = None ∧ email_free (t_users d) email ∧
        d' = set_t_users (<[user_ID u := u]> (t_users d)) d
  | SelectUserByEmail email => λ d d' rows, d' = d ∧
      rows ≡ₚ (map_to_list (filter (λ kv, user_Email kv.2 = email) (t_users d))).*2
  | SelectUserByID id => λ d d' rows, d' = d ∧ rows = option_list (t_users d !! id)
  | UpdatePassword uid ph => λ d d' rows,
      match t_users d !! uid with
      | Some u => rows = [tt] ∧
          ∃ t, d' = set_t_users (<[uid := with_password ph t u]> (t_users d)) d
      | None => rows = [] ∧ d' = d
      end
  | InsertSession uid th dev ua ip exp => λ d d' rows,
      ∃ id t, let x := {| sess_ID := id; sess_UserID := uid; sess_UserEmail := "";
                          sess_TokenHash := th; sess_DeviceID := dev; sess_UserAgent := ua;
                          sess_IPAddress := ip; sess_ExpiresAt := trunc_us exp;
                          sess_LastUsedAt := t; sess_CreatedAt := t |} in
        rows = [(id, t, t)] ∧ uuid_input id = Some id ∧ is_Some (t_users d !! uid) ∧ t_ever d !! th = None ∧
        (∀ h y, t_sess d !! h = Some y → sess_ID y ≠ id) ∧ d' = add_session x d
  | SelectSession h => λ d d' rows, d' = d ∧
      rows = option_list (x ← t_sess d !! h; u ← t_users d !! sess_UserID x;
                          Some (with_email (user_Email u) x))
  | DeleteSessionByID sid uid =>
      deletes (λ x, uuid_input sid = Some (sess_ID x) ∧ sess_UserID x = uid)
  | DeleteSessionByHash h => deletes (λ x, sess_TokenHash x = h)
  | DeleteSessionsOf uid => deletes (λ x, sess_UserID x = uid)
  | DeleteSessionsExcept uid keep =>
      deletes (λ x, sess_UserID x = uid ∧ sess_TokenHash x ≠ keep)
  | SelectSessionsOf uid => λ d d' rows, d' = d ∧
      rows ≡ₚ (map_to_list (filter (λ kv, sess_UserID kv.2 = uid) (t_sess d))).*2 ∧
      StronglySorted (λ x y, sess_LastUsedAt y ≤ sess_LastUsedAt x) rows
  | InsertAudit uid ty ip ua meta => λ d d' rows, rows = [tt] ∧
      d' = Tables (t_users d) (t_sess d) (t_ever d) (t_audit d ++ [(uid, ty, ip, ua, meta)])
  end.

(** A unique constraint the statement would break. *)
Definition unique_violation {A} (q : stmt A) (d : tables) : Prop :=
  match q with
  | InsertUser email _ => ∃ id u, t_users d !! id = Some u ∧ user_Email u = email
  | InsertSession _ th _ _ _ _ => is_Some (t_sess d !! th)
  | _ => False
  end.

(** An error of the library or the server, not one of the service's own. *)
Definition foreign (err : error) : Prop :=
  errors_Is err ErrUserNotFound = false ∧ errors_Is err ErrUserAlreadyExists = false ∧
  errors_Is err ErrSessionNotFound = false.

(** A failed statement did nothing, or was carried out. *)
Definition failed {A} (q : stmt A) (d d' : tables) : Prop :=
  d' = d ∨ ∃ rows, meaning q d d' rows.

(** [QueryRow(...).Scan(...)]. *)
Definition row_answer {A} (q : stmt A) (r : result A) (d d' : tables) : Prop :=
  match r with
  | Ok a => ∃ rest, meaning q d d' (a :: rest)
  | Err err => foreign err ∧
      if errors_Is err PgxErrNoRows then meaning q d d' []
      else if bool_decide (errors_As_PgError err = Some "23505")
      then d' = d ∧ unique_violation q d
      else failed q d d'
  end.

Definition exec_answer {A} (q : stmt A) (r : result Z) (d d' : tables) : Prop :=
  match r with
  | Ok n => ∃ rows, meaning q d d' rows ∧ n = Z.of_nat (length rows)
  | Err err => foreign err ∧ failed q d d'
  end.

(** Without an error of [rows.Err()], every row was delivered to a [Scan]. *)
Definition rows_answer {A} (q : stmt A) (r : result (list (result A) * option error))
    (d d' : tables) : Prop :=
  match r with
  | Err err => failed q d d'
  | Ok (_, Some err) => failed q d d'
  | Ok (rs, None) => ∃ rows, meaning q d d' rows ∧
      Forall2 (λ a r, match r with Ok a' => a' = a | Err _ => True end) rows rs
  end.

(** The committed tables, and those the open transaction sees. *)
Record pgst := PgSt { committed : tables; working : option tables }.

Definition pg_spec : spec pgE pgst := λ X e,
  match e in pgE X return X → pgst → pgst → Prop with
  | QueryRow false q => λ r s s',
      row_answer q r (committed s) (committed s') ∧ working s' = working s
  | Exec false q => λ r s s',
      exec_answer q r (committed s) (committed s') ∧ working s' = working s
  | Query q => λ r s s',
      rows_answer q r (committed s) (committed s') ∧ working s' = working s
  | QueryRow true q => λ r s s', committed s' = committed s ∧
      ∃ d d', working s = Some d ∧ row_answer q r d d' ∧ working s' = Some d'
  | Exec true q => λ r s s', committed s' = committed s ∧
      ∃ d d', working s = Some d ∧ exec_answer q r d d' ∧ working s' = Some d'
  | Begin => λ r s s', committed s' = committed s ∧
      match r with
      | None => working s' = Some (committed s)
      | Some err => foreign err ∧ working s' = None
      end
  | Commit => λ r s s', working s' = None ∧
      match r with
      | None => working s = Some (committed s')
      | Some err => foreign err ∧
          (committed s' = committed s ∨ working s = Some (committed s'))
      end
  | Rollback => λ _ s s', committed s' = committed s ∧ working s' = None
  end.

End meaning.
