(* ===== verification/PostgresProofs.v ===== *)
(** * The PostgreSQL adapters implement their ports

    With any faults [pg_spec] allows, every method of the repositories is a call
    the specification [safe] of the ports allows, on the tables as an abstract
    state; the store keeps expiry times to the microsecond. *)

From Stdlib Require Import Ascii String Sorted.
From S2P Require Import Prelude GoStd Ports Crypto Spec Postgres.
Open Scope Z_scope.

Section proofs.
Context `{PgUuid}.

(** The constraints of the schema: primary keys, the foreign key of sessions;
    and no session has an empty token hash. *)
Record pwf (d : tables) : Prop := {
  pwf_user id u : t_users d !! id = Some u → user_ID u = id;
  pwf_hash h x : t_sess d !! h = Some x → sess_TokenHash x = h ∧ h ≠ "";
  pwf_owner h x : t_sess d !! h = Some x → is_Some (t_users d !! sess_UserID x);
  pwf_uuid h x : t_sess d !! h = Some x → uuid_input (sess_ID x) = Some (sess_ID x);
  pwf_id h1 h2 x1 x2 : t_sess d !! h1 = Some x1 → t_sess d !! h2 = Some x2 →
    sess_ID x1 = sess_ID x2 → h1 = h2
}.

(** The tables in an abstract state. *)
Definition pabs (now : time) (d : tables) (a : astate) : astate :=
  AState now (t_users d) (row_of <$> t_sess d) (a_cache a) (a_otps a) (a_toks a)
    (t_ever d) (a_jobs a) (a_log a).

Lemma pabs_upto now now' d a : now ≤ now' → upto (pabs now' d a) (pabs now d a).
Proof. by exists now'. Qed.

(** ** Statements that delete *)

Lemma deletes_abs (P : Session → Prop) `{∀ x, Decision (P x)} (Q : string * srow → Prop)
    `{∀ kv, Decision (Q kv)} d d' hs :
  deletes P d d' hs → (∀ h x, t_sess d !! h = Some x → P x ↔ Q (h, row_of x)) →
  hs ≡ₚ (map_to_list (filter Q (row_of <$> t_sess d))).*1 ∧
  row_of <$> t_sess d' = filter (λ kv, ¬ Q kv) (row_of <$> t_sess d).
Proof.
  intros [Hhs ->] HPQ. rewrite !map_filter_fmap. split.
  - rewrite map_to_list_fmap, <-list_fmap_compose, Hhs.
    assert (filter (λ kv : string * Session, P kv.2) (t_sess d) =
            filter (λ '(i, x), Q (i, row_of x)) (t_sess d)) as ->
      by (apply map_filter_ext; intros h x Hl; simpl; by apply HPQ).
    done.
  - simpl. f_equal. apply map_filter_ext. intros h x Hl. simpl. by rewrite (HPQ _ _ Hl).
Qed.

Lemma deletes_pwf (P : Session → Prop) `{∀ x, Decision (P x)} d d' hs :
  deletes P d d' hs → pwf d → pwf d'.
Proof.
  intros [_ ->] [H1 H2 H3 H4 H5]. split; simpl; [done|..];
    intros *; rewrite !map_lookup_filter_Some; naive_solver.
Qed.

Lemma deletes_frame (P : Session → Prop) `{∀ x, Decision (P x)} d d' hs :
  deletes P d d' hs → t_users d' = t_users d ∧ t_ever d' = t_ever d.
Proof. by intros [_ ->]. Qed.

(** The effect of a deletion on the abstract state. *)
Lemma deletes_upto (P : Session → Prop) `{∀ x, Decision (P x)} (Q : string * srow → Prop)
    `{∀ kv, Decision (Q kv)} d d' hs a now now' :
  deletes P d d' hs → (∀ h x, t_sess d !! h = Some x → P x ↔ Q (h, row_of x)) → now ≤ now' →
  hs ≡ₚ (map_to_list (filter Q (row_of <$> t_sess d))).*1 ∧
  upto (pabs now' d' a) (set_sess (filter (λ kv, ¬ Q kv) (row_of <$> t_sess d)) (pabs now d a)).
Proof.
  intros Hd HPQ Hnow. destruct (deletes_abs P Q d d' hs Hd HPQ) as [Hhs Hrows].
  destruct (deletes_frame P d d' hs Hd) as [Hu He]. split; [done|].
  exists now'. split; [done|]. unfold pabs, set_sess, set_now. simpl. by rewrite Hu, He, Hrows.
Qed.

(** ** Every statement keeps the constraints *)

Definition ok_stmt {A} (q : stmt A) : Prop :=
  match q with InsertSession _ th _ _ _ _ => th ≠ "" | _ => True end.

Lemma add_session_pwf x d :
  sess_TokenHash x ≠ "" → is_Some (t_users d !! sess_UserID x) →
  uuid_input (sess_ID x) = Some (sess_ID x) →
  (∀ h y, t_sess d !! h = Some y → sess_ID y ≠ sess_ID x) → pwf d → pwf (add_session x d).
Proof.
  intros Hne Ho Hid Hfree [H1 H2 H3 H4 H5]. split; simpl; [done|..].
  1-3: intros h y [[<- <-]|[_ Hl]]%lookup_insert_Some; eauto.
  intros h1 h2 x1 x2 Hl1 Hl2 Heq.
  apply lookup_insert_Some in Hl1 as [[<- <-]|[_ Hl1]], Hl2 as [[<- <-]|[_ Hl2]];
    [done| | |by eauto]; exfalso; [eapply Hfree, eq_sym; eauto|eapply Hfree; eauto].
Qed.

Lemma users_pwf id u d :
  user_ID u = id → pwf d → pwf (set_t_users (<[id := u]> (t_users d)) d).
Proof.
  intros Hid [H1 H2 H3 H4 H5]. split; simpl; [|done| |done..].
  - intros id' u' [[<- <-]|[_ Hl]]%lookup_insert_Some; eauto.
  - intros h x Hl. destruct (H3 _ _ Hl) as [v Hv].
    destruct (decide (id = sess_UserID x)) as [->|]; [rewrite lookup_insert_eq; eauto|].
    rewrite lookup_insert_ne by done. eauto.
Qed.

Lemma meaning_pwf {A} (q : stmt A) d d' rows :
  meaning q d d' rows → ok_stmt q → pwf d → pwf d'.
Proof.
  intros Hm Hok Hwf. destruct q; simpl in Hm;
    try (by destruct Hm as [-> _]); try (by eapply deletes_pwf).
  - destruct Hm as (u & _ & _ & _ & _ & _ & ->). by apply users_pwf.
  - destruct (t_users d !! userID) as [u|] eqn:Hu; destruct Hm as [_ Hm]; [|by subst].
    destruct Hm as [t ->]. apply users_pwf; [|done]. exact (pwf_user d Hwf _ _ Hu).
  - destruct Hm as (id & t & _ & Hid & Ho & _ & Hfree & ->). by apply add_session_pwf.
  - destruct Hm as [_ ->]. by destruct Hwf.
Qed.

Lemma failed_pwf {A} (q : stmt A) d d' : failed q d d' → ok_stmt q → pwf d → pwf d'.
Proof. intros [->|[rows Hm]] Hok Hwf; [done|by eapply meaning_pwf]. Qed.

Lemma row_pwf {A} (q : stmt A) r d d' : row_answer q r d d' → ok_stmt q → pwf d → pwf d'.
Proof.
  intros Hr Hok Hwf. destruct r as [a|err]; simpl in Hr.
  - destruct Hr as [rest Hm]. by eapply meaning_pwf.
  - destruct Hr as [_ Hr]. repeat case_match; [by eapply meaning_pwf|by destruct Hr as [-> _]|].
    by eapply failed_pwf.
Qed.

Lemma exec_pwf {A} (q : stmt A) r d d' : exec_answer q r d d' → ok_stmt q → pwf d → pwf d'.
Proof.
  intros Hr Hok Hwf. destruct r as [n|err]; simpl in Hr.
  - destruct Hr as (rows & Hm & _). by eapply meaning_pwf.
  - destruct Hr as [_ Hr]. by eapply failed_pwf.
Qed.

Lemma rows_pwf {A} (q : stmt A) r d d' : rows_answer q r d d' → ok_stmt q → pwf d → pwf d'.
Proof.
  intros Hr Hok Hwf. destruct r as [[rs [err|]]|err]; simpl in Hr; try by eapply failed_pwf.
  destruct Hr as (rows & Hm & _). by eapply meaning_pwf.
Qed.

(** ** The methods *)

(** A method that implements a port operation, for calls that satisfy [pre]. *)
Definition implements {X} (pre : Prop) (p : prog pgE X) (e : portE X) : Prop :=
  ∀ st st' r a now', pre → rexec pg_spec p st st' r → pwf (committed st) → working st = None →
    a_now a ≤ now' →
    pwf (committed st') ∧ working st' = None ∧
    safe microsecond X e r (pabs (a_now a) (committed st) a) (pabs now' (committed st') a).

(** Errors of the library, wrapped or not, are not the sentinels of the ports. *)
Lemma wrap_foreign msg err target :
  match target with ErrorfW _ _ => False | _ => True end →
  errors_Is (ErrorfW msg err) target = errors_Is err target.
Proof. intros Ht. simpl. rewrite bool_decide_eq_false_2; [done|]. by destruct target. Qed.

(** Open a method of one statement: the statement's answer, the constraints
    after it, and what the method makes of the answer. *)
Ltac one_stmt Hex Hwf :=
  let ans := fresh "ans" in let st1 := fresh "st1" in
  let Hans := fresh "Hans" in let Hw1 := fresh "Hw1" in
  destruct Hex as (ans & st1 & [Hans Hw1] & Hex);
  pose proof Hans as Hwf';
  first [apply row_pwf in Hwf'; [|done|exact Hwf] | apply exec_pwf in Hwf'; [|done|exact Hwf]
        | apply rows_pwf in Hwf'; [|done|exact Hwf]];
  unfold row_answer, exec_answer, rows_answer in Hans; repeat case_match; simplify_eq;
  try (destruct Hex as [-> ->]); (split; [exact Hwf'|]); (split; [congruence|]).

(** The new tables are the old ones with the effect. *)
Ltac pg_upto := eexists; split; [eassumption|reflexivity].

Lemma Create_implements email ph :
  implements True (UserRepository.Create email ph) (UserCreate email ph).
Proof.
  intros st st' r a now' _ Hex Hwf Hw Hnow. one_stmt Hex Hwf.
  { destruct Hans as (rest & u & [= <- ->] & ? & ? & ? & ? & ->). left. split_and!; [done..|pg_upto]. }
  all: destruct Hans as [(_ & Hfor & _) Hf]; try (by destruct Hf as (u & ? & _)).
  - destruct Hf as [-> Hv]. left. split; [pg_upto|]. by intros _.
  - destruct Hf as [->|(rows & u & _ & ? & ? & ? & ? & ->)].
    + left. split; [pg_upto|]. rewrite wrap_foreign by done. congruence.
    + right. eexists _, u. split; [done|]. rewrite wrap_foreign by done. split_and!; [done..|pg_upto].
Qed.

Lemma GetByEmail_implements email :
  implements True (UserRepository.GetByEmail email) (UserGetByEmail email).
Proof.
  intros st st' r a now' _ Hex Hwf Hw Hnow. one_stmt Hex Hwf.
  - destruct Hans as (rest & -> & Hp). left. split; [pg_upto|].
    assert (a0 ∈ (map_to_list (filter (λ kv, user_Email kv.2 = email) (t_users (committed st)))).*2)
      as Hin by (rewrite <-Hp; left).
    apply list_elem_of_fmap in Hin as ([id u] & -> & Hin%elem_of_map_to_list).
    apply map_lookup_filter_Some in Hin as [Hl Hem]. simpl in *.
    split; [|done]. by rewrite (pwf_user _ Hwf _ _ Hl).
  - destruct Hans as (_ & -> & Hp). left. split; [pg_upto|]. intros _ id u Hl Hem.
    assert (u ∈ (map_to_list (filter (λ kv, user_Email kv.2 = email) (t_users (committed st)))).*2)
      as Hin; [|by rewrite <-Hp in Hin; apply elem_of_nil in Hin].
    apply list_elem_of_fmap. exists (id, u). split; [done|].
    by apply elem_of_map_to_list, map_lookup_filter_Some.
  - destruct Hans as ((Hfor & _) & -> & _). left. split; [pg_upto|].
    rewrite wrap_foreign by done. congruence.
  - destruct Hans as ((Hfor & _) & Hf). left. assert (committed st1 = committed st) as ->
      by (destruct Hf as [?|(? & ? & ?)]; done).
    split; [pg_upto|]. rewrite wrap_foreign by done. congruence.
Qed.

Lemma GetByID_implements id :
  implements True (UserRepository.GetByID id) (UserGetByID id).
Proof.
  intros st st' r a now' _ Hex Hwf Hw Hnow. one_stmt Hex Hwf.
  - destruct Hans as (rest & -> & Hp). left. split; [pg_upto|]. simpl.
    by destruct (t_users (committed st) !! id); simplify_eq/=.
  - destruct Hans as (_ & -> & Hp). left. split; [pg_upto|]. intros _. simpl.
    by destruct (t_users (committed st) !! id); simplify_eq/=.
  - destruct Hans as ((Hfor & _) & -> & _). left. split; [pg_upto|].
    rewrite wrap_foreign by done. congruence.
  - destruct Hans as ((Hfor & _) & Hf). left. assert (committed st1 = committed st) as ->
      by (destruct Hf as [?|(? & ? & ?)]; done).
    split; [pg_upto|]. rewrite wrap_foreign by done. congruence.
Qed.

Lemma UpdatePasswordHash_implements uid ph :
  implements True (UserRepository.UpdatePasswordHash uid ph) (UserUpdatePasswordHash uid ph).
Proof.
  intros st st' r a now' _ Hex Hwf Hw Hnow. one_stmt Hex Hwf.
  - destruct Hans as (rows & Hm & Hn). left. simpl in Hm.
    destruct (t_users (committed st) !! uid) as [u|] eqn:Hu; destruct Hm as [-> Hm]; [by simpl in *; lia|].
    rewrite Hm. split; [pg_upto|done].
  - destruct Hans as (rows & Hm & Hn). left. simpl in Hm.
    destruct (t_users (committed st) !! uid) as [u|] eqn:Hu; destruct Hm as [-> Hm]; [|by simpl in *; lia].
    destruct Hm as [t ->]. exists u, t. split; [done|pg_upto].
  - destruct Hans as ((Hfor & _) & [->|(rows & Hm)]).
    + left. split; [pg_upto|]. rewrite wrap_foreign by done. congruence.
    + simpl in Hm. destruct (t_users (committed st) !! uid) as [u|] eqn:Hu; destruct Hm as [_ Hm].
      * destruct Hm as [t ->]. right. eexists _, u, t. split; [done|].
        rewrite wrap_foreign by done. split_and!; [done..|pg_upto].
      * rewrite Hm. left. split; [pg_upto|done].
Qed.

(** *** Sessions *)

Lemma trunc_us_bounds t : trunc_us t ≤ t < trunc_us t + microsecond.
Proof. unfold trunc_us, microsecond. pose proof (Z.div_mod t 1000). pose proof (Z.mod_pos_bound t 1000). lia. Qed.

(** What an insertion adds to the abstract state. *)
Lemma insert_abs s d d' rows a now now' :
  meaning (SessionRepository.insertQ s) d d' rows → now ≤ now' →
  ∃ r row, rows = [r] ∧ let x := SessionRepository.scanned s r in
    t_ever d !! sess_TokenHash s = None ∧ id_free (row_of <$> t_sess d) (sess_ID x) ∧
    sess_TokenHash x = sess_TokenHash s ∧ row_of x = with_ID (sess_ID x) (row_of s) ∧
    stored microsecond x row ∧
    upto (pabs now' d' a)
      (add_sess (sess_TokenHash s) row (row_of <$> t_sess d) (pabs now d a)).
Proof.
  intros (id & t & -> & _ & _ & Hev & Hfree & ->) Hnow.
  exists (id, t, t), (with_expiry (trunc_us (sess_ExpiresAt s)) (with_ID id (row_of s))).
  split; [done|]. split_and!; [done| |done..| |].
  - intros h row. rewrite lookup_fmap, fmap_Some. intros (y & Hl & ->). simpl. by eapply Hfree.
  - exists (trunc_us (sess_ExpiresAt s)). split; [apply trunc_us_bounds|done].
  - exists now'. split; [done|]. unfold pabs, add_sess, set_now. simpl. by rewrite fmap_insert.
Qed.

(** Deleting by token hash deletes the key. *)
Lemma delete_hash_abs h d d' hs :
  meaning (DeleteSessionByHash h) d d' hs → pwf d →
  row_of <$> t_sess d' = delete h (row_of <$> t_sess d) ∧
  t_users d' = t_users d ∧ t_ever d' = t_ever d ∧
  (hs = [] ↔ (row_of <$> t_sess d) !! h = None).
Proof.
  intros Hm Hwf.
  destruct (deletes_abs _ (λ kv : string * srow, kv.1 = h) _ _ _ Hm) as [Hhs Hrows].
  { intros k x Hl. simpl. by destruct (pwf_hash _ Hwf _ _ Hl) as [-> _]. }
  destruct (deletes_frame _ _ _ _ Hm) as [Hu He].
  assert (∀ m : gmap string srow, filter (λ kv, kv.1 ≠ h) m = delete h m) as Hdel.
  { intros m. apply map_eq. intros k. apply option_eq. intros y.
    rewrite map_lookup_filter_Some, lookup_delete_Some. simpl. naive_solver. }
  split_and!; [by rewrite Hrows, Hdel|done..|].
  split.
  - intros ->. destruct ((row_of <$> t_sess d) !! h) as [y|] eqn:Hy; [|done].
    assert (h ∈ ([] : list string)) as Hin; [|by apply elem_of_nil in Hin].
    apply (elem_of_keys _ _ _ Hhs). exists y. by apply map_lookup_filter_Some.
  - intros Hno. destruct hs as [|k hs]; [done|]. exfalso.
    assert (k ∈ k :: hs) as Hin by left. apply (elem_of_keys _ _ _ Hhs) in Hin.
    destruct Hin as [y [Hy Hk]%map_lookup_filter_Some]. simpl in Hk. congruence.
Qed.

(** A failed insertion, and one that was carried out although it failed. *)
Lemma Create_session_implements s :
  implements (sess_TokenHash s ≠ "") (SessionRepository.Create s) (SessCreate s).
Proof.
  intros st st' r a now' Hok Hex Hwf Hw Hnow. one_stmt Hex Hwf.
  1: destruct Hans as [rest Hm].
  2,3,4: destruct Hans as [_ Hf].
  - destruct (insert_abs _ _ _ _ a _ _ Hm Hnow) as (x & row & [= <- ->] & Hx). right.
    eexists _, row. split; [done|exact Hx].
  - by destruct (insert_abs _ _ _ _ a _ _ Hf Hnow) as (x & row & ? & _).
  - destruct Hf as [-> _]. left. pg_upto.
  - destruct Hf as [->|[rows Hm]]; [left; pg_upto|].
    destruct (insert_abs _ _ _ _ a _ _ Hm Hnow) as (x & row & _ & Hx). right.
    eexists _, row. split; [exact I|exact Hx].
Qed.

Lemma GetByTokenHash_implements h :
  implements True (SessionRepository.GetByTokenHash h) (SessGetByTokenHash h).
Proof.
  intros st st' r a now' _ Hex Hwf Hw Hnow. one_stmt Hex Hwf.
  - destruct Hans as (rest & -> & Hp). left. split; [pg_upto|]. simpl. rewrite lookup_fmap.
    destruct (t_sess (committed st) !! h) as [x|] eqn:Hx; simpl in Hp; [|done].
    destruct (t_users _ !! _) as [u|]; simpl in Hp; [|done]. injection Hp as -> _.
    by destruct (pwf_hash _ Hwf _ _ Hx) as [<- _].
  - destruct Hans as (_ & -> & Hp). left. split; [pg_upto|]. intros _. simpl. rewrite lookup_fmap.
    destruct (t_sess (committed st) !! h) as [x|] eqn:Hx; simpl in Hp; [|done].
    by destruct (pwf_owner _ Hwf _ _ Hx) as [u Hu]; rewrite Hu in Hp.
  - destruct Hans as ((_ & _ & Hfor) & -> & _). left. split; [pg_upto|].
    rewrite wrap_foreign by done. congruence.
  - destruct Hans as ((_ & _ & Hfor) & Hf). left. assert (committed st1 = committed st) as ->
      by (destruct Hf as [?|(? & ? & ?)]; done).
    split; [pg_upto|]. rewrite wrap_foreign by done. congruence.
Qed.

(** At most one session has the given identifier. *)
Lemma delete_id_abs sid uid d d' hs a now now' :
  meaning (DeleteSessionByID sid uid) d d' hs → pwf d → now ≤ now' →
  (hs = [] ∧ d' = d ∧
   ∀ h row, (row_of <$> t_sess d) !! h = Some row → sr_ID row = sid → sr_UserID row ≠ uid) ∨
  ∃ h row, hs = [h] ∧ (row_of <$> t_sess d) !! h = Some row ∧ sr_UserID row = uid ∧
    upto (pabs now' d' a) (set_sess (delete h (row_of <$> t_sess d)) (pabs now d a)).
Proof.
  intros Hm Hwf Hnow. simpl in Hm.
  set (P := λ x, uuid_input sid = Some (sess_ID x) ∧ sess_UserID x = uid) in Hm.
  destruct Hm as [Hhs Hd].
  assert (∀ k, k ∈ hs ↔ ∃ x, t_sess d !! k = Some x ∧ P x) as Hin.
  { intros k. rewrite (elem_of_keys _ _ _ Hhs). unfold is_Some.
    setoid_rewrite map_lookup_filter_Some. done. }
  assert (NoDup hs) as Hnd by (rewrite Hhs; apply NoDup_fst_map_to_list).
  destruct hs as [|h hs].
  - left. split; [done|]. split.
    + rewrite Hd. destruct d as [us ss ev au]. unfold set_t_sess. simpl in *. f_equal.
      apply map_filter_id. intros k x Hl HP. simpl in HP.
      assert (k ∈ ([] : list string)) as Hk by (apply Hin; eauto). by apply elem_of_nil in Hk.
    + intros k row Hl Hsid Huid. rewrite lookup_fmap, fmap_Some in Hl.
      destruct Hl as (x & Hl & ->). simpl in *.
      assert (k ∈ ([] : list string)) as Hk; [|by apply elem_of_nil in Hk].
      apply Hin. exists x. split; [done|]. split; [|done]. rewrite <-Hsid.
      by apply (pwf_uuid _ Hwf k).
  - right. destruct (proj1 (Hin h)) as (x & Hl & Hid & Huid); [left|].
    assert (∀ k y, t_sess d !! k = Some y → P y → k = h) as Hone.
    { intros k y Hk [Hid' _]. eapply (pwf_id _ Hwf); [done..|congruence]. }
    exists h, (row_of x). split_and!; [|by rewrite lookup_fmap, Hl|done|].
    + destruct hs as [|k hs]; [done|]. exfalso.
      destruct (proj1 (Hin k)) as (y & Hk & HP); [right; left|].
      pose proof (Hone _ _ Hk HP) as ->. apply NoDup_cons in Hnd as [Hnd _]. apply Hnd. left.
    + exists now'. split; [done|]. rewrite Hd. unfold pabs, set_sess, set_now, set_t_sess. simpl.
      f_equal. rewrite <-fmap_delete. f_equal. apply map_eq. intros k. apply option_eq. intros y.
      rewrite map_lookup_filter_Some, lookup_delete_Some. simpl. split.
      * intros [Hk HnP]. split; [|done]. intros <-. apply HnP. by simplify_eq.
      * intros [Hne Hk]. split; [done|]. intros HP. apply Hne, eq_sym. by eapply Hone.
Qed.

Lemma DeleteByID_implements sid uid :
  implements True (SessionRepository.DeleteByID sid uid) (SessDeleteByID sid uid).
Proof.
  intros st st' r a now' _ Hex Hwf Hw Hnow. one_stmt Hex Hwf.
  - destruct Hans as [rest Hm].
    destruct (delete_id_abs _ _ _ _ _ a _ _ Hm Hwf Hnow) as [(? & _)|(h & row & [= <- ->] & Hx)];
      [done|]. right. exists a0, row. split; [done|exact Hx].
  - destruct Hans as [_ Hm].
    destruct (delete_id_abs _ _ _ _ _ a _ _ Hm Hwf Hnow) as [(_ & -> & Hno)|(h & row & ? & _)];
      [|done]. left. split; [pg_upto|]. intros _. exact Hno.
  - by destruct Hans as (_ & _ & []).
  - destruct Hans as [(_ & _ & Hfor) [->|[rows Hm]]].
    { left. split; [pg_upto|]. rewrite wrap_foreign by done. congruence. }
    destruct (delete_id_abs _ _ _ _ _ a _ _ Hm Hwf Hnow) as [(_ & -> & Hno)|(h & row & _ & Hx)].
    + left. split; [pg_upto|done].
    + right. exists h, row. rewrite wrap_foreign by done. split; [done|exact Hx].
Qed.

Lemma DeleteByTokenHash_implements h :
  implements True (SessionRepository.DeleteByTokenHash h) (SessDeleteByTokenHash h).
Proof.
  intros st st' r a now' _ Hex Hwf Hw Hnow.
  assert (∀ d d' hs, meaning (DeleteSessionByHash h) d d' hs → pwf d →
    upto (pabs now' d' a) (set_sess (delete h (row_of <$> t_sess d)) (pabs (a_now a) d a))) as Hdel.
  { intros d d' hs Hm Hd. destruct (delete_hash_abs _ _ _ _ Hm Hd) as (Hrows & Hu & He & _).
    exists now'. split; [done|]. unfold pabs, set_sess, set_now. simpl. by rewrite Hrows, Hu, He. }
  one_stmt Hex Hwf.
  - destruct Hans as (rows & Hm & _). left. by eapply Hdel.
  - destruct Hans as [_ [->|[rows Hm]]]; [left; pg_upto|]. right. split; [done|]. by eapply Hdel.
Qed.

(** The transaction: the old session goes and the new one comes in one step, or
    nothing happens. *)
Lemma rotate_abs old s d d1 d2 hs rows a now now' :
  meaning (DeleteSessionByHash old) d d1 hs → pwf d → hs ≠ [] →
  meaning (SessionRepository.insertQ s) d1 d2 rows → now ≤ now' →
  ∃ r row, rows = [r] ∧ let x := SessionRepository.scanned s r in
    is_Some ((row_of <$> t_sess d) !! old) ∧ t_ever d !! sess_TokenHash s = None ∧
    id_free (delete old (row_of <$> t_sess d)) (sess_ID x) ∧
    sess_TokenHash x = sess_TokenHash s ∧ row_of x = with_ID (sess_ID x) (row_of s) ∧
    stored microsecond x row ∧
    upto (pabs now' d2 a)
      (add_sess (sess_TokenHash s) row (delete old (row_of <$> t_sess d)) (pabs now d a)).
Proof.
  intros Hdel Hwf Hne Hins Hnow.
  destruct (delete_hash_abs _ _ _ _ Hdel Hwf) as (Hrows & Hu & He & Hnil).
  destruct (insert_abs _ _ _ _ a now now' Hins Hnow) as (r & row & -> & Hev & Hfree & H1 & H2 & H3 & Hup).
  assert (is_Some ((row_of <$> t_sess d) !! old)) as Hs.
  { destruct ((row_of <$> t_sess d) !! old) eqn:Ho; [eauto|]. destruct Hne. by apply Hnil. }
  exists r, row. split; [done|]. rewrite <-Hrows, <-He.
  split_and!; [done..|]. destruct Hup as (t & Ht & Hup). exists t. split; [done|].
  rewrite Hup. unfold add_sess, set_now, pabs. simpl. by rewrite ?Hu, ?He.
Qed.

Lemma exec_rollback {X} (r0 : X) st st' r :
  rexec pg_spec (Vis Rollback (λ _, Ret r0)) st st' r →
  r = r0 ∧ committed st' = committed st ∧ working st' = None.
Proof. intros (x & st1 & [Hc Hw] & [-> ->]). done. Qed.

Lemma RotateToken_implements old s :
  implements (sess_TokenHash s ≠ "") (SessionRepository.RotateToken old s) (SessRotateToken old s).
Proof.
  intros st st' r a now' Hok Hex Hwf Hw Hnow.
  assert (∀ err, errors_Is err ErrSessionNotFound = false → committed st' = committed st →
    safe microsecond _ (SessRotateToken old s) (Err err)
      (pabs (a_now a) (committed st) a) (pabs now' (committed st') a)) as Hfail.
  { intros err Herr ->. left. split; [pg_upto|]. congruence. }
  destruct Hex as (err & s1 & [Hc1 Hw1] & Hex). destruct err as [err|].
  { destruct Hw1 as [(_ & _ & Hfor) Hw1]. destruct Hex as [-> ->]. rewrite Hc1 in *.
    split_and!; [done..|]. apply Hfail; [by rewrite wrap_foreign|done]. }
  destruct Hex as (tag & s2 & (Hc2 & d & d1 & Hd & Hans & Hw2) & Hex).
  rewrite Hd in Hw1. injection Hw1 as ->.
  pose proof (exec_pwf _ _ _ _ Hans I Hwf) as Hwf1. destruct tag as [n|err].
  2: { destruct Hans as [(_ & _ & Hfor) _]. apply exec_rollback in Hex as (-> & Hc & Hw').
       rewrite Hc, Hc2, Hc1 in *. split_and!; [done..|]. apply Hfail; [by rewrite wrap_foreign|done]. }
  destruct Hans as (hs & Hdel & ->). case_match eqn:Hn.
  { apply exec_rollback in Hex as (-> & Hc & Hw'). rewrite Hc, Hc2, Hc1 in *.
    split_and!; [done..|]. left. split; [pg_upto|]. intros _.
    apply (delete_hash_abs _ _ _ _ Hdel Hwf). destruct hs; [done|]. by apply Z.eqb_eq in Hn. }
  assert (hs ≠ []) as Hne by (by intros ->).
  destruct Hex as (ins & s3 & (Hc3 & d' & d2 & Hd' & Hans & Hw3) & Hex).
  rewrite Hw2 in Hd'. injection Hd' as <-.
  pose proof (row_pwf _ _ _ _ Hans Hok Hwf1) as Hwf2. destruct ins as [row|err].
  2: { destruct Hans as [(_ & _ & Hfor) _]. apply exec_rollback in Hex as (-> & Hc & Hw').
       rewrite Hc, Hc3, Hc2, Hc1 in *. split_and!; [done..|]. apply Hfail; [by rewrite wrap_foreign|done]. }
  destruct Hans as [rest Hins].
  destruct (rotate_abs _ _ _ _ _ _ _ a _ _ Hdel Hwf Hne Hins Hnow) as (x & rw & [= <- ->] & Hrot).
  destruct Hex as (err & s4 & [Hw4 Hcommit] & Hex). destruct Hex as (rb & s5 & [Hc5 Hw5] & Hex).
  destruct err as [err|]; destruct Hex as [-> ->].
  - destruct Hcommit as [(_ & _ & Hfor) [Hc4|Hc4]].
    + rewrite Hc5, Hc4, Hc3, Hc2, Hc1 in *. split_and!; [done..|]. by apply Hfail.
    + rewrite Hw3 in Hc4. injection Hc4 as ->. rewrite Hc5. split_and!; [done..|].
      right. eexists _, rw. split; [done|exact Hrot].
  - rewrite Hw3 in Hcommit. injection Hcommit as ->. rewrite Hc5. split_and!; [done..|].
    right. eexists _, rw. split; [done|exact Hrot].
Qed.

(** *** Statements that return many rows *)

Lemma scan_loop_ok {A} msg (rows : list A) rs acc l :
  Forall2 (λ a r, match r with Ok a' => a' = a | Err _ => True end) rows rs →
  SessionRepository.scan_loop msg rs acc = Ok l → l = acc ++ rows.
Proof.
  intros Hf. revert acc. induction Hf as [|a r rows rs Har Hf IH]; intros acc Hl; simpl in Hl.
  - injection Hl as <-. by rewrite app_nil_r.
  - destruct r as [a'|err]; [|done]. subst a'. rewrite (IH _ Hl), <-app_assoc. done.
Qed.

(** The hashes a deletion reports are all it deleted; when it reports an error
    the deletion may have happened. *)
Lemma collect_hashes_spec (q : stmt string) msg ans d d' :
  rows_answer q ans d d' →
  match SessionRepository.collect_hashes msg ans with
  | (hs, None) => meaning q d d' hs
  | (_, Some _) => failed q d d'
  end.
Proof.
  destruct ans as [[rs [err|]]|err]; simpl; [intros Hf..|done].
  - by destruct (SessionRepository.scan_loop _ rs []).
  - destruct Hf as (rows & Hm & Hf).
    destruct (SessionRepository.scan_loop _ rs []) as [l|err] eqn:Hl; [|right; eauto].
    by rewrite (scan_loop_ok _ _ _ _ _ Hf Hl).
Qed.

(** A method that runs one deletion and reports the hashes. *)
Lemma delete_rows_implements msg (q : stmt string) (P : Session → Prop) `{∀ x, Decision (P x)}
    (Q : string * srow → Prop) `{∀ kv, Decision (Q kv)} (e : portE (list string * option error)) :
  (∀ d d' hs, meaning q d d' hs → deletes P d d' hs) → ok_stmt q →
  (∀ d h x, pwf d → t_sess d !! h = Some x → P x ↔ Q (h, row_of x)) →
  (∀ hs a a', hs ≡ₚ (map_to_list (filter Q (a_sess a))).*1 →
     upto a' (set_sess (filter (λ kv, ¬ Q kv) (a_sess a)) a) → safe microsecond _ e (hs, None) a a') →
  (∀ hs err a a', upto a' a ∨ upto a' (set_sess (filter (λ kv, ¬ Q kv) (a_sess a)) a) →
     safe microsecond _ e (hs, Some err) a a') →
  implements True (call rows <- Query q;; Ret (SessionRepository.collect_hashes msg rows)) e.
Proof.
  intros Hdel Hok HPQ Hgood Hbad st st' r a now' _ Hex Hwf Hw Hnow.
  destruct Hex as (ans & st1 & [Hans Hw1] & Hex). destruct Hex as [-> ->].
  pose proof (rows_pwf _ _ _ _ Hans Hok Hwf) as Hwf'. split; [done|]. split; [congruence|].
  apply (collect_hashes_spec _ msg) in Hans.
  assert (∀ hs, meaning q (committed st) (committed st1) hs →
    hs ≡ₚ (map_to_list (filter Q (row_of <$> t_sess (committed st)))).*1 ∧
    upto (pabs now' (committed st1) a) (set_sess (filter (λ kv, ¬ Q kv)
      (row_of <$> t_sess (committed st))) (pabs (a_now a) (committed st) a))) as Hm.
  { intros hs Hm. eapply deletes_upto; [by apply Hdel|eauto|done]. }
  destruct (SessionRepository.collect_hashes msg ans) as [hs [err|]].
  - apply Hbad. destruct Hans as [->|[rows Hr]]; [left; pg_upto|right; by apply (Hm rows)].
  - destruct (Hm _ Hans). by apply Hgood.
Qed.

Lemma DeleteAllByUserID_implements uid :
  implements True (SessionRepository.DeleteAllByUserID uid) (SessDeleteAllByUserID uid).
Proof.
  apply (delete_rows_implements _ _ (λ x, sess_UserID x = uid)
           (λ kv : string * srow, sr_UserID kv.2 = uid)); [done..| |].
  - intros hs a a' Hhs Hup. by left.
  - intros hs err a a' [Hup|Hup]; [by left|by right].
Qed.

Lemma DeleteAllByUserIDExcept_implements uid keep :
  implements True (SessionRepository.DeleteAllByUserIDExcept uid keep)
    (SessDeleteAllByUserIDExcept uid keep).
Proof.
  unfold SessionRepository.DeleteAllByUserIDExcept. case_bool_decide as Hk.
  - subst keep. apply (delete_rows_implements _ _ (λ x, sess_UserID x = uid)
      (λ kv : string * srow, sr_UserID kv.2 = uid ∧ kv.1 ≠ "")); [done..| | |].
    + intros d h x Hwf Hl. simpl. pose proof (pwf_hash _ Hwf _ _ Hl). naive_solver.
    + intros hs a a' Hhs Hup. by left.
    + intros hs err a a' [Hup|Hup]; [by left|by right].
  - apply (delete_rows_implements _ _ (λ x, sess_UserID x = uid ∧ sess_TokenHash x ≠ keep)
      (λ kv : string * srow, sr_UserID kv.2 = uid ∧ kv.1 ≠ keep)); [done..| | |].
    + intros d h x Hwf Hl. simpl. by destruct (pwf_hash _ Hwf _ _ Hl) as [-> _].
    + intros hs a a' Hhs Hup. by left.
    + intros hs err a a' [Hup|Hup]; [by left|by right].
Qed.

Lemma list_abs uid d rows :
  pwf d → rows ≡ₚ (map_to_list (filter (λ kv, sess_UserID kv.2 = uid) (t_sess d))).*2 →
  (λ x, (sess_TokenHash x, row_of x)) <$> rows ≡ₚ map_to_list (rows_of uid (row_of <$> t_sess d)).
Proof.
  intros Hwf ->. unfold rows_of. rewrite map_filter_fmap, map_to_list_fmap, <-list_fmap_compose.
  apply Permutation_refl'. apply list_fmap_ext. intros i [h x] Hi%list_elem_of_lookup_2.
  apply elem_of_map_to_list, map_lookup_filter_Some in Hi as [Hl _]. simpl.
  by destruct (pwf_hash _ Hwf _ _ Hl) as [-> _].
Qed.

Lemma ListByUserID_implements uid :
  implements True (SessionRepository.ListByUserID uid) (SessListByUserID uid).
Proof.
  intros st st' r a now' _ Hex Hwf Hw Hnow. destruct Hex as (ans & st1 & [Hans Hw1] & Hex).
  assert (committed st1 = committed st) as Hsame.
  { destruct ans as [[rs [err|]]|err]; simpl in Hans;
      [destruct Hans as [?|(? & ? & ?)]|destruct Hans as (? & [? _] & _)|
       destruct Hans as [?|(? & ? & ?)]]; done. }
  assert (∀ err, safe microsecond _ (SessListByUserID uid) (Err err)
    (pabs (a_now a) (committed st) a) (pabs now' (committed st1) a)) as Hfail.
  { intros err. rewrite Hsame. left. split; [pg_upto|done]. }
  destruct ans as [[rs rerr]|err]; [destruct (SessionRepository.scan_loop _ rs []) as [l|err] eqn:Hl;
    [destruct rerr as [err|]|]|]; destruct Hex as [-> ->];
    (split; [by rewrite Hsame|]); (split; [congruence|]); try apply Hfail.
  destruct Hans as (rows & (_ & Hp & _) & Hf). rewrite (scan_loop_ok _ _ _ _ _ Hf Hl), Hsame.
  left. split; [pg_upto|]. by apply list_abs.
Qed.

(** ** The adapters as implementations of the ports *)

(** The method behind a port operation. *)
Definition pg_method {X} (e : portE X) : option (prog pgE X) :=
  match e in portE X return option (prog pgE X) with
  | UserCreate email ph => Some (UserRepository.Create email ph)
  | UserGetByEmail email => Some (UserRepository.GetByEmail email)
  | UserGetByID id => Some (UserRepository.GetByID id)
  | UserUpdatePasswordHash uid ph => Some (UserRepository.UpdatePasswordHash uid ph)
  | SessCreate s => Some (SessionRepository.Create s)
  | SessGetByTokenHash h => Some (SessionRepository.GetByTokenHash h)
  | SessDeleteByID sid uid => Some (SessionRepository.DeleteByID sid uid)
  | SessDeleteByTokenHash h => Some (SessionRepository.DeleteByTokenHash h)
  | SessRotateToken old s => Some (SessionRepository.RotateToken old s)
  | SessDeleteAllByUserID uid => Some (SessionRepository.DeleteAllByUserID uid)
  | SessDeleteAllByUserIDExcept uid keep =>
      Some (SessionRepository.DeleteAllByUserIDExcept uid keep)
  | SessListByUserID uid => Some (SessionRepository.ListByUserID uid)
  | _ => None
  end.

(** No session is created under an empty token hash (every hash of the service
    is 64 hexadecimal digits). *)
Definition pg_pre {X} (e : portE X) : Prop :=
  match e with
  | SessCreate s | SessRotateToken _ s => sess_TokenHash s ≠ ""
  | _ => True
  end.

(** The PostgreSQL adapters implement the user and session stores: whatever
    statements fail, and even if a failed statement or commit was carried out, a
    call of any repository method gives an answer and leaves tables that the
    port specification allows, keeps the constraints of the schema, and leaves
    no transaction open. *)
Lemma pg_method_implements {X} (e : portE X) p :
  pg_method e = Some p → implements (pg_pre e) p e.
Proof.
  destruct e; simpl; intros [= <-];
    eauto using Create_implements, GetByEmail_implements, GetByID_implements,
      UpdatePasswordHash_implements, Create_session_implements, GetByTokenHash_implements,
      DeleteByID_implements, DeleteByTokenHash_implements, RotateToken_implements,
      DeleteAllByUserID_implements, DeleteAllByUserIDExcept_implements, ListByUserID_implements.
Qed.

End proofs.

(** ** A run *)

Module PgRun.
#[local] Instance canonical : PgUuid := {| uuid_input s := Some s |}.

Definition ann : User :=
  {| user_ID := "u1"; user_Email := "ann@example.com"; user_PasswordHash := "ph";
     user_CreatedAt := 0; user_UpdatedAt := 0 |}.
Definition session (id hash : string) (exp : time) : Session :=
  {| sess_ID := id; sess_UserID := "u1"; sess_UserEmail := ""; sess_TokenHash := hash;
     sess_DeviceID := "d"; sess_UserAgent := "ua"; sess_IPAddress := "ip";
     sess_ExpiresAt := exp; sess_LastUsedAt := 5; sess_CreatedAt := 5 |}.
Definition old := session "s1" "h1" 4000.
Definition d0 : tables :=
  Tables {[ "u1" := ann ]} {[ "h1" := old ]} {[ "h1" := row_of old ]} [].
Definition d1 : tables := set_t_sess ∅ d0.
Definition d2 : tables := add_session (session "s2" "h2" 7000) d1.
Definition a0 : astate := AState 5 ∅ ∅ ∅ ∅ ∅ ∅ [] [].

Lemma pwf_d0 : pwf d0.
Proof.
  split; simpl; intros *; rewrite ?lookup_singleton_Some; intros; destruct_and?; subst; try done.
Qed.

(** The session under [h1] is exchanged for one under [h2]; its expiry is kept
    to the microsecond. *)
Lemma rotate_runs :
  rexec pg_spec (SessionRepository.RotateToken "h1" (session "" "h2" 7123))
    (PgSt d0 None) (PgSt d2 None)
    (Ok (SessionRepository.scanned (session "" "h2" 7123) ("s2", 5, 5))).
Proof.
  exists None, (PgSt d0 (Some d0)). split; [done|].
  exists (Ok 1), (PgSt d0 (Some d1)). split.
  { split; [done|]. exists d0, d1. split; [done|]. split; [|done].
    exists ["h1"]. split; [|done].
    split; [apply Permutation_refl'|]; by_vm. }
  simpl. exists (Ok ("s2", 5, 5)), (PgSt d0 (Some d2)). split.
  { split; [done|]. exists d1, d2. split; [done|]. split; [|done]. exists [], "s2", 5.
    split_and!; try done. }
  exists None, (PgSt d2 None). split; [done|]. by exists None, (PgSt d2 None).
Qed.

End PgRun.
