(* ===== verification/PgMem.v ===== *)
(** * A PostgreSQL in memory

    An executable instance of the database: it runs the statements of the
    repositories on the tables, never fails on its own, and allows what
    [pg_spec] allows.  It shows that the laws of [Postgres] can be met, and lets
    the repositories run. *)

From Stdlib Require Import Ascii String.
From stdpp Require Import sorting.
From S2P Require Import Prelude GoStd Ports Crypto Spec Postgres.
Open Scope Z_scope.

(** Every text is a UUID in its own spelling. *)
#[global] Instance text_uuid : PgUuid := {| uuid_input s := Some s |}.

(** ** Programs run with a check

    [run_ok h chk p s]: every call of the run of [p] passes [chk]. *)
Fixpoint run_ok {E S A} (h : impl E S) (chk : ∀ X, E X → S → bool) (p : prog E A) (s : S) : bool :=
  match p with
  | Ret _ => true
  | Vis e k => chk _ e s && let '(s', x) := h _ e s in run_ok h chk (k x) s'
  end.

Lemma run_rexec {E S A} (R : spec E S) (h : impl E S) chk (p : prog E A) s s' r :
  (∀ X (e : E X) s s' x, chk X e s = true → h X e s = (s', x) → R X e x s s') →
  run_ok h chk p s = true → run h p s = (s', r) → rexec R p s s' r.
Proof.
  intros Hh. revert s; induction p as [a|X e k IH]; intros s; simpl.
  - by intros _ [= <- <-].
  - destruct (h X e s) as [s1 x] eqn:Hx. intros [Hc Hok]%andb_true_iff Hrun.
    exists x, s1. split; [by eapply Hh|by apply IH].
Qed.

Module PgMem.
Section run.
Context (id : string) (now : time).

(** ** Statements *)

#[local] Instance later_dec : RelDecision (λ x y : Session, sess_LastUsedAt y ≤ sess_LastUsedAt x).
Proof. intros x y. apply _. Defined.

Definition delete_where (P : Session → Prop) `{∀ x, Decision (P x)} (d : tables)
    : tables * list string :=
  (set_t_sess (filter (λ kv, ¬ P kv.2) (t_sess d)) d,
   (map_to_list (filter (λ kv, P kv.2) (t_sess d))).*1).

(** The tables and the rows, or the error; new rows get the identifier [id] and
    the time [now]. *)
Definition run_stmt {A} (q : stmt A) : tables → tables * list A + error :=
  match q in stmt A return tables → tables * list A + error with
  | InsertUser email ph => λ d,
      let u := {| user_ID := id; user_Email := email; user_PasswordHash := ph;
                  user_CreatedAt := now; user_UpdatedAt := now |} in
      match (map_to_list (filter (λ kv, user_Email kv.2 = email) (t_users d))).*2 with
      | _ :: _ => inr (PgError "23505")
      | [] => if bool_decide (t_users d !! id = None)
              then inl (set_t_users (<[id := u]> (t_users d)) d, [u])
              else inr (Errorf "duplicate id")
      end
  | SelectUserByEmail email => λ d,
      inl (d, (map_to_list (filter (λ kv, user_Email kv.2 = email) (t_users d))).*2)
  | SelectUserByID uid => λ d, inl (d, option_list (t_users d !! uid))
  | UpdatePassword uid ph => λ d,
      match t_users d !! uid with
      | Some u => inl (set_t_users (<[uid := with_password ph now u]> (t_users d)) d, [tt])
      | None => inl (d, [])
      end
  | InsertSession uid th dev ua ip exp => λ d,
      let x := {| sess_ID := id; sess_UserID := uid; sess_UserEmail := "";
                  sess_TokenHash := th; sess_DeviceID := dev; sess_UserAgent := ua;
                  sess_IPAddress := ip; sess_ExpiresAt := trunc_us exp;
                  sess_LastUsedAt := now; sess_CreatedAt := now |} in
      if bool_decide (is_Some (t_sess d !! th)) then inr (PgError "23505")
      else if bool_decide (t_users d !! uid = None) then inr (PgError "23503")
      else if bool_decide (t_ever d !! th = None ∧
                           map_Forall (λ _ y, sess_ID y ≠ id) (t_sess d))
      then inl (add_session x d, [(id, now, now)])
      else inr (Errorf "duplicate id")
  | SelectSession h => λ d,
      inl (d, option_list (x ← t_sess d !! h; u ← t_users d !! sess_UserID x;
                           Some (with_email (user_Email u) x)))
  | DeleteSessionByID sid uid => λ d,
      inl (delete_where (λ x, uuid_input sid = Some (sess_ID x) ∧ sess_UserID x = uid) d)
  | DeleteSessionByHash h => λ d, inl (delete_where (λ x, sess_TokenHash x = h) d)
  | DeleteSessionsOf uid => λ d, inl (delete_where (λ x, sess_UserID x = uid) d)
  | DeleteSessionsExcept uid keep => λ d,
      inl (delete_where (λ x, sess_UserID x = uid ∧ sess_TokenHash x ≠ keep) d)
  | SelectSessionsOf uid => λ d,
      inl (d, merge_sort (λ x y, sess_LastUsedAt y ≤ sess_LastUsedAt x)
                (map_to_list (filter (λ kv, sess_UserID kv.2 = uid) (t_sess d))).*2)
  | InsertAudit uid ty ip ua meta => λ d,
      inl (Tables (t_users d) (t_sess d) (t_ever d) (t_audit d ++ [(uid, ty, ip, ua, meta)]), [tt])
  end.

(** ** The client *)

Definition on_tables {X} (tx : bool) (f : tables → tables * X) (s : pgst) : pgst * X :=
  if tx then
    match working s with
    | Some d => let '(d', x) := f d in (PgSt (committed s) (Some d'), x)
    | None => let '(_, x) := f (committed s) in (s, x)
    end
  else let '(d', x) := f (committed s) in (PgSt d' (working s), x).

Definition row_of_stmt {A} (q : stmt A) (d : tables) : tables * result A :=
  match run_stmt q d with
  | inr err => (d, Err err)
  | inl (d', []) => (d', Err PgxErrNoRows)
  | inl (d', a :: _) => (d', Ok a)
  end.
Definition count_of_stmt {A} (q : stmt A) (d : tables) : tables * result Z :=
  match run_stmt q d with
  | inr err => (d, Err err)
  | inl (d', rows) => (d', Ok (Z.of_nat (length rows)))
  end.
Definition rows_of_stmt {A} (q : stmt A) (d : tables)
    : tables * result (list (result A) * option error) :=
  match run_stmt q d with
  | inr err => (d, Err err)
  | inl (d', rows) => (d', Ok (Ok <$> rows, None))
  end.

Definition client : impl pgE pgst := λ X e,
  match e in pgE X return pgst → pgst * X with
  | QueryRow tx q => on_tables tx (row_of_stmt q)
  | Exec tx q => on_tables tx (count_of_stmt q)
  | Query q => on_tables false (rows_of_stmt q)
  | Begin => λ s, (PgSt (committed s) (Some (committed s)), None)
  | Commit => λ s, (PgSt (default (committed s) (working s)) None, None)
  | Rollback => λ s, (PgSt (committed s) None, None)
  end.

(** Calls on a transaction need an open one. *)
Definition check (X : Type) (e : pgE X) (s : pgst) : bool :=
  match e with
  | QueryRow true _ | Exec true _ | Commit => bool_decide (is_Some (working s))
  | _ => true
  end.

(** ** It allows what the specification allows *)

Lemma delete_where_deletes (P : Session → Prop) `{∀ x, Decision (P x)} d :
  deletes P d (delete_where P d).1 (delete_where P d).2.
Proof. done. Qed.

Lemma run_stmt_sound {A} (q : stmt A) d :
  match run_stmt q d with
  | inl (d', rows) => meaning q d d' rows
  | inr err => foreign err ∧ errors_Is err PgxErrNoRows = false ∧
      (errors_As_PgError err = Some "23505" → unique_violation q d)
  end.
Proof.
  destruct q; simpl; try apply delete_where_deletes; try done.
  - destruct (_.*2) as [|u us] eqn:Hl.
    + case_bool_decide; [|done]. eexists. split_and!; try done.
      intros id' u Hu Hem.
      assert (u ∈ (map_to_list (filter (λ kv, user_Email kv.2 = email) (t_users d))).*2) as Hin.
      { apply list_elem_of_fmap. exists (id', u). split; [done|].
        by apply elem_of_map_to_list, map_lookup_filter_Some. }
      rewrite Hl in Hin. by apply elem_of_nil in Hin.
    + split; [done|]. split; [done|]. intros _.
      assert (u ∈ (map_to_list (filter (λ kv, user_Email kv.2 = email) (t_users d))).*2) as Hin
        by (rewrite Hl; left).
      apply list_elem_of_fmap in Hin as ([id' u'] & -> & [Hu Hem]%elem_of_map_to_list%map_lookup_filter_Some).
      eauto.
  - destruct (t_users d !! userID); [split; [done|by eexists]|done].
  - repeat case_bool_decide; try done.
    eexists id, now. destruct (t_users d !! userID); [|done]. destruct_and!.
    split_and!; try done.
  - split; [done|]. split; [by rewrite merge_sort_Permutation|].
    apply StronglySorted_merge_sort.
    + intros x y z. lia.
    + intros x y. lia.
Qed.

Lemma row_sound {A} (q : stmt A) d d' r : row_of_stmt q d = (d', r) → row_answer q r d d'.
Proof.
  unfold row_of_stmt. pose proof (run_stmt_sound q d) as Hs.
  destruct (run_stmt q d) as [[d1 [|a rows]]|err]; intros [= <- <-]; simpl; [done|by eexists|].
  destruct Hs as (Hfor & Hno & Hv). split; [done|]. rewrite Hno.
  case_bool_decide; [split; [done|by apply Hv]|by left].
Qed.
Lemma count_sound {A} (q : stmt A) d d' r : count_of_stmt q d = (d', r) → exec_answer q r d d'.
Proof.
  unfold count_of_stmt. pose proof (run_stmt_sound q d) as Hs.
  destruct (run_stmt q d) as [[d1 rows]|err]; intros [= <- <-]; simpl; [by eexists|].
  destruct Hs as [Hfor _]. split; [done|by left].
Qed.
Lemma rows_sound {A} (q : stmt A) d d' r : rows_of_stmt q d = (d', r) → rows_answer q r d d'.
Proof.
  unfold rows_of_stmt. pose proof (run_stmt_sound q d) as Hs.
  destruct (run_stmt q d) as [[d1 rows]|err]; intros [= <- <-]; simpl; [|by left].
  exists rows. split; [done|]. clear. induction rows; constructor; done.
Qed.

Lemma client_sound X (e : pgE X) s s' x :
  check X e s = true → client X e s = (s', x) → pg_spec X e x s s'.
Proof.
  destruct s as [c w]. destruct e as [A [] q|A [] q|A q| | |]; simpl; unfold on_tables; simpl.
  - intros [d ->]%bool_decide_eq_true_1. destruct (row_of_stmt q d) as [d' r] eqn:Hr.
    intros [= <- <-]. split; [done|]. exists d, d'. by apply row_sound in Hr.
  - intros _. destruct (row_of_stmt q c) as [d' r] eqn:Hr. intros [= <- <-].
    by apply row_sound in Hr.
  - intros [d ->]%bool_decide_eq_true_1. destruct (count_of_stmt q d) as [d' r] eqn:Hr.
    intros [= <- <-]. split; [done|]. exists d, d'. by apply count_sound in Hr.
  - intros _. destruct (count_of_stmt q c) as [d' r] eqn:Hr. intros [= <- <-].
    by apply count_sound in Hr.
  - intros _. destruct (rows_of_stmt q c) as [d' r] eqn:Hr. intros [= <- <-].
    by apply rows_sound in Hr.
  - by intros _ [= <- <-].
  - intros [d ->]%bool_decide_eq_true_1 [= <- <-]. done.
  - by intros _ [= <- <-].
Qed.
End run.
End PgMem.
