(* ===== verification/RedisAdapters.v ===== *)
(** * The Redis adapters ([internal/adapters/cache/redis])

    The session cache and the store of reset codes and reset tokens: the JSON
    documents they keep, their keys, and their methods over the Redis client.
    The script of [IncrOTPAttempts] runs in the server; the JSON library it
    uses there ([cjson]) is not part of the repository and is a parameter. *)

From Stdlib Require Import Ascii String.
From S2P Require Import Prelude GoStd Ports Crypto TimeText Json Redis.
Open Scope Z_scope.

(** ** Documents *)

(** An error of [encoding/json]. *)
Definition json_error : error := Errorf "json".

Definition Unmarshal {T} (names : list string) (set_field : string → jval → T → option T)
    (zero : T) (data : string) : option T :=
  v ← parse_json (bytes_of_string data); decode_struct names set_field zero v.

Section documents.
Context `{Zone}.

Definition CachedSession_names : list string :=
  ["SessionID"; "UserID"; "UserEmail"; "DeviceID"; "ExpiresAt"].

Definition Marshal_CachedSession (s : CachedSession) : option string :=
  exp ← enc_time (cs_ExpiresAt s);
  Some (string_of_bytes (object_text
    [("SessionID", enc_string (cs_SessionID s)); ("UserID", enc_string (cs_UserID s));
     ("UserEmail", enc_string (cs_UserEmail s)); ("DeviceID", enc_string (cs_DeviceID s));
     ("ExpiresAt", exp)])).

Definition CachedSession_set (name : string) (v : jval) (s : CachedSession)
    : option CachedSession :=
  let upd sid uid email dev exp :=
    {| cs_SessionID := sid; cs_UserID := uid; cs_UserEmail := email; cs_DeviceID := dev;
       cs_ExpiresAt := exp |} in
  if bool_decide (name = "SessionID") then
    x ← dec_string (cs_SessionID s) v;
    Some (upd x (cs_UserID s) (cs_UserEmail s) (cs_DeviceID s) (cs_ExpiresAt s))
  else if bool_decide (name = "UserID") then
    x ← dec_string (cs_UserID s) v;
    Some (upd (cs_SessionID s) x (cs_UserEmail s) (cs_DeviceID s) (cs_ExpiresAt s))
  else if bool_decide (name = "UserEmail") then
    x ← dec_string (cs_UserEmail s) v;
    Some (upd (cs_SessionID s) (cs_UserID s) x (cs_DeviceID s) (cs_ExpiresAt s))
  else if bool_decide (name = "DeviceID") then
    x ← dec_string (cs_DeviceID s) v;
    Some (upd (cs_SessionID s) (cs_UserID s) (cs_UserEmail s) x (cs_ExpiresAt s))
  else
    x ← dec_time (cs_ExpiresAt s) v;
    Some (upd (cs_SessionID s) (cs_UserID s) (cs_UserEmail s) (cs_DeviceID s) x).

Definition Unmarshal_CachedSession : string → option CachedSession :=
  Unmarshal CachedSession_names CachedSession_set
    {| cs_SessionID := ""; cs_UserID := ""; cs_UserEmail := ""; cs_DeviceID := "";
       cs_ExpiresAt := zero_time |}.
End documents.

Record otpData := {
  d_UserID : string;
  d_OTPHash : string;
  d_Attempts : Z
}.

Definition otpData_names : list string := ["user_id"; "otp_hash"; "attempts"].

Definition Marshal_otpData (d : otpData) : string :=
  string_of_bytes (object_text
    [("user_id", enc_string (d_UserID d)); ("otp_hash", enc_string (d_OTPHash d));
     ("attempts", enc_int (d_Attempts d))]).

Definition otpData_set (name : string) (v : jval) (d : otpData) : option otpData :=
  if bool_decide (name = "user_id") then
    x ← dec_string (d_UserID d) v;
    Some {| d_UserID := x; d_OTPHash := d_OTPHash d; d_Attempts := d_Attempts d |}
  else if bool_decide (name = "otp_hash") then
    x ← dec_string (d_OTPHash d) v;
    Some {| d_UserID := d_UserID d; d_OTPHash := x; d_Attempts := d_Attempts d |}
  else
    x ← dec_int (d_Attempts d) v;
    Some {| d_UserID := d_UserID d; d_OTPHash := d_OTPHash d; d_Attempts := x |}.

Definition Unmarshal_otpData : string → option otpData :=
  Unmarshal otpData_names otpData_set {| d_UserID := ""; d_OTPHash := ""; d_Attempts := 0 |}.

Record resetTokenData := {
  rd_UserID : string;
  rd_Email : string
}.

Definition resetTokenData_names : list string := ["user_id"; "email"].

Definition Marshal_resetTokenData (d : resetTokenData) : string :=
  string_of_bytes (object_text
    [("user_id", enc_string (rd_UserID d)); ("email", enc_string (rd_Email d))]).

Definition resetTokenData_set (name : string) (v : jval) (d : resetTokenData)
    : option resetTokenData :=
  if bool_decide (name = "user_id") then
    x ← dec_string (rd_UserID d) v; Some {| rd_UserID := x; rd_Email := rd_Email d |}
  else
    x ← dec_string (rd_Email d) v; Some {| rd_UserID := rd_UserID d; rd_Email := x |}.

Definition Unmarshal_resetTokenData : string → option resetTokenData :=
  Unmarshal resetTokenData_names resetTokenData_set {| rd_UserID := ""; rd_Email := "" |}.

(** ** Cache ([cache.go]) *)

Module Cache.
Definition keyPrefix : string := "refresh:".

Section cache.
Context {R : Type} `{RedisClient R, Zone}.

Definition Set_ (now : time) (tokenHash : string) (sess : CachedSession) (ttl : duration) (r : R)
    : R * option error :=
  if ttl <=? 0 then (r, None)
  else
    match Marshal_CachedSession sess with
    | None => (r, Some (ErrorfW "cache marshal" json_error))
    | Some data =>
        match rc_Set now (keyPrefix +:+ tokenHash) data ttl r with
        | (r, Some err) => (r, Some (ErrorfW "cache set" err))
        | (r, None) => (r, None)
        end
    end.

Definition Get (now : time) (tokenHash : string) (r : R) : R * result CachedSession :=
  match rc_Get now (keyPrefix +:+ tokenHash) r with
  | (r, Err err) => (r, Err (ErrorfW "cache get" err))
  | (r, Ok data) =>
      match Unmarshal_CachedSession data with
      | None => (r, Err (ErrorfW "cache unmarshal" json_error))
      | Some sess => (r, Ok sess)
      end
  end.

Definition Delete (now : time) (tokenHash : string) (r : R) : R * option error :=
  rc_Del now [keyPrefix +:+ tokenHash] r.
End cache.
End Cache.

(** ** Lua values and [cjson] *)

(** A Lua value a document can hold.  Numbers are integers: the service writes
    no other ones. *)
Inductive lua_value :=
| LStr (s : string)
| LNum (n : Z)
| LBool (b : bool)
| LOther.

(** [cjson.decode] (which raises an error on a text that is not an object) and
    [cjson.encode] on a table with string keys; [lua_tonumber] is how
    arithmetic reads a string. *)
Class Cjson := {
  cjson_decode : string → option (gmap string lua_value);
  cjson_encode : gmap string lua_value → string;
  lua_tonumber : string → option Z
}.

(** [(v or 0) + 1]; [None] if that raises an error. *)
Definition lua_or_0_plus_1 `{Cjson} (v : option lua_value) : option Z :=
  match v with
  | None | Some (LBool false) => Some (0 + 1)
  | Some (LNum n) => Some (n + 1)
  | Some (LStr s) => n ← lua_tonumber s; Some (n + 1)
  | Some (LBool true) | Some LOther => None
  end.

(** ** ResetCache ([reset.go]) *)

Module ResetCache.
Definition otpPrefix : string := "pwreset:".
Definition resetTokenPrefix : string := "pwreset_token:".

Definition raise {A} : prog luaE A := Vis RAISE (Empty_set_rect _).

Section reset.
Context {R : Type} `{RedisClient R, Cjson}.

Definition SaveOTP (now : time) (userID email otpHash : string) (ttl : duration) (r : R)
    : R * option error :=
  let data := Marshal_otpData {| d_UserID := userID; d_OTPHash := otpHash; d_Attempts := 0 |} in
  match rc_Set now (otpPrefix +:+ token.Hash email) data ttl r with
  | (r, Some err) => (r, Some (ErrorfW "save otp" err))
  | (r, None) => (r, None)
  end.

Definition GetOTP (now : time) (email : string) (r : R) : R * result OTPRecord :=
  match rc_Get now (otpPrefix +:+ token.Hash email) r with
  | (r, Err err) =>
      if errors_Is err RedisNil then (r, Err ErrResetCodeNotFound)
      else (r, Err (ErrorfW "get otp" err))
  | (r, Ok raw) =>
      match Unmarshal_otpData raw with
      | None => (r, Err (ErrorfW "unmarshal otp" json_error))
      | Some d => (r, Ok {| otp_UserID := d_UserID d; otp_OTPHash := d_OTPHash d;
                            otp_Attempts := d_Attempts d |})
      end
  end.

Definition incrOTPScript (key : string) : prog luaE Z :=
  call raw <- LGET key;;
  match raw with
  | None => Ret (-1)
  | Some raw =>
      match cjson_decode raw with
      | None => raise
      | Some d =>
          match lua_or_0_plus_1 (d !! "attempts") with
          | None => raise
          | Some attempts =>
              let d := <["attempts" := LNum attempts]> d in
              call ttl <- PTTL key;;
              if ttl <=? 0 then Ret (-1)
              else do SETPX key (cjson_encode d) ttl;; Ret attempts
          end
      end
  end.

Definition IncrOTPAttempts (now : time) (email : string) (r : R) : R * result Z :=
  match rc_Eval now (incrOTPScript (otpPrefix +:+ token.Hash email)) r with
  | (r, Err err) => (r, Err (ErrorfW "incr otp attempts" err))
  | (r, Ok n) => if n =? -1 then (r, Err ErrResetCodeNotFound) else (r, Ok n)
  end.

Definition DeleteOTP (now : time) (email : string) (r : R) : R * option error :=
  rc_Del now [otpPrefix +:+ token.Hash email] r.

Definition SaveResetToken (now : time) (tokenHash userID email : string) (ttl : duration) (r : R)
    : R * option error :=
  let data := Marshal_resetTokenData {| rd_UserID := userID; rd_Email := email |} in
  match rc_Set now (resetTokenPrefix +:+ tokenHash) data ttl r with
  | (r, Some err) => (r, Some (ErrorfW "save reset token" err))
  | (r, None) => (r, None)
  end.

Definition GetResetToken (now : time) (tokenHash : string) (r : R) : R * result ResetTokenRecord :=
  match rc_Get now (resetTokenPrefix +:+ tokenHash) r with
  | (r, Err err) =>
      if errors_Is err RedisNil then (r, Err ErrResetTokenNotFound)
      else (r, Err (ErrorfW "get reset token" err))
  | (r, Ok raw) =>
      match Unmarshal_resetTokenData raw with
      | None => (r, Err (ErrorfW "unmarshal reset token" json_error))
      | Some d => (r, Ok {| rt_UserID := rd_UserID d; rt_Email := rd_Email d |})
      end
  end.

Definition DeleteResetToken (now : time) (tokenHash : string) (r : R) : R * option error :=
  rc_Del now [resetTokenPrefix +:+ tokenHash] r.
End reset.
End ResetCache.
