(* ===== verification/RedisProofs.v ===== *)
(** * The Redis adapters implement their ports

    The documents are read back as they were written ([Marshal] and [Unmarshal]
    are inverse on text that is UTF-8), the three kinds of keys do not overlap,
    and every method is a call the specification [safe] of the ports allows,
    whatever calls to Redis fail. *)

From Stdlib Require Import Ascii String.
From S2P Require Import Prelude GoStd Encoding Ports Crypto TimeText Json JsonProofs Spec Redis.
From S2P Require Import RedisAdapters.
Open Scope Z_scope.

(** ** Documents are text *)

Lemma quote_body_ok l : Forall byte_ok l → Forall byte_ok (quote_body l).
Proof.
  assert (∀ r, Forall byte_ok (u4 r)) as Hu4.
  { intros r. assert (∀ x, byte_ok (hex_char (x mod 16))) as Hh.
    { intros x. pose proof (Z.mod_pos_bound x 16). unfold byte_ok, hex_char. case_match; lia. }
    unfold u4. repeat (constructor; [first [apply Hh|unfold byte_ok; lia]|]). constructor. }
  induction l as [|b0 l r w Hd IH] using chunks_ind; intros Hl; [constructor|].
  rewrite (quote_body_cons _ _ _ _ Hd). apply Forall_app. split; [|by apply IH, Forall_drop].
  unfold esc_chunk. simpl fst. simpl snd.
  destruct (r <? 0x80) eqn:Hr.
  - apply Z.ltb_lt in Hr. apply decode_rune_decoded in Hd.
    assert (0 ≤ r) as Hr0 by (destruct Hd as [| |]; apply Forall_inv in Hl; unfold byte_ok in *; lia || done).
    apply (esc_ascii_cases (λ _ t, Forall byte_ok t)); [|done| |lia].
    + intros b c Hc. unfold simple_escape in Hc. constructor; [done|]. constructor; [|constructor].
      repeat case_match; simplify_eq; unfold byte_ok; lia.
    + intros b _ _ Hb. constructor; [|constructor]. unfold byte_ok. lia.
  - repeat case_match; [done..|]. by apply Forall_take.
Qed.

Lemma enc_string_ok s : Forall byte_ok (enc_string s).
Proof.
  unfold enc_string. constructor; [done|]. apply Forall_app. split; [|by repeat constructor].
  apply quote_body_ok, bytes_of_string_ok.
Qed.

Lemma object_text_ok fs : Forall (λ f, Forall byte_ok f.2) fs → Forall byte_ok (object_text fs).
Proof.
  intros Hfs. unfold object_text. constructor; [done|]. apply Forall_app.
  split; [|by repeat constructor].
  induction Hfs as [|[k v] fs Hv Hfs IH]; [constructor|]. rewrite members_text_cons.
  apply Forall_app. split; [apply enc_string_ok|]. constructor; [done|]. apply Forall_app.
  split; [done|]. destruct fs; [constructor|]. by constructor.
Qed.

Lemma enc_time_ok `{Zone} t txt : enc_time t = Some txt → Forall byte_ok txt.
Proof.
  unfold enc_time. case_match; [|done]. intros [= <-]. constructor; [done|].
  apply Forall_app. split; [apply bytes_of_string_ok|by repeat constructor].
Qed.

Lemma parse_object fs js :
  Forall (λ f, Forall byte_ok f.2) fs → Forall2 prints_member fs js → fs ≠ [] →
  parse_json (bytes_of_string (string_of_bytes (object_text fs))) = Some (JObj js).
Proof.
  intros Hok Hfs Hne. rewrite bytes_of_string_of_bytes by by apply object_text_ok.
  by apply parse_object_text.
Qed.

Lemma dec_string_quote cur s :
  valid_utf8 s → dec_string cur (JStr (quote_body (bytes_of_string s))) = Some s.
Proof. apply unquote_string. Qed.

Lemma prints_field k txt v :
  prints txt v → prints_member (k, txt) (quote_body (bytes_of_string k), v).
Proof. done. Qed.

(** ** Round trips *)

Definition valid_session (s : CachedSession) : Prop :=
  valid_utf8 (cs_SessionID s) ∧ valid_utf8 (cs_UserID s) ∧ valid_utf8 (cs_UserEmail s) ∧
  valid_utf8 (cs_DeviceID s).

(** The next member of a document sets its field. *)
Ltac decode_field :=
  erewrite decode_member;
    [|unfold valid_utf8; by_vm
     |unfold CachedSession_names, otpData_names, resetTokenData_names; rewrite !elem_of_cons; tauto
     |unfold CachedSession_set, otpData_set, resetTokenData_set;
      rewrite ?bool_decide_eq_false_2 by done; rewrite ?bool_decide_eq_true_2 by done;
      rewrite ?dec_string_quote by done; reflexivity].

Lemma CachedSession_roundtrip `{Zone} s data :
  Marshal_CachedSession s = Some data → valid_session s → Unmarshal_CachedSession data = Some s.
Proof.
  intros (txt & Ht & [= <-])%bind_Some (H1 & H2 & H3 & H4).
  destruct (prints_time _ _ Ht) as (raw & Hp & Hraw).
  unfold Unmarshal_CachedSession, Unmarshal.
  erewrite parse_object; [| | |done].
  2: { apply enc_time_ok in Ht. repeat (constructor; [first [exact Ht|apply enc_string_ok]|]). constructor. }
  2: { repeat (constructor; [apply prints_field; first [exact Hp|apply prints_string]|]). constructor. }
  cbn [mbind option_bind decode_struct].
  do 4 decode_field. erewrite decode_member;
    [|unfold valid_utf8; by_vm|unfold CachedSession_names; rewrite !elem_of_cons; tauto
     |unfold CachedSession_set; rewrite !bool_decide_eq_false_2 by done; unfold dec_time;
      rewrite Hraw; reflexivity].
  by destruct s.
Qed.

Lemma resetTokenData_roundtrip d :
  valid_utf8 (rd_UserID d) → valid_utf8 (rd_Email d) →
  Unmarshal_resetTokenData (Marshal_resetTokenData d) = Some d.
Proof.
  intros H1 H2. unfold Unmarshal_resetTokenData, Unmarshal, Marshal_resetTokenData.
  erewrite parse_object; [| | |done].
  2: { repeat (constructor; [apply enc_string_ok|]). constructor. }
  2: { repeat (constructor; [apply prints_field, prints_string|]). constructor. }
  cbn [mbind option_bind decode_struct].
  do 2 decode_field.
  by destruct d.
Qed.

(** ** What [cjson] does *)

(** The members of a flat object. *)
Definition flat_value (v : jval) : option lua_value :=
  match v with
  | JStr raw => b ← unquote raw; Some (LStr (string_of_bytes b))
  | JNum lit => n ← ParseInt64 lit; Some (LNum n)
  | JBool b => Some (LBool b)
  | _ => None
  end.
Fixpoint flat_members (ms : list (list Z * jval)) : option (list (string * lua_value)) :=
  match ms with
  | [] => Some []
  | (k, v) :: ms' =>
      b ← unquote k; x ← flat_value v; kvs ← flat_members ms'; Some ((string_of_bytes b, x) :: kvs)
  end.
(** The text of an object with the members of [m], in any order. *)
Definition flat_object (text : string) (m : gmap string lua_value) : Prop :=
  ∃ ms kvs, parse_json (bytes_of_string text) = Some (JObj ms) ∧ flat_members ms = Some kvs ∧
    NoDup kvs.*1 ∧ list_to_map kvs = m.

(** [encoding/json]'s text of a value. *)
Definition lua_text (v : lua_value) : list Z :=
  match v with
  | LStr s => enc_string s
  | LNum n => enc_int n
  | LBool true => bytes_of_string "true"
  | LBool false => bytes_of_string "false"
  | LOther => bytes_of_string "null"
  end.
Definition go_object (kvs : list (string * lua_value)) : string :=
  string_of_bytes (object_text (prod_map id lua_text <$> kvs)).

(** Values [cjson] keeps: text in UTF-8, and integers of up to 14 digits (it
    prints numbers with [%.14g]). *)
Definition max_lua_int : Z := 10 ^ 14.
Definition plain_value (v : lua_value) : Prop :=
  match v with
  | LStr s => valid_utf8 s
  | LNum n => Z.abs n < max_lua_int
  | LBool _ => True
  | LOther => False
  end.
Definition plain_members (kvs : list (string * lua_value)) : Prop :=
  Forall (λ kv, valid_utf8 kv.1 ∧ plain_value kv.2) kvs ∧ NoDup kvs.*1 ∧ kvs ≠ [].

(** [cjson.decode] reads what [encoding/json] or [cjson.encode] wrote;
    [cjson.encode] writes an object. *)
Class CjsonOk `{Cjson} : Prop := {
  cjson_decode_go kvs :
    plain_members kvs → cjson_decode (go_object kvs) = Some (list_to_map kvs);
  cjson_decode_encode kvs :
    plain_members kvs → cjson_decode (cjson_encode (list_to_map kvs)) = Some (list_to_map kvs);
  cjson_encode_object kvs :
    plain_members kvs → flat_object (cjson_encode (list_to_map kvs)) (list_to_map kvs)
}.

(** ** Documents of reset codes *)

Section otp.
Context `{CjsonOk}.

Definition otp_members (d : otpData) : list (string * lua_value) :=
  [("user_id", LStr (d_UserID d)); ("otp_hash", LStr (d_OTPHash d));
   ("attempts", LNum (d_Attempts d))].

Definition plain_otp (d : otpData) : Prop :=
  valid_utf8 (d_UserID d) ∧ valid_utf8 (d_OTPHash d) ∧ Z.abs (d_Attempts d) < max_lua_int.

(** The text of a document: as the service wrote it, or as the script did. *)
Definition otp_text (text : string) (d : otpData) : Prop :=
  plain_otp d ∧
  (text = Marshal_otpData d ∨ text = cjson_encode (list_to_map (otp_members d))).

Lemma otp_plain d : plain_otp d → plain_members (otp_members d).
Proof.
  intros (H1 & H2 & H3). split_and!; [|simpl; apply (bool_decide_eq_true_1 _); by_vm|done].
  unfold otp_members. repeat (constructor; [split; [unfold valid_utf8; by_vm|done]|]). constructor.
Qed.

Lemma Marshal_otpData_go d : Marshal_otpData d = go_object (otp_members d).
Proof. done. Qed.

Lemma otp_decode text d : otp_text text d → cjson_decode text = Some (list_to_map (otp_members d)).
Proof.
  intros [Hp [->| ->]].
  - rewrite Marshal_otpData_go. by apply cjson_decode_go, otp_plain.
  - by apply cjson_decode_encode, otp_plain.
Qed.

Definition with_d_Attempts (n : Z) (d : otpData) : otpData :=
  {| d_UserID := d_UserID d; d_OTPHash := d_OTPHash d; d_Attempts := n |}.

(** The table after [d.attempts = n] is that of the new record. *)
Lemma otp_set_attempts n d :
  <["attempts" := LNum n]> (list_to_map (otp_members d)) =
  (list_to_map (otp_members (with_d_Attempts n d)) : gmap string lua_value).
Proof.
  unfold otp_members. cbn [list_to_map foldr fst snd d_UserID d_OTPHash d_Attempts with_d_Attempts].
  rewrite (insert_insert_ne _ "attempts" "user_id"), (insert_insert_ne _ "attempts" "otp_hash") by done.
  by rewrite insert_insert_eq.
Qed.

(** The fields are read whatever the order of the members. *)
Lemma decode_flat_member {T} names (set_field : string → jval → T → option T) k v ms x kb :
  unquote k = Some kb → string_of_bytes kb ∈ names →
  decode_members names set_field ((k, v) :: ms) x =
  (x' ← set_field (string_of_bytes kb) v x; decode_members names set_field ms x').
Proof.
  intros Hk Hin. simpl. rewrite Hk. simpl. unfold find_field. by rewrite bool_decide_eq_true_2.
Qed.

Lemma flat_string cur v s : flat_value v = Some (LStr s) → dec_string cur v = Some s.
Proof.
  destruct v; simpl; try done.
  - by intros (? & _ & ?)%bind_Some.
  - intros (b & -> & [= <-])%bind_Some. done.
Qed.
Lemma flat_int cur v n : flat_value v = Some (LNum n) → dec_int cur v = Some n.
Proof.
  destruct v; simpl; try done.
  - intros (b & -> & [= <-])%bind_Some. done.
  - by intros (? & _ & ?)%bind_Some.
Qed.

Lemma perm_three {A} (l : list A) a b c :
  l ≡ₚ [a; b; c] →
  l = [a; b; c] ∨ l = [a; c; b] ∨ l = [b; a; c] ∨ l = [b; c; a] ∨ l = [c; a; b] ∨ l = [c; b; a].
Proof.
  intros Hp. destruct l as [|x l]; [by apply Permutation_nil_l in Hp|].
  assert (x ∈ [a; b; c]) as Hx by (rewrite <-Hp; left).
  rewrite !elem_of_cons, elem_of_nil in Hx. destruct Hx as [->|[->|[->|[]]]].
  - apply Permutation_cons_inv, Permutation_sym, Permutation_length_2_inv in Hp. naive_solver.
  - assert (b :: l ≡ₚ b :: [a; c]) as Hp' by (rewrite Hp; constructor).
    apply Permutation_cons_inv, Permutation_sym, Permutation_length_2_inv in Hp'. naive_solver.
  - assert (c :: l ≡ₚ c :: [a; b]) as Hp'.
    { rewrite Hp. etrans; [apply (Permutation_app_comm [a; b] [c])|]. done. }
    apply Permutation_cons_inv, Permutation_sym, Permutation_length_2_inv in Hp'. naive_solver.
Qed.

(** One member of [flat_members]. *)
Lemma flat_members_cons ms k x kvs :
  flat_members ms = Some ((k, x) :: kvs) →
  ∃ kb v ms' kr, ms = (kr, v) :: ms' ∧ unquote kr = Some kb ∧ string_of_bytes kb = k ∧
    flat_value v = Some x ∧ flat_members ms' = Some kvs.
Proof.
  destruct ms as [|[kr v] ms]; [done|]. simpl.
  intros (kb & Hk & (y & Hv & (kvs' & Hm & [= <- <- <-])%bind_Some)%bind_Some)%bind_Some. eauto 10.
Qed.

Lemma decode_flat_nil {T} names (set_field : string → jval → T → option T) ms x :
  flat_members ms = Some [] → decode_members names set_field ms x = Some x.
Proof.
  destruct ms as [|[k v] ms]; [done|]. simpl.
  by intros (? & _ & (? & _ & (? & _ & ?)%bind_Some)%bind_Some)%bind_Some.
Qed.

(** The next member sets its field. *)
Lemma decode_flat_step {T} names (set_field : string → jval → T → option T) k x kvs ms y y' :
  flat_members ms = Some ((k, x) :: kvs) → k ∈ names →
  (∀ v, flat_value v = Some x → set_field k v y = Some y') →
  ∃ ms', flat_members ms' = Some kvs ∧
    decode_members names set_field ms y = decode_members names set_field ms' y'.
Proof.
  intros Hfm Hk Hset.
  apply flat_members_cons in Hfm as (kb & v & ms2 & kr & -> & Hkr & Hkb & Hv & Hfm).
  exists ms2. split; [done|]. rewrite (decode_flat_member _ _ _ _ _ _ kb) by (done || congruence).
  rewrite Hkb, (Hset _ Hv). done.
Qed.

Lemma otpData_set_flat d y v :
  (flat_value v = Some (LStr (d_UserID d)) → otpData_set "user_id" v y =
     Some {| d_UserID := d_UserID d; d_OTPHash := d_OTPHash y; d_Attempts := d_Attempts y |}) ∧
  (flat_value v = Some (LStr (d_OTPHash d)) → otpData_set "otp_hash" v y =
     Some {| d_UserID := d_UserID y; d_OTPHash := d_OTPHash d; d_Attempts := d_Attempts y |}) ∧
  (flat_value v = Some (LNum (d_Attempts d)) → otpData_set "attempts" v y =
     Some {| d_UserID := d_UserID y; d_OTPHash := d_OTPHash y; d_Attempts := d_Attempts d |}).
Proof.
  unfold otpData_set. split_and!; intros Hv; rewrite ?bool_decide_eq_false_2 by done;
    rewrite ?bool_decide_eq_true_2 by done;
    first [by rewrite (flat_string _ _ _ Hv)|by rewrite (flat_int _ _ _ Hv)].
Qed.

Lemma flat_otp text d :
  plain_otp d → flat_object text (list_to_map (otp_members d)) →
  Unmarshal_otpData text = Some d.
Proof.
  intros Hd (ms & kvs & Hp & Hms & Hnd & Heq). unfold Unmarshal_otpData, Unmarshal. rewrite Hp.
  cbn [mbind option_bind decode_struct].
  assert (kvs ≡ₚ otp_members d) as Hperm.
  { apply (list_to_map_inj (M := gmap string)); [done|by apply otp_plain|done]. }
  clear Hp Hnd Heq Hd. apply perm_three in Hperm.
  destruct Hperm as [->|[->|[->|[->|[->| ->]]]]].
  all: do 3 (eapply (decode_flat_step otpData_names otpData_set) in Hms as (ms1 & Hms1 & ->);
    [clear ms; rename ms1 into ms, Hms1 into Hms
    |unfold otpData_names; rewrite !elem_of_cons; tauto
    |intros v; by apply (otpData_set_flat d)]);
    rewrite decode_flat_nil by done; by destruct d.
Qed.

(** *** Objects written by [encoding/json] *)

Lemma prints_true : prints (bytes_of_string "true") (JBool true).
Proof. intros [|n] depth x rest Hn _; [lia|done]. Qed.
Lemma prints_false : prints (bytes_of_string "false") (JBool false).
Proof. intros [|n] depth x rest Hn _; [lia|done]. Qed.

Lemma lua_text_prints x :
  plain_value x → ∃ v, prints (lua_text x) v ∧ flat_value v = Some x ∧ Forall byte_ok (lua_text x).
Proof.
  destruct x as [s|n|[]|]; simpl; intros Hx; [..|done].
  - eexists. split; [apply prints_string|]. split; [|apply enc_string_ok]. simpl.
    pose proof (unquote_string s Hx) as Hu. destruct (unquote _); [|done].
    injection Hu as <-. done.
  - eexists. split; [apply prints_int|]. split; [|apply bytes_of_string_ok].
    unfold flat_value. rewrite ParseInt64_text; [done|].
    unfold max_lua_int, min_int64, max_int64 in *. lia.
  - eexists. split; [apply prints_true|]. split; [done|apply bytes_of_string_ok].
  - eexists. split; [apply prints_false|]. split; [done|apply bytes_of_string_ok].
Qed.

Lemma go_members kvs :
  Forall (λ kv, valid_utf8 kv.1 ∧ plain_value kv.2) kvs →
  ∃ js, Forall2 prints_member (prod_map id lua_text <$> kvs) js ∧ flat_members js = Some kvs ∧
    Forall (λ f, Forall byte_ok f.2) (prod_map id lua_text <$> kvs).
Proof.
  induction 1 as [|[k x] kvs [Hk Hx] _ (js & Hjs & Hm & Hok)]; [by exists []|].
  destruct (lua_text_prints _ Hx) as (v & Hp & Hv & Hb).
  exists ((quote_body (bytes_of_string k), v) :: js). split_and!.
  - by constructor.
  - pose proof (unquote_string k Hk) as Hu. simpl. destruct (unquote _) as [kb|]; [|done].
    simpl in Hu. injection Hu as Hu. rewrite Hv. cbn [mbind option_bind]. rewrite Hm. simpl.
    by rewrite Hu.
  - by constructor.
Qed.

Lemma go_flat kvs : plain_members kvs → flat_object (go_object kvs) (list_to_map kvs).
Proof.
  intros (Hall & Hnd & Hne). destruct (go_members kvs Hall) as (js & Hjs & Hm & Hok).
  exists js, kvs. split_and!; [|done..]. apply parse_object; [done..|]. by destruct kvs.
Qed.

Lemma otp_read text d : otp_text text d → Unmarshal_otpData text = Some d.
Proof.
  intros [Hp [->| ->]]; (apply flat_otp; [done|]).
  - rewrite Marshal_otpData_go. by apply go_flat, otp_plain.
  - by apply cjson_encode_object, otp_plain.
Qed.
End otp.

(** ** Keys *)

Lemma prefix_inj p h h' : p +:+ h = p +:+ h' → h = h'.
Proof.
  induction p as [|c p IH]; [done|].
  change (String c (p +:+ h) = String c (p +:+ h') → h = h'). intros [= Heq]. by apply IH.
Qed.

(** [rep doc p v m]: the keys with prefix [p] hold the documents of the entries
    of [m], until the same time. *)
Definition rep {T} (doc : string → T → Prop) (p : string) (v : view) (m : gmap string (T * time))
    : Prop :=
  ∀ h, match v !! (p +:+ h), m !! h with
       | Some (x, Some e), Some (y, e') => e' = e ∧ doc x y
       | None, None => True
       | _, _ => False
       end.

Section rep.
Context {T : Type} (doc : string → T → Prop) (p : string).

Lemma rep_insert v m h x y e :
  doc x y → rep doc p v m → rep doc p (<[p +:+ h := (x, Some e)]> v) (<[h := (y, e)]> m).
Proof.
  intros Hd Hr h'. destruct (decide (h = h')) as [->|Hne].
  - by rewrite !lookup_insert_eq.
  - rewrite !lookup_insert_ne; [apply Hr|done|]. intros Heq. by apply prefix_inj in Heq.
Qed.

Lemma rep_delete v m h : rep doc p v m → rep doc p (delete (p +:+ h) v) (delete h m).
Proof.
  intros Hr h'. destruct (decide (h = h')) as [->|Hne].
  - by rewrite !lookup_delete_eq.
  - rewrite !lookup_delete_ne; [apply Hr|done|]. intros Heq. by apply prefix_inj in Heq.
Qed.

Lemma rep_other_insert v m k x : (∀ h, k ≠ p +:+ h) → rep doc p v m → rep doc p (<[k := x]> v) m.
Proof. intros Hk Hr h. rewrite lookup_insert_ne by done. apply Hr. Qed.
Lemma rep_other_delete v m k : (∀ h, k ≠ p +:+ h) → rep doc p v m → rep doc p (delete k v) m.
Proof. intros Hk Hr h. rewrite lookup_delete_ne by done. apply Hr. Qed.

(** A key that is there at time [t], and one that is not. *)
Lemma rep_fresh v m h t x o :
  rep doc p v m → value_at t (p +:+ h) v = Some (x, o) →
  ∃ y e, o = Some e ∧ m !! h = Some (y, e) ∧ doc x y ∧ t ≤ e.
Proof.
  intros Hr. specialize (Hr h). unfold value_at.
  destruct (v !! (p +:+ h)) as [[x' [e|]]|]; [|by destruct (m !! h) as [[]|]|done].
  destruct (m !! h) as [[y e']|]; [|done]. destruct Hr as [-> Hd].
  destruct (expired t (Some e)) eqn:He; [done|]. intros [= <- <-]. simpl in He.
  apply Z.ltb_ge in He. eauto 10.
Qed.

Lemma rep_stale v m h t t' :
  rep doc p v m → value_at t (p +:+ h) v = None → t ≤ t' → no_fresh_entry m h t'.
Proof.
  intros Hr Hv Ht y e Hl. change (@lookup string (T * time) _ _ h m = Some (y, e)) in Hl.
  unfold rep in Hr. specialize (Hr h). unfold value_at in Hv.
  destruct (v !! (p +:+ h)) as [[x [e'|]]|], (m !! h) as [[y' e0]|]; try done.
  injection Hl as -> ->. destruct Hr as [-> _].
  destruct (expired t (Some e')) eqn:He; [|done]. simpl in He. apply Z.ltb_lt in He. lia.
Qed.
End rep.

(** ** The adapters *)

Section adapters.
Context {R : Type} `{RedisSpec R, Zone, CjsonOk}.

Definition otp_doc (text : string) (rec : OTPRecord) : Prop :=
  otp_text text {| d_UserID := otp_UserID rec; d_OTPHash := otp_OTPHash rec;
                   d_Attempts := otp_Attempts rec |}.
Definition tok_doc (text : string) (rec : ResetTokenRecord) : Prop :=
  Unmarshal_resetTokenData text = Some {| rd_UserID := rt_UserID rec; rd_Email := rt_Email rec |}.
Definition cache_doc (text : string) (s : CachedSession) : Prop :=
  Unmarshal_CachedSession text = Some s.

(** The keys of Redis hold the entries of an abstract state. *)
Record redis_rep (v : view) (a : astate) : Prop := {
  rr_cache : rep cache_doc Cache.keyPrefix v (a_cache a);
  rr_otps : rep otp_doc ResetCache.otpPrefix v (a_otps a);
  rr_toks : rep tok_doc ResetCache.resetTokenPrefix v (a_toks a)
}.

(** What else the state has is not in Redis. *)
Definition same_stores (a a' : astate) : Prop :=
  a_users a' = a_users a ∧ a_sess a' = a_sess a ∧ a_ever a' = a_ever a ∧
  a_jobs a' = a_jobs a ∧ a_log a' = a_log a.

Definition redis_implements {X} (pre : astate → Prop) (f : time → R → R * X) (e : portE X) : Prop :=
  ∀ s s' x a t now', pre a → redis_rep (rc_view s) a → a_now a ≤ t ≤ now' → f t s = (s', x) →
  ∃ a', redis_rep (rc_view s') a' ∧ a_now a' = now' ∧ same_stores a a' ∧
    safe microsecond X e x a a'.

Lemma redis_rep_later v a t : redis_rep v a → redis_rep v (set_now t a).
Proof. by intros []. Qed.

Lemma redis_rep_cache_set v a h x y e :
  cache_doc x y → redis_rep v a →
  redis_rep (<[Cache.keyPrefix +:+ h := (x, Some e)]> v) (set_cache (<[h := (y, e)]> (a_cache a)) a).
Proof.
  intros Hd [Hr1 Hr2 Hr3]. split; [by apply rep_insert|..]; by apply rep_other_insert.
Qed.
Lemma redis_rep_cache_del v a h :
  redis_rep v a →
  redis_rep (delete (Cache.keyPrefix +:+ h) v) (set_cache (delete h (a_cache a)) a).
Proof.
  intros [Hr1 Hr2 Hr3]. split; [by apply rep_delete|..]; by apply rep_other_delete.
Qed.
Lemma redis_rep_otp_set v a h x y e :
  otp_doc x y → redis_rep v a →
  redis_rep (<[ResetCache.otpPrefix +:+ h := (x, Some e)]> v) (set_otps (<[h := (y, e)]> (a_otps a)) a).
Proof.
  intros Hd [Hr1 Hr2 Hr3]. split; [|by apply rep_insert|]; by apply rep_other_insert.
Qed.
Lemma redis_rep_otp_del v a h :
  redis_rep v a →
  redis_rep (delete (ResetCache.otpPrefix +:+ h) v) (set_otps (delete h (a_otps a)) a).
Proof.
  intros [Hr1 Hr2 Hr3]. split; [|by apply rep_delete|]; by apply rep_other_delete.
Qed.
Lemma redis_rep_tok_set v a h x y e :
  tok_doc x y → redis_rep v a →
  redis_rep (<[ResetCache.resetTokenPrefix +:+ h := (x, Some e)]> v)
    (set_toks (<[h := (y, e)]> (a_toks a)) a).
Proof.
  intros Hd [Hr1 Hr2 Hr3]. split; [| |by apply rep_insert]; by apply rep_other_insert.
Qed.
Lemma redis_rep_tok_del v a h :
  redis_rep v a →
  redis_rep (delete (ResetCache.resetTokenPrefix +:+ h) v) (set_toks (delete h (a_toks a)) a).
Proof.
  intros [Hr1 Hr2 Hr3]. split; [| |by apply rep_delete]; by apply rep_other_delete.
Qed.

(** A wrapped error of the client is not one of the service's own. *)
Lemma wrap_is msg err target :
  match target with ErrorfW _ _ => False | _ => True end →
  errors_Is (ErrorfW msg err) target = errors_Is err target.
Proof. intros Ht. simpl. rewrite bool_decide_eq_false_2; [done|]. by destruct target. Qed.

(** *** Writes *)

(** The answer of [SET], wrapped. *)
Lemma set_answer t k x ttl (s s' : R) o msg :
  0 < ttl →
  match rc_Set t k x ttl s with
  | (r, Some err) => (r, Some (ErrorfW msg err))
  | (r, None) => (r, None)
  end = (s', o) →
  (o ≠ None ∧ rc_view s' = rc_view s) ∨
  ∃ e, t + ttl - millisecond < e ≤ t + Z.max ttl millisecond ∧
       rc_view s' = <[k := (x, Some e)]> (rc_view s).
Proof.
  intros Httl. destruct (rc_Set t k x ttl s) as [r o'] eqn:Hset.
  apply rc_Set_ok in Hset; [|done]. destruct o'; intros [= <- <-]; naive_solver.
Qed.

Lemma CacheSet_implements h cs ttl :
  redis_implements (λ _, valid_session cs) (λ t, Cache.Set_ t h cs ttl) (CacheSet h cs ttl).
Proof.
  intros s s' x a t now' Hcs Hrep Ht. unfold Cache.Set_.
  destruct (Z.leb_spec ttl 0) as [Httl|Httl].
  { intros [= <- <-]. exists (set_now now' a). split_and!; [by apply redis_rep_later|done..|].
    right. left. split_and!; [done..|]. exists now'. split; [lia|done]. }
  destruct (Marshal_CachedSession cs) as [data|] eqn:Hm.
  - intros [[Ho Hv]|(e & He & Hv)]%set_answer; [| |done]; rewrite Hv.
    + exists (set_now now' a). split_and!; [by apply redis_rep_later|done..|].
      left. destruct x; [|done]. exists now'. split; [lia|done].
    + exists (set_now now' (set_cache (<[h := (cs, e)]> (a_cache a)) a)). split_and!; [|done..|].
      * apply redis_rep_later, redis_rep_cache_set; [|done]. by eapply CachedSession_roundtrip.
      * right. right. exists e. split; [by exists t|]. exists now'. split; [simpl; lia|done].
  - intros [= <- <-]. exists (set_now now' a). split_and!; [by apply redis_rep_later|done..|].
    left. exists now'. split; [lia|done].
Qed.

Lemma SaveOTP_implements uid email oh ttl :
  redis_implements (λ _, 0 < ttl ∧ valid_utf8 uid ∧ valid_utf8 oh)
    (λ t, ResetCache.SaveOTP t uid email oh ttl) (ResetSaveOTP uid email oh ttl).
Proof.
  intros s s' x a t now' (Httl & Hu & Hh) Hrep Ht. unfold ResetCache.SaveOTP.
  intros [[Ho Hv]|(e & He & Hv)]%set_answer; [| |done]; rewrite Hv.
  - exists (set_now now' a). split_and!; [by apply redis_rep_later|done..|].
    left. destruct x; [|done]. exists now'. split; [lia|done].
  - eexists (set_now now' (set_otps (<[token.Hash email :=
      ({| otp_UserID := uid; otp_OTPHash := oh; otp_Attempts := 0 |}, e)]> (a_otps a)) a)).
    split_and!; [|done..|].
    + apply redis_rep_later, redis_rep_otp_set; [|done]. split; [by split_and!|by left].
    + right. exists e. split; [by exists t|]. exists now'. split; [simpl; lia|done].
Qed.

Lemma SaveResetToken_implements h uid email ttl :
  redis_implements (λ _, 0 < ttl ∧ valid_utf8 uid ∧ valid_utf8 email)
    (λ t, ResetCache.SaveResetToken t h uid email ttl) (ResetSaveResetToken h uid email ttl).
Proof.
  intros s s' x a t now' (Httl & Hu & Hh) Hrep Ht. unfold ResetCache.SaveResetToken.
  intros [[Ho Hv]|(e & He & Hv)]%set_answer; [| |done]; rewrite Hv.
  - exists (set_now now' a). split_and!; [by apply redis_rep_later|done..|].
    left. destruct x; [|done]. exists now'. split; [lia|done].
  - eexists (set_now now' (set_toks (<[h :=
      ({| rt_UserID := uid; rt_Email := email |}, e)]> (a_toks a)) a)).
    split_and!; [|done..|].
    + apply redis_rep_later, redis_rep_tok_set; [|done].
      by apply (resetTokenData_roundtrip {| rd_UserID := uid; rd_Email := email |}).
    + right. exists e. split; [by exists t|]. exists now'. split; [simpl; lia|done].
Qed.

(** *** Deletions *)

(** A deletion that fails did nothing or was carried out. *)
Lemma del_implements (e : portE (option error)) key (del : astate → astate) :
  (∀ a a' o, o ≠ None → upto a' a → safe microsecond _ e o a a') →
  (∀ a a' o, upto a' (del a) → safe microsecond _ e o a a') →
  (∀ v a, redis_rep v a → redis_rep (delete key v) (del a)) →
  (∀ a, same_stores a (del a) ∧ a_now (del a) = a_now a) →
  redis_implements (λ _, True) (λ t, rc_Del t [key]) e.
Proof.
  intros Hfail Hdel Hrep' Hsame s s' x a t now' _ Hrep Ht [[Ho Hv]|Hv]%rc_Del_ok; rewrite Hv.
  - exists (set_now now' a). split_and!; [by apply redis_rep_later|done..|].
    apply Hfail; [done|]. exists now'. split; [lia|done].
  - destruct (Hsame a) as [Hs Hn]. exists (set_now now' (del a)).
    split_and!; [by apply redis_rep_later, Hrep'|done|done|].
    apply Hdel. exists now'. split; [lia|done].
Qed.

Lemma CacheDelete_implements h :
  redis_implements (λ _, True) (λ t, Cache.Delete t h) (CacheDelete h).
Proof.
  apply (del_implements _ _ (λ a, set_cache (delete h (a_cache a)) a)); [| | |done].
  - intros a a' [err|] Ho Hup; [|done]. by left.
  - intros a a' [err|] Hup; [by right|by left].
  - intros v a. apply redis_rep_cache_del.
Qed.

Lemma DeleteOTP_implements email :
  redis_implements (λ _, True) (λ t, ResetCache.DeleteOTP t email) (ResetDeleteOTP email).
Proof.
  apply (del_implements _ _ (λ a, set_otps (delete (token.Hash email) (a_otps a)) a)); [| | |done].
  - intros a a' [err|] Ho Hup; [|done]. by left.
  - intros a a' [err|] Hup; [by right|by left].
  - intros v a. apply redis_rep_otp_del.
Qed.

Lemma DeleteResetToken_implements h :
  redis_implements (λ _, True) (λ t, ResetCache.DeleteResetToken t h) (ResetDeleteResetToken h).
Proof.
  apply (del_implements _ _ (λ a, set_toks (delete h (a_toks a)) a)); [| | |done].
  - intros a a' [err|] Ho Hup; [|done]. by left.
  - intros a a' [err|] Hup; [by right|by left].
  - intros v a. apply redis_rep_tok_del.
Qed.

(** *** Reads *)

(** The answer of [GET]: the document of the entry, or an error; [redis.Nil]
    means there is none. *)
Lemma get_answer {T} (doc : string → T → Prop) p h t now' (s s' : R) r m :
  rep doc p (rc_view s) m → t ≤ now' → rc_Get t (p +:+ h) s = (s', r) →
  rc_view s' = rc_view s ∧
  match r with
  | Ok x => ∃ y e, m !! h = Some (y, e) ∧ doc x y ∧ t ≤ e
  | Err err => foreign_err err ∧ (errors_Is err RedisNil = true → no_fresh_entry m h now')
  end.
Proof.
  intros Hrep Ht Hget. pose proof (rc_Get_ok _ _ _ _ _ Hget) as [Hv Hr]. split; [done|].
  destruct r as [x|err].
  - destruct (value_at t (p +:+ h) (rc_view s)) as [[x' o]|] eqn:Hat; [|done]. injection Hr as ->.
    destruct (rep_fresh _ _ _ _ _ _ _ _ Hrep Hat) as (y & e & _ & ? & ? & ?). eauto 10.
  - destruct (rc_errors t s) as (_ & _ & Hfor & _). split; [by eapply Hfor|]. intros Hnil. by eapply rep_stale; [..|apply Hr|].
Qed.

Lemma CacheGet_implements h :
  redis_implements (λ _, True) (λ t, Cache.Get t h) (CacheGet h).
Proof.
  intros s s' x a t now' _ Hrep Ht. unfold Cache.Get.
  destruct (rc_Get t _ s) as [r o] eqn:Hget.
  apply (get_answer cache_doc _ _ _ now' _ _ _ (a_cache a)) in Hget as [Hv Hr]; [|apply Hrep|lia].
  intros Heq. assert (r = s') as -> by (by repeat case_match; simplify_eq). rewrite Hv.
  exists (set_now now' a). split_and!; [by apply redis_rep_later|done..|]. left.
  assert (upto (set_now now' a) a) as Hup by (exists now'; split; [lia|done]).
  destruct o as [data|err]; [|simplify_eq; by left].
  destruct Hr as (y & e & Hl & Hd & He). rewrite Hd in Heq. simplify_eq.
  split; [done|]. exists t. split; [done|]. by exists e.
Qed.

Lemma GetOTP_implements email :
  redis_implements (λ _, True) (λ t, ResetCache.GetOTP t email) (ResetGetOTP email).
Proof.
  intros s s' x a t now' _ Hrep Ht. unfold ResetCache.GetOTP.
  destruct (rc_Get t _ s) as [r o] eqn:Hget.
  apply (get_answer otp_doc _ _ _ now' _ _ _ (a_otps a)) in Hget as [Hv Hr]; [|apply Hrep|lia].
  intros Heq. assert (r = s') as -> by (by repeat case_match; simplify_eq). rewrite Hv.
  exists (set_now now' a). split_and!; [by apply redis_rep_later|done..|]. left.
  assert (upto (set_now now' a) a) as Hup by (exists now'; split; [lia|done]).
  destruct o as [raw|err].
  - destruct Hr as (y & e & Hl & Hd & He). rewrite (otp_read _ _ Hd) in Heq. simplify_eq.
    split; [done|]. exists t. split; [done|]. exists e. by destruct y.
  - destruct Hr as [[Hfor _] Hnil]. destruct (errors_Is err RedisNil); simplify_eq.
    + split; [by left|]. intros _. by apply Hnil.
    + split; [by left|]. rewrite wrap_is by done. congruence.
Qed.

Lemma GetResetToken_implements h :
  redis_implements (λ _, True) (λ t, ResetCache.GetResetToken t h) (ResetGetResetToken h).
Proof.
  intros s s' x a t now' _ Hrep Ht. unfold ResetCache.GetResetToken.
  destruct (rc_Get t _ s) as [r o] eqn:Hget.
  apply (get_answer tok_doc _ _ _ now' _ _ _ (a_toks a)) in Hget as [Hv Hr]; [|apply Hrep|lia].
  intros Heq. assert (r = s') as -> by (by repeat case_match; simplify_eq). rewrite Hv.
  exists (set_now now' a). split_and!; [by apply redis_rep_later|done..|]. left.
  assert (upto (set_now now' a) a) as Hup by (exists now'; split; [lia|done]).
  destruct o as [raw|err].
  - destruct Hr as (y & e & Hl & Hd & He). unfold tok_doc in Hd. rewrite Hd in Heq. simplify_eq.
    split; [done|]. exists t. split; [done|]. exists e. by destruct y.
  - destruct Hr as [[_ Hfor] Hnil]. destruct (errors_Is err RedisNil); simplify_eq.
    + split; [by left|]. intros _. by apply Hnil.
    + split; [by left|]. rewrite wrap_is by done. congruence.
Qed.

(** *** The script *)

(** What the script does to a stored code: it counts one attempt and keeps the
    time to live, to the millisecond; it answers -1 if there is no code, or if
    less than a millisecond is left. *)
Lemma incrOTPScript_spec t h v v' z m :
  rep otp_doc ResetCache.otpPrefix v m →
  (∀ rec e, m !! h = Some (rec, e) → 0 ≤ otp_Attempts rec ∧ otp_Attempts rec + 1 < max_lua_int) →
  rexec (lua_spec t) (ResetCache.incrOTPScript (ResetCache.otpPrefix +:+ h)) v v' z →
  (z = -1 ∧ v' = v ∧
   (value_at t (ResetCache.otpPrefix +:+ h) v = None ∨
    ∃ rec e, m !! h = Some (rec, e) ∧ e < t + millisecond)) ∨
  ∃ rec e e' x, m !! h = Some (rec, e) ∧ t ≤ e ∧ e - millisecond < e' ≤ e ∧
    z = otp_Attempts rec + 1 ∧ 0 ≤ otp_Attempts rec ∧
    otp_doc x (with_attempts z rec) ∧
    v' = <[ResetCache.otpPrefix +:+ h := (x, Some e')]> v.
Proof.
  intros Hrep Hsmall (raw & v1 & [-> ->] & Hex).
  destruct (value_at t _ v) as [[raw o]|] eqn:Hat; simpl in Hex.
  2: { destruct Hex as [-> ->]. left. auto. }
  pose proof (rep_fresh _ _ _ _ _ _ _ _ Hrep Hat) as (rec & e & -> & Hl & Hd & He).
  pose proof (Hsmall _ _ Hl) as [Hpos Hlt].
  rewrite (otp_decode _ _ Hd) in Hex.
  assert ((list_to_map (otp_members {| d_UserID := otp_UserID rec; d_OTPHash := otp_OTPHash rec;
    d_Attempts := otp_Attempts rec |}) : gmap string lua_value) !! "attempts" =
    Some (LNum (otp_Attempts rec))) as Hatt by done.
  rewrite Hatt in Hex. cbn [lua_or_0_plus_1] in Hex. rewrite otp_set_attempts in Hex.
  destruct Hex as (ttl & v2 & [-> Httl] & Hex). rewrite Hat in Httl. subst ttl.
  pose proof (Z.div_mod (e - t) millisecond ltac:(done)).
  pose proof (Z.mod_pos_bound (e - t) millisecond ltac:(done)).
  destruct (Z.leb_spec ((e - t) / millisecond) 0).
  - destruct Hex as [-> ->]. left. split_and!; [done..|]. right. exists rec, e. split; [done|].
    assert ((e - t) / millisecond * millisecond ≤ 0); unfold millisecond in *; lia.
  - destruct Hex as ([] & v3 & [_ ->] & [-> ->]). right.
    eexists rec, e, (t + (e - t) / millisecond * millisecond), _.
    split_and!; [done..|lia|lia|done|done| |done].
    destruct Hd as [(Hu & Hh & _) _]. split; [|by right].
    split_and!; [done..|]. simpl. lia.
Qed.

(** The count as a call of the port. *)
Lemma incr_counted email s s' a t now' rec e e' x' (y : result Z) :
  redis_rep (rc_view s) a → a_now a ≤ t ≤ now' →
  a_otps a !! token.Hash email = Some (rec, e) → t ≤ e → e - millisecond < e' ≤ e →
  0 ≤ otp_Attempts rec → otp_Attempts rec + 1 < max_lua_int →
  otp_doc x' (with_attempts (otp_Attempts rec + 1) rec) →
  rc_view s' = <[ResetCache.otpPrefix +:+ token.Hash email := (x', Some e')]> (rc_view s) →
  match y with
  | Ok n' => n' = otp_Attempts rec + 1
  | Err err => errors_Is err ErrResetCodeNotFound = false
  end →
  ∃ a', redis_rep (rc_view s') a' ∧ a_now a' = now' ∧ same_stores a a' ∧
    safe microsecond _ (ResetIncrOTPAttempts email) y a a'.
Proof.
  intros Hrep Ht Hl Hte He' Hpos Hlt Hd Hv Hy. rewrite Hv.
  assert (wrap64 (otp_Attempts rec + 1) = otp_Attempts rec + 1) as Hw.
  { apply wrap64_id. unfold max_lua_int in Hlt. lia. }
  exists (set_now now' (set_otps (<[token.Hash email :=
    (with_attempts (otp_Attempts rec + 1) rec, e')]> (a_otps a)) a)).
  split_and!; [by apply redis_rep_later, redis_rep_otp_set|done..|].
  right. left. exists rec, e, e', t, (otp_Attempts rec + 1). rewrite Hw.
  split_and!; try done; try lia. exists now'. split; [simpl; lia|done].
Qed.

(** An answer that changes nothing. *)
Lemma redis_unchanged {X} (e : portE X) x v a t now' :
  redis_rep v a → a_now a ≤ t ≤ now' →
  (∀ a', upto a' a → a_now a' = now' → safe microsecond X e x a a') →
  ∃ a', redis_rep v a' ∧ a_now a' = now' ∧ same_stores a a' ∧ safe microsecond X e x a a'.
Proof.
  intros Hrep Ht Hs. exists (set_now now' a). split_and!; [by apply redis_rep_later|done..|].
  apply Hs; [|done]. exists now'. split; [lia|done].
Qed.

Lemma IncrOTPAttempts_implements email :
  redis_implements
    (λ a, ∀ rec e, a_otps a !! token.Hash email = Some (rec, e) →
       0 ≤ otp_Attempts rec ∧ otp_Attempts rec + 1 < max_lua_int)
    (λ t, ResetCache.IncrOTPAttempts t email) (ResetIncrOTPAttempts email).
Proof.
  intros s s' x a t now' Hsmall Hrep Ht. unfold ResetCache.IncrOTPAttempts.
  destruct (rc_Eval t _ s) as [r o] eqn:Hev. destruct (rc_errors t s) as (_ & _ & _ & Hfor).
  pose proof (λ err Ho, Hfor _ r err (eq_trans Hev (f_equal (pair r) Ho))) as Hfor'. clear Hfor.
  apply rc_Eval_ok in Hev.
  intros Heq. assert (r = s') as -> by (by repeat case_match; simplify_eq).
  destruct o as [z|err].
  - apply (incrOTPScript_spec t _ _ _ z (a_otps a)) in Hev
      as [(-> & Hv & Hwhy)|(rec & e & e' & x' & Hl & Hte & He' & -> & Hpos & Hd & Hv)];
      [..|apply Hrep|exact Hsmall].
    + injection Heq as <-. rewrite Hv. eapply redis_unchanged; [done..|]. intros a' Hup Hnow.
      destruct Hwhy as [Hno|(rec & e & Hl & He)].
      * left. split; [by left|]. intros _. eapply rep_stale; [apply Hrep|done|lia].
      * right. right. exists rec, e, t. split_and!; try done; [by intros []|unfold during; lia].
    + rewrite (proj2 (Z.eqb_neq (otp_Attempts rec + 1) (-1))) in Heq by lia. injection Heq as <-.
      eapply incr_counted; try done. by apply (Hsmall _ _ Hl).
  - injection Heq as <-.
    assert (errors_Is (ErrorfW "incr otp attempts" err) ErrResetCodeNotFound = false) as Hne.
    { rewrite wrap_is by done. by apply (Hfor' err). }
    assert (∀ a', upto a' a → a_now a' = now' → safe microsecond _ (ResetIncrOTPAttempts email)
      (Err (ErrorfW "incr otp attempts" err)) a a') as Hsame.
    { intros a' Hup _. left. split; [by left|]. congruence. }
    destruct Hev as [_ [Hv|[z Hex]]]; [rewrite Hv; by eapply redis_unchanged|].
    apply (incrOTPScript_spec t _ _ _ z (a_otps a)) in Hex
      as [(_ & Hv & _)|(rec & e & e' & x' & Hl & Hte & He' & -> & Hpos & Hd & Hv)];
      [rewrite Hv; by eapply redis_unchanged| |apply Hrep|exact Hsmall].
    eapply incr_counted; try done. by apply (Hsmall _ _ Hl).
Qed.

(** ** The adapters as implementations of the ports *)

Definition redis_method {X} (e : portE X) : option (time → R → R * X) :=
  match e in portE X return option (time → R → R * X) with
  | CacheSet h cs ttl => Some (λ t, Cache.Set_ t h cs ttl)
  | CacheGet h => Some (λ t, Cache.Get t h)
  | CacheDelete h => Some (λ t, Cache.Delete t h)
  | ResetSaveOTP uid email oh ttl => Some (λ t, ResetCache.SaveOTP t uid email oh ttl)
  | ResetGetOTP email => Some (λ t, ResetCache.GetOTP t email)
  | ResetIncrOTPAttempts email => Some (λ t, ResetCache.IncrOTPAttempts t email)
  | ResetDeleteOTP email => Some (λ t, ResetCache.DeleteOTP t email)
  | ResetSaveResetToken h uid email ttl => Some (λ t, ResetCache.SaveResetToken t h uid email ttl)
  | ResetGetResetToken h => Some (λ t, ResetCache.GetResetToken t h)
  | ResetDeleteResetToken h => Some (λ t, ResetCache.DeleteResetToken t h)
  | _ => None
  end.

(** The calls the adapters are made for: text in UTF-8, a positive time to
    live, and fewer than 10^14 attempts at a code. *)
Definition redis_pre {X} (e : portE X) (v : view) : Prop :=
  match e with
  | CacheSet _ cs _ => valid_session cs
  | ResetSaveOTP uid _ oh ttl => 0 < ttl ∧ valid_utf8 uid ∧ valid_utf8 oh
  | ResetSaveResetToken _ uid email ttl => 0 < ttl ∧ valid_utf8 uid ∧ valid_utf8 email
  | ResetIncrOTPAttempts email =>
      ∀ text o d, v !! (ResetCache.otpPrefix +:+ token.Hash email) = Some (text, o) →
        Unmarshal_otpData text = Some d → 0 ≤ d_Attempts d ∧ d_Attempts d + 1 < max_lua_int
  | _ => True
  end.

Lemma few_attempts_rep email v a :
  redis_pre (ResetIncrOTPAttempts email) v → redis_rep v a →
  ∀ rec e, a_otps a !! token.Hash email = Some (rec, e) →
    0 ≤ otp_Attempts rec ∧ otp_Attempts rec + 1 < max_lua_int.
Proof.
  intros Hpre [_ Hrep _] rec e Hl. unfold rep in Hrep. specialize (Hrep (token.Hash email)).
  destruct (v !! _) as [[x o]|] eqn:Hv, (a_otps a !! token.Hash email) as [[rec' e']|];
    try (by destruct o); try done.
  injection Hl as -> ->. destruct o as [o|]; [|done]. destruct Hrep as [_ Hd].
  by apply otp_read, (Hpre _ _ _ Hv) in Hd.
Qed.

(** The Redis adapters implement the session cache and the reset store:
    whatever calls to Redis fail, even when a failed write was carried out,
    every method gives an answer and leaves keys that the port specification
    allows; the codes, tokens and sessions stored as JSON documents are read
    back as they were written, and the script counts attempts at a code without
    losing its time to live. *)
Lemma redis_method_implements {X} (e : portE X) f s s' x a t now' :
  redis_method e = Some f → redis_pre e (rc_view s) → redis_rep (rc_view s) a →
  a_now a ≤ t ≤ now' → f t s = (s', x) →
  ∃ a', redis_rep (rc_view s') a' ∧ a_now a' = now' ∧ same_stores a a' ∧
    safe microsecond X e x a a'.
Proof.
  intros Hf Hpre Hrep Ht Hrun. destruct e; simplify_eq/=;
    first [by eapply CacheSet_implements|by eapply CacheGet_implements
          |by eapply CacheDelete_implements|by eapply SaveOTP_implements
          |by eapply GetOTP_implements|by eapply DeleteOTP_implements
          |by eapply SaveResetToken_implements|by eapply GetResetToken_implements
          |by eapply DeleteResetToken_implements|idtac].
  eapply IncrOTPAttempts_implements; [|done..]. by eapply few_attempts_rep.
Qed.

End adapters.

(** A JSON document the Redis adapters wrote is read back as it was: a
    cached session whose expiry has a year of four digits, a reset token, and a
    code with its attempts, as long as their texts are UTF-8. *)
Lemma documents_roundtrip `{Zone, CjsonOk} s d r data :
  valid_session s → Marshal_CachedSession s = Some data →
  plain_otp d → valid_utf8 (rd_UserID r) → valid_utf8 (rd_Email r) →
  Unmarshal_CachedSession data = Some s ∧
  Unmarshal_otpData (Marshal_otpData d) = Some d ∧
  Unmarshal_otpData (cjson_encode (list_to_map (otp_members d))) = Some d ∧
  Unmarshal_resetTokenData (Marshal_resetTokenData r) = Some r.
Proof.
  intros Hs Hm Hd H1' H2'. split_and!.
  - by eapply CachedSession_roundtrip.
  - apply otp_read. split; [done|by left].
  - apply otp_read. split; [done|by right].
  - by apply resetTokenData_roundtrip.
Qed.
