(* ===== verification/AuditLog.v ===== *)
(** * The audit trail ([internal/adapters/storage/postgres/audit.go], [internal/adapters/hooks])

    [AuditRepository.Log] writes an event as a row, with its metadata as a JSON
    object; [NoOp] is the hook of the production wiring.  The goroutines of
    [logAudit] and [fireHook] run with them. *)

From Stdlib Require Import Ascii String.
From stdpp Require Import sorting.
From S2P Require Import Prelude GoStd Encoding Ports Validate Crypto TimeText Json JsonProofs Service Spec.
From S2P Require Import Redis Postgres RedisAdapters RedisProofs.
Open Scope Z_scope.

(** ** [json.Marshal] of a [map[string]string]

    The entries in the order of the bytes of their keys. *)

Definition key_le (a b : string * string) : Prop := String.leb a.1 b.1 = true.
#[global] Instance key_le_dec : RelDecision key_le.
Proof. intros a b. unfold key_le. apply _. Defined.

Definition Marshal_map (m : gmap string string) : string :=
  string_of_bytes (object_text (prod_map id enc_string <$> merge_sort key_le (map_to_list m))).

Module AuditRepository.

(** The metadata column is NULL without metadata; [json.Marshal] of a map of
    strings does not fail. *)
Definition Log (e : AuditEvent) : prog pgE (option error) :=
  let meta := if (0 <? size (ae_Metadata e))%nat then Some (Marshal_map (ae_Metadata e)) else None in
  call r <- Exec false (InsertAudit (ae_UserID e) (audit_event_string (ae_EventType e))
                          (ae_IPAddress e) (ae_UserAgent e) meta);;
  match r with
  | Err err => Ret (Some (ErrorfW "audit log" err))
  | Ok _ => Ret None
  end.

End AuditRepository.

Module NoOp.

Definition OnEvent (_ : HookEvent) : option error := None.

End NoOp.

(** ** The goroutines *)

Section jobs.
Context (s : AuthService).

Definition perform (j : job) : prog pgE job_outcome :=
  match j with
  | JAudit e => r <- AuditRepository.Log e;; Ret (run_job s (λ _, r) NoOp.OnEvent j)
  | JHook _ => Ret (run_job s (λ _, None) NoOp.OnEvent j)
  end.

Fixpoint perform_all (js : list job) : prog pgE (list job_outcome) :=
  match js with
  | [] => Ret []
  | j :: js' => o <- perform j;; os <- perform_all js';; Ret (o :: os)
  end.

(** ** What a row says *)

Abbreviation audit_row := (option string * string * string * string * option string)%type.

(** The row has the fields of the event, and its metadata column is the text of
    a JSON object with exactly the entries of the metadata. *)
Definition records (r : audit_row) (e : AuditEvent) : Prop :=
  let '(uid, ty, ip, ua, meta) := r in
  uid = ae_UserID e ∧ ty = audit_event_string (ae_EventType e) ∧ ip = ae_IPAddress e ∧
  ua = ae_UserAgent e ∧
  match meta with
  | None => ae_Metadata e = ∅
  | Some text => flat_object text (LStr <$> ae_Metadata e)
  end.

(** Requests are protocol buffers, whose strings are UTF-8. *)
Definition text_event (j : job) : Prop :=
  match j with
  | JAudit e => map_Forall (λ k v, valid_utf8 k ∧ valid_utf8 v) (ae_Metadata e)
  | JHook _ => True
  end.

Lemma Marshal_map_go m :
  Marshal_map m = go_object (prod_map id LStr <$> merge_sort key_le (map_to_list m)).
Proof. unfold Marshal_map, go_object. by rewrite <-list_fmap_compose. Qed.

Lemma sorted_perm m : merge_sort key_le (map_to_list m) ≡ₚ map_to_list m.
Proof. apply merge_sort_Permutation. Qed.

Lemma keys_fmap {A B} (f : A → B) (l : list (string * A)) : (prod_map id f <$> l).*1 = l.*1.
Proof. induction l as [|[k x] l IH]; [done|]. csimpl. by rewrite IH. Qed.

Lemma list_to_map_perm_fmap m :
  list_to_map (prod_map id LStr <$> merge_sort key_le (map_to_list m)) =
  (LStr <$> m : gmap string lua_value).
Proof.
  rewrite list_to_map_fmap. f_equal. rewrite (list_to_map_proper _ (map_to_list m)).
  - apply list_to_map_to_list.
  - rewrite sorted_perm. apply NoDup_fst_map_to_list.
  - apply sorted_perm.
Qed.

Lemma Marshal_map_object m :
  map_Forall (λ k v, valid_utf8 k ∧ valid_utf8 v) m → m ≠ ∅ →
  flat_object (Marshal_map m) (LStr <$> m).
Proof.
  intros Hm Hne. rewrite Marshal_map_go, <-list_to_map_perm_fmap. apply go_flat. split_and!.
  - apply Forall_fmap. rewrite sorted_perm. apply Forall_forall. intros [k v] Hk%elem_of_map_to_list.
    exact (Hm k v Hk).
  - rewrite keys_fmap, sorted_perm. apply NoDup_fst_map_to_list.
  - intros Hnil%fmap_nil_inv. pose proof (sorted_perm m) as Hp. rewrite Hnil in Hp.
    symmetry in Hp. apply Permutation_nil_r in Hp. by apply map_to_list_empty_iff in Hp.
Qed.

(** One job: at most one row, and one if it is reported as done. *)
Definition performed (j : job) (o : job_outcome) (r : option audit_row) : Prop :=
  match j with
  | JAudit e => (o = JobDone → is_Some r) ∧ (∀ row, r = Some row → records row e)
  | JHook _ => r = None ∧ (svc_hook s = true → o = JobDone)
  end.

Context `{PgUuid}.

Definition with_rows (rows : list audit_row) (d : tables) : tables :=
  Tables (t_users d) (t_sess d) (t_ever d) (t_audit d ++ rows).

Lemma meta_records e :
  text_event (JAudit e) →
  records (ae_UserID e, audit_event_string (ae_EventType e), ae_IPAddress e, ae_UserAgent e,
           if (0 <? size (ae_Metadata e))%nat then Some (Marshal_map (ae_Metadata e)) else None) e.
Proof.
  intros Ht. split_and!; try done. destruct (Nat.ltb_spec 0 (size (ae_Metadata e))) as [Hs|Hs].
  - apply Marshal_map_object; [done|]. intros He. rewrite He, map_size_empty in Hs. lia.
  - apply map_size_empty_inv. lia.
Qed.

Lemma with_rows_nil d : with_rows [] d = d.
Proof. destruct d. unfold with_rows. simpl. by rewrite app_nil_r. Qed.

Lemma perform_ok j st st' o :
  text_event j → rexec pg_spec (perform j) st st' o →
  ∃ r, performed j o r ∧ committed st' = with_rows (option_list r) (committed st) ∧
    working st' = working st.
Proof.
  intros Ht. destruct j as [e|h].
  - intros (x & st1 & [Hans Hw] & Hex). pose proof (meta_records e Ht) as Hrec.
    destruct x as [n|err]; destruct Hex as [-> ->].
    + destruct Hans as (rows & [-> ->] & _). eexists (Some _).
      split_and!; [by split; [eauto|intros ? [= <-]]|done..].
    + destruct Hans as [_ [->|(rows & -> & ->)]].
      * exists None. by rewrite with_rows_nil.
      * eexists (Some _). split_and!; [by split; [eauto|intros ? [= <-]]|done..].
  - intros [-> ->]. exists None. rewrite with_rows_nil. split_and!; [split; [done|]|done..].
    simpl. by intros ->.
Qed.

(** C34: The goroutines of a run write the audit trail: each event appends at most
    one row, and appends one whenever no error was logged for it; the row has
    the event's user, type, address and agent, and the metadata column is a JSON
    object with exactly its metadata.  Nothing else in the database changes, and
    the production hook neither fails nor panics. *)
Theorem audit_trail js st st' os :
  rexec pg_spec (perform_all js) st st' os → Forall text_event js →
  ∃ rs, Forall3 performed js os rs ∧
    committed st' = with_rows (omap id rs) (committed st) ∧ working st' = working st.
Proof.
  revert st os; induction js as [|j js IH]; intros st os; simpl.
  { intros [-> ->] _. exists []. rewrite with_rows_nil. split_and!; [constructor|done..]. }
  intros (st1 & o & Ho & (st2 & os' & Hos & [-> ->])%rexec_bind)%rexec_bind [Hj Hjs]%Forall_cons.
  destruct (perform_ok _ _ _ _ Hj Ho) as (r & Hr & Hc & Hw).
  destruct (IH _ _ Hos Hjs) as (rs & Hrs & Hc' & Hw').
  exists (r :: rs). split_and!; [by constructor| |by rewrite Hw', Hw].
  rewrite Hc', Hc. unfold with_rows. simpl. rewrite <-app_assoc. by destruct r.
Qed.
End jobs.
