(* ===== verification/Jwt.v ===== *)
(** * Access tokens ([internal/adapters/token/jwt/jwt.go])

    The three token managers.  The JWT library and the signature schemes are
    not part of the repository: [Jwt] and [JwtLib] have them as parameters, and
    [JwtOk] states what the library documents (the method is the one the header
    names; the key comes from the key function; then the signature, then the
    claims are checked; dates in a token are whole seconds). *)

From Stdlib Require Import Ascii String.
From S2P Require Import Prelude GoStd Ports JsonProofs World.
Open Scope Z_scope.

(** ** The library *)

(** The Go types of the signing methods. *)
Inductive method_type :=
| SigningMethodHMAC
| SigningMethodRSA
| SigningMethodRSAPSS
| SigningMethodECDSA
| SigningMethodEd25519
| SigningMethodNone.

#[global] Instance method_type_eq_dec : EqDecision method_type.
Proof. solve_decision. Defined.

Record method := Method { m_alg : string; m_type : method_type }.

Definition SigningMethodHS256 : method := Method "HS256" SigningMethodHMAC.
Definition SigningMethodRS256 : method := Method "RS256" SigningMethodRSA.
Definition SigningMethodES256 : method := Method "ES256" SigningMethodECDSA.

(** The custom claims and those of [RegisteredClaims] that are set or checked. *)
Record jwtClaims := {
  c_UserID : string;
  c_Email : string;
  c_Roles : list string;
  c_Subject : string;
  c_Issuer : string;
  c_IssuedAt : option time;
  c_ExpiresAt : option time;
  c_NotBefore : option time
}.

Definition toPorts (c : jwtClaims) : Claims :=
  {| claims_UserID := c_UserID c; claims_Email := c_Email c; claims_Roles := c_Roles c |}.

(** The keys of the signature schemes. *)
Class Jwt := {
  rsa_PrivateKey : Type;
  rsa_PublicKey : Type;
  ecdsa_PrivateKey : Type;
  ecdsa_PublicKey : Type;
  rsa_Public : rsa_PrivateKey → rsa_PublicKey;
  ecdsa_Public : ecdsa_PrivateKey → ecdsa_PublicKey
}.

(** The keys a method can be given ([any] in Go). *)
Inductive key `{Jwt} :=
| KSecret (b : list Z)
| KRsaPriv (k : rsa_PrivateKey)
| KRsaPub (k : rsa_PublicKey)
| KEcdsaPriv (k : ecdsa_PrivateKey)
| KEcdsaPub (k : ecdsa_PublicKey).

(** The options of the parser that the code sets. *)
Record parser_options := {
  po_ExpirationRequired : bool;
  po_Issuer : option string
}.

(** [*jwt.Token], as far as it is read: the claims, when they are [*jwtClaims],
    and whether the token is valid. *)
Record Token := { t_Claims : option jwtClaims; t_Valid : bool }.

(** [jwt.NewNumericDate], [NewWithClaims] with [SignedString], and
    [ParseWithClaims] at a time. *)
Class JwtLib `{Jwt} := {
  NewNumericDate : time → time;
  SignedString : method → key → jwtClaims → result string;
  ParseWithClaims : time → string → (method → result key) → parser_options → result Token
}.

Section managers.
Context `{JwtLib}.

(** ** Helpers *)

Definition issuer : string := "auth-service".

(** The clock is read twice. *)
Definition signToken (now1 now2 : time) (m : method) (k : key) (userID email : string)
    (roles : list string) (ttl : duration) : result string :=
  let claims :=
    {| c_UserID := userID; c_Email := email; c_Roles := roles; c_Subject := userID;
       c_Issuer := issuer; c_IssuedAt := Some (NewNumericDate now1);
       c_ExpiresAt := Some (NewNumericDate (time_Add now2 ttl)); c_NotBefore := None |} in
  match SignedString m k claims with
  | Err err => Err (ErrorfW "sign token" err)
  | Ok signed => Ok signed
  end.

Definition parseToken (now : time) (tokenStr : string) (keyFunc : method → result key)
    : result Claims :=
  match ParseWithClaims now tokenStr keyFunc
          {| po_ExpirationRequired := true; po_Issuer := Some issuer |} with
  | Err err => Err (ErrorfW "parse token" err)
  | Ok t =>
      match t_Claims t with
      | Some claims => if t_Valid t then Ok (toPorts claims) else Err (Errorf "invalid token claims")
      | None => Err (Errorf "invalid token claims")
      end
  end.

Definition unexpected (m : method) : error := Errorf ("unexpected signing method: " +:+ m_alg m).

(** ** Managers *)

Record HS256Manager := { hs_secret : list Z; hs_accessTTL : duration }.
Record RS256Manager := { rs_priv : rsa_PrivateKey; rs_accessTTL : duration }.
Record ES256Manager := { es_priv : ecdsa_PrivateKey; es_accessTTL : duration }.

(** [None] is a panic. *)
Definition NewHS256Manager (secret : string) (accessTTL : duration) : option HS256Manager :=
  if (String.length secret <? 32)%nat then None
  else Some {| hs_secret := bytes_of_string secret; hs_accessTTL := accessTTL |}.
Definition New : string → duration → option HS256Manager := NewHS256Manager.
Definition NewRS256Manager (priv : rsa_PrivateKey) (accessTTL : duration) : RS256Manager :=
  {| rs_priv := priv; rs_accessTTL := accessTTL |}.
Definition NewES256Manager (priv : ecdsa_PrivateKey) (accessTTL : duration) : ES256Manager :=
  {| es_priv := priv; es_accessTTL := accessTTL |}.

Definition hs_GenerateAccessToken (m : HS256Manager) (now1 now2 : time) (userID email : string)
    (roles : list string) : result string :=
  signToken now1 now2 SigningMethodHS256 (KSecret (hs_secret m)) userID email roles (hs_accessTTL m).
Definition hs_ValidateAccessToken (m : HS256Manager) (now : time) (tokenStr : string) : result Claims :=
  parseToken now tokenStr (λ t,
    if bool_decide (m_type t = SigningMethodHMAC) then Ok (KSecret (hs_secret m))
    else Err (unexpected t)).

Definition rs_GenerateAccessToken (m : RS256Manager) (now1 now2 : time) (userID email : string)
    (roles : list string) : result string :=
  signToken now1 now2 SigningMethodRS256 (KRsaPriv (rs_priv m)) userID email roles (rs_accessTTL m).
Definition rs_ValidateAccessToken (m : RS256Manager) (now : time) (tokenStr : string) : result Claims :=
  parseToken now tokenStr (λ t,
    if bool_decide (m_type t = SigningMethodRSA) then Ok (KRsaPub (rsa_Public (rs_priv m)))
    else Err (unexpected t)).

Definition es_GenerateAccessToken (m : ES256Manager) (now1 now2 : time) (userID email : string)
    (roles : list string) : result string :=
  signToken now1 now2 SigningMethodES256 (KEcdsaPriv (es_priv m)) userID email roles (es_accessTTL m).
Definition es_ValidateAccessToken (m : ES256Manager) (now : time) (tokenStr : string) : result Claims :=
  parseToken now tokenStr (λ t,
    if bool_decide (m_type t = SigningMethodECDSA) then Ok (KEcdsaPub (ecdsa_Public (es_priv m)))
    else Err (unexpected t)).

(** [ports.AccessTokenManager]: one of the three. *)
Inductive manager :=
| MHS (m : HS256Manager)
| MRS (m : RS256Manager)
| MES (m : ES256Manager).

Definition GenerateAccessToken (m : manager) : time → time → string → string → list string → result string :=
  match m with
  | MHS m => hs_GenerateAccessToken m
  | MRS m => rs_GenerateAccessToken m
  | MES m => es_GenerateAccessToken m
  end.
Definition ValidateAccessToken (m : manager) : time → string → result Claims :=
  match m with
  | MHS m => hs_ValidateAccessToken m
  | MRS m => rs_ValidateAccessToken m
  | MES m => es_ValidateAccessToken m
  end.

(** ** What a manager signs and accepts *)

Definition signing_method (m : manager) : method :=
  match m with MHS _ => SigningMethodHS256 | MRS _ => SigningMethodRS256 | MES _ => SigningMethodES256 end.
Definition signing_key (m : manager) : key :=
  match m with
  | MHS m => KSecret (hs_secret m) | MRS m => KRsaPriv (rs_priv m) | MES m => KEcdsaPriv (es_priv m)
  end.
Definition verification_key (m : manager) : key :=
  match m with
  | MHS m => KSecret (hs_secret m)
  | MRS m => KRsaPub (rsa_Public (rs_priv m))
  | MES m => KEcdsaPub (ecdsa_Public (es_priv m))
  end.
Definition access_ttl (m : manager) : duration :=
  match m with MHS m => hs_accessTTL m | MRS m => rs_accessTTL m | MES m => es_accessTTL m end.

(** The three managers differ in their method and keys only. *)
Lemma Generate_eq m now1 now2 uid email roles :
  GenerateAccessToken m now1 now2 uid email roles =
  signToken now1 now2 (signing_method m) (signing_key m) uid email roles (access_ttl m).
Proof. by destruct m. Qed.
Lemma Validate_eq m now tok :
  ValidateAccessToken m now tok =
  parseToken now tok (λ t, if bool_decide (m_type t = m_type (signing_method m))
                           then Ok (verification_key m) else Err (unexpected t)).
Proof. by destruct m. Qed.

(** ** What the library documents *)

Definition key_pair (k pk : key) : Prop :=
  match k with
  | KSecret b => pk = KSecret b
  | KRsaPriv k => pk = KRsaPub (rsa_Public k)
  | KEcdsaPriv k => pk = KEcdsaPub (ecdsa_Public k)
  | _ => False
  end.

(** A date JSON keeps: whole seconds, below 2^53. *)
Definition numeric_date (t : time) : Prop := ∃ s, 0 ≤ s < 2 ^ 53 ∧ t = s * second.

Definition plain_claims (c : jwtClaims) : Prop :=
  Forall valid_utf8 (c_UserID c :: c_Email c :: c_Subject c :: c_Issuer c :: c_Roles c) ∧
  ∀ d, c_IssuedAt c = Some d ∨ c_ExpiresAt c = Some d ∨ c_NotBefore c = Some d → numeric_date d.

(** The claims pass the validator. *)
Definition claims_pass (now : time) (o : parser_options) (c : jwtClaims) : Prop :=
  (∀ exp, c_ExpiresAt c = Some exp → now < exp) ∧
  (po_ExpirationRequired o = true → c_ExpiresAt c ≠ None) ∧
  (∀ nbf, c_NotBefore c = Some nbf → nbf ≤ now) ∧
  (∀ iss, po_Issuer o = Some iss → c_Issuer c = iss).
End managers.

(** [jwt_Unverified] is what a token says, [jwt_Verify] whether its signature
    holds under a key.  A token that was signed is read back as it was, and its
    signature holds under the other key of the pair. *)
Class JwtOk `{JwtLib} := {
  jwt_Unverified : string → option (method * jwtClaims);
  jwt_Verify : method → key → string → Prop;
  NewNumericDate_seconds t : NewNumericDate t = t / second * second;
  ParseWithClaims_ok now tok kf o t :
    ParseWithClaims now tok kf o = Ok t ↔
    ∃ m c k, jwt_Unverified tok = Some (m, c) ∧ kf m = Ok k ∧ jwt_Verify m k tok ∧
      claims_pass now o c ∧ t = {| t_Claims := Some c; t_Valid := true |};
  SignedString_ok m k pk c tok :
    key_pair k pk → plain_claims c → SignedString m k c = Ok tok →
    jwt_Unverified tok = Some (m, c) ∧ jwt_Verify m pk tok
}.

Section lifetime.
Context `{JwtOk}.

Lemma parseToken_ok now tok kf cl :
  parseToken now tok kf = Ok cl ↔
  ∃ m c k, jwt_Unverified tok = Some (m, c) ∧ kf m = Ok k ∧ jwt_Verify m k tok ∧
    claims_pass now {| po_ExpirationRequired := true; po_Issuer := Some issuer |} c ∧
    cl = toPorts c.
Proof.
  unfold parseToken. split.
  - destruct (ParseWithClaims now tok kf _) as [t|] eqn:Hp; [|done].
    apply ParseWithClaims_ok in Hp as (m & c & k & ? & ? & ? & ? & ->). intros [= <-]. eauto 10.
  - intros (m & c & k & ? & ? & ? & ? & ->).
    by rewrite (proj2 (ParseWithClaims_ok now tok kf _ {| t_Claims := Some c; t_Valid := true |}))
      by eauto 10.
Qed.

Lemma claims_pass_iff now c :
  claims_pass now {| po_ExpirationRequired := true; po_Issuer := Some issuer |} c ↔
  (∃ exp, c_ExpiresAt c = Some exp ∧ now < exp) ∧
  (∀ nbf, c_NotBefore c = Some nbf → nbf ≤ now) ∧ c_Issuer c = issuer.
Proof. unfold claims_pass. simpl. destruct (c_ExpiresAt c); naive_solver. Qed.

(** A token that holds claims [cl] at [now]. *)
Definition token_valid (m : manager) (now : time) (tok : string) (cl : Claims) : Prop :=
  ∃ meth c, jwt_Unverified tok = Some (meth, c) ∧ m_type meth = m_type (signing_method m) ∧
    jwt_Verify meth (verification_key m) tok ∧
    (∃ exp, c_ExpiresAt c = Some exp ∧ now < exp) ∧
    (∀ nbf, c_NotBefore c = Some nbf → nbf ≤ now) ∧ c_Issuer c = issuer ∧ cl = toPorts c.

Lemma Validate_token_valid m now tok cl :
  ValidateAccessToken m now tok = Ok cl ↔ token_valid m now tok cl.
Proof.
  rewrite Validate_eq, parseToken_ok. setoid_rewrite claims_pass_iff. split.
  - intros (meth & c & k & Hu & Hk & Hv & (He & Hn & Hi) & ->). case_bool_decide; simplify_eq.
    by exists meth, c.
  - intros (meth & c & Hu & Ht & Hv & He & Hn & Hi & ->). exists meth, c, (verification_key m).
    by rewrite bool_decide_eq_true_2.
Qed.

(** C18: A token manager accepts exactly the tokens that are signed by a method of
    its own family under its own key, that have an expiry in the future and no
    later start, and that name this service as their issuer; it returns their
    user, email and roles.  In particular no token makes it check an HMAC with
    a public key, and none without an expiry is accepted. *)
Theorem ValidateAccessToken_iff m now tok cl :
  ValidateAccessToken m now tok = Ok cl ↔
  ∃ meth c, jwt_Unverified tok = Some (meth, c) ∧ m_type meth = m_type (signing_method m) ∧
    jwt_Verify meth (verification_key m) tok ∧
    (∃ exp, c_ExpiresAt c = Some exp ∧ now < exp) ∧
    (∀ nbf, c_NotBefore c = Some nbf → nbf ≤ now) ∧ c_Issuer c = issuer ∧ cl = toPorts c.
Proof. apply Validate_token_valid. Qed.

(** ** What is signed is accepted *)

Lemma NewNumericDate_date t :
  0 ≤ t < 2 ^ 53 * second → numeric_date (NewNumericDate t).
Proof.
  intros Ht. exists (t / second). rewrite NewNumericDate_seconds. split; [|done].
  split; [apply Z.div_pos; unfold second; lia|apply Z.div_lt_upper_bound; unfold second in *; lia].
Qed.

(** C19: The token [GenerateAccessToken] makes is accepted by the same manager,
    with the user, email and roles it was made for, until its expiry and never
    from then on; the expiry is the time to live after the clock was read,
    rounded down to a second. *)
Theorem access_token_lifetime m now1 now2 uid email roles tok :
  GenerateAccessToken m now1 now2 uid email roles = Ok tok →
  Forall valid_utf8 (uid :: email :: roles) →
  0 ≤ now1 < 2 ^ 53 * second → 0 ≤ now2 + access_ttl m < 2 ^ 53 * second →
  ∃ exp, now2 + access_ttl m - second < exp ≤ now2 + access_ttl m ∧
    ∀ now, (now < exp → ValidateAccessToken m now tok =
              Ok {| claims_UserID := uid; claims_Email := email; claims_Roles := roles |}) ∧
           (exp ≤ now → ∀ cl, ValidateAccessToken m now tok ≠ Ok cl).
Proof.
  rewrite Generate_eq. unfold signToken. set (c := Build_jwtClaims _ _ _ _ _ _ _ _).
  intros Hgen Htext H1' H2'. destruct (SignedString _ _ c) as [tok'|] eqn:Hs; [|done].
  injection Hgen as ->.
  assert (plain_claims c) as Hplain.
  { apply Forall_cons in Htext as [Hu Htext]. apply Forall_cons in Htext as [He Hr]. split.
    - repeat (constructor; [done || (unfold valid_utf8; by_vm)|]). done.
    - intros d [[= <-]|[[= <-]|?]]; [by apply NewNumericDate_date..|done]. }
  destruct (SignedString_ok (signing_method m) (signing_key m) (verification_key m) c tok) as [Hu Hv];
    [by destruct m|done..|].
  exists (NewNumericDate (now2 + access_ttl m)). split.
  { rewrite NewNumericDate_seconds. pose proof (Z.div_mod (now2 + access_ttl m) second ltac:(done)).
    pose proof (Z.mod_pos_bound (now2 + access_ttl m) second ltac:(done)). lia. }
  intros now. rewrite Validate_eq. split.
  - intros Hnow. apply parseToken_ok. exists (signing_method m), c, (verification_key m).
    rewrite bool_decide_eq_true_2 by done. split_and!; try done. apply claims_pass_iff.
    split; [by eexists|done].
  - intros Hexp cl (m' & c' & k & Hu' & _ & _ & Hc & _)%parseToken_ok.
    rewrite Hu in Hu'. injection Hu' as <- <-. apply claims_pass_iff in Hc as [(exp & [= <-] & ?) _].
    unfold time_Add in *. lia.
Qed.
End lifetime.

(** The managers as the service sees them. *)
Definition token_manager `{JwtLib} (m : manager) : TokenManager :=
  {| tm_Generate := GenerateAccessToken m; tm_Validate := ValidateAccessToken m |}.
