(* ===== verification/App.v ===== *)
(** * Putting the service together ([internal/app/app.go])

    [buildTokenManager] with its key files, the wiring of [New], and the chain
    of interceptors in front of the service: logging, then rate limiting, then
    the handler.  Files, PEM and X.509 are parameters. *)

From Stdlib Require Import Ascii String.
From S2P Require Import Prelude GoStd Ports Validate Crypto Service Spec World Redis Bruteforce RateLimit.
From S2P Require Import Jwt.
Open Scope Z_scope.

(** ** Configuration ([internal/config/config.go]) *)

Record JWTConfig := {
  cfg_Secret : string;
  cfg_AccessTTL : duration;
  cfg_RefreshTTL : duration;
  cfg_Algorithm : string;
  cfg_PrivateKeyPath : string
}.
Record BruteForceConfig := {
  cfg_MaxAttempts : Z;
  cfg_Window : duration;
  cfg_LockoutTTL : duration
}.
Record RateLimitConfig := {
  cfg_GlobalRPM : Z;
  cfg_LoginRPM : Z
}.

(** ** Key files *)

(** What [x509.ParsePKCS8PrivateKey] can return, with the name of another type. *)
Inductive pkcs8_key `{Jwt} :=
| PKCS8_RSA (k : rsa_PrivateKey)
| PKCS8_ECDSA (k : ecdsa_PrivateKey)
| PKCS8_other (type : string).

Class KeyFiles `{Jwt} := {
  os_ReadFile : string → result (list Z);
  pem_Decode : list Z → option (list Z);
  x509_ParsePKCS1PrivateKey : list Z → result rsa_PrivateKey;
  x509_ParseECPrivateKey : list Z → result ecdsa_PrivateKey;
  x509_ParsePKCS8PrivateKey : list Z → result pkcs8_key
}.

Section keys.
Context `{KeyFiles}.

Definition parseRSAKey (pemBytes : list Z) : result rsa_PrivateKey :=
  match pem_Decode pemBytes with
  | None => Err (Errorf "no PEM block found")
  | Some block =>
      match x509_ParsePKCS1PrivateKey block with
      | Ok k => Ok k
      | Err _ =>
          match x509_ParsePKCS8PrivateKey block with
          | Err err => Err (ErrorfW "parse RSA private key (PKCS1/PKCS8)" err)
          | Ok (PKCS8_RSA k) => Ok k
          | Ok (PKCS8_ECDSA _) => Err (Errorf "PEM key is not RSA (got *ecdsa.PrivateKey)")
          | Ok (PKCS8_other ty) => Err (Errorf ("PEM key is not RSA (got " +:+ ty +:+ ")"))
          end
      end
  end.

Definition parseECDSAKey (pemBytes : list Z) : result ecdsa_PrivateKey :=
  match pem_Decode pemBytes with
  | None => Err (Errorf "no PEM block found")
  | Some block =>
      match x509_ParseECPrivateKey block with
      | Ok k => Ok k
      | Err _ =>
          match x509_ParsePKCS8PrivateKey block with
          | Err err => Err (ErrorfW "parse ECDSA private key (EC/PKCS8)" err)
          | Ok (PKCS8_ECDSA k) => Ok k
          | Ok (PKCS8_RSA _) => Err (Errorf "PEM key is not ECDSA (got *rsa.PrivateKey)")
          | Ok (PKCS8_other ty) => Err (Errorf ("PEM key is not ECDSA (got " +:+ ty +:+ ")"))
          end
      end
  end.

(** [None] is a panic. *)
Definition buildTokenManager (cfg : JWTConfig) : option (result manager) :=
  let alg := cfg_Algorithm cfg in
  if bool_decide (alg = "") || bool_decide (alg = "hs256") then
    m ← NewHS256Manager (cfg_Secret cfg) (cfg_AccessTTL cfg); Some (Ok (MHS m))
  else if bool_decide (alg = "rs256") then
    Some match os_ReadFile (cfg_PrivateKeyPath cfg) with
         | Err err => Err (ErrorfW "read RSA key" err)
         | Ok keyBytes =>
             match parseRSAKey keyBytes with
             | Err err => Err (ErrorfW "parse RSA key" err)
             | Ok priv => Ok (MRS (NewRS256Manager priv (cfg_AccessTTL cfg)))
             end
         end
  else if bool_decide (alg = "es256") then
    Some match os_ReadFile (cfg_PrivateKeyPath cfg) with
         | Err err => Err (ErrorfW "read ECDSA key" err)
         | Ok keyBytes =>
             match parseECDSAKey keyBytes with
             | Err err => Err (ErrorfW "parse ECDSA key" err)
             | Ok priv => Ok (MES (NewES256Manager priv (cfg_AccessTTL cfg)))
             end
         end
  else Some (Err (Errorf ("unsupported JWT_ALGORITHM " +:+ alg))).

(** ** The application *)

(** The parts [New] makes and hands to the servers. *)
Record App {R : Type} := {
  app_service : AuthService;
  app_tokens : manager;
  app_guard : bruteforce.Guard R;
  app_globalLimiter : ratelimit.Limiter;
  app_loginLimiter : ratelimit.Limiter
}.
Arguments App R : clear implicits.

Definition New {R} (redisClient : R) (jwtCfg : JWTConfig) (bf : BruteForceConfig)
    (rl : RateLimitConfig) : option (result (App R)) :=
  tokenMgr ← buildTokenManager jwtCfg;
  Some match tokenMgr with
       | Err err => Err (ErrorfW "build token manager" err)
       | Ok tokenMgr =>
           Ok {| app_service := auth.New true true true (cfg_RefreshTTL jwtCfg);
                 app_tokens := tokenMgr;
                 app_guard := bruteforce.New redisClient (cfg_MaxAttempts bf) (cfg_Window bf)
                                (cfg_LockoutTTL bf);
                 app_globalLimiter := ratelimit.New (cfg_GlobalRPM rl) minute;
                 app_loginLimiter := ratelimit.New (cfg_LoginRPM rl) minute |}
       end.

(** ** Which configurations start *)

Definition hs_algorithm (cfg : JWTConfig) : Prop := cfg_Algorithm cfg = "" ∨ cfg_Algorithm cfg = "hs256".

(** The private key a file holds: in the scheme's own format or, failing that,
    in PKCS#8. *)
Definition rsa_key_in (path : string) (k : rsa_PrivateKey) : Prop :=
  ∃ text block, os_ReadFile path = Ok text ∧ pem_Decode text = Some block ∧
    (x509_ParsePKCS1PrivateKey block = Ok k ∨
     (∃ err, x509_ParsePKCS1PrivateKey block = Err err) ∧
     x509_ParsePKCS8PrivateKey block = Ok (PKCS8_RSA k)).
Definition ecdsa_key_in (path : string) (k : ecdsa_PrivateKey) : Prop :=
  ∃ text block, os_ReadFile path = Ok text ∧ pem_Decode text = Some block ∧
    (x509_ParseECPrivateKey block = Ok k ∨
     (∃ err, x509_ParseECPrivateKey block = Err err) ∧
     x509_ParsePKCS8PrivateKey block = Ok (PKCS8_ECDSA k)).

(** The token manager a configuration asks for. *)
Inductive configures (cfg : JWTConfig) : manager → Prop :=
| configures_hs :
    hs_algorithm cfg → (32 ≤ String.length (cfg_Secret cfg))%nat →
    configures cfg (MHS {| hs_secret := bytes_of_string (cfg_Secret cfg);
                           hs_accessTTL := cfg_AccessTTL cfg |})
| configures_rs k :
    cfg_Algorithm cfg = "rs256" → rsa_key_in (cfg_PrivateKeyPath cfg) k →
    configures cfg (MRS {| rs_priv := k; rs_accessTTL := cfg_AccessTTL cfg |})
| configures_es k :
    cfg_Algorithm cfg = "es256" → ecdsa_key_in (cfg_PrivateKeyPath cfg) k →
    configures cfg (MES {| es_priv := k; es_accessTTL := cfg_AccessTTL cfg |}).

Lemma parseRSAKey_iff path k :
  rsa_key_in path k ↔ ∃ text, os_ReadFile path = Ok text ∧ parseRSAKey text = Ok k.
Proof.
  unfold rsa_key_in, parseRSAKey. split.
  - intros (text & block & Hr & Hp & Hk). exists text. rewrite Hp. split; [done|].
    destruct Hk as [->|[[err ->] ->]]; done.
  - intros (text & Hr & Hk). exists text. repeat case_match; simplify_eq; eauto 10.
Qed.
Lemma parseECDSAKey_iff path k :
  ecdsa_key_in path k ↔ ∃ text, os_ReadFile path = Ok text ∧ parseECDSAKey text = Ok k.
Proof.
  unfold ecdsa_key_in, parseECDSAKey. split.
  - intros (text & block & Hr & Hp & Hk). exists text. rewrite Hp. split; [done|].
    destruct Hk as [->|[[err ->] ->]]; done.
  - intros (text & Hr & Hk). exists text. repeat case_match; simplify_eq; eauto 10.
Qed.

Lemma buildTokenManager_panics cfg :
  buildTokenManager cfg = None ↔ hs_algorithm cfg ∧ (String.length (cfg_Secret cfg) < 32)%nat.
Proof.
  unfold buildTokenManager, NewHS256Manager, hs_algorithm.
  destruct (Nat.ltb_spec (String.length (cfg_Secret cfg)) 32);
    repeat case_bool_decide; simpl; split; naive_solver lia.
Qed.

Lemma buildTokenManager_ok cfg m :
  buildTokenManager cfg = Some (Ok m) ↔ configures cfg m.
Proof.
  unfold buildTokenManager, NewHS256Manager. split.
  - destruct (Nat.ltb_spec (String.length (cfg_Secret cfg)) 32);
      repeat case_bool_decide; simpl; intros; repeat case_match; simplify_eq;
      constructor; unfold hs_algorithm; auto;
      (apply parseRSAKey_iff || apply parseECDSAKey_iff); eauto.
  - intros [Ha Hl|k Ha (text & -> & ->)%parseRSAKey_iff|k Ha (text & -> & ->)%parseECDSAKey_iff].
    + rewrite (proj2 (Nat.ltb_ge _ _)) by done. destruct Ha as [-> | ->]; done.
    + by rewrite Ha.
    + by rewrite Ha.
Qed.

(** The application starts exactly on the configurations whose token manager
    can be made: HS256 (also the default) with a secret of 32 bytes or more,
    RS256 or ES256 with a file that holds a key of that scheme.  It then signs
    with that key, counts failures and requests by the configured limits (per
    minute) on the Redis it was given, and audits, locks and fires hooks.  A
    shorter secret, and nothing else, makes it panic; it never falls back to
    another algorithm. *)
Lemma New_spec {R} (redis : R) jwtCfg bf rl :
  (New redis jwtCfg bf rl = None ↔
     hs_algorithm jwtCfg ∧ (String.length (cfg_Secret jwtCfg) < 32)%nat) ∧
  (∀ app, New redis jwtCfg bf rl = Some (Ok app) ↔
     configures jwtCfg (app_tokens app) ∧
     svc_auditStore (app_service app) = true ∧ svc_hook (app_service app) = true ∧
     svc_bruteGuard (app_service app) = true ∧
     svc_refreshTTL (app_service app) = cfg_RefreshTTL jwtCfg ∧
     app_guard app = bruteforce.New redis (cfg_MaxAttempts bf) (cfg_Window bf) (cfg_LockoutTTL bf) ∧
     app_globalLimiter app = ratelimit.New (cfg_GlobalRPM rl) minute ∧
     app_loginLimiter app = ratelimit.New (cfg_LoginRPM rl) minute).
Proof.
  split; [|intros app].
  - rewrite <-buildTokenManager_panics. unfold New.
    destruct (buildTokenManager jwtCfg) as [[]|]; naive_solver.
  - rewrite <-buildTokenManager_ok. unfold New. split.
    + destruct (buildTokenManager jwtCfg) as [[]|]; intros; simplify_eq/=; done.
    + destruct app as [[] ?]; simpl. intros (-> & ?). simpl. naive_solver.
Qed.
End keys.
Arguments App {_} R.

(** ** The chain of interceptors *)

(** Calls of the whole server: those of the service to its ports, and those of
    the interceptors. *)
Inductive appE : Type → Type :=
| APort {X} (e : portE X) : appE X
| AAllowGlobal (key : string) : appE (bool * option error)
| AAllowLogin (key : string) : appE (bool * option error)
| AClock : appE time
| AWarn (msg : string) : appE unit
| AInfo (method ip : string) (dur : duration) (status : option code) : appE unit.

Fixpoint lift {A} (p : prog portE A) : prog appE A :=
  match p with
  | Ret a => Ret a
  | Vis e k => Vis (APort e) (λ x, lift (k x))
  end.

(** An interceptor in front of a handler. *)
Fixpoint with_handler {H A} (h : prog appE (reply H)) (p : prog (interE H) A) : prog appE A :=
  match p with
  | Ret a => Ret a
  | Vis e k =>
      match e in interE _ X return (X → prog appE A) → prog appE A with
      | AllowGlobal key => λ k, Vis (AAllowGlobal key) k
      | AllowLogin key => λ k, Vis (AAllowLogin key) k
      | Handler => λ k, bind h k
      | Clock => λ k, Vis AClock k
      | Warn msg => λ k, Vis (AWarn msg) k
      | Info m ip d st => λ k, Vis (AInfo m ip d st) k
      end (λ x, with_handler h (k x))
  end.

(** The names of the methods ([auth_grpc.pb.go]). *)
Definition FullMethod (req : request) : string :=
  "/api.AuthService/" +:+
  match req with
  | ReqRegister _ => "Register"
  | ReqLogin _ => "Login"
  | ReqValidateToken _ => "ValidateToken"
  | ReqRefreshToken _ => "RefreshToken"
  | ReqLogout _ => "Logout"
  | ReqLogoutAll => "LogoutAll"
  | ReqListSessions => "ListSessions"
  | ReqRevokeSession _ => "RevokeSession"
  | ReqChangePassword _ => "ChangePassword"
  | ReqRequestPasswordReset _ => "RequestPasswordReset"
  | ReqVerifyResetCode _ _ => "VerifyResetCode"
  | ReqResetPassword _ _ => "ResetPassword"
  end.

Section chain.
Context `{Argon2, UnicodeTables} (s : AuthService) (globalLimiter loginLimiter : ratelimit.Limiter).

(** [grpc.ChainUnaryInterceptor(Logging, RateLimit)] around the service. *)
Definition unary (ctx : Ctx) (req : request) : prog appE (reply response) :=
  with_handler
    (with_handler (lift (serve s ctx req)) (RateLimit globalLimiter loginLimiter ctx (FullMethod req)))
    (Logging ctx (FullMethod req)).

(** The calls of a trace: to the ports, to the limiters, and the log lines. *)
Definition port_call (c : callrec appE) : option (callrec portE) :=
  match call_op c in appE X return X → option (callrec portE) with
  | APort e => λ x, Some (Call e x)
  | _ => λ _, None
  end (call_res c).
Definition limit_call (c : callrec appE) : option ((string * string) * (bool * option error)) :=
  match call_op c in appE X return X → option ((string * string) * (bool * option error)) with
  | AAllowGlobal key => λ a, Some (("global", key), a)
  | AAllowLogin key => λ a, Some (("login", key), a)
  | _ => λ _, None
  end (call_res c).
Definition log_call (c : callrec appE) : option (string * string * option code) :=
  match call_op c with
  | AInfo m ip _ st => Some (m, ip, st)
  | _ => None
  end.

Lemma exec_lift {A} (p : prog portE A) tr r :
  exec (lift p) tr r →
  exec p (omap port_call tr) r ∧ omap limit_call tr = [] ∧ omap log_call tr = [].
Proof.
  revert tr; induction p as [a|X e k IH]; intros tr; simpl.
  - by intros [-> ->].
  - intros (x & tr' & -> & (H1 & H2 & H3)%IH). csimpl. split_and!; [|done..].
    eexists _, _. split; [reflexivity|done].
Qed.

(** The name in the access log. *)
Lemma shortMethod_full req :
  shortMethod (FullMethod req) =
  match req with
  | ReqRegister _ => "Register" | ReqLogin _ => "Login" | ReqValidateToken _ => "ValidateToken"
  | ReqRefreshToken _ => "RefreshToken" | ReqLogout _ => "Logout" | ReqLogoutAll => "LogoutAll"
  | ReqListSessions => "ListSessions" | ReqRevokeSession _ => "RevokeSession"
  | ReqChangePassword _ => "ChangePassword" | ReqRequestPasswordReset _ => "RequestPasswordReset"
  | ReqVerifyResetCode _ _ => "VerifyResetCode" | ReqResetPassword _ _ => "ResetPassword"
  end.
Proof. by destruct req. Qed.

(** The methods under the stricter limit. *)
Definition sensitive (req : request) : bool :=
  match req with
  | ReqRegister _ | ReqLogin _ | ReqChangePassword _ | ReqRequestPasswordReset _
  | ReqVerifyResetCode _ _ | ReqResetPassword _ _ => true
  | _ => false
  end.

Lemma sensitive_spec req :
  default false (sensitiveMethods !! shortMethod (FullMethod req)) = sensitive req.
Proof. by destruct req. Qed.

Definition status_of {A} (r : reply A) : option code :=
  match r with Reply _ => None | Refuse st => Some (st_code st) end.

(** The limiters a request is put to, with the key each counts under. *)
Definition limits_asked (ctx : Ctx) (req : request) : list (string * string) :=
  ("global", extractIP ctx) ::
  if sensitive req then [("login", "auth:" +:+ extractIP ctx)] else [].

(** What the rate limiter lets through. *)
Lemma limited_exec ctx req tr r :
  exec (with_handler (lift (serve s ctx req))
          (RateLimit globalLimiter loginLimiter ctx (FullMethod req))) tr r →
  omap log_call tr = [] ∧
  ((omap port_call tr = [] ∧ (∃ m, r = Refuse (Status ResourceExhausted m)) ∧
    ∃ l, last (omap limit_call tr) = Some (l, (false, None))) ∨
   (exec (serve s ctx req) (omap port_call tr) r ∧
    Forall (λ a, a.2 ≠ (false, None)) (omap limit_call tr) ∧
    (omap limit_call tr).*1 = limits_asked ctx req)).
Proof.
  unfold RateLimit, rate_limit_login, limits_asked. rewrite sensitive_spec. intros Hex.
  repeat match type of Hex with
  | exec (with_handler _ (if sensitive req then _ else _)) _ _ => destruct (sensitive req)
  | exec (with_handler _ _) _ _ => progress simpl in Hex
  | ∃ x : bool * option error, _ =>
      destruct Hex as ([[] [?|]] & ? & -> & Hex); cbv iota in Hex
  | ∃ x : unit, _ => destruct Hex as ([] & ? & -> & Hex)
  end.
  all: first
    [ destruct Hex as [-> ->]; split; [done|]; left; split_and!; [done|by eexists|by eexists]
    | apply exec_bind in Hex as (tr1 & tr2 & y & -> & (Hs & Hl1 & Hl2)%exec_lift & [-> ->]);
      rewrite app_nil_r; csimpl; rewrite Hl1, Hl2; split; [done|]; right;
      split_and!; [done|repeat (apply Forall_cons; split; [by intros [=]|]); apply Forall_nil; exact I|done] ].
Qed.

Lemma unary_exec ctx req tr r :
  exec (unary ctx req) tr r →
  ∃ tr1 t0 t1 d, tr = Call AClock t0 :: tr1 ++
      [Call AClock t1; Call (AInfo (shortMethod (FullMethod req)) (peerIP ctx) d (status_of r)) tt] ∧
    exec (with_handler (lift (serve s ctx req))
            (RateLimit globalLimiter loginLimiter ctx (FullMethod req))) tr1 r.
Proof.
  unfold unary. generalize (with_handler (lift (serve s ctx req))
    (RateLimit globalLimiter loginLimiter ctx (FullMethod req))). intros inner.
  intros (t0 & tr1 & -> & Hex). simpl in Hex.
  apply exec_bind in Hex as (tr2 & tr3 & r' & -> & Hin & Hex).
  destruct Hex as (t1 & tr4 & -> & ([] & tr5 & -> & [-> ->])). by eexists _, _, _, _.
Qed.

(** Nothing is returned that the service has not answered. *)
Lemma unary_reply ctx req tr resp :
  exec (unary ctx req) tr (Reply resp) → exec (serve s ctx req) (omap port_call tr) (Reply resp).
Proof.
  intros (tr1 & t0 & t1 & d & -> & [_ Hlim]%limited_exec)%unary_exec. csimpl.
  rewrite omap_app. csimpl. rewrite app_nil_r.
  destruct Hlim as [(_ & [m Hm] & _)|[Hex _]]; [discriminate|done].
Qed.

(** C20: A request to the server goes through both limiters before it reaches the
    service: when one of them denies it, the answer is ResourceExhausted and the
    service makes no call at all; otherwise the service runs exactly as it would
    alone and its answer is returned unchanged.  Requests
    are counted by client address, and only the six sensitive methods are put to
    the stricter limit; a limiter that fails lets them through.  Either way one
    line with the method, the peer and the resulting status is logged, at the
    end. *)
Theorem unary_chain ctx req tr r :
  exec (unary ctx req) tr r →
  ((omap port_call tr = [] ∧ (∃ m, r = Refuse (Status ResourceExhausted m)) ∧
    ∃ l, last (omap limit_call tr) = Some (l, (false, None))) ∨
   (exec (serve s ctx req) (omap port_call tr) r ∧
    Forall (λ a, a.2 ≠ (false, None)) (omap limit_call tr) ∧
    (omap limit_call tr).*1 = limits_asked ctx req)) ∧
  omap log_call tr = [(shortMethod (FullMethod req), peerIP ctx, status_of r)] ∧
  (last tr ≫= log_call) = Some (shortMethod (FullMethod req), peerIP ctx, status_of r).
Proof.
  intros (tr1 & t0 & t1 & d & -> & [Hlog Hlim]%limited_exec)%unary_exec. csimpl.
  rewrite !omap_app, Hlog. csimpl. rewrite !app_nil_r. split; [exact Hlim|]. split; [done|].
  by rewrite app_comm_cons, last_app_cons.
Qed.
End chain.
