(* ===== verification/Throttle.v ===== *)
(** * The server under load

    The chain of interceptors ([App.unary]) together with the limiters
    ([internal/lib/ratelimit]) and the Redis that counts for them: which of the
    requests of one client reach the service within one window.  [admitted] is
    the reference: two counters. *)

From Stdlib Require Import Ascii String.
From S2P Require Import Prelude GoStd Ports Validate Crypto Service Spec World Redis Bruteforce RateLimit Jwt App.
Import ratelimit.
Open Scope Z_scope.

(** ** The reference *)

Section reference.
Context (G L : Z).

(** Which requests are let through, after [n] requests and [m] sensitive ones
    that were put to the stricter limit; [q] says whether a request is
    sensitive. *)
Fixpoint admitted (n m : Z) (qs : list bool) : list bool :=
  match qs with
  | [] => []
  | q :: qs' =>
      let global := n + 1 <=? G in
      (global && (negb q || (m + 1 <=? L))) ::
      admitted (n + 1) (if global && q then m + 1 else m) qs'
  end.

Definition count (l : list bool) : Z := foldr (λ b n, if (b : bool) then n + 1 else n) 0 l.

Lemma admitted_all n m qs : count (admitted n m qs) ≤ Z.max 0 (G - n).
Proof.
  revert n m. induction qs as [|q qs IH]; intros n m; simpl; [lia|].
  specialize (IH (n + 1) (if (n + 1 <=? G) && q then m + 1 else m)).
  destruct (Z.leb_spec (n + 1) G); simpl in *; [|lia]. destruct (negb q || (m + 1 <=? L)); lia.
Qed.

Lemma admitted_sensitive n m qs :
  count (zip_with andb qs (admitted n m qs)) ≤ Z.max 0 (L - m).
Proof.
  revert n m. induction qs as [|q qs IH]; intros n m; simpl; [lia|].
  specialize (IH (n + 1) (if (n + 1 <=? G) && q then m + 1 else m)).
  destruct (n + 1 <=? G), q; simpl in *; try lia. destruct (Z.leb_spec (m + 1) L); lia.
Qed.
End reference.

(** ** Requests *)

Section throttle.
Context `{Argon2, UnicodeTables} {R : Type} `{!RedisClient R, !RedisSpec R, !bruteforce.RedisUp R}.
Context (s : AuthService) (globalLimiter loginLimiter : Limiter).
Hypothesis window_second : second ≤ window globalLimiter < 2 ^ 61.
Hypothesis same_window : window loginLimiter = window globalLimiter.

(** A question to one of the limiters and its answer. *)
Abbreviation question := ((string * string) * (bool * option error))%type.
Definition limiter_named (which : string) : Limiter :=
  if bool_decide (which = "global") then globalLimiter else loginLimiter.

(** The questions answered by the limiters, at times in the window that starts
    at [W]. *)
Inductive counted_in (W : time) : R → list question → R → Prop :=
| counted_nil r : counted_in W r [] r
| counted_cons t which key a qs r r1 r2 :
    time_Truncate t (window globalLimiter) = W →
    Allow (limiter_named which) t key r = (r1, a) → counted_in W r1 qs r2 →
    counted_in W r (((which, key), a) :: qs) r2.

(** A request of the client with address [ip], with its calls and its answer. *)
Record served_request := Served {
  sr_ctx : Ctx;
  sr_req : request;
  sr_tr : list (callrec appE);
  sr_ans : reply response
}.
Definition request_of (ip : string) (W : time) (r : R) (q : served_request) (r' : R) : Prop :=
  extractIP (sr_ctx q) = ip ∧
  exec (unary s globalLimiter loginLimiter (sr_ctx q) (sr_req q)) (sr_tr q) (sr_ans q) ∧
  counted_in W r (omap limit_call (sr_tr q)) r'.

(** One after the other. *)
Inductive requests_of (ip : string) (W : time) : R → list served_request → R → Prop :=
| requests_nil r : requests_of ip W r [] r
| requests_cons q qs r r1 r2 :
    request_of ip W r q r1 → requests_of ip W r1 qs r2 → requests_of ip W r (q :: qs) r2.

(** A limiter that fails does not deny. *)
Definition denied (a : bool * option error) : bool :=
  match a with (false, None) => true | _ => false end.

(** The service was run, or not even called. *)
Definition ran (ctx : Ctx) (req : request) (tr : list (callrec appE)) (r : reply response) (ok : bool)
    : Prop :=
  if ok then exec (serve s ctx req) (omap port_call tr) r
  else omap port_call tr = [] ∧ ∃ m, r = Refuse (Status ResourceExhausted m).

Lemma handler_questions ctx req tr r :
  exec (with_handler (lift (serve s ctx req)) (trigger Handler)) tr r →
  omap limit_call tr = [] ∧ ran ctx req tr r true.
Proof.
  intros (tr1 & tr2 & y & -> & (Hs & Hl & _)%exec_lift & [-> ->])%exec_bind.
  rewrite app_nil_r. by split.
Qed.

Lemma login_questions ctx req ip tr r :
  exec (with_handler (lift (serve s ctx req))
    (rate_limit_login loginLimiter ip (shortMethod (FullMethod req)))) tr r →
  if sensitive req
  then ∃ b, omap limit_call tr = [("login", "auth:" +:+ ip, b)] ∧ ran ctx req tr r (negb (denied b))
  else omap limit_call tr = [] ∧ ran ctx req tr r true.
Proof.
  unfold rate_limit_login. rewrite sensitive_spec.
  destruct (sensitive req); [|apply handler_questions].
  intros (b & tr1 & -> & Hex). exists b. destruct b as [[] [err|]];
    try (destruct Hex as ([] & tr2 & -> & Hex));
    try (apply handler_questions in Hex as [Hl Hr]; csimpl; by rewrite Hl).
  destruct Hex as [-> ->]. split; [done|]. split; [done|]. by eexists.
Qed.

Lemma limited_questions ctx req tr r :
  exec (unary s globalLimiter loginLimiter ctx req) tr r →
  ∃ a, if negb (denied a) && sensitive req
       then ∃ b, omap limit_call tr =
              [("global", extractIP ctx, a); ("login", "auth:" +:+ extractIP ctx, b)] ∧
            ran ctx req tr r (negb (denied b))
       else omap limit_call tr = [("global", extractIP ctx, a)] ∧ ran ctx req tr r (negb (denied a)).
Proof.
  intros (tr1 & t0 & t1 & d & -> & (a & tr2 & -> & Hex))%unary_exec. exists a.
  unfold ran. csimpl. rewrite !omap_app. csimpl. rewrite !app_nil_r.
  destruct a as [[] [err|]]; simpl in *;
    try (destruct Hex as ([] & tr3 & -> & Hex); csimpl);
    try (apply login_questions in Hex; destruct (sensitive req); simpl;
         [destruct Hex as (b & -> & Hr); by eauto|by destruct Hex as [-> Hr]]).
  destruct Hex as [-> ->]. split; [done|]. split; [done|]. by eexists.
Qed.

(** ** Counters *)

Section counters.
Context (W : time).

Definition in_window (t : time) : Prop := time_Truncate t (window globalLimiter) = W.

(** The key has counted [n] requests of the window. *)
Definition counts (k : string) (n : Z) (r : R) : Prop :=
  if n =? 0 then ∀ t, in_window t → value_at t k (rc_view r) = None
  else ∃ E, (∀ t, in_window t → t ≤ E) ∧ counter_until k n E (rc_view r).

Lemma counts_counter k n r t :
  in_window t → counts k n r → ∃ exp, counter_at t k (rc_view r) n exp.
Proof.
  intros Ht. unfold counts. destruct (Z.eqb_spec n 0) as [->|Hn].
  - intros Hc. exists None. left. by rewrite Hc.
  - intros (E & HE & Hc). exists (Some E). by apply Hc, HE.
Qed.

Lemma counts_other k k' n r r' x :
  k ≠ k' → rc_view r' = <[k := x]> (rc_view r) → counts k' n r → counts k' n r'.
Proof.
  intros Hne Hv. unfold counts, counter_until, counter_at. rewrite Hv. destruct (n =? 0).
  - intros Hc t Ht. rewrite value_at_ne by done. by apply Hc.
  - intros (E & HE & Hc). exists E. split; [done|]. intros t Ht. rewrite value_at_ne by done. by apply Hc.
Qed.

(** One more request under key [key] of a limiter with this window. *)
Lemma Allow_counted l key n r t r' a k :
  window l = window globalLimiter → k = redisKey l t key → in_window t → 0 ≤ n → counts k n r →
  Allow l t key r = (r', a) →
  a = (n + 1 <=? limit l, None) ∧ counts k (n + 1) r' ∧
  ∀ k' n', k ≠ k' → counts k' n' r → counts k' n' r'.
Proof.
  intros Hw -> Ht Hn Hc Ha. destruct (counts_counter _ _ _ t Ht Hc) as [exp Hat].
  assert (second ≤ window l < 2 ^ 61) as Hl by by rewrite Hw.
  destruct (Allow_counts l key Hl t r n exp Hat) as (r1 & Ha' & Hv).
  rewrite Ha in Ha'. injection Ha' as <- ->. split_and!; [done| |by eauto using counts_other].
  unfold counts. rewrite (proj2 (Z.eqb_neq (n + 1) 0)) by lia.
  destruct (ttlSecs_covers l Hl) as [_ Hcov].
  destruct (Z.eqb_spec (n + 1) 1) as [Hn1|Hn1].
  - exists (t + ttlSecs l * second). split; [|rewrite Hv; apply counter_until_insert].
    intros t' Ht'. unfold in_window in *.
    pose proof (time_Truncate_bounds t (window globalLimiter)).
    pose proof (time_Truncate_bounds t' (window globalLimiter)). unfold second in *. lia.
  - unfold counts in Hc. rewrite (proj2 (Z.eqb_neq n 0)) in Hc by lia. destruct Hc as (E & HE & Hc).
    exists E. split; [done|]. destruct (counter_unique _ _ _ _ _ _ _ Hat (Hc t (HE t Ht))) as [_ ->].
    rewrite Hv. apply counter_until_insert.
Qed.
End counters.

(** ** The theorem *)

Section client.
Context (ip : string) (W : time).

(** The keys of the client in the window. *)
Definition window_key (key : string) : string := keyPrefix +:+ key +:+ ":" +:+ fmt_d (time_Unix W).

Lemma str_length_app (a b : string) : String.length (a +:+ b) = (String.length a + String.length b)%nat.
Proof. induction a as [|c a IH]; [done|]. simpl. by f_equal. Qed.

Lemma window_keys_differ : window_key ip ≠ window_key ("auth:" +:+ ip).
Proof.
  intros Heq. apply (f_equal String.length) in Heq. unfold window_key in Heq.
  rewrite !str_length_app in Heq. simpl in Heq. lia.
Qed.

Definition both_count (n m : Z) (r : R) : Prop :=
  0 ≤ n ∧ 0 ≤ m ∧ counts W (window_key ip) n r ∧ counts W (window_key ("auth:" +:+ ip)) m r.

Abbreviation G := (limit globalLimiter).
Abbreviation L := (limit loginLimiter).

Lemma request_counted q r r' n m :
  request_of ip W r q r' → both_count n m r →
  let global := n + 1 <=? G in
  ran (sr_ctx q) (sr_req q) (sr_tr q) (sr_ans q)
    (global && (negb (sensitive (sr_req q)) || (m + 1 <=? L))) ∧
  both_count (n + 1) (if global && sensitive (sr_req q) then m + 1 else m) r'.
Proof.
  intros (Hip & Hex & Hcnt) (Hn & Hm & Hcn & Hcm) global.
  apply limited_questions in Hex as [a Hq]. rewrite Hip in Hq.
  assert (∀ b qs, omap limit_call (sr_tr q) = ("global", ip, b) :: qs →
    b = (global, None) ∧ ∃ r1, counted_in W r1 qs r' ∧ both_count (n + 1) m r1) as Hglobal.
  { intros b qs Heq. rewrite Heq in Hcnt. inversion Hcnt as [|t which key b' qs' r0 r1 r2 Ht Ha Hrest]; subst.
    destruct (Allow_counted W globalLimiter ip n r t r1 b (window_key ip)) as (-> & Hc1 & Hoth);
      [done|unfold redisKey, window_key; by rewrite Ht|done..|].
    split; [done|]. exists r1. split; [done|]. split_and!; [lia|done|done|].
    apply Hoth; [apply window_keys_differ|done]. }
  destruct (negb (denied a) && sensitive (sr_req q)) eqn:Hd.
  - apply andb_true_iff in Hd as [Hna Hs]. destruct Hq as (b & Heq & Hran). rewrite Hs.
    destruct (Hglobal _ _ Heq) as (-> & r1 & Hrest & Hb). destruct global eqn:Hg; [|done].
    inversion Hrest as [|t which key b' qs' r0 r2 r3 Ht Ha Hend]; subst. inversion Hend; subst.
    destruct Hb as (Hn1 & Hm1 & Hc1 & Hc2).
    destruct (Allow_counted W loginLimiter ("auth:" +:+ ip) m r1 t r' b (window_key ("auth:" +:+ ip)))
      as (-> & Hc3 & Hoth); [done|unfold redisKey, window_key; by rewrite same_window, Ht|done..|].
    simpl. split; [by destruct (m + 1 <=? L)|]. split_and!; [done|lia| |done].
    apply Hoth; [by apply not_eq_sym, window_keys_differ|done].
  - destruct Hq as [Heq Hran]. destruct (Hglobal _ _ Heq) as (-> & r1 & Hrest & Hb).
    inversion Hrest; subst. destruct global; simpl in *; [|by split]. rewrite Hd. by split.
Qed.

Lemma requests_counted qs r r' n m :
  requests_of ip W r qs r' → both_count n m r →
  Forall2 (λ q ok, ran (sr_ctx q) (sr_req q) (sr_tr q) (sr_ans q) ok) qs
    (admitted G L n m (sensitive ∘ sr_req <$> qs)).
Proof.
  intros Hqs. revert n m. induction Hqs as [|q qs r r1 r2 Hq _ IH]; intros n m Hb; csimpl; [constructor|].
  destruct (request_counted _ _ _ _ _ Hq Hb) as [Hran Hb1]. constructor; [exact Hran|]. by apply IH.
Qed.
End client.

(** C37: With Redis up, the server lets through exactly the requests of a client
    that two counters per window allow: of the requests of one address in one
    window, answered one after the other, the first [limit globalLimiter]; of
    the six sensitive methods among these, the first [limit loginLimiter].
    These run as the service would alone; all others are answered
    ResourceExhausted without a call of the service.  So in no window more than
    these numbers reach the service. *)
Theorem throttled ip W qs r r' :
  requests_of ip W r qs r' →
  (∀ t key, in_window W t → key = ip ∨ key = "auth:" +:+ ip →
     value_at t (window_key W key) (rc_view r) = None) →
  let sent := sensitive ∘ sr_req <$> qs in
  let oks := admitted (limit globalLimiter) (limit loginLimiter) 0 0 sent in
  Forall2 (λ q ok, ran (sr_ctx q) (sr_req q) (sr_tr q) (sr_ans q) ok) qs oks ∧
  count oks ≤ Z.max 0 (limit globalLimiter) ∧
  count (zip_with andb sent oks) ≤ Z.max 0 (limit loginLimiter).
Proof.
  intros Hqs Hnone sent oks. split_and!.
  - eapply requests_counted; [exact Hqs|]. split_and!; [done|done| |]; intros t Ht; apply Hnone; auto.
  - etrans; [apply admitted_all|]. lia.
  - etrans; [apply admitted_sensitive|]. lia.
Qed.
End throttle.
