(* ===== verification/Grpc.v ===== *)
(** * gRPC stubs ([gen/api/auth_grpc.pb.go])

    What lies between a client of the service and its handlers: the methods of
    [authServiceClient], the table [AuthService_ServiceDesc] with its handlers,
    and the server of [internal/app/grpc/app.go] with the interceptors of
    [internal/app/app.go].  The gRPC library (connections, the server's
    dispatch, the encoding of messages, the chaining of interceptors) is not
    part of the repository: [GrpcRuntime] has it as parameters and
    [GrpcRuntimeOk] states what it documents.  The encoding of responses is not
    told apart from the responses. *)

From Stdlib Require Import Ascii String.
From S2P Require Import Prelude GoStd Ports Validate Crypto Service Spec Redis Bruteforce RateLimit.
From S2P Require Import World Jwt App.
Open Scope Z_scope.

(** ** The library *)

(** The messages of the requests, by the type of their fields. *)
Inductive message : Type → Type :=
| RegisterRequest_ : message RegisterRequest
| LoginRequest_ : message LoginRequest
| ValidateTokenRequest_ : message string
| RefreshTokenRequest_ : message RefreshTokenRequest
| LogoutRequest_ : message string
| LogoutAllRequest_ : message unit
| ListSessionsRequest_ : message unit
| RevokeSessionRequest_ : message string
| ChangePasswordRequest_ : message ChangePasswordRequest
| RequestPasswordResetRequest_ : message string
| VerifyResetCodeRequest_ : message (string * string)
| ResetPasswordRequest_ : message (string * string).

(** A program of the server, with the answer of a method. *)
Abbreviation rpc := (prog appE (reply response)).

(** [AuthServiceServer]: its methods, by their requests. *)
Abbreviation AuthServiceServer := (Ctx → request → rpc).

(** [grpc.UnaryServerInterceptor], given the context, the request, the name of
    the method and the handler. *)
Abbreviation UnaryServerInterceptor := (Ctx → request → string → AuthServiceServer → rpc).

(** The function [dec] a handler is given: it fills in a message or fails. *)
Abbreviation decoder := (∀ T, message T → T + status).

(** [grpc.MethodDesc.Handler]. *)
Abbreviation methodHandler :=
  (AuthServiceServer → Ctx → decoder → option UnaryServerInterceptor → rpc).

Record ServiceDesc := {
  sd_ServiceName : string;
  sd_Methods : list (string * methodHandler)
}.

(** [grpc.Server]: the options it was made with and the registered services. *)
Record grpc_Server := {
  gs_ConnectionTimeout : duration;
  gs_interceptor : option UnaryServerInterceptor;
  gs_services : list (ServiceDesc * AuthServiceServer)
}.

(** [serve_rpc] is the server's work on a call of a method with the bytes of a
    message, [cc_Invoke] a call through a connection to such a server. *)
Class GrpcRuntime := {
  Marshal {T} : message T → T → result string;
  Unmarshal {T} : message T → string → T + status;
  ChainUnaryInterceptor : list UnaryServerInterceptor → UnaryServerInterceptor;
  serve_rpc : grpc_Server → Ctx → string → string → rpc;
  cc_Invoke {T} : (Ctx → string → string → rpc) → Ctx → string → message T → T → rpc
}.

(** The first handler of a name. *)
Definition find_method (name : string) (ms : list (string * methodHandler)) : option methodHandler :=
  snd ∘ snd <$> list_find (λ m, m.1 = name) ms.

(** What is sent is what is received.  The first interceptor is the outermost.
    The server calls the handler registered under the name of the method.  A
    call arrives at the server once or not at all, and a call that fails on its
    way back is reported as failed. *)
Class GrpcRuntimeOk `{GrpcRuntime} : Prop := {
  Unmarshal_Marshal {T} (m : message T) x b : Marshal m x = Ok b → Unmarshal m b = inl x;
  ChainUnaryInterceptor_2 i1 i2 ctx req full h :
    ChainUnaryInterceptor [i1; i2] ctx req full h =
    i1 ctx req full (λ ctx req, i2 ctx req full h);
  serve_rpc_found gs desc srv ctx name h b :
    gs_services gs = [(desc, srv)] → find_method name (sd_Methods desc) = Some h →
    serve_rpc gs ctx ("/" +:+ sd_ServiceName desc +:+ "/" +:+ name) b =
    h srv ctx (λ T m, Unmarshal m b) (gs_interceptor gs);
  cc_Invoke_once {T} remote ctx full (m : message T) x :
    (∃ st, cc_Invoke remote ctx full m x = Ret (Refuse st)) ∨
    ∃ b, Marshal m x = Ok b ∧
      (cc_Invoke remote ctx full m x = remote ctx full b ∨
       ∃ st, cc_Invoke remote ctx full m x = (remote ctx full b;;; Ret (Refuse st)))
}.

(** ** Names *)

Definition AuthService_Register_FullMethodName : string := "/api.AuthService/Register".
Definition AuthService_Login_FullMethodName : string := "/api.AuthService/Login".
Definition AuthService_ValidateToken_FullMethodName : string := "/api.AuthService/ValidateToken".
Definition AuthService_RefreshToken_FullMethodName : string := "/api.AuthService/RefreshToken".
Definition AuthService_Logout_FullMethodName : string := "/api.AuthService/Logout".
Definition AuthService_LogoutAll_FullMethodName : string := "/api.AuthService/LogoutAll".
Definition AuthService_ListSessions_FullMethodName : string := "/api.AuthService/ListSessions".
Definition AuthService_RevokeSession_FullMethodName : string := "/api.AuthService/RevokeSession".
Definition AuthService_ChangePassword_FullMethodName : string := "/api.AuthService/ChangePassword".
Definition AuthService_RequestPasswordReset_FullMethodName : string := "/api.AuthService/RequestPasswordReset".
Definition AuthService_VerifyResetCode_FullMethodName : string := "/api.AuthService/VerifyResetCode".
Definition AuthService_ResetPassword_FullMethodName : string := "/api.AuthService/ResetPassword".

(** ** The server's handlers *)

Section server.
Context `{GrpcRuntime}.

(** The body of every handler. *)
Definition unary_handler {T} (m : message T) (f : T → request) (full : string) : methodHandler :=
  λ srv ctx dec interceptor,
  match dec T m with
  | inr err => Ret (Refuse err)
  | inl x =>
      match interceptor with
      | None => srv ctx (f x)
      | Some interceptor => interceptor ctx (f x) full (λ ctx req, srv ctx req)
      end
  end.

Definition AuthService_Register_Handler : methodHandler :=
  unary_handler RegisterRequest_ ReqRegister AuthService_Register_FullMethodName.
Definition AuthService_Login_Handler : methodHandler :=
  unary_handler LoginRequest_ ReqLogin AuthService_Login_FullMethodName.
Definition AuthService_ValidateToken_Handler : methodHandler :=
  unary_handler ValidateTokenRequest_ ReqValidateToken AuthService_ValidateToken_FullMethodName.
Definition AuthService_RefreshToken_Handler : methodHandler :=
  unary_handler RefreshTokenRequest_ ReqRefreshToken AuthService_RefreshToken_FullMethodName.
Definition AuthService_Logout_Handler : methodHandler :=
  unary_handler LogoutRequest_ ReqLogout AuthService_Logout_FullMethodName.
Definition AuthService_LogoutAll_Handler : methodHandler :=
  unary_handler LogoutAllRequest_ (λ _, ReqLogoutAll) AuthService_LogoutAll_FullMethodName.
Definition AuthService_ListSessions_Handler : methodHandler :=
  unary_handler ListSessionsRequest_ (λ _, ReqListSessions) AuthService_ListSessions_FullMethodName.
Definition AuthService_RevokeSession_Handler : methodHandler :=
  unary_handler RevokeSessionRequest_ ReqRevokeSession AuthService_RevokeSession_FullMethodName.
Definition AuthService_ChangePassword_Handler : methodHandler :=
  unary_handler ChangePasswordRequest_ ReqChangePassword AuthService_ChangePassword_FullMethodName.
Definition AuthService_RequestPasswordReset_Handler : methodHandler :=
  unary_handler RequestPasswordResetRequest_ ReqRequestPasswordReset AuthService_RequestPasswordReset_FullMethodName.
Definition AuthService_VerifyResetCode_Handler : methodHandler :=
  unary_handler VerifyResetCodeRequest_ (λ m, ReqVerifyResetCode m.1 m.2) AuthService_VerifyResetCode_FullMethodName.
Definition AuthService_ResetPassword_Handler : methodHandler :=
  unary_handler ResetPasswordRequest_ (λ m, ReqResetPassword m.1 m.2) AuthService_ResetPassword_FullMethodName.

Definition AuthService_ServiceDesc : ServiceDesc := {|
  sd_ServiceName := "api.AuthService";
  sd_Methods := [
  ("Register", AuthService_Register_Handler);
  ("Login", AuthService_Login_Handler);
  ("ValidateToken", AuthService_ValidateToken_Handler);
  ("RefreshToken", AuthService_RefreshToken_Handler);
  ("Logout", AuthService_Logout_Handler);
  ("LogoutAll", AuthService_LogoutAll_Handler);
  ("ListSessions", AuthService_ListSessions_Handler);
  ("RevokeSession", AuthService_RevokeSession_Handler);
  ("ChangePassword", AuthService_ChangePassword_Handler);
  ("RequestPasswordReset", AuthService_RequestPasswordReset_Handler);
  ("VerifyResetCode", AuthService_VerifyResetCode_Handler);
  ("ResetPassword", AuthService_ResetPassword_Handler) ] |}.

(** The methods a service does not have itself; [AuthService] has all of them. *)
Definition UnimplementedAuthServiceServer : AuthServiceServer := λ _ req,
  let method := match req with
    | ReqRegister _ => "Register" | ReqLogin _ => "Login" | ReqValidateToken _ => "ValidateToken"
    | ReqRefreshToken _ => "RefreshToken" | ReqLogout _ => "Logout" | ReqLogoutAll => "LogoutAll"
    | ReqListSessions => "ListSessions" | ReqRevokeSession _ => "RevokeSession"
    | ReqChangePassword _ => "ChangePassword" | ReqRequestPasswordReset _ => "RequestPasswordReset"
    | ReqVerifyResetCode _ _ => "VerifyResetCode" | ReqResetPassword _ _ => "ResetPassword"
    end in
  Ret (Refuse (Status Unimplemented ("method " +:+ method +:+ " not implemented"))).

(** ** The client *)

(** The body of every method of [authServiceClient], over a connection to
    [remote]. *)
Definition client_method {T} (m : message T) (full : string)
    (remote : Ctx → string → string → rpc) (ctx : Ctx) (x : T) : rpc :=
  out <- cc_Invoke remote ctx full m x;;
  match out with
  | Refuse err => Ret (Refuse err)
  | Reply out => Ret (Reply out)
  end.

Definition authServiceClient_Register :=
  client_method RegisterRequest_ AuthService_Register_FullMethodName.
Definition authServiceClient_Login :=
  client_method LoginRequest_ AuthService_Login_FullMethodName.
Definition authServiceClient_ValidateToken :=
  client_method ValidateTokenRequest_ AuthService_ValidateToken_FullMethodName.
Definition authServiceClient_RefreshToken :=
  client_method RefreshTokenRequest_ AuthService_RefreshToken_FullMethodName.
Definition authServiceClient_Logout :=
  client_method LogoutRequest_ AuthService_Logout_FullMethodName.
Definition authServiceClient_LogoutAll :=
  client_method LogoutAllRequest_ AuthService_LogoutAll_FullMethodName.
Definition authServiceClient_ListSessions :=
  client_method ListSessionsRequest_ AuthService_ListSessions_FullMethodName.
Definition authServiceClient_RevokeSession :=
  client_method RevokeSessionRequest_ AuthService_RevokeSession_FullMethodName.
Definition authServiceClient_ChangePassword :=
  client_method ChangePasswordRequest_ AuthService_ChangePassword_FullMethodName.
Definition authServiceClient_RequestPasswordReset :=
  client_method RequestPasswordResetRequest_ AuthService_RequestPasswordReset_FullMethodName.
Definition authServiceClient_VerifyResetCode :=
  client_method VerifyResetCodeRequest_ AuthService_VerifyResetCode_FullMethodName.
Definition authServiceClient_ResetPassword :=
  client_method ResetPasswordRequest_ AuthService_ResetPassword_FullMethodName.

(** The methods of [AuthServiceClient], by their requests. *)
Definition NewAuthServiceClient (remote : Ctx → string → string → rpc) : AuthServiceServer :=
  λ ctx req,
  match req with
  | ReqRegister r => authServiceClient_Register remote ctx r
  | ReqLogin r => authServiceClient_Login remote ctx r
  | ReqValidateToken tok => authServiceClient_ValidateToken remote ctx tok
  | ReqRefreshToken r => authServiceClient_RefreshToken remote ctx r
  | ReqLogout tok => authServiceClient_Logout remote ctx tok
  | ReqLogoutAll => authServiceClient_LogoutAll remote ctx tt
  | ReqListSessions => authServiceClient_ListSessions remote ctx tt
  | ReqRevokeSession sid => authServiceClient_RevokeSession remote ctx sid
  | ReqChangePassword r => authServiceClient_ChangePassword remote ctx r
  | ReqRequestPasswordReset email => authServiceClient_RequestPasswordReset remote ctx email
  | ReqVerifyResetCode email otp => authServiceClient_VerifyResetCode remote ctx (email, otp)
  | ReqResetPassword tok pw => authServiceClient_ResetPassword remote ctx (tok, pw)
  end.

(** ** The server of the application *)

(** [interceptor.Logging] and [interceptor.RateLimit] in front of a handler. *)
Definition Logging_interceptor : UnaryServerInterceptor := λ ctx req full handler,
  with_handler (handler ctx req) (Logging ctx full).
Definition RateLimit_interceptor (globalLimiter loginLimiter : ratelimit.Limiter)
    : UnaryServerInterceptor := λ ctx req full handler,
  with_handler (handler ctx req) (RateLimit globalLimiter loginLimiter ctx full).

(** [grpc.NewServer(opts...)] with the two options [app.New] gives. *)
Definition grpc_NewServer (timeout : duration) (interceptor : UnaryServerInterceptor) : grpc_Server :=
  {| gs_ConnectionTimeout := timeout; gs_interceptor := Some interceptor; gs_services := [] |}.

(** [api.RegisterAuthServiceServer]; the service embeds the empty server by
    value. *)
Definition RegisterAuthServiceServer (s : grpc_Server) (srv : AuthServiceServer) : grpc_Server :=
  {| gs_ConnectionTimeout := gs_ConnectionTimeout s; gs_interceptor := gs_interceptor s;
     gs_services := gs_services s ++ [(AuthService_ServiceDesc, srv)] |}.

(** [auth.Register]. *)
Definition auth_Register (gRPC : grpc_Server) (authService : AuthServiceServer) : grpc_Server :=
  RegisterAuthServiceServer gRPC authService.

Context `{Argon2, UnicodeTables}.

(** The methods of the service as those of a server. *)
Definition service_server (s : AuthService) : AuthServiceServer := λ ctx req, lift (serve s ctx req).

(** The gRPC server [app.New] makes. *)
Definition app_server (s : AuthService) (globalLimiter loginLimiter : ratelimit.Limiter)
    (timeout : duration) : grpc_Server :=
  auth_Register
    (grpc_NewServer timeout
       (ChainUnaryInterceptor [Logging_interceptor; RateLimit_interceptor globalLimiter loginLimiter]))
    (service_server s).
End server.

(** ** From the client to the service *)

Section wiring.
Context `{GrpcRuntimeOk, Argon2, UnicodeTables}.
Context (s : AuthService) (globalLimiter loginLimiter : ratelimit.Limiter) (timeout : duration).

Abbreviation gs := (app_server s globalLimiter loginLimiter timeout).

(** A handler of the table, called by the server with the bytes of a message. *)
Lemma serve_rpc_unary {T} (m : message T) f name full ctx x b :
  find_method name (sd_Methods AuthService_ServiceDesc) = Some (unary_handler m f full) →
  full = "/api.AuthService/" +:+ name → FullMethod (f x) = full → Marshal m x = Ok b →
  serve_rpc gs ctx full b = unary s globalLimiter loginLimiter ctx (f x).
Proof.
  intros Hfind Hname Hfull Hb.
  rewrite Hname. change ("/api.AuthService/" +:+ name) with
    ("/" +:+ sd_ServiceName AuthService_ServiceDesc +:+ "/" +:+ name).
  erewrite serve_rpc_found by done. unfold unary_handler. rewrite (Unmarshal_Marshal _ _ _ Hb). simpl.
  rewrite ChainUnaryInterceptor_2. unfold unary, Logging_interceptor, RateLimit_interceptor, service_server.
  by rewrite Hfull.
Qed.

Lemma client_method_exec {T} (m : message T) f name full ctx x tr r :
  exec (client_method m full (serve_rpc gs) ctx x) tr r → full = "/api.AuthService/" +:+ name →
  find_method name (sd_Methods AuthService_ServiceDesc) = Some (unary_handler m f full) →
  FullMethod (f x) = full →
  (tr = [] ∧ ∃ st, r = Refuse st) ∨
  ∃ r', exec (unary s globalLimiter loginLimiter ctx (f x)) tr r' ∧ (r = r' ∨ ∃ st, r = Refuse st).
Proof.
  intros (tr1 & tr2 & out & -> & Hex & Hr)%exec_bind Hname Hfind Hfull.
  assert (tr2 = [] ∧ r = out) as [-> ->] by (by destruct out; destruct Hr as [-> ->]).
  rewrite app_nil_r.
  destruct (cc_Invoke_once (serve_rpc gs) ctx full m x) as [[st Heq]|(b & Hb & Heq)].
  { rewrite Heq in Hex. destruct Hex as [-> ->]. left. eauto. }
  right. rewrite (serve_rpc_unary m f name full ctx x b Hfind Hname Hfull Hb) in Heq.
  destruct Heq as [Heq|[st Heq]]; rewrite Heq in Hex; [by eauto|].
  apply exec_bind in Hex as (tr1' & ? & r' & -> & Hex & [-> ->]). rewrite app_nil_r. eauto.
Qed.

(** A call of a method of the client, over a connection to the application's
    server, runs the logging and rate-limiting chain around exactly that method
    of the service, once, with the message that was sent, and returns its
    answer; or it is reported as failed, before or after that. *)
Lemma client_reaches_service ctx req tr r :
  exec (NewAuthServiceClient (serve_rpc gs) ctx req) tr r →
  (tr = [] ∧ ∃ st, r = Refuse st) ∨
  ∃ r', exec (unary s globalLimiter loginLimiter ctx req) tr r' ∧ (r = r' ∨ ∃ st, r = Refuse st).
Proof.
  intros Hex. destruct req; simpl in Hex;
    (eapply client_method_exec in Hex as Hres; [|reflexivity..]; exact Hres).
Qed.
End wiring.
