(* ===== verification/Gateway.v ===== *)
(** * The HTTP gateway ([gen/api/auth.pb.gw.go], [internal/app/gateway/app.go])

    How an HTTP request becomes a call of the gRPC service: the routes, the
    translation of each into a message, and what the server sees of the client.
    The gateway library (its multiplexer, its JSON marshaler, the metadata it
    adds) is not part of the repository: [GatewayRuntime] has it as parameters
    and [GatewayRuntimeOk] states what it documents.  The path of a request is
    given by its components. *)

From Stdlib Require Import Ascii String.
From S2P Require Import Prelude GoStd Ports Validate Crypto Service Spec Redis Bruteforce RateLimit.
From S2P Require Import World Jwt App Grpc.
Open Scope Z_scope.

(** ** The library *)

Record http_request := {
  h_Method : string;
  h_Path : list string;
  h_Header : gmap string (list string);
  h_Body : string;
  h_RemoteAddr : string
}.

(** [r.Header.Values(key)], for a key in canonical form. *)
Definition Header_Values (req : http_request) (key : string) : list string :=
  default [] (h_Header req !! key).

(** [runtime.NewPattern(1, ops, pool, verb)]. *)
Record Pattern := NewPattern { p_ops : list Z; p_pool : list string; p_verb : string }.

Inductive decode_error := EOF | DecodeError (text : string).

(** [Decode] is [marshaler.NewDecoder(body).Decode(&protoReq)]: the message
    afterwards and the error.  [runtime_String] gives the value or the text of
    an error.  [AnnotateContext] gives the context in which the server receives
    the call, [AnnotateIncomingContext] the one handed to a server in the same
    process.  [mux_find] is the handler the multiplexer picks among those
    registered, with the values of the path parameters.  [OpenAPISpec] is the
    file [docs/openapi.json]. *)
Class GatewayRuntime := {
  Decode {T} : message T → string → T * option decode_error;
  runtime_String : string → string + string;
  AnnotateContext : http_request → string → result Ctx;
  AnnotateIncomingContext : http_request → string → result Ctx;
  ParsePath : string → Pattern;
  mux_find : list (string * Pattern) → http_request → option (nat * gmap string string);
  OpenAPISpec : string
}.

(** A call of a method of the service: of [AuthServiceClient] by the gateway, of
    [AuthServiceServer] by the in-process handlers. *)
Inductive clientE : Type → Type :=
| Invoke (ctx : Ctx) (req : request) : clientE (reply response).

(** ** Requests ([request_AuthService_*_0]) *)

Section requests.
Context `{GatewayRuntime}.

Abbreviation handler := (Ctx → http_request → gmap string string → prog clientE (reply response)).

(** A request whose message is its body.  An empty body is an empty message. *)
Definition request_body {T} (m : message T) (f : T → request) : handler := λ ctx req _,
  match Decode m (h_Body req) with
  | (_, Some (DecodeError err)) => Ret (Refuse (Status InvalidArgument err))
  | (protoReq, _) => call msg <- Invoke ctx (f protoReq);; Ret msg
  end.

Definition request_AuthService_Register_0 : handler := request_body RegisterRequest_ ReqRegister.
Definition request_AuthService_Login_0 : handler := request_body LoginRequest_ ReqLogin.
Definition request_AuthService_ValidateToken_0 : handler :=
  request_body ValidateTokenRequest_ ReqValidateToken.
Definition request_AuthService_RefreshToken_0 : handler :=
  request_body RefreshTokenRequest_ ReqRefreshToken.
Definition request_AuthService_Logout_0 : handler := request_body LogoutRequest_ ReqLogout.
Definition request_AuthService_LogoutAll_0 : handler :=
  request_body LogoutAllRequest_ (λ _, ReqLogoutAll).
Definition request_AuthService_ListSessions_0 : handler := λ ctx _ _,
  call msg <- Invoke ctx ReqListSessions;; Ret msg.
Definition request_AuthService_RevokeSession_0 : handler := λ ctx _ pathParams,
  match pathParams !! "session_id" with
  | None => Ret (Refuse (Status InvalidArgument "missing parameter session_id"))
  | Some val =>
      match runtime_String val with
      | inr err =>
          Ret (Refuse (Status InvalidArgument
            ("type mismatch, parameter: session_id, error: " +:+ err)))
      | inl sessionId => call msg <- Invoke ctx (ReqRevokeSession sessionId);; Ret msg
      end
  end.
Definition request_AuthService_ChangePassword_0 : handler :=
  request_body ChangePasswordRequest_ ReqChangePassword.
Definition request_AuthService_RequestPasswordReset_0 : handler :=
  request_body RequestPasswordResetRequest_ ReqRequestPasswordReset.
Definition request_AuthService_VerifyResetCode_0 : handler :=
  request_body VerifyResetCodeRequest_ (λ m, ReqVerifyResetCode m.1 m.2).
Definition request_AuthService_ResetPassword_0 : handler :=
  request_body ResetPasswordRequest_ (λ m, ReqResetPassword m.1 m.2).

(** ** Routes *)

Definition three (s : string) : Pattern := NewPattern [2; 0; 2; 1; 2; 2] ["v1"; "auth"; s] "".
Definition four (s : string) : Pattern :=
  NewPattern [2; 0; 2; 1; 2; 2; 2; 3] ["v1"; "auth"; "password-reset"; s] "".

Definition pattern_AuthService_Register_0 : Pattern := three "register".
Definition pattern_AuthService_Login_0 : Pattern := three "login".
Definition pattern_AuthService_ValidateToken_0 : Pattern := three "validate".
Definition pattern_AuthService_RefreshToken_0 : Pattern := three "refresh".
Definition pattern_AuthService_Logout_0 : Pattern := three "logout".
Definition pattern_AuthService_LogoutAll_0 : Pattern := three "logout-all".
Definition pattern_AuthService_ListSessions_0 : Pattern := three "sessions".
Definition pattern_AuthService_RevokeSession_0 : Pattern :=
  NewPattern [2; 0; 2; 1; 2; 2; 1; 0; 4; 1; 5; 3] ["v1"; "auth"; "sessions"; "session_id"] "".
Definition pattern_AuthService_ChangePassword_0 : Pattern := three "change-password".
Definition pattern_AuthService_RequestPasswordReset_0 : Pattern := four "request".
Definition pattern_AuthService_VerifyResetCode_0 : Pattern := four "verify".
Definition pattern_AuthService_ResetPassword_0 : Pattern := four "confirm".

(** What the gateway answers: the error or the message of the call, a page, or
    that there is no such page. *)
Inductive http_reply :=
| HTTPError (err : error)
| HTTPStatus (st : status)
| ForwardResponseMessage (resp : response)
| Page (contentType body : string)
| HTTPNotFound.

(** A call of [mux.Handle] or [mux.HandlePath]. *)
Record route := {
  rt_method : string;
  rt_pattern : Pattern;
  rt_handler : http_request → gmap string string → prog clientE http_reply
}.

(** The end of every registered function. *)
Definition forward (resp : reply response) : prog clientE http_reply :=
  match resp with
  | Refuse err => Ret (HTTPStatus err)
  | Reply resp => Ret (ForwardResponseMessage resp)
  end.

(** The function each [mux.Handle] registers. *)
Definition rpc_route (meth : string) (pattern : Pattern) (fullMethod : string) (request : handler)
    : route :=
  {| rt_method := meth; rt_pattern := pattern;
     rt_handler := λ req pathParams,
       match AnnotateContext req fullMethod with
       | Err err => Ret (HTTPError err)
       | Ok annotatedContext => resp <- request annotatedContext req pathParams;; forward resp
       end |}.

Definition handle_Register : route :=
  rpc_route "POST" pattern_AuthService_Register_0 "/api.AuthService/Register"
    request_AuthService_Register_0.
Definition handle_Login : route :=
  rpc_route "POST" pattern_AuthService_Login_0 "/api.AuthService/Login" request_AuthService_Login_0.
Definition handle_ValidateToken : route :=
  rpc_route "POST" pattern_AuthService_ValidateToken_0 "/api.AuthService/ValidateToken"
    request_AuthService_ValidateToken_0.
Definition handle_RefreshToken : route :=
  rpc_route "POST" pattern_AuthService_RefreshToken_0 "/api.AuthService/RefreshToken"
    request_AuthService_RefreshToken_0.
Definition handle_Logout : route :=
  rpc_route "POST" pattern_AuthService_Logout_0 "/api.AuthService/Logout" request_AuthService_Logout_0.
Definition handle_LogoutAll : route :=
  rpc_route "POST" pattern_AuthService_LogoutAll_0 "/api.AuthService/LogoutAll"
    request_AuthService_LogoutAll_0.
Definition handle_ListSessions : route :=
  rpc_route "GET" pattern_AuthService_ListSessions_0 "/api.AuthService/ListSessions"
    request_AuthService_ListSessions_0.
Definition handle_RevokeSession : route :=
  rpc_route "DELETE" pattern_AuthService_RevokeSession_0 "/api.AuthService/RevokeSession"
    request_AuthService_RevokeSession_0.
Definition handle_ChangePassword : route :=
  rpc_route "POST" pattern_AuthService_ChangePassword_0 "/api.AuthService/ChangePassword"
    request_AuthService_ChangePassword_0.
Definition handle_RequestPasswordReset : route :=
  rpc_route "POST" pattern_AuthService_RequestPasswordReset_0 "/api.AuthService/RequestPasswordReset"
    request_AuthService_RequestPasswordReset_0.
Definition handle_VerifyResetCode : route :=
  rpc_route "POST" pattern_AuthService_VerifyResetCode_0 "/api.AuthService/VerifyResetCode"
    request_AuthService_VerifyResetCode_0.
Definition handle_ResetPassword : route :=
  rpc_route "POST" pattern_AuthService_ResetPassword_0 "/api.AuthService/ResetPassword"
    request_AuthService_ResetPassword_0.

(** The calls of [mux.Handle], in order; the function returns no error. *)
Definition RegisterAuthServiceHandlerClient : list route := [
  handle_Register; handle_Login; handle_ValidateToken; handle_RefreshToken; handle_Logout;
  handle_LogoutAll; handle_ListSessions; handle_RevokeSession; handle_ChangePassword;
  handle_RequestPasswordReset; handle_VerifyResetCode; handle_ResetPassword ].
Definition RegisterAuthServiceHandler : list route := RegisterAuthServiceHandlerClient.

(** The pages of [gateway.App.run], outside production. *)
Definition scalarHTML : string := Eval cbv in
  let q s := String "034"%char s in
  let attr name val rest := " " +:+ name +:+ "=" +:+ q (val +:+ q rest) in
  String.concat (String "010"%char "") [
    "<!DOCTYPE html>";
    "<html>";
    "  <head>";
    "    <title>Auth Service — API Reference</title>";
    "    <meta" +:+ attr "charset" "utf-8" " />";
    "    <meta" +:+ attr "name" "viewport" (attr "content" "width=device-width, initial-scale=1" " />");
    "  </head>";
    "  <body>";
    "    <script";
    "     " +:+ attr "id" "api-reference" "";
    "     " +:+ attr "data-url" "/openapi.json" "";
    "     " +:+ attr "src" "https://cdn.jsdelivr.net/npm/@scalar/api-reference" "></script>";
    "  </body>";
    "</html>" ].
Definition HandlePath (meth path contentType body : string) : route :=
  {| rt_method := meth; rt_pattern := ParsePath path; rt_handler := λ _ _, Ret (Page contentType body) |}.
Definition docs_routes (env : string) : list route :=
  if bool_decide (env ≠ "prod") then
    [HandlePath "GET" "/openapi.json" "application/json" OpenAPISpec;
     HandlePath "GET" "/docs" "text/html; charset=utf-8" scalarHTML]
  else [].

(** The multiplexer [run] builds, serving a request. *)
Definition mux_serve (rs : list route) (req : http_request) : prog clientE http_reply :=
  match mux_find ((λ r, (rt_method r, rt_pattern r)) <$> rs) req with
  | Some (i, pathParams) =>
      match rs !! i with
      | Some r => rt_handler r req pathParams
      | None => Ret HTTPNotFound
      end
  | None => Ret HTTPNotFound
  end.
Definition mux_routes (env : string) : list route :=
  RegisterAuthServiceHandler ++ docs_routes env.
Definition ServeHTTP (env : string) (req : http_request) : prog clientE http_reply :=
  mux_serve (mux_routes env) req.
End requests.

(** ** What the library documents *)

(** The segments of a compiled path template: a literal is [OpLitPush i]; a
    variable of one component is [OpPush], [OpConcatN 1], [OpCapture i]. *)
Inductive segment := Lit (s : string) | Var (name : string).

Fixpoint template_of (pool : list string) (ops : list Z) : option (list segment) :=
  match ops with
  | [] => Some []
  | 2 :: i :: ops' =>
      s ← pool !! Z.to_nat i; segs ← template_of pool ops'; Some (Lit s :: segs)
  | 1 :: _ :: 4 :: 1 :: 5 :: i :: ops' =>
      s ← pool !! Z.to_nat i; segs ← template_of pool ops'; Some (Var s :: segs)
  | _ => None
  end.
Definition template (p : Pattern) : option (list segment) := template_of (p_pool p) (p_ops p).

Fixpoint match_segs (segs : list segment) (path : list string) : option (gmap string string) :=
  match segs, path with
  | [], [] => Some ∅
  | Lit s :: segs', c :: path' => if bool_decide (s = c) then match_segs segs' path' else None
  | Var x :: segs', c :: path' => (λ ps, <[x := c]> ps) <$> match_segs segs' path'
  | _, _ => None
  end.

(** A component of unreserved characters. *)
Definition unreserved (b : Z) : bool :=
  in_range 97 122 b || in_range 65 90 b || in_range 48 57 b ||
  (b =? 45) || (b =? 46) || (b =? 95) || (b =? 126).
Definition plain_component (s : string) : bool :=
  negb (bool_decide (s = "")) && forallb unreserved (bytes_of_string s).

(** No escapes in the path, and the method is the one of the request line. *)
Definition plain_request (req : http_request) : bool :=
  forallb plain_component (h_Path req) &&
  bool_decide (Header_Values req "X-Http-Method-Override" = []) &&
  bool_decide ("application/x-www-form-urlencoded" ∉ Header_Values req "Content-Type").

(** The metadata of the call: headers named [Grpc-Metadata-<key>] become the key;
    the list of forwarding addresses gets the address of the peer; the
    credentials are passed on. *)
Class GatewayRuntimeOk `{GatewayRuntime} : Prop := {
  runtime_String_ok s : runtime_String s = inl s;
  ParsePath_ok s : plain_component s = true → template (ParsePath ("/" +:+ s)) = Some [Lit s];
  mux_find_some hs req i ps :
    plain_request req = true → mux_find hs req = Some (i, ps) →
    ∃ p, hs !! i = Some (h_Method req, p) ∧
      ∀ segs, template p = Some segs → match_segs segs (h_Path req) = Some ps;
  mux_find_none hs req i p segs :
    plain_request req = true → mux_find hs req = None →
    hs !! i = Some (h_Method req, p) → template p = Some segs →
    match_segs segs (h_Path req) = None;
  AnnotateContext_forwarded req fullMethod ctx host port :
    AnnotateContext req fullMethod = Ok ctx →
    net_SplitHostPort (h_RemoteAddr req) = Some (host, port) →
    ∃ md, ctx_md ctx = Some md ∧
      md_Get md "x-forwarded-for" =
        Header_Values req "Grpc-Metadata-X-Forwarded-For" ++
        [String.concat ", " (Header_Values req "X-Forwarded-For" ++ [host])];
  AnnotateContext_authorization req fullMethod ctx :
    AnnotateContext req fullMethod = Ok ctx →
    Header_Values req "Grpc-Metadata-Authorization" = [] →
    ∃ md, ctx_md ctx = Some md ∧ md_Get md "authorization" = Header_Values req "Authorization"
}.

(** ** The HTTP interface *)

Section api.
Context `{GatewayRuntime}.

Definition decoded {T} (m : message T) (f : T → request) (req : http_request)
    : request * option decode_error :=
  let '(x, err) := Decode m (h_Body req) in (f x, err).

(** The calls with a body, by their path ([api/auth/auth.proto]). *)
Definition posts : list (list string * (http_request → request * option decode_error)) := [
  (["v1"; "auth"; "register"], decoded RegisterRequest_ ReqRegister);
  (["v1"; "auth"; "login"], decoded LoginRequest_ ReqLogin);
  (["v1"; "auth"; "validate"], decoded ValidateTokenRequest_ ReqValidateToken);
  (["v1"; "auth"; "refresh"], decoded RefreshTokenRequest_ ReqRefreshToken);
  (["v1"; "auth"; "logout"], decoded LogoutRequest_ ReqLogout);
  (["v1"; "auth"; "logout-all"], decoded LogoutAllRequest_ (λ _, ReqLogoutAll));
  (["v1"; "auth"; "change-password"], decoded ChangePasswordRequest_ ReqChangePassword);
  (["v1"; "auth"; "password-reset"; "request"],
     decoded RequestPasswordResetRequest_ ReqRequestPasswordReset);
  (["v1"; "auth"; "password-reset"; "verify"],
     decoded VerifyResetCodeRequest_ (λ m, ReqVerifyResetCode m.1 m.2));
  (["v1"; "auth"; "password-reset"; "confirm"],
     decoded ResetPasswordRequest_ (λ m, ReqResetPassword m.1 m.2)) ].

Definition api_post (req : http_request) : option (request * option decode_error) :=
  (λ e, e.2.2 req) <$> list_find (λ e, e.1 = h_Path req) posts.

(** The RPC an HTTP request stands for, and the error of its body. *)
Definition api (req : http_request) : option (request * option decode_error) :=
  if bool_decide (h_Method req = "POST") then api_post req
  else if bool_decide (h_Method req = "GET") then
    if bool_decide (h_Path req = ["v1"; "auth"; "sessions"]) then Some (ReqListSessions, None) else None
  else if bool_decide (h_Method req = "DELETE") then
    match h_Path req with
    | [a; b; c; id] =>
        if bool_decide ([a; b; c] = ["v1"; "auth"; "sessions"]) then Some (ReqRevokeSession id, None)
        else None
    | _ => None
    end
  else None.
End api.

Section dispatch.
Context `{GatewayRuntimeOk}.

Definition reply_of (ans : reply response) : http_reply :=
  match ans with Reply resp => ForwardResponseMessage resp | Refuse st => HTTPStatus st end.

(** What serving a request does, for the call it stands for. *)
Definition served (req : http_request) (rq : request) (err : option decode_error)
    (tr : list (callrec clientE)) (r : http_reply) : Prop :=
  match AnnotateContext req (FullMethod rq) with
  | Err e => tr = [] ∧ r = HTTPError e
  | Ok ctx =>
      match err with
      | Some (DecodeError e) => tr = [] ∧ r = HTTPStatus (Status InvalidArgument e)
      | _ => ∃ ans, tr = [Call (Invoke ctx rq) ans] ∧ r = reply_of ans
      end
  end.

(** The pages served outside production. *)
Definition page_of (req : http_request) : option http_reply :=
  if bool_decide (h_Method req = "GET") then
    if bool_decide (h_Path req = ["openapi.json"]) then Some (Page "application/json" OpenAPISpec)
    else if bool_decide (h_Path req = ["docs"]) then Some (Page "text/html; charset=utf-8" scalarHTML)
    else None
  else None.

(** One route with a body. *)
Lemma body_route_served {T} meth p full (m : message T) f req ps tr r :
  (∀ x, FullMethod (f x) = full) →
  exec (rt_handler (rpc_route meth p full (request_body m f)) req ps) tr r →
  served req (decoded m f req).1 (decoded m f req).2 tr r.
Proof.
  intros Hfull. unfold served, decoded, request_body. simpl.
  destruct (Decode m (h_Body req)) as [x err]. simpl. rewrite Hfull.
  destruct (AnnotateContext req full) as [ctx|e]; simpl; [|by intros [-> ->]].
  destruct err as [[|e]|]; simpl; try (by intros [-> ->]);
    intros (ans & tr' & -> & Hex); destruct ans; destruct Hex as [-> ->]; eexists; by split.
Qed.

Lemma call_route_served full rq req tr r :
  FullMethod rq = full →
  exec (match AnnotateContext req full with
        | Err err => Ret (HTTPError err)
        | Ok ctx => resp <- (call msg <- Invoke ctx rq;; Ret msg);; forward resp
        end) tr r →
  served req rq None tr r.
Proof.
  intros Hfull. unfold served. rewrite Hfull.
  destruct (AnnotateContext req full) as [ctx|e]; simpl; [|by intros [-> ->]].
  intros (ans & tr' & -> & Hex); destruct ans; destruct Hex as [-> ->]; eexists; by split.
Qed.

(** Inversion of [match_segs] on a concrete template. *)
Lemma match_lit s segs path ps :
  match_segs (Lit s :: segs) path = Some ps → ∃ path', path = s :: path' ∧ match_segs segs path' = Some ps.
Proof. destruct path as [|c path]; [done|]. simpl. case_bool_decide; [|done]. subst. eauto. Qed.
Lemma match_nil path ps : match_segs [] path = Some ps → path = [] ∧ ps = ∅.
Proof. destruct path; simpl; [by intros [= <-]|done]. Qed.
Lemma match_var x path ps :
  match_segs [Var x] path = Some ps → ∃ c, path = [c] ∧ ps = {[x := c]}.
Proof. destruct path as [|c [|]]; simpl; try done. intros [= <-]. eauto. Qed.

Ltac path_of Hm :=
  specialize (Hm _ eq_refl);
  repeat (apply match_lit in Hm as (? & -> & Hm));
  first [apply match_nil in Hm as [-> ->]|apply match_var in Hm as (? & -> & ->)].

(** A route whose pattern matches does what the interface says. *)
Lemma rpc_route_served i r req ps tr rep :
  RegisterAuthServiceHandlerClient !! i = Some r → rt_method r = h_Method req →
  (∀ segs, template (rt_pattern r) = Some segs → match_segs segs (h_Path req) = Some ps) →
  exec (rt_handler r req ps) tr rep →
  ∃ c, api req = Some c ∧ served req c.1 c.2 tr rep.
Proof.
  destruct req as [meth path hdr body remote]. simpl. intros Hi Hmeth Hm Hex.
  apply list_elem_of_lookup_2 in Hi. unfold RegisterAuthServiceHandlerClient in Hi.
  rewrite !elem_of_cons, elem_of_nil in Hi. destruct_or? Hi; subst r;
    simpl in Hmeth; subst meth; simpl in Hm; path_of Hm.
  1-6, 9-12: eexists; split; [reflexivity|];
    (eapply body_route_served; [|exact Hex]; done).
  - eexists. split; [reflexivity|]. by eapply call_route_served.
  - eexists. split; [reflexivity|]. simpl in Hex. unfold request_AuthService_RevokeSession_0 in Hex.
    rewrite lookup_singleton_eq, runtime_String_ok in Hex. by eapply call_route_served.
Qed.

Lemma docs_route_page env i r req ps tr rep :
  docs_routes env !! i = Some r → rt_method r = h_Method req →
  (∀ segs, template (rt_pattern r) = Some segs → match_segs segs (h_Path req) = Some ps) →
  exec (rt_handler r req ps) tr rep →
  env ≠ "prod" ∧ api req = None ∧ tr = [] ∧ page_of req = Some rep.
Proof.
  destruct req as [meth path hdr body remote]. simpl. unfold docs_routes.
  case_bool_decide as Henv; [|done]. intros Hi Hmeth Hm Hex.
  apply list_elem_of_lookup_2 in Hi. rewrite !elem_of_cons, elem_of_nil in Hi.
  destruct_or? Hi; subst r; simpl in Hmeth, Hm, Hex; subst meth; destruct Hex as [-> ->];
    (first [specialize (Hm _ (ParsePath_ok "openapi.json" eq_refl))
           |specialize (Hm _ (ParsePath_ok "docs" eq_refl))]; apply match_lit in Hm as (? & -> & Hm);
     apply match_nil in Hm as [-> ->]);
    by split_and!.
Qed.

(** Every call of the interface has a route. *)
Lemma api_has_route env req c :
  api req = Some c →
  ∃ i p segs ps,
    ((λ r, (rt_method r, rt_pattern r)) <$> mux_routes env) !! i = Some (h_Method req, p) ∧
    template p = Some segs ∧ match_segs segs (h_Path req) = Some ps.
Proof.
  destruct req as [meth path hdr body remote]. unfold api, api_post. cbn [h_Method h_Path].
  case_bool_decide as Hpost; [subst meth|].
  - destruct (list_find (λ e, e.1 = path) posts) as [[i e]|] eqn:Hf; [|done]. intros _.
    apply list_find_Some in Hf as (Hi & Hp & _). apply list_elem_of_lookup_2 in Hi.
    unfold posts in Hi. rewrite !elem_of_cons, elem_of_nil in Hi.
    destruct_or? Hi; subst e; simpl in Hp; subst path;
      [exists 0%nat|exists 1%nat|exists 2%nat|exists 3%nat|exists 4%nat|exists 5%nat|exists 8%nat
      |exists 9%nat|exists 10%nat|exists 11%nat];
      by eexists _, _, _.
  - case_bool_decide as Hget; [subst meth|case_bool_decide as Hdel; [subst meth|done]].
    + case_bool_decide; [subst path|done]. intros _. exists 6%nat. by eexists _, _, _.
    + destruct path as [|a [|b [|c' [|id [|]]]]]; try done. case_bool_decide as Hp; [|done].
      injection Hp as -> -> ->. intros _. exists 7%nat. by eexists _, _, _.
Qed.

(** An HTTP request to the gateway reaches the service as exactly the RPC that
    the interface assigns to its method and path, once, with the message in its
    body (or the session named in its path), and the answer of the service is
    passed back; a body that cannot be decoded is answered InvalidArgument, and
    any other path NotFound, without a call.  The documentation is served
    outside production only. *)
Lemma gateway_dispatch env req tr r :
  exec (ServeHTTP env req) tr r → plain_request req = true →
  match api req with
  | Some (rq, err) => served req rq err tr r
  | None => tr = [] ∧
      (r = HTTPNotFound ∨ env ≠ "prod" ∧ page_of req = Some r)
  end.
Proof.
  unfold ServeHTTP, mux_serve. intros Hex Hplain. destruct (mux_find _ req) as [[i ps]|] eqn:Hf.
  - destruct (mux_find_some _ _ _ _ Hplain Hf) as (p & Hi & Hm).
    apply list_lookup_fmap_Some in Hi as (rt & [= Hmeth ->] & Hi). rewrite Hi in Hex.
    apply lookup_app_Some in Hi as [Hi|[_ Hi]].
    + destruct (rpc_route_served _ _ _ _ _ _ Hi (eq_sym Hmeth) Hm Hex) as ([rq err] & -> & Hs). done.
    + destruct (docs_route_page _ _ _ _ _ _ _ Hi (eq_sym Hmeth) Hm Hex) as (Henv & -> & -> & Hp).
      split; [done|]. by right.
  - destruct Hex as [-> ->]. destruct (api req) as [c|] eqn:Ha; [|split; [done|by left]].
    destruct (api_has_route env req c Ha) as (i & p & segs & ps & Hi & Ht & Hm).
    by rewrite (mux_find_none _ _ _ _ _ Hplain Hf Hi Ht) in Hm.
Qed.
End dispatch.

(** ** Whose address the service sees *)

Section address.
Context `{GatewayRuntimeOk}.

Lemma concat_snoc sep l x :
  String.concat sep (l ++ [x]) =
  match l with [] => x | _ => String.concat sep l +:+ (sep +:+ x) end.
Proof.
  induction l as [|a [|b l] IH]; [done..|]. simpl app. simpl String.concat.
  simpl in IH. rewrite IH. simpl. by rewrite !str_app_assoc.
Qed.

Lemma rightmost_ip_one ip : graphic ip → ip ≠ "" → no_byte "," ip → rightmost_ip ip = Some ip.
Proof.
  intros Hg Hne Hc. unfold rightmost_ip. rewrite strings_Split_none by done. simpl.
  change (strings_TrimSpace ip) with (strings_TrimSpace (string_of_bytes (replicate 0 0x20) +:+ ip)).
  rewrite strings_TrimSpace_graphic by done. by rewrite bool_decide_eq_false_2.
Qed.

Lemma rightmost_ip_nonempty xff ip : rightmost_ip xff = Some ip → ip ≠ "".
Proof.
  unfold rightmost_ip. generalize (reverse (strings_Split "," xff)). intros l.
  induction l as [|p l IH]; simpl; [done|]. case_bool_decide; [done|]. by intros [= <-].
Qed.

(** The first value of the header decides. *)
Lemma client_address ctx md xff rest ip :
  ctx_md ctx = Some md → md_Get md "x-forwarded-for" = xff :: rest → rightmost_ip xff = Some ip →
  extractIP ctx = ip ∧ (extractClientInfo ctx).1 = ip.
Proof.
  intros Hmd Hxff Hip. pose proof (rightmost_ip_nonempty _ _ Hip) as Hne.
  unfold extractIP, extractClientInfo. rewrite Hmd, Hxff, Hip. split; [done|].
  change (default "" (Some ip)) with ip. cbv zeta.
  rewrite (bool_decide_eq_false_2 (ip = "")) by done. simpl.
  by rewrite (bool_decide_eq_false_2 (ip = "")).
Qed.

(** C22: The address that the rate limiter counts and the audit trail records for a
    request through the gateway: without a header
    [Grpc-Metadata-X-Forwarded-For] it is the address of the TCP peer, whatever
    the client wrote into X-Forwarded-For; with one, it is the address in that
    header, which the client chooses. *)
Theorem gateway_client_address req fullMethod ctx host port :
  AnnotateContext req fullMethod = Ok ctx →
  net_SplitHostPort (h_RemoteAddr req) = Some (host, port) →
  graphic host → host ≠ "" → no_byte "," host →
  match Header_Values req "Grpc-Metadata-X-Forwarded-For" with
  | [] => extractIP ctx = host ∧ (extractClientInfo ctx).1 = host
  | chosen :: _ => ∀ ip, rightmost_ip chosen = Some ip →
      extractIP ctx = ip ∧ (extractClientInfo ctx).1 = ip
  end.
Proof.
  intros Hctx Haddr Hg Hne Hc.
  destruct (AnnotateContext_forwarded _ _ _ _ _ Hctx Haddr) as (md & Hmd & Hxff).
  destruct (Header_Values req "Grpc-Metadata-X-Forwarded-For") as [|chosen rest].
  - eapply client_address; [exact Hmd|exact Hxff|]. rewrite concat_snoc.
    destruct (Header_Values req "X-Forwarded-For") as [|a l]; [by apply rightmost_ip_one|].
    by apply (rightmost_ip_last _ 1).
  - intros ip Hip. by eapply client_address.
Qed.
End address.
