(* ===== verification/GatewayLocal.v ===== *)
(** * The in-process gateway ([gen/api/auth.pb.gw.go])

    The second half of the generated gateway: [local_request_AuthService_*_0] and
    [RegisterAuthServiceHandlerServer], which call the methods of a server in the
    same process instead of those of a client.  The service is wired with the
    other half ([Gateway]); that both serve the same interface is proved here, as
    a simulation of their programs: they make the same calls and give the same
    answers, and differ in the context of the calls only. *)

From Stdlib Require Import Ascii String.
From S2P Require Import Prelude GoStd Ports Validate Crypto Service Spec Redis Bruteforce RateLimit.
From S2P Require Import World Jwt App Grpc Gateway.
Open Scope Z_scope.

(** ** Requests *)

Section local.
Context `{GatewayRuntime}.

Abbreviation local_handler := (Ctx → http_request → gmap string string → prog clientE (reply response)).

(** The [AuthServiceServer] the handlers are given. *)
Abbreviation server := Invoke.

(** A request whose message is its body. *)
Definition local_request_body {T} (m : message T) (f : T → request) : local_handler := λ ctx req _,
  match Decode m (h_Body req) with
  | (_, Some (DecodeError err)) => Ret (Refuse (Status InvalidArgument err))
  | (protoReq, _) => call msg <- server ctx (f protoReq);; Ret msg
  end.

Definition local_request_AuthService_Register_0 : local_handler :=
  local_request_body RegisterRequest_ ReqRegister.
Definition local_request_AuthService_Login_0 : local_handler :=
  local_request_body LoginRequest_ ReqLogin.
Definition local_request_AuthService_ValidateToken_0 : local_handler :=
  local_request_body ValidateTokenRequest_ ReqValidateToken.
Definition local_request_AuthService_RefreshToken_0 : local_handler :=
  local_request_body RefreshTokenRequest_ ReqRefreshToken.
Definition local_request_AuthService_Logout_0 : local_handler :=
  local_request_body LogoutRequest_ ReqLogout.
Definition local_request_AuthService_LogoutAll_0 : local_handler :=
  local_request_body LogoutAllRequest_ (λ _, ReqLogoutAll).
Definition local_request_AuthService_ListSessions_0 : local_handler := λ ctx _ _,
  call msg <- server ctx ReqListSessions;; Ret msg.
Definition local_request_AuthService_RevokeSession_0 : local_handler := λ ctx _ pathParams,
  match pathParams !! "session_id" with
  | None => Ret (Refuse (Status InvalidArgument "missing parameter session_id"))
  | Some val =>
      match runtime_String val with
      | inr err =>
          Ret (Refuse (Status InvalidArgument
            ("type mismatch, parameter: session_id, error: " +:+ err)))
      | inl sessionId => call msg <- server ctx (ReqRevokeSession sessionId);; Ret msg
      end
  end.
Definition local_request_AuthService_ChangePassword_0 : local_handler :=
  local_request_body ChangePasswordRequest_ ReqChangePassword.
Definition local_request_AuthService_RequestPasswordReset_0 : local_handler :=
  local_request_body RequestPasswordResetRequest_ ReqRequestPasswordReset.
Definition local_request_AuthService_VerifyResetCode_0 : local_handler :=
  local_request_body VerifyResetCodeRequest_ (λ m, ReqVerifyResetCode m.1 m.2).
Definition local_request_AuthService_ResetPassword_0 : local_handler :=
  local_request_body ResetPasswordRequest_ (λ m, ReqResetPassword m.1 m.2).

(** ** Routes *)

(** The function each [mux.Handle] registers.  The metadata of the transport
    stream it joins is not part of the answer. *)
Definition local_route (meth : string) (pattern : Pattern) (fullMethod : string)
    (request : local_handler) : route :=
  {| rt_method := meth; rt_pattern := pattern;
     rt_handler := λ req pathParams,
       match AnnotateIncomingContext req fullMethod with
       | Err err => Ret (HTTPError err)
       | Ok annotatedContext => resp <- request annotatedContext req pathParams;; forward resp
       end |}.

Definition local_handle_Register : route :=
  local_route "POST" pattern_AuthService_Register_0 "/api.AuthService/Register"
    local_request_AuthService_Register_0.
Definition local_handle_Login : route :=
  local_route "POST" pattern_AuthService_Login_0 "/api.AuthService/Login"
    local_request_AuthService_Login_0.
Definition local_handle_ValidateToken : route :=
  local_route "POST" pattern_AuthService_ValidateToken_0 "/api.AuthService/ValidateToken"
    local_request_AuthService_ValidateToken_0.
Definition local_handle_RefreshToken : route :=
  local_route "POST" pattern_AuthService_RefreshToken_0 "/api.AuthService/RefreshToken"
    local_request_AuthService_RefreshToken_0.
Definition local_handle_Logout : route :=
  local_route "POST" pattern_AuthService_Logout_0 "/api.AuthService/Logout"
    local_request_AuthService_Logout_0.
Definition local_handle_LogoutAll : route :=
  local_route "POST" pattern_AuthService_LogoutAll_0 "/api.AuthService/LogoutAll"
    local_request_AuthService_LogoutAll_0.
Definition local_handle_ListSessions : route :=
  local_route "GET" pattern_AuthService_ListSessions_0 "/api.AuthService/ListSessions"
    local_request_AuthService_ListSessions_0.
Definition local_handle_RevokeSession : route :=
  local_route "DELETE" pattern_AuthService_RevokeSession_0 "/api.AuthService/RevokeSession"
    local_request_AuthService_RevokeSession_0.
Definition local_handle_ChangePassword : route :=
  local_route "POST" pattern_AuthService_ChangePassword_0 "/api.AuthService/ChangePassword"
    local_request_AuthService_ChangePassword_0.
Definition local_handle_RequestPasswordReset : route :=
  local_route "POST" pattern_AuthService_RequestPasswordReset_0 "/api.AuthService/RequestPasswordReset"
    local_request_AuthService_RequestPasswordReset_0.
Definition local_handle_VerifyResetCode : route :=
  local_route "POST" pattern_AuthService_VerifyResetCode_0 "/api.AuthService/VerifyResetCode"
    local_request_AuthService_VerifyResetCode_0.
Definition local_handle_ResetPassword : route :=
  local_route "POST" pattern_AuthService_ResetPassword_0 "/api.AuthService/ResetPassword"
    local_request_AuthService_ResetPassword_0.

Definition RegisterAuthServiceHandlerServer : list route := [
  local_handle_Register;
  local_handle_Login;
  local_handle_ValidateToken;
  local_handle_RefreshToken;
  local_handle_Logout;
  local_handle_LogoutAll;
  local_handle_ListSessions;
  local_handle_RevokeSession;
  local_handle_ChangePassword;
  local_handle_RequestPasswordReset;
  local_handle_VerifyResetCode;
  local_handle_ResetPassword ].
End local.

(** ** Simulation *)

Section simulation.
Context (R : Ctx → Ctx → Prop).

(** Two programs that call the same methods with the same messages, in contexts
    related by [R], and go on alike after every answer. *)
Inductive psim {A} : prog clientE A → prog clientE A → Prop :=
| psim_Ret a : psim (Ret a) (Ret a)
| psim_Invoke c1 c2 rq k1 k2 :
    R c1 c2 → (∀ x, psim (k1 x) (k2 x)) →
    psim (Vis (Invoke c1 rq) k1) (Vis (Invoke c2 rq) k2).

(** The same call in a related context, with the same answer. *)
Definition call_sim (c1 c2 : callrec clientE) : Prop :=
  ∃ x1 x2 rq ans, R x1 x2 ∧ c1 = Call (Invoke x1 rq) ans ∧ c2 = Call (Invoke x2 rq) ans.

Lemma psim_bind {A B} (p q : prog clientE A) (f g : A → prog clientE B) :
  psim p q → (∀ a, psim (f a) (g a)) → psim (bind p f) (bind q g).
Proof.
  intros Hp Hf. induction Hp as [a|c1 c2 rq k1 k2 Hc Hk IH]; simpl; [apply Hf|].
  by constructor.
Qed.

Lemma psim_call c1 c2 rq :
  R c1 c2 → psim (call msg <- Invoke c1 rq;; Ret msg) (call msg <- Invoke c2 rq;; Ret msg).
Proof. intros Hc. constructor; [done|]. intros x. constructor. Qed.

Lemma psim_exec {A} (p q : prog clientE A) tr r :
  psim p q → exec p tr r → ∃ tr', exec q tr' r ∧ Forall2 call_sim tr tr'.
Proof.
  intros Hp. revert tr. induction Hp as [a|c1 c2 rq k1 k2 Hc Hk IH]; intros tr.
  - intros [-> ->]. exists []. by repeat constructor.
  - intros (ans & tr1 & -> & (tr' & Hex & Hs)%IH). exists (Call (Invoke c2 rq) ans :: tr').
    split; [by eexists _, _|]. constructor; [|done]. by exists c1, c2, rq, ans.
Qed.

(** Two annotations that fail alike or give related contexts. *)
Definition result_sim (a b : result Ctx) : Prop :=
  match a, b with
  | Ok c1, Ok c2 => R c1 c2
  | Err e1, Err e2 => e1 = e2
  | _, _ => False
  end.
End simulation.

Section equivalence.
Context `{GatewayRuntime} (R : Ctx → Ctx → Prop).

Definition handler_sim (h1 h2 : Ctx → http_request → gmap string string → prog clientE (reply response))
    : Prop :=
  ∀ c1 c2 req ps, R c1 c2 → psim R (h1 c1 req ps) (h2 c2 req ps).

Lemma body_sim {T} (m : message T) f : handler_sim (request_body m f) (local_request_body m f).
Proof.
  intros c1 c2 req ps Hc. unfold request_body, local_request_body.
  destruct (Decode m (h_Body req)) as [x [[|e]|]]; [by apply psim_call|constructor|by apply psim_call].
Qed.
Lemma list_sim : handler_sim request_AuthService_ListSessions_0 local_request_AuthService_ListSessions_0.
Proof. intros c1 c2 req ps Hc. by apply psim_call. Qed.
Lemma revoke_sim :
  handler_sim request_AuthService_RevokeSession_0 local_request_AuthService_RevokeSession_0.
Proof.
  intros c1 c2 req ps Hc. unfold request_AuthService_RevokeSession_0, local_request_AuthService_RevokeSession_0.
  destruct (ps !! "session_id") as [v|]; [|constructor].
  destruct (runtime_String v); [by apply psim_call|constructor].
Qed.

(** Routes for the same requests with matching handlers. *)
Definition route_sim (req : http_request) (r1 r2 : route) : Prop :=
  rt_method r1 = rt_method r2 ∧ rt_pattern r1 = rt_pattern r2 ∧
  ∀ ps, psim R (rt_handler r1 req ps) (rt_handler r2 req ps).

Lemma rpc_route_sim req meth p full h1 h2 :
  result_sim R (AnnotateContext req full) (AnnotateIncomingContext req full) → handler_sim h1 h2 →
  route_sim req (rpc_route meth p full h1) (local_route meth p full h2).
Proof.
  intros Ha Hh. split_and!; [done..|]. intros ps. simpl.
  destruct (AnnotateContext req full) as [c1|e1], (AnnotateIncomingContext req full) as [c2|e2];
    simpl in Ha; try done; [|subst; constructor].
  apply psim_bind; [by apply Hh|]. intros [resp|st]; constructor.
Qed.

Lemma mux_serve_sim rs1 rs2 req :
  Forall2 (route_sim req) rs1 rs2 → psim R (mux_serve rs1 req) (mux_serve rs2 req).
Proof.
  intros Hrs. unfold mux_serve.
  assert ((λ r, (rt_method r, rt_pattern r)) <$> rs1 = (λ r, (rt_method r, rt_pattern r)) <$> rs2) as ->.
  { induction Hrs as [|r1 r2 ?? (Hm & Hp & _) _ IH]; [done|]. csimpl. by rewrite Hm, Hp, IH. }
  destruct (mux_find _ req) as [[i ps]|]; [|constructor].
  destruct (proj1 (Forall2_lookup _ _ _) Hrs i) as [r1 r2 (_ & _ & Hh)|]; [apply Hh|constructor].
Qed.

(** C23: The in-process gateway serves the same interface as the gateway the
    service is started with: on every HTTP request the two make the same calls
    with the same messages and, given the same answers, reply alike; only the
    contexts of the calls differ, and by no more than the library's two
    annotations of the request do. *)
Theorem in_process_gateway req :
  (∀ fullMethod, result_sim R (AnnotateContext req fullMethod) (AnnotateIncomingContext req fullMethod)) →
  psim R (mux_serve RegisterAuthServiceHandlerClient req) (mux_serve RegisterAuthServiceHandlerServer req).
Proof.
  intros Ha. apply mux_serve_sim.
  repeat (apply Forall2_cons; split;
    [apply rpc_route_sim; [done|]; (apply body_sim || apply list_sim || apply revoke_sim)|]).
  by apply Forall2_nil.
Qed.
End equivalence.
