(* ===== verification/Server.v ===== *)
(** * Starting and stopping the process

    [cmd/auth-service/main.go] with what it starts and stops: the connections
    ([internal/postgres], [internal/redis]), the gRPC server
    ([internal/app/grpc]) and the gateway ([internal/app/gateway]); and
    [cmd/migrator].  Each is a program of calls to the operating system and the
    libraries, [sysE].  A deferred call runs when [main] returns or panics, and
    not on [os.Exit] or [log.Fatalf]. *)

From Stdlib Require Import Ascii String.
From S2P Require Import Prelude GoStd Ports Validate Crypto Service Spec Redis Bruteforce RateLimit.
From S2P Require Import World Jwt App Grpc Gateway.
Open Scope Z_scope.

(** ** Configuration *)

Record DbConfig := {
  db_Username : string;
  db_Password : string;
  db_Host : string;
  db_Port : string;
  db_DbName : string
}.
Record RedConfig := { red_Host : string; red_Port : Z; red_Password : string }.
Record GRPCConfig := { grpc_Port : Z; grpc_Timeout : duration }.
Record GatewayConfig := { gw_Port : Z; gw_GRPCTarget : string; gw_GRPCTLSCert : string }.
Record SecurityConfig := { sec_BruteForce : BruteForceConfig; sec_RateLimit : RateLimitConfig }.
Record Config := {
  cfg_Env : string;
  cfg_GRPC : GRPCConfig;
  cfg_Gateway : GatewayConfig;
  cfg_JWT : JWTConfig;
  cfg_Security : SecurityConfig;
  cfg_Redis : RedConfig;
  cfg_DB : DbConfig
}.

(** ** The calls *)

Inductive server := GrpcServer | GatewayServer.
(** What ends the wait: a signal, or the error of a server. *)
Inductive wakeup := Signal | ServerError (err : error).
(** [http.Server.ListenAndServe] returns an error in any case. *)
Inductive serve_end := ErrServerClosed | ServeError (err : error).
(** The fields of [http.Server] the gateway sets, but the handler. *)
Record http_Server := {
  hs_Addr : string;
  hs_ReadHeaderTimeout : duration;
  hs_ReadTimeout : duration;
  hs_WriteTimeout : duration;
  hs_IdleTimeout : duration
}.
(** How [Up] and [Down] of a migration end. *)
Inductive migrate_end := Migrated | ErrNoChange | MigrateError (err : error).

Inductive sysE : Type → Type :=
| ReadEnv : sysE (result Config)
| ReadDbEnv : sysE (result DbConfig)
| SysLog (lvl : level) (msg : string) : sysE unit
(* pgxpool, go-redis *)
| PoolNew (dsn : string) : sysE (option error)
| PoolPing : sysE (option error)
| PoolClose : sysE unit
| RedisPing (addr password : string) : sysE (option error)
| RedisClose : sysE (option error)
(* goroutines, signals *)
| GoServer (s : server) : sysE unit
| SendServerErr (err : error) : sysE unit
| SelectStop : sysE wakeup
(* grpc *)
| NetListen (addr : string) : sysE (option error)
| GrpcServe : sysE (option error)
| GracefulStop : sysE unit
(* the gateway, and the fields of its App that [run] and [Stop] share *)
| NewClientTLSFromFile (cert : string) : sysE (option error)
| GrpcNewClient (target : string) (tls : bool) : sysE (option error)
| MuxHandle (meth : string) (pattern : Pattern) : sysE unit
| GoCloseConn (target : string) : sysE unit
| CtxDone : sysE unit
| ConnClose : sysE (option error)
| GrpclogErrorf (msg : string) : sysE unit
| MuxHandlePath (meth path : string) : sysE (option error)
| ListenAndServe (srv : http_Server) : sysE serve_end
| SetCancelGW : sysE unit
| GetCancelGW : sysE bool
| CancelGW : sysE unit
| SetHTTPServer (srv : http_Server) : sysE unit
| GetHTTPServer : sysE bool
| HTTPShutdown : sysE (option error)
(* golang-migrate *)
| MigrateNew (source dsn : string) : sysE (option error)
| MigrateUp : sysE migrate_end
| MigrateDown : sysE migrate_end
| MigrateClose : sysE (option error * option error)
| Print (msg : string) : sysE unit.

(** ** Connections *)

Module postgres.

(** [fmt.Sprintf("postgres://%v:%v@%v:%v/%v?sslmode=disable", ...)]. *)
Definition dsn (cfg : DbConfig) : string :=
  "postgres://" +:+ db_Username cfg +:+ ":" +:+ db_Password cfg +:+ "@" +:+ db_Host cfg +:+ ":" +:+
  db_Port cfg +:+ "/" +:+ db_DbName cfg +:+ "?sslmode=disable".

Definition New (cfg : DbConfig) : prog sysE (option error) :=
  call err <- PoolNew (dsn cfg);;
  match err with
  | Some err => Ret (Some err)
  | None => call err <- PoolPing;; Ret err
  end.

Definition Close : prog sysE unit := trigger PoolClose.

End postgres.

Module redis.

Definition addr (cfg : RedConfig) : string := red_Host cfg +:+ ":" +:+ fmt_d (red_Port cfg).

Definition New (cfg : RedConfig) : prog sysE (option error) :=
  call err <- RedisPing (addr cfg) (red_Password cfg);;
  match err with
  | Some err => Ret (Some (ErrorfW "failed to connect to redis" err))
  | None => Ret None
  end.

End redis.

(** ** The gRPC server ([internal/app/grpc/app.go]) *)

Module grpcapp.

Record App := { gRPCServer : grpc_Server; port : Z }.

(** [opts] are the time-out and the chain of interceptors. *)
Definition New (authService : AuthServiceServer) (port : Z) (timeout : duration)
    (interceptor : UnaryServerInterceptor) : App :=
  {| gRPCServer := auth_Register (grpc_NewServer timeout interceptor) authService; port := port |}.

Definition run (a : App) : prog sysE (option error) :=
  call err <- NetListen (":" +:+ fmt_d (port a));;
  match err with
  | Some err => Ret (Some (ErrorfW "grpcapp.run" err))
  | None =>
      do SysLog LevelInfo "grpc server is running";;
      call err <- GrpcServe;;
      match err with
      | Some err => Ret (Some (ErrorfW "grpcapp.run" err))
      | None => Ret None
      end
  end.
Definition Run (a : App) : prog sysE (option error) := run a.

Definition Stop : prog sysE unit :=
  do SysLog LevelInfo "stopping gRPC server";; do GracefulStop;; Ret tt.

End grpcapp.

(** ** The gateway ([internal/app/gateway/app.go]) *)

Module gateway.

Record App := { port : Z; grpcTarget : string; grpcTLSCert : string; env : string }.

Definition New (port grpcPort : Z) (grpcTarget grpcTLSCert env : string) : App :=
  let target := if bool_decide (grpcTarget = "") then "localhost:" +:+ fmt_d grpcPort
                else grpcTarget in
  {| port := port; grpcTarget := target; grpcTLSCert := grpcTLSCert; env := env |}.

Section run.
Context `{GatewayRuntime}.

(** [RegisterAuthServiceHandler] over the connection: [mux.Handle] for every
    method; it returns no error. *)
Fixpoint handle_all (rs : list route) : prog sysE unit :=
  match rs with
  | [] => Ret tt
  | r :: rs' => do MuxHandle (rt_method r) (rt_pattern r);; handle_all rs'
  end.
Definition RegisterAuthServiceHandler : prog sysE (option error) :=
  handle_all Gateway.RegisterAuthServiceHandler;;; Ret None.

Definition close_conn (endpoint : string) : prog sysE unit :=
  call cerr <- ConnClose;;
  match cerr with
  | Some _ => trigger (GrpclogErrorf ("Failed to close conn to " +:+ endpoint))
  | None => Ret tt
  end.

(** The goroutine that closes the connection. *)
Definition close_conn_goroutine (endpoint : string) : prog sysE unit :=
  do CtxDone;; close_conn endpoint.

Definition RegisterAuthServiceHandlerFromEndpoint (endpoint : string) (tls : bool)
    : prog sysE (option error) :=
  call err <- GrpcNewClient endpoint tls;;
  match err with
  | Some err => Ret (Some err)
  | None =>
      err <- RegisterAuthServiceHandler;;
      match err with
      | Some err => close_conn endpoint;;; Ret (Some err)
      | None => do GoCloseConn endpoint;; Ret None
      end
  end.

(** From the registered handlers on. *)
Definition http_server (a : App) : http_Server :=
  {| hs_Addr := ":" +:+ fmt_d (port a); hs_ReadHeaderTimeout := 5 * second;
     hs_ReadTimeout := 10 * second; hs_WriteTimeout := 30 * second; hs_IdleTimeout := 120 * second |}.
Definition serve (a : App) : prog sysE (option error) :=
  do SysLog LevelInfo "starting gateway";;
  do SetHTTPServer (http_server a);;
  call fin <- ListenAndServe (http_server a);;
  match fin with
  | ErrServerClosed => Ret None
  | ServeError err => Ret (Some (ErrorfW "gateway.run" err))
  end.

Definition register_docs (a : App) : prog sysE (option error) :=
  if bool_decide (env a ≠ "prod") then
    call err <- MuxHandlePath "GET" "/openapi.json";;
    match err with
    | Some err => Ret (Some (ErrorfW "gateway.run: register /openapi.json" err))
    | None =>
        call err <- MuxHandlePath "GET" "/docs";;
        match err with
        | Some err => Ret (Some (ErrorfW "gateway.run: register /docs" err))
        | None => do SysLog LevelInfo "api docs available";; Ret None
        end
    end
  else Ret None.

Definition register (a : App) (tls : bool) : prog sysE (option error) :=
  err <- RegisterAuthServiceHandlerFromEndpoint (grpcTarget a) tls;;
  match err with
  | Some err => do CancelGW;; Ret (Some (ErrorfW "gateway.run" err))
  | None =>
      err <- register_docs a;;
      match err with
      | Some err => Ret (Some err)
      | None => serve a
      end
  end.

Definition run (a : App) : prog sysE (option error) :=
  do SetCancelGW;;
  if bool_decide (grpcTLSCert a ≠ "") then
    call err <- NewClientTLSFromFile (grpcTLSCert a);;
    match err with
    | Some err => Ret (Some (ErrorfW "gateway.run: load gRPC TLS cert" err))
    | None => register a true
    end
  else if bool_decide (env a = "prod") then
    do SysLog LevelWarn "gateway→gRPC connection is unencrypted; set GATEWAY_GRPC_TLS_CERT in production";;
    register a false
  else register a false.
Definition Run (a : App) : prog sysE (option error) := run a.
End run.

Definition Stop : prog sysE (option error) :=
  do SysLog LevelInfo "stopping gateway";;
  call set <- GetCancelGW;;
  let shutdown : prog sysE (option error) :=
    call started <- GetHTTPServer;;
    if negb started then Ret None else call err <- HTTPShutdown;; Ret err in
  if (set : bool) then do CancelGW;; shutdown else shutdown.

End gateway.

(** ** [cmd/auth-service/main.go] *)

Inductive exit := Exit (code : Z) | Panicked.
(** The handler of a logger, with the lowest level it prints. *)
Inductive log_handler := PrettyHandler (lvl : level) | JSONHandler (lvl : level).

Definition setupPrettySlog : log_handler := PrettyHandler LevelDebug.

(** [None]: the process ends with status 1. *)
Definition setupLogger (env : string) : option log_handler :=
  if bool_decide (env = "local") then Some setupPrettySlog
  else if bool_decide (env = "dev") then Some (JSONHandler LevelDebug)
  else if bool_decide (env = "prod") then Some (JSONHandler LevelInfo)
  else None.

(** [config.MustLoad]; [None]: the process ends with status 1. *)
Definition MustLoad : prog sysE (option Config) :=
  call cfg <- ReadEnv;;
  match cfg with
  | Err _ => do SysLog LevelError "couldn't read the configuration";; Ret None
  | Ok cfg => Ret (Some cfg)
  end.

Section main.
Context `{KeyFiles}.

(** The servers [app.New] makes of its parts, and their goroutines. *)
Definition servers `{GrpcRuntime, Argon2, UnicodeTables} {R} (cfg : Config) (app : App R)
    : grpcapp.App * gateway.App :=
  (grpcapp.New (service_server (app_service app)) (grpc_Port (cfg_GRPC cfg)) (grpc_Timeout (cfg_GRPC cfg))
     (ChainUnaryInterceptor [Logging_interceptor;
        RateLimit_interceptor (app_globalLimiter app) (app_loginLimiter app)]),
   gateway.New (gw_Port (cfg_Gateway cfg)) (grpc_Port (cfg_GRPC cfg)) (gw_GRPCTarget (cfg_Gateway cfg))
     (gw_GRPCTLSCert (cfg_Gateway cfg)) (cfg_Env cfg)).
Definition grpc_goroutine (a : grpcapp.App) : prog sysE unit :=
  err <- grpcapp.Run a;;
  match err with Some err => trigger (SendServerErr (ErrorfW "grpc" err)) | None => Ret tt end.
Definition gateway_goroutine `{GatewayRuntime} (a : gateway.App) : prog sysE unit :=
  err <- gateway.Run a;;
  match err with Some err => trigger (SendServerErr (ErrorfW "gateway" err)) | None => Ret tt end.

Definition close_redis : prog sysE unit :=
  call err <- RedisClose;;
  match err with
  | Some _ => trigger (SysLog LevelError "failed to close redis client")
  | None => Ret tt
  end.

(** From the application on; the deferred calls last. *)
Definition run_servers : prog sysE exit :=
  do GoServer GrpcServer;;
  do GoServer GatewayServer;;
  call w <- SelectStop;;
  do SysLog (match w with Signal => LevelInfo | ServerError _ => LevelError end)
       (match w with Signal => "shutting down application..." | ServerError _ => "server startup failed" end);;
  err <- gateway.Stop;;
  (match err with
   | Some _ => trigger (SysLog LevelError "gateway shutdown error")
   | None => Ret tt
   end);;;
  grpcapp.Stop;;;
  do SysLog LevelInfo "Server Stopped";;
  postgres.Close;;; close_redis;;; Ret (Exit 0).

Definition main_connected (cfg : Config) : prog sysE exit :=
  do SysLog LevelInfo "infrastructure initialized successfully";;
  match New tt (cfg_JWT cfg) (sec_BruteForce (cfg_Security cfg)) (sec_RateLimit (cfg_Security cfg)) with
  | None => postgres.Close;;; close_redis;;; Ret Panicked
  | Some (Err _) => do SysLog LevelError "failed to initialize application";; Ret (Exit 1)
  | Some (Ok _) => run_servers
  end.

Definition main : prog sysE exit :=
  cfg <- MustLoad;;
  match cfg with
  | None => Ret (Exit 1)
  | Some cfg =>
  match setupLogger (cfg_Env cfg) with
  | None =>
      do SysLog LevelError "unknown ENV value, must be one of: local, dev, prod";; Ret (Exit 1)
  | Some _ =>
  do SysLog LevelInfo "starting auth-service...";;
  err <- redis.New (cfg_Redis cfg);;
  match err with
  | Some _ => do SysLog LevelError "failed to initialize redis client";; Ret (Exit 1)
  | None =>
  err <- postgres.New (cfg_DB cfg);;
  match err with
  | Some _ => do SysLog LevelError "failed to connect to the database";; Ret (Exit 1)
  | None => main_connected cfg
  end
  end
  end
  end.
End main.

(** ** [cmd/migrator/main.go] *)

Module migrator.

(** The deferred [m.Close()]. *)
Definition close : prog sysE unit :=
  call errs <- MigrateClose;;
  (match errs.1 with
   | Some _ => trigger (Print "failed to close migration source")
   | None => Ret tt
   end);;;
  match errs.2 with
  | Some _ => trigger (Print "failed to close migration db")
  | None => Ret tt
  end.

Definition finish (fin : migrate_end) (failed success : string) : prog sysE exit :=
  match fin with
  | MigrateError _ => do SysLog LevelError failed;; Ret (Exit 1)
  | Migrated | ErrNoChange => do Print success;; close;;; Ret (Exit 0)
  end.

(** With the values of the flags. *)
Definition main (migrationPath command : string) : prog sysE exit :=
  call cfg <- ReadDbEnv;;
  match cfg with
  | Err _ => do SysLog LevelError "couldn't read the configuration";; Ret (Exit 1)
  | Ok cfg =>
  do SysLog LevelInfo ("connecting to postgres://" +:+ db_Username cfg +:+ ":***@" +:+ db_Host cfg +:+
                       ":" +:+ db_Port cfg +:+ "/" +:+ db_DbName cfg);;
  call err <- MigrateNew ("file://" +:+ migrationPath) (postgres.dsn cfg);;
  match err with
  | Some _ => do SysLog LevelError "failed to initialize migrations";; Ret (Exit 1)
  | None =>
      if bool_decide (command = "up") then
        call fin <- MigrateUp;;
        finish fin "failed to run migrations" "✅ migrations successfully applied!"
      else if bool_decide (command = "down") then
        call fin <- MigrateDown;;
        finish fin "failed to rollback migrations" "✅ migrations successfully rolled back!"
      else
        do SysLog LevelError ("unknown command: " +:+ command +:+ ". Use 'up' or 'down'");; Ret (Exit 1)
  end
  end.

Definition migration (c : callrec sysE) : option (string * migrate_end) :=
  match call_op c in sysE X return X → option (string * migrate_end) with
  | MigrateUp => λ fin, Some ("up", fin)
  | MigrateDown => λ fin, Some ("down", fin)
  | _ => λ _, None
  end (call_res c).

Lemma exec_close tr r : exec close tr r → omap migration tr = [].
Proof.
  unfold close. intros Hex. repeat (exec_generic; simplify_eq); done.
Qed.

Lemma exec_finish fin failed success tr r :
  exec (finish fin failed success) tr r →
  omap migration tr = [] ∧ (r = Exit 0 ∧ (∀ err, fin ≠ MigrateError err) ∨
                            r = Exit 1 ∧ ∃ err, fin = MigrateError err).
Proof.
  unfold finish. intros Hex. destruct fin as [| |err].
  3: { repeat (exec_generic; simplify_eq). split; [done|]. right. eauto. }
  all: destruct Hex as (? & ? & -> & (tr1 & ? & ? & -> & Hc%exec_close & [-> ->])%exec_bind);
    csimpl; rewrite app_nil_r, Hc; split; [done|]; left; by split.
Qed.

(** The migrator ends with status 0 exactly when the migration it was asked for
    ran or had nothing to do. *)
Lemma main_success path command tr r :
  exec (main path command) tr r →
  (r = Exit 0 ∧ ∃ fin, omap migration tr = [(command, fin)] ∧ ∀ err, fin ≠ MigrateError err) ∨
  (r = Exit 1 ∧ (omap migration tr = [] ∨ ∃ err, omap migration tr = [(command, MigrateError err)])).
Proof.
  unfold main. intros (cfg & tr1 & -> & Hex). destruct cfg as [cfg|err].
  2: { repeat (exec_generic; simplify_eq). right. split; [done|]. by left. }
  destruct Hex as (? & tr2 & -> & (err & tr3 & -> & Hex)). destruct err as [err|].
  { repeat (exec_generic; simplify_eq). right. split; [done|]. by left. }
  cbv beta iota in Hex. repeat case_bool_decide; subst.
  3: { repeat (exec_generic; simplify_eq). right. split; [done|]. by left. }
  all: destruct Hex as (fin & tr4 & -> & [Hm Hr]%exec_finish); csimpl; rewrite Hm;
    destruct Hr as [[-> Hok]|[-> [err ->]]]; [left|right]; eauto 10.
Qed.

End migrator.

(** ** The life of the process *)

Inductive event :=
| RedisUp
| PoolUp
| Started (s : server)
| Woken
| GatewayShutdown
| GrpcStopped
| PoolClosed
| RedisClosed.

Definition event_of (c : callrec sysE) : option event :=
  match call_op c in sysE X return X → option event with
  | RedisPing _ _ => λ err, match err with None => Some RedisUp | Some _ => None end
  | PoolPing => λ err, match err with None => Some PoolUp | Some _ => None end
  | GoServer s => λ _, Some (Started s)
  | SelectStop => λ _, Some Woken
  | HTTPShutdown => λ _, Some GatewayShutdown
  | GracefulStop => λ _, Some GrpcStopped
  | PoolClose => λ _, Some PoolClosed
  | RedisClose => λ _, Some RedisClosed
  | _ => λ _, None
  end (call_res c).

Section lifecycle.
Context `{KeyFiles}.

Lemma exec_Stop tr r :
  exec gateway.Stop tr r →
  (omap event_of tr = [GatewayShutdown] ∨ omap event_of tr = [] ∧ Call GetHTTPServer false ∈ tr).
Proof.
  unfold gateway.Stop. intros Hex. repeat (exec_generic; simplify_eq);
    repeat match goal with b : bool |- _ => destruct b end; simplify_eq; csimpl; try (by left);
    right; (split; [done|]); rewrite !elem_of_cons; tauto.
Qed.

Lemma exec_close_redis tr r : exec close_redis tr r → omap event_of tr = [RedisClosed].
Proof. unfold close_redis. intros Hex. repeat (exec_generic; simplify_eq); done. Qed.

Lemma exec_run_servers tr r :
  exec run_servers tr r →
  r = Exit 0 ∧ ∃ g, omap event_of tr =
    [Started GrpcServer; Started GatewayServer; Woken] ++ g ++ [GrpcStopped; PoolClosed; RedisClosed] ∧
    (g = [GatewayShutdown] ∨ g = [] ∧ Call GetHTTPServer false ∈ tr).
Proof.
  intros (? & ? & -> & (? & ? & -> & (w & ? & -> & (? & ? & -> & Hex)))).
  apply exec_bind in Hex as (tr1 & ? & err & -> & Hstop%exec_Stop & Hex).
  apply exec_bind in Hex as (tr2 & ? & ? & -> & Hlog & Hex).
  apply exec_bind in Hex as (tr3 & ? & ? & -> & Hgrpc & (? & ? & -> & Hex)).
  apply exec_bind in Hex as (tr4 & ? & ? & -> & Hpool & Hex).
  apply exec_bind in Hex as (tr5 & ? & ? & -> & Hredis%exec_close_redis & [-> ->]).
  split; [done|]. exists (omap event_of tr1). csimpl. rewrite !omap_app. csimpl. rewrite !omap_app, Hredis.
  assert (omap event_of tr2 = []) as ->.
  { destruct err; repeat (exec_generic; simplify_eq); done. }
  assert (omap event_of tr3 = [GrpcStopped]) as ->.
  { unfold grpcapp.Stop in Hgrpc. repeat (exec_generic; simplify_eq); done. }
  assert (omap event_of tr4 = [PoolClosed]) as ->.
  { unfold postgres.Close in Hpool. repeat (exec_generic; simplify_eq); done. }
  split; [done|]. destruct Hstop as [?|[? ?]]; [by left|right; split; [done|]].
  rewrite !elem_of_cons, !elem_of_app. tauto.
Qed.

Lemma exec_redis_New cfg tr r :
  exec (redis.New cfg) tr r → omap event_of tr = match r with None => [RedisUp] | Some _ => [] end.
Proof. unfold redis.New. intros Hex. repeat (exec_generic; simplify_eq); done. Qed.
Lemma exec_postgres_New cfg tr r :
  exec (postgres.New cfg) tr r → omap event_of tr = match r with None => [PoolUp] | Some _ => [] end.
Proof.
  unfold postgres.New. intros Hex. repeat (exec_generic; simplify_eq); [done|].
  match goal with x : option error |- _ => by destruct x end.
Qed.

(** The outcomes of a start, with the events that lead to each. *)
Definition lifecycle (cfg : Config) (tr : list (callrec sysE)) (r : exit) : Prop :=
  match r with
  | Panicked =>
      hs_algorithm (cfg_JWT cfg) ∧ (String.length (cfg_Secret (cfg_JWT cfg)) < 32)%nat ∧
      omap event_of tr = [RedisUp; PoolUp; PoolClosed; RedisClosed]
  | Exit n =>
      (n = 1 ∧ omap event_of tr ∈ [[]; [RedisUp]; [RedisUp; PoolUp]]) ∨
      (n = 0 ∧ (∃ m, configures (cfg_JWT cfg) m) ∧ ∃ g, omap event_of tr =
         [RedisUp; PoolUp; Started GrpcServer; Started GatewayServer; Woken] ++ g ++
         [GrpcStopped; PoolClosed; RedisClosed] ∧
         (g = [GatewayShutdown] ∨ g = [] ∧ Call GetHTTPServer false ∈ tr))
  end.

Lemma exec_main_connected cfg tr0 tr r :
  omap event_of tr0 = [RedisUp; PoolUp] → exec (main_connected cfg) tr r → lifecycle cfg (tr0 ++ tr) r.
Proof.
  intros Hup (? & tr1 & -> & Hex). cbv beta in Hex. unfold lifecycle, New in *.
  destruct (buildTokenManager (cfg_JWT cfg)) as [[m|err]|] eqn:Hb; cbn [mbind option_bind] in Hex.
  - apply exec_run_servers in Hex as (-> & g & Hev & Hg). right. split; [done|].
    split; [exists m; by apply buildTokenManager_ok|]. exists g. rewrite omap_app, Hup. csimpl.
    rewrite Hev. split; [done|]. rewrite elem_of_app, elem_of_cons. tauto.
  - repeat (exec_generic; simplify_eq). left. split; [done|]. rewrite omap_app, Hup. csimpl.
    repeat constructor.
  - apply buildTokenManager_panics in Hb as [??].
    apply exec_bind in Hex as (tr4 & ? & ? & -> & Hpool & Hex).
    apply exec_bind in Hex as (tr5 & ? & ? & -> & Hredis%exec_close_redis & [-> ->]).
    unfold postgres.Close in Hpool. repeat (exec_generic; simplify_eq).
    split_and!; [done..|]. rewrite omap_app, Hup. csimpl. by rewrite app_nil_r, Hredis.
Qed.

(** C35: The process serves requests only after Redis and PostgreSQL have answered
    and the token manager could be made; then it starts both servers, and when
    it is told to stop, or a server fails, it shuts down the gateway (if that
    has come up), then the gRPC server, and closes the database and Redis in
    this order.  Every other start ends with status 1 and no server running,
    except that a short HS256 secret makes it panic, with the connections
    closed. *)
Theorem main_lifecycle tr r :
  exec main tr r →
  (∃ cfg, Call ReadEnv (Ok cfg) ∈ tr ∧ lifecycle cfg tr r) ∨
  (r = Exit 1 ∧ ∃ err, Call ReadEnv (Err err) ∈ tr ∧ omap event_of tr = []).
Proof.
  intros (cfg & tr1 & -> & Hex). destruct cfg as [cfg|err].
  2: { right. repeat (exec_generic; simplify_eq). split; [done|]. exists err. split; [left|done]. }
  left. exists cfg. split; [left|]. cbn [bind] in Hex. cbv beta iota in Hex.
  destruct (setupLogger (cfg_Env cfg)) as [l|].
  2: { repeat (exec_generic; simplify_eq). left. split; [done|]. csimpl. left. }
  destruct Hex as (? & tr2 & -> & Hex).
  apply exec_bind in Hex as (tr3 & tr4 & err & -> & Hred%exec_redis_New & Hex).
  destruct err as [err|].
  { repeat (exec_generic; simplify_eq). left. split; [done|]. csimpl. rewrite omap_app, Hred. left. }
  apply exec_bind in Hex as (tr5 & tr6 & err & -> & Hpg%exec_postgres_New & Hex).
  destruct err as [err|].
  { repeat (exec_generic; simplify_eq). left. split; [done|]. csimpl.
    rewrite !omap_app, Hred, Hpg. right. left. }
  rewrite app_assoc, !app_comm_cons. apply exec_main_connected; [|done].
  csimpl. by rewrite omap_app, Hred, Hpg.
Qed.
End lifecycle.

(** ** Stopping a gateway that is still starting

    [run] sets the fields [cancelGW] and [server] in its goroutine and [Stop]
    reads them in [main]'s, without synchronisation. *)

Record gw_fields := GwFields {
  f_cancel : bool;
  f_server : bool;
  f_shutdown : bool;
  f_listening : bool
}.

Definition gw_handle : impl sysE gw_fields := λ X e s,
  match e in sysE X return gw_fields * X with
  | SetCancelGW => (GwFields true (f_server s) (f_shutdown s) (f_listening s), tt)
  | GetCancelGW => (s, f_cancel s)
  | SetHTTPServer _ => (GwFields (f_cancel s) true (f_shutdown s) (f_listening s), tt)
  | GetHTTPServer => (s, f_server s)
  | HTTPShutdown => (GwFields (f_cancel s) (f_server s) true (f_listening s), None)
  | ListenAndServe _ =>
      (GwFields (f_cancel s) (f_server s) (f_shutdown s) (negb (f_shutdown s)), ErrServerClosed)
  | MuxHandle _ _ | GoCloseConn _ | CtxDone | GrpclogErrorf _ | CancelGW | SysLog _ _ | PoolClose | GoServer _ | SendServerErr _ | GracefulStop | Print _ => (s, tt)
  | PoolNew _ | PoolPing | RedisPing _ _ | RedisClose | NetListen _ | GrpcServe
  | NewClientTLSFromFile _ | GrpcNewClient _ _ | ConnClose | MuxHandlePath _ _ | MigrateNew _ _ => (s, None)
  | ReadEnv => (s, Err (Errorf "none"))
  | ReadDbEnv => (s, Err (Errorf "none"))
  | SelectStop => (s, Signal)
  | MigrateUp | MigrateDown => (s, Migrated)
  | MigrateClose => (s, (None, None))
  end.

Definition prod_gateway : gateway.App := gateway.New 8080 8081 "" "" "prod".

(** [Stop] between the registration of the handlers and the server: it returns
    without an error, nothing is shut down, and the gateway starts to listen. *)
Lemma stop_can_miss_the_gateway `{GatewayRuntime} :
  let '(s, ps) := run_sched gw_handle (replicate 17 0%nat ++ replicate 4 1%nat ++ replicate 2 0%nat)
                    (GwFields false false false false, [gateway.run prod_gateway; gateway.Stop]) in
  prog_result <$> ps = [Some None; Some None] ∧ f_shutdown s = false ∧ f_listening s = true.
Proof. vm_compute. done. Qed.
