(* ===== verification/Demo.v ===== *)
(** * A concrete service

    The service on the in-memory adapters, with concrete instances of what the
    development leaves open (argon2, the Unicode tables, the token manager, the
    clock, the random source).  It shows that the hypotheses of the theorems
    can hold together, by running whole RPCs. *)

From Stdlib Require Import Ascii String.
From S2P Require Import Prelude GoStd Encoding Ports Validate Crypto Service Spec Stores Memory.
From S2P Require Import MemoryProofs ServiceSafety ServiceTypes ServiceSpec Concurrency World Redis Bruteforce Lockout.
From S2P Require Import RateLimit RedisMem.
Open Scope Z_scope.

(** ** Instances *)

(** A stand-in for argon2id: the SHA-256 digest of password and salt, repeated. *)
#[global] Instance demo_argon2 : Argon2 := {|
  argon2_IDKey p s t m th k :=
    let d := sha256_Sum256 (p ++ s) in
    (λ i, nth (i mod 32)%nat d 0) <$> seq 0 (Z.to_nat k);
  argon2_Version := 19
|}.
#[global] Instance demo_argon2_spec : Argon2Spec.
Proof.
  split; simpl.
  - intros p s t m th k. apply Forall_fmap, Forall_forall. intros i _.
    cbv beta delta [compose].
    destruct (sha256_Sum256_ok (p ++ s)) as [Hb Hl]. rewrite Forall_forall in Hb.
    apply Hb, list_elem_of_In, nth_In. rewrite Hl. apply (Nat.mod_upper_bound i 32). lia.
  - intros p s t m th k Hk. rewrite length_fmap, length_seq. lia.
  - done.
Qed.

#[global] Instance demo_tables : UnicodeTables :=
  {| table_Letter := λ _, false; table_Digit := λ _, false |}.

(** Access tokens that carry the user in clear. *)
#[global] Instance demo_tokens : TokenManager := {|
  tm_Generate _ _ uid email roles := Ok ("access:" +:+ uid);
  tm_Validate _ tok :=
    match strings_CutPrefix tok "access:" with
    | Some uid => Ok {| claims_UserID := uid; claims_Email := ""; claims_Roles := ["user"] |}
    | None => Err (Errorf "invalid token")
    end
|}.
#[global] Instance demo_tokens_ok : TokenManagerOk.
Proof. done. Qed.

(** A second per call; bytes that depend on the call. *)
#[global] Instance demo_env : Env := {|
  env_clock n := 1700000000 * second + Z.of_nat n * second;
  env_rand n len := (λ i, (Z.of_nat n * 7 + Z.of_nat i) mod 256) <$> seq 0 len;
  env_uuid n := "id-" +:+ fmt_d (Z.of_nat n)
|}.
#[global] Instance demo_env_ok : EnvOk.
Proof.
  split; simpl.
  - intros n. unfold second. lia.
  - intros n len. rewrite length_fmap, length_seq. split; [done|].
    apply Forall_fmap, Forall_forall. intros i _. apply Z.mod_pos_bound. lia.
Qed.

Abbreviation dworld := (@world MemUsers.t MemSessions.t MemCache.t MemReset.t (bruteforce.Guard view)).

(** ** A history of requests *)

Definition svc : AuthService :=
  {| svc_auditStore := true; svc_hook := true; svc_bruteGuard := true;
     svc_refreshTTL := 720 * 60 * minute |}.

Definition w0 : dworld :=
  World MemUsers.NewUserStore MemSessions.NewSessionStore MemCache.New MemReset.NewResetStore
    (bruteforce.New ∅ 5 (15 * minute) (15 * minute)) 0 [] [] ∅ false.

Definition ctx0 : Ctx :=
  {| ctx_md := Some {["user-agent" := ["curl"]]}; ctx_peer := Some "10.0.0.1:5000" |}.

Definition alice : string := "alice@example.com".
Definition pw1 : string := "passw0rd".
Definition pw2 : string := "n3wsecret".

Definition reg_alice : RegisterRequest := {| reg_Email := alice; reg_Password := pw1 |}.
Definition login_alice (pw : string) : LoginRequest :=
  {| login_Email := alice; login_Password := pw; login_DeviceId := "" |}.

(** After registration, after a login, after a second login of the same user. *)
Definition w1 : dworld := Eval vm_compute in (run handle (Register svc ctx0 reg_alice) w0).1.
Definition w2 : dworld := Eval vm_compute in (run handle (Login svc ctx0 (login_alice pw1)) w1).1.
Definition w3 : dworld := Eval vm_compute in (run handle (Login svc ctx0 (login_alice pw1)) w2).1.

(** The refresh token of the first login. *)
Definition tok1 : string := "fn-AgYKDhIWGh4iJiouMjY6PkJGSk5SVlpeYmZqbnJ0=".
Definition refresh1 : RefreshTokenRequest := {| rr_RefreshToken := tok1; rr_DeviceId := "" |}.

(** After a request for a one-time code, and after its exchange. *)
Definition w4 : dworld := Eval vm_compute in (run handle (RequestPasswordReset svc ctx0 alice) w3).1.

Definition code1 : string := "715275".
Definition w5 : dworld := Eval vm_compute in (run handle (VerifyResetCode alice code1) w4).1.
Definition reset1 : string := Eval vm_compute in
  match (run handle (VerifyResetCode alice code1) w4).2 with Reply tok => tok | Refuse _ => "" end.

(** ** The runs are runs of the specification *)

Lemma wwf_w0 : wwf w0.
Proof.
  split; [exact MemUsersProofs.user_wf_new|exact MemSessionsProofs.session_wf_new|].
  assert (ss_abs (w_sess w0) = ∅) as -> by (by_vm).
  apply map_empty_subseteq.
Qed.

(** A run from a well-formed world ends in one. *)
Lemma wwf_run {A} (p : prog portE A) (w w' : dworld) :
  wwf w → (run handle p w).1 = w' → w_collided w' = false → wwf w'.
Proof.
  intros Hw <- Hc. destruct (run handle p w) as [w1 r] eqn:Hr. by eapply run_refines.
Qed.

Lemma wwf_w1 : wwf w1.
Proof.
  eapply (wwf_run (Register svc ctx0 reg_alice) w0); [exact wwf_w0|by_vm|done].
Qed.
Lemma wwf_w2 : wwf w2.
Proof.
  eapply (wwf_run (Login svc ctx0 (login_alice pw1)) w1);
    [exact wwf_w1|by_vm|done].
Qed.
Lemma wwf_w3 : wwf w3.
Proof.
  eapply (wwf_run (Login svc ctx0 (login_alice pw1)) w2);
    [exact wwf_w2|by_vm|done].
Qed.
Lemma wwf_w4 : wwf w4.
Proof.
  eapply (wwf_run (RequestPasswordReset svc ctx0 alice) w3);
    [exact wwf_w3|by_vm|done].
Qed.
Lemma wwf_w5 : wwf w5.
Proof.
  eapply (wwf_run (VerifyResetCode alice code1) w4); [exact wwf_w4|by_vm|done].
Qed.

(** Run [p] from [w]. *)
Lemma live_of_run {A} (p : prog portE A) (w w' : dworld) r :
  wwf w → run handle p w = (w', r) → w_collided w' = false → rexec live p (abs w) (abs w') r.
Proof. intros Hw Hr Hc. by eapply run_refines. Qed.

Lemma exec_of_run {A} (p : prog portE A) (w w' : dworld) r :
  run handle p w = (w', r) → exec p (run_trace handle p w) r.
Proof. intros Hr. pose proof (run_exec handle p w) as Hex. by rewrite Hr in Hex. Qed.

Lemma psteps_of_sched sched (ps ps' : list (prog portE (reply response))) (w w' : dworld) :
  wwf w → run_sched handle sched (w, ps) = (w', ps') → w_collided w' = false →
  ∃ tr, psteps (safe 1) (abs w) ps tr (abs w') ps'.
Proof.
  intros Hw Hr Hc. destruct (sched_refines sched ps w w' ps' Hr Hw Hc) as [[tr Htr] _].
  exists tr. eapply psteps_mono; [exact (live_safe 1)|done].
Qed.

(** The invariants hold along the history. *)
Definition inv (w : dworld) : Prop := awf (abs w) ∧ coherent 1 (abs w).

Lemma inv_w0 : inv w0.
Proof.
  assert (a_users (abs w0) = ∅) as Hu by (by_vm).
  assert (a_sess (abs w0) = ∅) as Hs by (by_vm).
  assert (a_cache (abs w0) = ∅) as Hc by (by_vm).
  split; [split|]; rewrite ?Hu, ?Hs; [intros * Hl; by rewrite lookup_empty in Hl..| |].
  - apply map_empty_subseteq.
  - intros h cs exp. by rewrite Hc, lookup_empty.
Qed.

Lemma inv_serve ctx req (w w' : dworld) :
  wwf w → inv w → (run handle (serve svc ctx req) w).1 = w' → w_collided w' = false → inv w'.
Proof.
  intros Hwf [Ha Hc] <- Hcol. destruct (run handle (serve svc ctx req) w) as [w' r] eqn:Hr.
  apply (live_of_run _ _ _ _ Hwf Hr), (rexec_live_safe 1) in Hcol. split.
  - eapply rexec_invariant; [exact (port_spec_awf 1)|exact Hcol|done].
  - by eapply rexec_coherent.
Qed.

Lemma inv_w1 : inv w1.
Proof.
  eapply (inv_serve ctx0 (ReqRegister reg_alice) w0);
    [exact wwf_w0|exact inv_w0|by_vm|done].
Qed.
Lemma inv_w2 : inv w2.
Proof.
  eapply (inv_serve ctx0 (ReqLogin (login_alice pw1)) w1);
    [exact wwf_w1|exact inv_w1|by_vm|done].
Qed.
Lemma inv_w3 : inv w3.
Proof.
  eapply (inv_serve ctx0 (ReqLogin (login_alice pw1)) w2);
    [exact wwf_w2|exact inv_w2|by_vm|done].
Qed.

(** The requests of the history, as runs of the specification. *)
Ltac by_run H := eapply live_of_run; [exact H|by_vm|reflexivity].

Lemma run_register :
  rexec live (Register svc ctx0 reg_alice) (abs w0) (abs w1) (Reply {| reg_UserId := "id-2" |}).
Proof. by_run wwf_w0. Qed.

Definition pair1 : TokenPair := {| AccessToken := "access:id-2"; RefreshTokenPlain := tok1 |}.

Lemma run_login :
  rexec live (Login svc ctx0 (login_alice pw1)) (abs w1) (abs w2) (Reply pair1).
Proof. by_run wwf_w1. Qed.

(** ** Witnesses: accounts *)


Lemma Login_spec_witness : opened svc "id-2" (a_sess (abs w1)) pair1 (abs w1) (abs w2).
Proof.
  assert (Email (login_Email (login_alice pw1)) = None) as He by (by_vm).
  destruct (Login_spec svc ctx0 (login_alice pw1) _ _ _ run_login He)
    as [(_ & Hr & _)|[(_ & Hr & _)|(u & Hu & Hem & H)]]; [discriminate..|].
  assert (user_ID u = "id-2") as Hid.
  { destruct (awf_email_unique _ (proj1 inv_w1) (user_ID u) "id-2" u
      (a_users (abs w1) !!! "id-2")); [exact Hu|by_vm| |reflexivity].
    rewrite Hem. by_vm. }
  destruct (password.Verify _ _) as [[]|]; [|destruct H; discriminate..].
  destruct H as (tp & [= <-] & Ho). rewrite Hid in Ho. exact Ho.
Defined.

Lemma Login_success_sound_witness :
  password.Verify pw1 (user_PasswordHash (a_users (abs w1) !!! "id-2")) = Ok true ∧
  Email alice = None.
Proof.
  assert (exec (Login svc ctx0 (login_alice pw1))
            (run_trace handle (Login svc ctx0 (login_alice pw1)) w1) (Reply pair1)) as Hex
    by (eapply (exec_of_run _ _ w2); by_vm).
  destruct (Login_success_sound svc ctx0 (login_alice pw1) _ _ Hex) as [He _].
  split; [by_vm|exact He].
Defined.


(** *** Wrong passwords on a guard that allows two *)

Definition alice_user : User := Eval vm_compute in a_users (abs w1) !!! "id-2".
Definition guard2 : bruteforce.Guard view := bruteforce.New ∅ 2 (15 * minute) (15 * minute).

(** The guard at time [t]; the other ports answer as in [w1]. *)
Definition guard_handle (t : time) : impl portE (bruteforce.Guard view) := λ X e g,
  match e in portE X return bruteforce.Guard view * X with
  | GuardIsLocked email => bruteforce.IsLocked t email g
  | GuardRecordFailure email => bruteforce.RecordFailure t email g
  | GuardReset email => (bruteforce.Reset t email g, tt)
  | UserGetByEmail _ => (g, Ok alice_user)
  | e => (g, (handle _ e w1).2)
  end.

Lemma guard_handle_answered {A} t (p : prog portE A) g :
  answered t t g (run_trace (guard_handle t) p g) (run (guard_handle t) p g).1.
Proof.
  revert g. induction p as [a|X e k IH]; intros g; simpl; [constructor|].
  destruct (guard_handle t X e g) as [g1 x] eqn:Hh. econstructor; [done| |apply IH].
  destruct e; simpl in Hh |- *; first [exact Hh|by injection Hh as <-].
Qed.

Definition login_at (t : time) (pw : string) (g : bruteforce.Guard view) :=
  run (guard_handle t) (Login svc ctx0 (login_alice pw)) g.
Definition g_one : bruteforce.Guard view := Eval vm_compute in (login_at second pw2 guard2).1.
Definition g_two : bruteforce.Guard view := Eval vm_compute in (login_at (60 * second) pw2 g_one).1.

Lemma wrong_at t g r g' :
  login_at t pw2 g = (g', r) →
  head (omap found_user (run_trace (guard_handle t) (Login svc ctx0 (login_alice pw2)) g)) = Some alice_user →
  wrong_login svc alice (t, t) g r g'.
Proof.
  unfold login_at. intros Hrun Hhead.
  exists ctx0, (login_alice pw2), (run_trace (guard_handle t) (Login svc ctx0 (login_alice pw2)) g).
  pose proof (guard_handle_answered t (Login svc ctx0 (login_alice pw2)) g) as Ha.
  pose proof (run_exec (guard_handle t) (Login svc ctx0 (login_alice pw2)) g) as Hex.
  rewrite Hrun in Ha, Hex. split; [exact eq_refl|]. split; [exact Hex|]. split; [|exact Ha].
  exists alice_user. split; [exact Hhead|by_vm].
Qed.

Lemma two_wrong_logins :
  wrong_logins svc alice [(second, second); (60 * second, 60 * second)] guard2
    [Refuse invalid_credentials; Refuse locked_status] g_two.
Proof.
  eapply wrong_cons; [apply (wrong_at second guard2 _ g_one); by_vm|].
  eapply wrong_cons; [apply (wrong_at (60 * second) g_one _ g_two); by_vm|]. apply wrong_nil.
Qed.

(** The right password, five minutes later. *)
Lemma wrong_passwords_lock_witness :
  let r := (login_at (360 * second) pw1 g_two).2 in
  r = Refuse locked_status ∧
  Forall (λ c, ∃ j, c = Call (Go j) tt)
    (tail (run_trace (guard_handle (360 * second)) (Login svc ctx0 (login_alice pw1)) g_two)).
Proof.
  pose proof (wrong_passwords_lock svc alice eq_refl [(second, second)] (60 * second, 60 * second) guard2
    _ g_two second two_wrong_logins eq_refl eq_refl) as H.
  destruct H as [_ H].
  - intros t _. reflexivity.
  - apply Forall_cons_2; [split; vm_compute; discriminate|].
    apply Forall_cons_2; [split; vm_compute; discriminate|]. apply Forall_nil_2.
  - reflexivity.
  - assert (360 * second ≤ 60 * second + 15 * minute - millisecond) as Hle by (vm_compute; discriminate).
    pose proof (H ctx0 (login_alice pw1) _ _ (360 * second) (360 * second) g_two _ eq_refl Hle eq_refl
      (run_exec (guard_handle (360 * second)) (Login svc ctx0 (login_alice pw1)) g_two)
      (guard_handle_answered (360 * second) (Login svc ctx0 (login_alice pw1)) g_two)) as (Hr & Hgo & _).
    split; [exact Hr|exact Hgo].
Defined.

(** Five wrong passwords in a row. *)
Definition wrong (w : dworld) : dworld := (run handle (Login svc ctx0 (login_alice pw2)) w).1.
Definition w_locked : dworld := Eval vm_compute in wrong (wrong (wrong (wrong (wrong w1)))).

Lemma Login_locked_witness :
  (run handle (Login svc ctx0 (login_alice pw1)) w_locked).2 = Refuse locked_status.
Proof.
  assert (Email (login_Email (login_alice pw1)) = None) as He by (by_vm).
  apply (Login_locked svc ctx0 (login_alice pw1)
           (run_trace handle (Login svc ctx0 (login_alice pw1)) w_locked) _ eq_refl He).
  - apply run_exec.
  - by_vm.
Defined.

(** ** Witnesses: sessions *)

Lemma RefreshToken_spec_witness :
  refreshed svc (token.Hash tok1) (abs w2) (abs (run handle (RefreshToken svc ctx0 refresh1) w2).1)
    (run handle (RefreshToken svc ctx0 refresh1) w2).2.
Proof.
  apply (RefreshToken_spec svc ctx0 refresh1).
  - apply run_live; [exact wwf_w2|by_vm].
  - exact (proj1 inv_w2).
  - exact (proj2 inv_w2).
Defined.

Lemma Logout_spec_witness :
  logged_out (token.Hash tok1) (abs w2) (abs (run handle (Logout svc ctx0 tok1) w2).1).
Proof.
  apply (Logout_spec svc ctx0 tok1 _ _ (run handle (Logout svc ctx0 tok1) w2).2).
  apply run_live; [exact wwf_w2|by_vm].
Defined.

Lemma LogoutAll_spec_witness :
  (run handle (logout_all_of svc ctx0 "id-2") w3).2 = Reply 2 ∧
  a_sess (abs (run handle (logout_all_of svc ctx0 "id-2") w3).1) =
    rows_not_of "id-2" (a_sess (abs w3)).
Proof.
  destruct (LogoutAll_spec svc ctx0 "id-2" (abs w3)
    (abs (run handle (logout_all_of svc ctx0 "id-2") w3).1)
    (run handle (logout_all_of svc ctx0 "id-2") w3).2) as (_ & Hs & _).
  - apply run_live; [exact wwf_w3|by_vm].
  - split; [by_vm|exact Hs].
Defined.



(** ** Witnesses: passwords *)

Definition change1 : ChangePasswordRequest :=
  {| cp_CurrentPassword := pw1; cp_NewPassword := pw2; cp_RefreshToken := tok1 |}.

Lemma ChangePassword_spec_witness :
  (run handle (change_password_of svc ctx0 "id-2" change1) w3).2 = Reply tt ∧
  sessions_revoked (rows_except "id-2" (keep_hash change1) (a_sess (abs w3)))
    (rows_not_except "id-2" (keep_hash change1) (a_sess (abs w3)))
    (abs (run handle (change_password_of svc ctx0 "id-2" change1) w3).1).
Proof.
  pose proof (ChangePassword_spec svc ctx0 "id-2" change1 (abs w3)
    (abs (run handle (change_password_of svc ctx0 "id-2" change1) w3).1)
    (run handle (change_password_of svc ctx0 "id-2" change1) w3).2
    ltac:(apply run_live; [exact wwf_w3|by_vm])) as H.
  assert (Password (cp_NewPassword change1) = None) as Hp by (by_vm).
  rewrite Hp in H.
  destruct (a_users (abs w3) !! "id-2") as [u|] eqn:Hu; [|vm_compute in Hu; discriminate].
  assert (password.Verify (cp_CurrentPassword change1) (user_PasswordHash u) = Ok true) as Hv.
  { vm_compute in Hu. injection Hu as <-. by_vm. }
  rewrite Hv in H. destruct H as (Hr & _ & Hs). split; [exact Hr|exact Hs].
Defined.


Lemma VerifyResetCode_spec_witness :
  ∃ rec exp, a_otps (abs w4) !! token.Hash alice = Some (rec, exp) ∧
    code_checked alice code1 rec exp (abs w4) (abs w5) (Reply reset1).
Proof.
  assert (rexec live (VerifyResetCode alice code1) (abs w4) (abs w5) (Reply reset1)) as Hex
    by (eapply live_of_run; [exact wwf_w4|by_vm|reflexivity]).
  assert (Email alice = None) as He by (by_vm).
  destruct (VerifyResetCode_spec alice code1 _ _ _ Hex He) as (_ & _ & [(_ & Hr & _)|H]);
    [discriminate|exact H].
Defined.

Definition reset_prog : prog portE (reply unit) := ResetPassword svc ctx0 reset1 pw2.

Lemma ResetPassword_spec_witness :
  (run handle reset_prog w5).2 = Reply tt ∧
  a_toks (abs (run handle reset_prog w5).1) = delete (token.Hash reset1) (a_toks (abs w5)).
Proof.
  pose proof (ResetPassword_spec svc ctx0 reset1 pw2 (abs w5)
    (abs (run handle reset_prog w5).1) (run handle reset_prog w5).2
    ltac:(apply run_live; [exact wwf_w5|by_vm])) as H.
  assert (Password pw2 = None) as Hp by (by_vm). rewrite Hp in H.
  destruct H as [(_ & Hr & _)|(rec & t & _ & _ & Ht & _)];
    [vm_compute in Hr; discriminate|].
  split; [by_vm|exact Ht].
Defined.

(** ** Witnesses: control flow *)

(** A request with an access token. *)
Definition ctx_alice : Ctx :=
  {| ctx_md := Some {["authorization" := ["Bearer access:id-2"]]}; ctx_peer := None |}.


(** The same world with a user store that cannot find anyone by email. *)
Definition handle_down : impl portE dworld := λ X e w,
  match e in portE X return dworld * X with
  | UserGetByEmail _ => (w, Err (Errorf "connection refused"))
  | e' => handle _ e' w
  end.

Lemma internal_error_logged_witness :
  ∃ msg x, Call (Slog LevelError msg) x ∈
    run_trace handle_down (serve svc ctx0 (ReqRequestPasswordReset alice)) w3.
Proof.
  assert (exec (serve svc ctx0 (ReqRequestPasswordReset alice))
    (run_trace handle_down (serve svc ctx0 (ReqRequestPasswordReset alice)) w3)
    (Refuse internal_error)) as Hex.
  { pose proof (run_exec handle_down (serve svc ctx0 (ReqRequestPasswordReset alice)) w3) as H.
    assert ((run handle_down (serve svc ctx0 (ReqRequestPasswordReset alice)) w3).2 =
            Refuse internal_error) as Hr by (by_vm).
    rewrite Hr in H. exact H. }
  apply (internal_error_logged svc ctx0 (ReqRequestPasswordReset alice) _ internal_error Hex).
  reflexivity.
Defined.


Lemma ResetPassword_needs_token_witness :
  ∃ rec rest, rt_UserID rec = "id-2" ∧
    run_trace handle reset_prog w5 =
      Call (ResetGetResetToken (token.Hash reset1)) (Ok rec) ::
      Call (ResetDeleteResetToken (token.Hash reset1)) None :: rest.
Proof.
  assert (∃ ph, run_trace handle reset_prog w5 !! 3%nat ≫= password_set = Some ("id-2", ph))
    as [ph Hph] by (eexists; by_vm).
  apply bind_Some in Hph as (c & Hc & Hset). apply list_elem_of_lookup_2 in Hc.
  destruct (ResetPassword_needs_token svc ctx0 reset1 pw2 _ _ c "id-2" ph
    (run_exec handle reset_prog w5) Hc Hset) as [_ H]. exact H.
Defined.
