(* ===== verification/Runs.v ===== *)
(** * Concrete runs: interleavings, lockouts, rate limits

    Continues [Demo]: schedules of concurrent requests, the guard and the
    limiter on the in-memory Redis, generated secrets.  Each run meets the
    hypotheses of a theorem of the development. *)

From Stdlib Require Import Ascii String.
From S2P Require Import Prelude GoStd Encoding Ports Validate Crypto Service Spec Stores Memory.
From S2P Require Import MemoryProofs ServiceSafety ServiceSpec Concurrency World Redis Bruteforce.
From S2P Require Import RateLimit RedisMem Termination Liveness Demo.
Open Scope Z_scope.

(** ** Generated secrets *)

Definition salt0 : list Z := Z.of_nat <$> seq 0 16.

(** The trace of one read of [n] bytes that returned [b]. *)
Definition one_read (n : nat) (b : list Z) : list (callrec portE) := [Call (RandRead n) (Ok b)].

(** The bytes a call read. *)
Definition bytes_read (c : callrec portE) : option (nat * list Z) :=
  match call_op c in portE X return X → option (nat * list Z) with
  | RandRead n => λ r, match r with Ok b => Some (n, b) | Err _ => None end
  | _ => λ _, None
  end (call_res c).

Lemma rand_ok_one n b : length b = n → Forall byte_ok b → rand_ok (one_read n b).
Proof.
  intros Hl Hb n' b' Hin%list_elem_of_singleton. apply (f_equal bytes_read) in Hin.
  unfold bytes_read in Hin. simpl in Hin. by simplify_eq.
Qed.

Lemma exec_one {A} n b (k : result (list Z) → prog portE A) r :
  exec (k (Ok b)) [] r → exec (Vis (RandRead n) k) (one_read n b) r.
Proof. simpl. by eexists _, _. Qed.

Ltac by_dec := apply (bool_decide_unpack _); vm_compute; exact I.

Lemma password_roundtrip_witness :
  ∃ enc, password.Verify pw1 enc = Ok true ∧ password.Verify pw2 enc = Ok false.
Proof.
  pose (enc := run (λ X (e : portE X) (s : unit),
    match e in portE X return unit * X with
    | RandRead _ => (s, Ok salt0) | e' => (s, (handle _ e' w0).2) end)
    (password.Hash pw1) tt).
  destruct (password_roundtrip pw1 (one_read 16 salt0) enc.2)
    as [(salt & Htr & Hv) Hp].
  - apply exec_one. split; reflexivity.
  - apply rand_ok_one; [reflexivity|by_dec].
  - eexists. split; [exact Hp|]. rewrite Hv. apply (f_equal (fmap bytes_read)) in Htr.
    injection Htr as <-.
    apply f_equal, bool_decide_eq_false_2. intros Heq. vm_compute in Heq. discriminate Heq.
Defined.

Definition seed32 : list Z := Z.of_nat <$> seq 0 32.

Lemma token_Generate_spec_witness :
  String.length (URLEncoding_EncodeToString seed32) = 44%nat.
Proof.
  apply (token_Generate_spec (one_read 32 seed32) (URLEncoding_EncodeToString seed32)
           (token.Hash (URLEncoding_EncodeToString seed32))).
  - apply exec_one. split; reflexivity.
  - apply rand_ok_one; [reflexivity|by_dec].
Defined.

Lemma otp_Generate_spec_witness :
  ∃ ds, bytes_of_string "909060" = (λ d, 48 + d) <$> ds ∧ length ds = 6%nat.
Proof.
  destruct (otp_Generate_spec (one_read 4 [1; 2; 3; 4]) "909060")
    as (_ & _ & _ & _ & ds & _ & Hb & Hl & _).
  - apply exec_one. split; [reflexivity|by_vm].
  - apply rand_ok_one; [reflexivity|by_dec].
  - exists ds. split; [exact Hb|exact Hl].
Defined.

(** ** Interleavings *)

(** The requests of [n] clients, one call of each in turn, [rounds] times. *)
Definition round_robin (n rounds : nat) : list nat := concat (replicate rounds (seq 0 n)).

Definition refresh_prog : prog portE (reply response) := serve svc ctx0 (ReqRefreshToken refresh1).

(** Two clients present the same refresh token at the same time. *)
Definition race_refresh := Eval vm_compute in
  run_sched handle (round_robin 2 40) (w2, [refresh_prog; refresh_prog]).

(** The first to reach the store wins. *)
Lemma race_refresh_results :
  ∃ pr st, race_refresh.2 = [Ret (Reply pr); Ret (Refuse st)].
Proof. by eexists _, _. Qed.

Lemma psteps_race_refresh :
  ∃ tr, psteps (safe 1) (abs w2) [refresh_prog; refresh_prog] tr (abs race_refresh.1) race_refresh.2.
Proof.
  apply (psteps_of_sched (round_robin 2 40)); [exact wwf_w2|by_vm|reflexivity].
Qed.

Lemma interleaving_invariant_witness : awf (abs race_refresh.1) ∧ coherent 1 (abs race_refresh.1).
Proof.
  destruct psteps_race_refresh as [tr Htr].
  apply (interleaving_invariant 1 svc eq_refl _ _ tr _ _ Htr).
  - repeat constructor; eexists _, _; reflexivity.
  - exact (proj1 inv_w2).
  - exact (proj2 inv_w2).
Defined.

Lemma refresh_at_most_once_witness :
  ∃ resp, race_refresh.2 !! 0%nat = Some (Ret (Reply resp)) ∧
    ∀ j resp2, [refresh_prog; refresh_prog] !! j = Some refresh_prog →
      race_refresh.2 !! j = Some (Ret (Reply resp2)) → 0%nat = j.
Proof.
  destruct psteps_race_refresh as [tr Htr]. eexists. split; [reflexivity|].
  intros j resp2 Hj Hj'.
  exact (refresh_at_most_once 1 svc _ _ tr _ _ 0 j ctx0 ctx0 refresh1 refresh1 _ resp2 Htr
           (proj1 inv_w2) eq_refl Hj eq_refl Hj' eq_refl).
Defined.

(** A refresh against the world after the session's logout. *)
Definition w_out : dworld := Eval vm_compute in (run handle (Logout svc ctx0 tok1) w2).1.
Definition late_refresh := Eval vm_compute in
  run_sched handle (round_robin 1 40) (w_out, [refresh_prog]).

Lemma wwf_w_out : wwf w_out.
Proof.
  eapply (wwf_run (Logout svc ctx0 tok1) w2); [exact wwf_w2|by_vm|done].
Qed.

Lemma logout_is_final_witness :
  late_refresh.2 !! 0%nat = Some (Ret (Refuse invalid_refresh)) ∧
  late_refresh.2 !! 0%nat ≠ Some (Ret (Reply (RespTokens pair1))).
Proof.
  split; [reflexivity|].
  destruct (psteps_of_sched (round_robin 1 40) [refresh_prog] late_refresh.2 w_out late_refresh.1)
    as [tr Htr]; [exact wwf_w_out|by_vm|reflexivity|].
  destruct (a_sess (abs w2) !! token.Hash tok1) as [row|] eqn:Hrow;
    [|vm_compute in Hrow; discriminate].
  apply (logout_is_final 1 svc ctx0 tok1 (abs w2) (abs w_out) row
           [refresh_prog] tr (abs late_refresh.1) late_refresh.2 0 ctx0 refresh1).
  - apply rexec_live_safe. eapply live_of_run; [exact wwf_w2|by_vm|reflexivity].
  - exact (proj1 inv_w2).
  - exact Hrow.
  - exact Htr.
  - reflexivity.
  - reflexivity.
Defined.

(** The same after a logout from every device, with two sessions open. *)
Definition w_all_out : dworld := Eval vm_compute in (run handle (logout_all_of svc ctx0 "id-2") w3).1.
Definition late_refresh2 := Eval vm_compute in
  run_sched handle (round_robin 1 40) (w_all_out, [refresh_prog]).

Lemma wwf_w_all_out : wwf w_all_out.
Proof.
  eapply (wwf_run (logout_all_of svc ctx0 "id-2") w3); [exact wwf_w3|by_vm|done].
Qed.

Lemma logout_all_is_final_witness :
  late_refresh2.2 !! 0%nat = Some (Ret (Refuse invalid_refresh)) ∧
  late_refresh2.2 !! 0%nat ≠ Some (Ret (Reply (RespTokens pair1))).
Proof.
  split; [reflexivity|].
  destruct (psteps_of_sched (round_robin 1 40) [refresh_prog] late_refresh2.2 w_all_out
    late_refresh2.1) as [tr Htr]; [exact wwf_w_all_out|by_vm|reflexivity|].
  destruct (a_sess (abs w3) !! token.Hash tok1) as [row|] eqn:Hrow;
    [|vm_compute in Hrow; discriminate].
  apply (logout_all_is_final 1 svc ctx0 "id-2" 2 (abs w3) (abs w_all_out) tok1
           row
           [refresh_prog] tr (abs late_refresh2.1) late_refresh2.2 0 ctx0 refresh1).
  - apply rexec_live_safe. eapply live_of_run; [exact wwf_w3|by_vm|reflexivity].
  - exact (proj1 inv_w3).
  - exact Hrow.
  - vm_compute in Hrow. injection Hrow as <-. reflexivity.
  - exact Htr.
  - reflexivity.
  - reflexivity.
Defined.

(** ** Guesses at a one-time code *)

(** The calls of a run, as calls of the specification. *)
Lemma rcalls_of_run {A} (p : prog portE A) (w : dworld) :
  wwf w → w_collided (run handle p w).1 = false →
  rcalls (safe 1) (abs w) (run_trace handle p w) (abs (run handle p w).1).
Proof.
  revert w. induction p as [r|X e k IH]; intros w Hwf Hcol; simpl in *; [constructor|].
  destruct (handle X e w) as [w1 x] eqn:Hh.
  assert (w_collided w1 = false) as Hcol1.
  { apply not_true_iff_false. intros H%(run_collided (k x)). congruence. }
  destruct (handle_refines X e w w1 x Hh Hwf Hcol1) as [Hl Hwf1].
  econstructor; [exact (live_safe 1 _ _ _ _ _ Hl)|by apply IH].
Qed.

(** Six guesses at alice's code, the last one right. *)
Definition guess (c : string) : prog portE (reply string) := VerifyResetCode alice c.
Definition guesses : prog portE (reply string) :=
  guess "000000";;; guess "000001";;; guess "000002";;; guess "000003";;; guess "000004";;;
  guess code1.


(** ** The world implements the specification *)


(** ** A reset token can be used twice at the same time *)

Definition reset_race : list (prog portE (reply response)) :=
  [serve svc ctx0 (ReqResetPassword reset1 pw2); serve svc ctx0 (ReqResetPassword reset1 pw1)].

(** The race: one call of each in turn; and the second request after the first. *)
Definition race_reset := Eval vm_compute in
  run_sched handle (round_robin 2 40) (w5, reset_race).
Definition second_reset := Eval vm_compute in
  (run handle (serve svc ctx0 (ReqResetPassword reset1 pw1))
     (run handle (serve svc ctx0 (ReqResetPassword reset1 pw2)) w5).1).2.


(** ** Lockouts and rate limits *)

Definition fresh_entry : bruteforce.localEntry := bruteforce.LocalEntry 0 0 0.

Lemma local_lockout_witness :
  ∃ e', bruteforce.record_all 3 (15 * minute) (15 * minute) [1; 2; 3] fresh_entry =
          (e', [false; false; true]) ∧
        ∀ t, bruteforce.isLocked t e' = true ↔ t < 3 + 15 * minute.
Proof.
  apply (bruteforce.local_lockout 3 (15 * minute) (15 * minute) fresh_entry 1 [1; 2] 3).
  - reflexivity.
  - reflexivity.
  - by_dec.
  - reflexivity.
  - reflexivity.
Defined.

Definition guard0 : bruteforce.Guard view := bruteforce.New ∅ 3 (15 * minute) (15 * minute).

Lemma redis_lockout_witness :
  ∃ g', bruteforce.fail_all [1; 2; 3] alice guard0 = (g', [Ok false; Ok false; Ok true]) ∧
    (bruteforce.IsLocked (10 * minute) alice g').2 = Ok true.
Proof.
  destruct (bruteforce.redis_lockout [1; 2] 3 1 alice guard0) as (g' & Hf & Hl).
  - reflexivity.
  - reflexivity.
  - by_vm.
  - reflexivity.
  - by_dec.
  - reflexivity.
  - exists g'. split; [exact Hf|]. apply Hl. vm_compute. discriminate.
Defined.

Lemma Reset_unlocks_witness :
  (bruteforce.IsLocked 4 alice (bruteforce.fail_all [1; 2; 3] alice guard0).1).2 = Ok true ∧
  (bruteforce.IsLocked 4 alice
     (bruteforce.Reset 4 alice (bruteforce.fail_all [1; 2; 3] alice guard0).1)).2 = Ok false.
Proof.
  split; [by_vm|].
  apply (bruteforce.Reset_unlocks 4 4 alice (bruteforce.fail_all [1; 2; 3] alice guard0).1).
Defined.

Definition limiter2 : ratelimit.Limiter := ratelimit.New 2 minute.

Lemma fixed_window_witness :
  (ratelimit.allow_all limiter2 [0; 1; 2] "10.0.0.1" (∅ : view)).2 =
  [(true, None); (true, None); (false, None)].
Proof.
  apply (ratelimit.fixed_window limiter2 "10.0.0.1" ltac:(vm_compute; split; congruence)
           [1; 2] 0 (∅ : view)).
  - by_vm.
  - by_dec.
Defined.

(** ** Termination and progress *)

Lemma rpcs_terminate_witness :
  ∃ tr, psteps (safe 1) (abs w2) [refresh_prog; refresh_prog] tr (abs race_refresh.1) race_refresh.2 ∧
    (length tr ≤ 14 * 2 + sum_list (call_weight <$> tr.*2))%nat.
Proof.
  destruct psteps_race_refresh as [tr Htr]. exists tr. split; [exact Htr|].
  apply (rpcs_terminate svc (safe 1) _ _ tr _ _ Htr).
  repeat constructor; eexists _, _; reflexivity.
Defined.

(** Alice registers, logs in and refreshes three times. *)
Definition alice_session : prog portE (reply string) := new_user_session svc ctx0 3 alice pw1.
Definition w_session := Eval vm_compute in run handle alice_session w0.

Lemma run_session : rexec live alice_session (abs w0) (abs w_session.1) w_session.2.
Proof. eapply live_of_run; [exact wwf_w0|by_vm|reflexivity]. Qed.

Lemma new_user_served_witness : (∃ tok, w_session.2 = Reply tok) ∧ a_now (abs w0) < a_now (abs w_session.1).
Proof.
  split; [|by_dec].
  destruct (new_user_served svc ctx0 3 alice pw1 _ _ _ run_session (proj1 inv_w0) (proj2 inv_w0))
    as [Hok|[[Hr _]|[_ Hr]]].
  - by_vm.
  - by_vm.
  - by_dec.
  - exact Hok.
  - vm_compute in Hr. discriminate.
  - vm_compute in Hr. discriminate.
Defined.
