(* ===== verification/Production.v ===== *)
(** * A run in production

    Concrete instances of what the production wiring leaves open (a PostgreSQL
    and a Redis in memory, a JSON library for scripts, a JWT library, the
    clock), and the service running on them: it shows that the hypotheses of
    the theorems about the adapters and the wiring can hold together. *)

From Stdlib Require Import Ascii String.
From S2P Require Import Prelude GoStd Encoding Ports Validate Crypto TimeText Json JsonProofs Service Spec.
From S2P Require Import World Redis Bruteforce RateLimit RedisMem Postgres PostgresProofs PgMem.
From S2P Require Import RedisAdapters RedisProofs AuditLog Jwt App Throttle Concurrency Backend Demo.
Open Scope Z_scope.

(** ** Instances *)

#[global] Instance utc : Zone := {| zone_offset _ := 0 |}.

(** Scripts write objects as the service does. *)
#[global] Instance plain_cjson : Cjson := {|
  cjson_decode text :=
    match parse_json (bytes_of_string text) with
    | Some (JObj ms) => list_to_map <$> flat_members ms
    | _ => None
    end;
  cjson_encode m := go_object (map_to_list m);
  lua_tonumber s := to_int s
|}.

Lemma plain_members_perm kvs kvs' : kvs ≡ₚ kvs' → plain_members kvs → plain_members kvs'.
Proof.
  intros Hp (H1 & H2 & H3). split_and!; [by rewrite <-Hp|by rewrite <-Hp|].
  intros ->. by apply Permutation_nil_r in Hp.
Qed.

Lemma encode_members kvs :
  plain_members kvs → plain_members (map_to_list (list_to_map kvs : gmap string lua_value)).
Proof.
  intros Hk. eapply plain_members_perm; [|exact Hk]. symmetry. apply map_to_list_to_map, Hk.
Qed.

Lemma decode_object text m : flat_object text m → cjson_decode text = Some m.
Proof. intros (ms & kvs & Hp & Hf & _ & <-). simpl. by rewrite Hp, Hf. Qed.

Lemma encode_object kvs :
  plain_members kvs → flat_object (cjson_encode (list_to_map kvs)) (list_to_map kvs).
Proof.
  intros Hk. destruct (go_flat _ (encode_members _ Hk)) as (ms & kvs' & Hp & Hf & Hnd & Heq).
  exists ms, kvs'. split_and!; [done..|]. by rewrite Heq, list_to_map_to_list.
Qed.

#[global] Instance plain_cjson_ok : CjsonOk.
Proof.
  split.
  - intros kvs Hk. by apply decode_object, go_flat.
  - intros kvs Hk. by apply decode_object, encode_object.
  - intros kvs Hk. by apply encode_object.
Qed.

(** *** A JWT library

    Keys are strings, a key pair is two copies of one string, and a token is the
    number that encodes its method, its claims and the key that checks it. *)

#[global] Instance toy_keys : Jwt := {|
  rsa_PrivateKey := string; rsa_PublicKey := string;
  ecdsa_PrivateKey := string; ecdsa_PublicKey := string;
  rsa_Public k := k; ecdsa_Public k := k
|}.

Definition key_code (k : key) : nat * list Z * string :=
  match k with
  | KSecret b => (0%nat, b, "")
  | KRsaPriv k => (1%nat, [], k)
  | KRsaPub k => (2%nat, [], k)
  | KEcdsaPriv k => (3%nat, [], k)
  | KEcdsaPub k => (4%nat, [], k)
  end.

#[global] Instance key_code_inj : Inj eq eq key_code.
Proof. intros [] []; simpl in *; intros [=]; by subst. Qed.

Definition type_code (t : method_type) : nat :=
  match t with
  | SigningMethodHMAC => 0 | SigningMethodRSA => 1 | SigningMethodRSAPSS => 2
  | SigningMethodECDSA => 3 | SigningMethodEd25519 => 4 | SigningMethodNone => 5
  end.
Definition type_of_code (n : nat) : method_type :=
  match n with
  | 0 => SigningMethodHMAC | 1 => SigningMethodRSA | 2 => SigningMethodRSAPSS
  | 3 => SigningMethodECDSA | 4 => SigningMethodEd25519 | _ => SigningMethodNone
  end%nat.

Abbreviation token_code :=
  (string * nat * (string * string * list string * string * string) *
   (option time * option time * option time) * (nat * list Z * string))%type.

Definition write_token (m : method) (c : jwtClaims) (pk : key) : token_code :=
  (m_alg m, type_code (m_type m),
   (c_UserID c, c_Email c, c_Roles c, c_Subject c, c_Issuer c),
   (c_IssuedAt c, c_ExpiresAt c, c_NotBefore c), key_code pk).
Definition read_token (t : token_code) : method * jwtClaims * (nat * list Z * string) :=
  let '(alg, ty, (uid, email, roles, sub, iss), (iat, exp, nbf), k) := t in
  (Method alg (type_of_code ty),
   {| c_UserID := uid; c_Email := email; c_Roles := roles; c_Subject := sub; c_Issuer := iss;
      c_IssuedAt := iat; c_ExpiresAt := exp; c_NotBefore := nbf |}, k).

Definition toy_read (tok : string) : option (method * jwtClaims * (nat * list Z * string)) :=
  match parse_int tok with
  | Zpos p => read_token <$> decode p
  | _ => None
  end.
Definition toy_write (m : method) (c : jwtClaims) (pk : key) : string :=
  fmt_d (Zpos (encode (write_token m c pk))).

Lemma toy_read_write m c pk : toy_read (toy_write m c pk) = Some (m, c, key_code pk).
Proof.
  unfold toy_read, toy_write. rewrite parse_fmt_d, decode_encode.
  by destruct m as [? []], c.
Qed.

Definition toy_claims_pass (now : time) (o : parser_options) (c : jwtClaims) : bool :=
  match c_ExpiresAt c with Some e => now <? e | None => negb (po_ExpirationRequired o) end &&
  match c_NotBefore c with Some n => n <=? now | None => true end &&
  match po_Issuer o with Some iss => bool_decide (c_Issuer c = iss) | None => true end.

Lemma toy_claims_pass_iff now o c : toy_claims_pass now o c = true ↔ claims_pass now o c.
Proof.
  unfold toy_claims_pass, claims_pass. rewrite !andb_true_iff.
  destruct (c_ExpiresAt c) as [e|], (c_NotBefore c) as [n|], o as [[] [iss|]]; simpl;
    rewrite ?Z.ltb_lt, ?Z.leb_le, ?bool_decide_eq_true; naive_solver.
Qed.

#[global] Instance toy_jwt : JwtLib := {|
  NewNumericDate t := t / second * second;
  SignedString m k c :=
    match k with
    | KSecret b => Ok (toy_write m c (KSecret b))
    | KRsaPriv k => Ok (toy_write m c (KRsaPub k))
    | KEcdsaPriv k => Ok (toy_write m c (KEcdsaPub k))
    | _ => Err (Errorf "key is of invalid type")
    end;
  ParseWithClaims now tok kf o :=
    match toy_read tok with
    | None => Err (Errorf "token is malformed")
    | Some (m, c, kc) =>
        match kf m with
        | Err err => Err (ErrorfW "token is unverifiable" err)
        | Ok k =>
            if bool_decide (kc = key_code k) then
              if toy_claims_pass now o c then Ok {| t_Claims := Some c; t_Valid := true |}
              else Err (Errorf "token has invalid claims")
            else Err (Errorf "token signature is invalid")
        end
    end
|}.

#[global] Program Instance toy_jwt_ok : JwtOk := {|
  jwt_Unverified tok := fst <$> toy_read tok;
  jwt_Verify m k tok := ∃ c, toy_read tok = Some (m, c, key_code k)
|}.
Next Obligation. done. Qed.
Next Obligation.
  intros now tok kf o t. simpl. split.
  - destruct (toy_read tok) as [[[m c] kc]|]; [|done].
    destruct (kf m) as [k|] eqn:Hk; [|done]. case_bool_decide; [|done]. subst kc.
    destruct (toy_claims_pass now o c) eqn:Hc; [|done]. intros [= <-].
    exists m, c, k. split_and!; try done; [by eexists|by apply toy_claims_pass_iff].
  - intros (m & c & k & Hr & Hk & (c' & Hr') & Hc%toy_claims_pass_iff & ->).
    rewrite Hr' in *. injection Hr as ->. by rewrite Hk, bool_decide_eq_true_2, Hc.
Qed.
Next Obligation.
  intros m k pk c tok. simpl. destruct k; simpl; intros Hpk _ [= <-]; subst pk;
    rewrite toy_read_write; eauto.
Qed.

(** ** The executable wiring *)

Abbreviation pstate := (@bstate view).

Definition new_id (t : time) : string := "id-" +:+ fmt_d t.

(** Every call takes a second. *)
Definition pgcall {X} (p : prog pgE X) (b : pstate) : pstate * X :=
  let now := b_now b + second in
  let '(st, x) := run (PgMem.client (new_id now) now) p (b_pg b) in
  (BState now st (b_guard b) (b_jobs b) (b_log b), x).
Definition rcall {X} (f : time → view → view * X) (b : pstate) : pstate * X :=
  let now := b_now b + second in
  let '(r, x) := f now (b_redis b) in
  (BState now (b_pg b) (bruteforce.set_redis r (b_guard b)) (b_jobs b) (b_log b), x).
Definition gcall {X} (f : time → bruteforce.Guard view → bruteforce.Guard view * X) (b : pstate)
    : pstate * X :=
  let now := b_now b + second in
  let '(g, x) := f now (b_guard b) in
  (BState now (b_pg b) g (b_jobs b) (b_log b), x).
Definition pass_b {X} (x : X) (jobs : list job) (log : list (level * string)) (b : pstate)
    : pstate * X :=
  (BState (b_now b + second) (b_pg b) (b_guard b) (b_jobs b ++ jobs) (b_log b ++ log), x).

Definition bhandle : impl portE pstate := λ X e b,
  match e in portE X return pstate * X with
  | UserCreate email ph => pgcall (UserRepository.Create email ph) b
  | UserGetByEmail email => pgcall (UserRepository.GetByEmail email) b
  | UserGetByID id => pgcall (UserRepository.GetByID id) b
  | UserUpdatePasswordHash uid ph => pgcall (UserRepository.UpdatePasswordHash uid ph) b
  | SessCreate s => pgcall (SessionRepository.Create s) b
  | SessGetByTokenHash h => pgcall (SessionRepository.GetByTokenHash h) b
  | SessDeleteByID sid uid => pgcall (SessionRepository.DeleteByID sid uid) b
  | SessDeleteByTokenHash h => pgcall (SessionRepository.DeleteByTokenHash h) b
  | SessRotateToken old s => pgcall (SessionRepository.RotateToken old s) b
  | SessDeleteAllByUserID uid => pgcall (SessionRepository.DeleteAllByUserID uid) b
  | SessDeleteAllByUserIDExcept uid keep =>
      pgcall (SessionRepository.DeleteAllByUserIDExcept uid keep) b
  | SessListByUserID uid => pgcall (SessionRepository.ListByUserID uid) b
  | TokGenerate uid email roles =>
      pass_b (tm_Generate (b_now b) (b_now b) uid email roles) [] [] b
  | TokValidate tok => pass_b (tm_Validate (b_now b) tok) [] [] b
  | CacheSet h cs ttl => rcall (λ t, Cache.Set_ t h cs ttl) b
  | CacheGet h => rcall (λ t, Cache.Get t h) b
  | CacheDelete h => rcall (λ t, Cache.Delete t h) b
  | ResetSaveOTP uid email oh ttl => rcall (λ t, ResetCache.SaveOTP t uid email oh ttl) b
  | ResetGetOTP email => rcall (λ t, ResetCache.GetOTP t email) b
  | ResetIncrOTPAttempts email => rcall (λ t, ResetCache.IncrOTPAttempts t email) b
  | ResetDeleteOTP email => rcall (λ t, ResetCache.DeleteOTP t email) b
  | ResetSaveResetToken h uid email ttl =>
      rcall (λ t, ResetCache.SaveResetToken t h uid email ttl) b
  | ResetGetResetToken h => rcall (λ t, ResetCache.GetResetToken t h) b
  | ResetDeleteResetToken h => rcall (λ t, ResetCache.DeleteResetToken t h) b
  | GuardIsLocked email => gcall (λ t, bruteforce.IsLocked t email) b
  | GuardRecordFailure email => gcall (λ t, bruteforce.RecordFailure t email) b
  | GuardReset email => gcall (λ t g, (bruteforce.Reset t email g, tt)) b
  | Now => pass_b (b_now b + second) [] [] b
  | RandRead n => pass_b (Ok (env_rand (Z.to_nat (b_now b / second mod 1000)) n)) [] [] b
  | Go j => pass_b tt [j] [] b
  | Slog lvl msg => pass_b tt [] [(lvl, msg)] b
  end.

(** The calls the adapters are made for, decided. *)
Definition valid_utf8b (s : string) : bool := valid_bytes (bytes_of_string s).
Definition wf_callb {X} (e : portE X) (b : pstate) : bool :=
  match e with
  | SessCreate s | SessRotateToken _ s => bool_decide (sess_TokenHash s ≠ "")
  | CacheSet _ cs _ =>
      valid_utf8b (cs_SessionID cs) && valid_utf8b (cs_UserID cs) &&
      valid_utf8b (cs_UserEmail cs) && valid_utf8b (cs_DeviceID cs)
  | ResetSaveOTP uid _ oh ttl => (0 <? ttl) && valid_utf8b uid && valid_utf8b oh
  | ResetSaveResetToken _ uid email ttl => (0 <? ttl) && valid_utf8b uid && valid_utf8b email
  | ResetIncrOTPAttempts email =>
      match b_redis b !! (ResetCache.otpPrefix +:+ token.Hash email) with
      | Some (text, _) =>
          match Unmarshal_otpData text with
          | Some d => (0 <=? d_Attempts d) && (d_Attempts d + 1 <? max_lua_int)
          | None => true
          end
      | None => true
      end
  | _ => true
  end.

Definition bcheck (X : Type) (e : portE X) (b : pstate) : bool :=
  wf_callb e b &&
  match pg_method e with
  | Some p => let now := b_now b + second in
              run_ok (PgMem.client (new_id now) now) PgMem.check p (b_pg b)
  | None => true
  end.

Lemma wf_callb_sound {X} (e : portE X) b : wf_callb e b = true → wf_call e b.
Proof.
  unfold wf_call, wf_callb, valid_utf8b.
  destruct e; simpl; rewrite ?andb_true_iff, ?Z.ltb_lt, ?bool_decide_eq_true;
    unfold valid_session, valid_utf8; try tauto.
  intros Hc. split; [done|]. intros text o d Hl Hd.
  rewrite Hl, Hd in Hc. apply andb_true_iff in Hc as [?%Z.leb_le ?%Z.ltb_lt]. done.
Qed.

Lemma pgcall_sound {X} (e : portE X) p b b' x :
  pg_method e = Some p → bcheck X e b = true → pgcall p b = (b', x) → backend X e x b b'.
Proof.
  unfold bcheck, pgcall. intros Hp [Hwf Hok]%andb_true_iff. rewrite Hp in Hok.
  destruct (run _ p (b_pg b)) as [st y] eqn:Hrun. intros [= <- <-].
  split; [by apply wf_callb_sound|]. split; [simpl; unfold second; lia|]. left. exists p.
  split_and!; [done| |done]. eapply run_rexec; [|exact Hok|exact Hrun]. apply PgMem.client_sound.
Qed.

Lemma rcall_sound {X} (e : portE X) f b b' x :
  redis_method e = Some f → wf_callb e b = true → rcall f b = (b', x) → backend X e x b b'.
Proof.
  unfold rcall. intros Hf Hwf. destruct (f _ _) as [r y] eqn:Hrun. intros [= <- <-].
  split; [by apply wf_callb_sound|]. split; [simpl; unfold second; lia|]. right. left.
  exists f, (b_now b + second), r. split_and!; try done; simpl; unfold second; lia.
Qed.

Lemma bhandle_sound X (e : portE X) b b' x :
  bcheck X e b = true → bhandle X e b = (b', x) → backend X e x b b'.
Proof.
  intros Hc. assert (wf_callb e b = true) as Hwf by (by apply andb_true_iff in Hc as [? _]).
  pose proof (wf_callb_sound e b Hwf) as Hw.
  assert (b_now b ≤ b_now b + second) as Hle by (unfold second; lia).
  destruct e; simpl; try (by eapply pgcall_sound); try (by eapply rcall_sound);
    unfold gcall, pass_b;
    try (destruct (bruteforce.IsLocked _ _ _) as [g y] eqn:Hg);
    try (destruct (bruteforce.RecordFailure _ _ _) as [g y] eqn:Hg);
    intros [= <- <-]; (split; [exact Hw|]); (split; [exact Hle|]); right; right; simpl;
    rewrite ?app_nil_r.
  - split; [|done]. exists (b_now b), (b_now b). done.
  - split; [|done]. exists (b_now b). done.
  - exists (b_now b + second), g. done.
  - exists (b_now b + second), g. done.
  - exists (b_now b + second). done.
  - done.
  - split; [|done]. exact (env_rand_ok (Z.to_nat (b_now b / second mod 1000)) n).
  - done.
  - done.
Qed.

(** Schedules whose calls all pass the check. *)
Fixpoint sched_ok {A} (sched : list nat) (c : pstate * list (prog portE A)) : bool :=
  match sched with
  | [] => true
  | i :: sched' =>
      match (c.2 !! i : option (prog portE A)) with
      | Some (Vis e _) => bcheck _ e c.1
      | _ => true
      end && sched_ok sched' (pool_step bhandle i c)
  end.

Lemma sched_psteps {A} sched (c c' : pstate * list (prog portE A)) :
  sched_ok sched c = true → run_sched bhandle sched c = c' →
  ∃ tr, psteps backend c.1 c.2 tr c'.1 c'.2.
Proof.
  revert c; induction sched as [|i sched IH]; intros c; simpl.
  { intros _ <-. eexists. constructor. }
  intros [Hc Hok]%andb_true_iff Hrun. destruct (IH _ Hok Hrun) as [tr Htr].
  unfold pool_step in Htr. destruct (c.2 !! i) as [[r|X e k]|] eqn:Hi; simpl in Htr; [eauto| |eauto].
  destruct (bhandle X e c.1) as [s' x] eqn:Hx. eexists. econstructor; [exact Hi| |exact Htr].
  by eapply bhandle_sound.
Qed.

(** ** A race for a refresh token *)

Definition bob : User :=
  {| user_ID := "u1"; user_Email := "bob@example.com"; user_PasswordHash := "ph";
     user_CreatedAt := 0; user_UpdatedAt := 0 |}.
Definition start : time := 1700000000 * second.
Definition tok_hash : string := Eval vm_compute in token.Hash "tok".
Definition old_session : Session :=
  {| sess_ID := "s1"; sess_UserID := "u1"; sess_UserEmail := ""; sess_TokenHash := tok_hash;
     sess_DeviceID := "laptop"; sess_UserAgent := "curl"; sess_IPAddress := "10.0.0.1";
     sess_ExpiresAt := start + 60 * minute; sess_LastUsedAt := start; sess_CreatedAt := start |}.
Definition db0 : tables :=
  Tables {[ "u1" := bob ]} {[ sess_TokenHash old_session := old_session ]}
    {[ sess_TokenHash old_session := row_of old_session ]} [].
Definition p0 : pstate :=
  BState start (PgSt db0 None) (bruteforce.New ∅ 5 (15 * minute) (15 * minute)) [] [].

Definition refresh_bob : RefreshTokenRequest := {| rr_RefreshToken := "tok"; rr_DeviceId := "" |}.
Definition racers : list (prog portE (reply response)) :=
  [serve svc ctx0 (ReqRefreshToken refresh_bob); serve svc ctx0 (ReqRefreshToken refresh_bob)].
(** The two take turns. *)
Definition turns : list nat := mjoin (replicate 20 [0%nat; 1%nat]).
Definition p1 : pstate * list (prog portE (reply response)) := run_sched bhandle turns (p0, racers).

Lemma race_checked : sched_ok turns (p0, racers) = true.
Proof. by_vm. Qed.

(** The first request gets new tokens, the second is refused. *)
Lemma race_result :
  prog_result <$> p1.2 = [Some (Reply (RespTokens {|
      AccessToken := "access:u1";
      RefreshTokenPlain := "ODk6Ozw9Pj9AQUJDREVGR0hJSktMTU5PUFFSU1RVVlc=" |}));
    Some (Refuse invalid_refresh)].
Proof. by_vm. Qed.

Definition a0 : astate := babs p0 ∅ ∅ ∅.

Lemma pwf_db0 : pwf db0.
Proof.
  split; simpl; intros *; rewrite ?lookup_singleton_Some; intros; destruct_and?; subst; try done.
Qed.

Lemma redis_rep_empty a :
  a_cache a = ∅ → a_otps a = ∅ → a_toks a = ∅ → redis_rep (∅ : view) a.
Proof. intros Hc Ho Ht. by split; intros h; rewrite ?Hc, ?Ho, ?Ht, !lookup_empty. Qed.

Lemma brel_p0 : brel p0 a0.
Proof. split; [done|exact pwf_db0|done|by apply redis_rep_empty|done]. Qed.

Lemma awf_a0 : awf a0.
Proof.
  assert (a_sess a0 = {[ tok_hash := row_of old_session ]}) as Hs by by_vm.
  split; rewrite ?Hs; simpl; intros *; rewrite ?lookup_singleton_Some; intros; destruct_and?; subst; try done.
Qed.

Lemma race_psteps : ∃ tr, psteps backend p0 racers tr p1.1 p1.2.
Proof. exact (sched_psteps turns (p0, racers) p1 race_checked eq_refl). Qed.

Lemma head_result {A} (l : list (prog portE A)) r rest :
  prog_result <$> l = Some r :: rest → l !! 0%nat = Some (Ret r).
Proof. destruct l as [|[r'|X e k] l]; intros [=]; by subst. Qed.

(** ** Witnesses *)



Definition some_session : CachedSession :=
  {| cs_SessionID := "s1"; cs_UserID := "u1"; cs_UserEmail := "bob@example.com";
     cs_DeviceID := "a<b> laptop"; cs_ExpiresAt := start + 60 * minute + 5 |}.

Lemma documents_roundtrip_witness :
  let d := {| d_UserID := "u1"; d_OTPHash := "abc"; d_Attempts := 3 |} in
  let r := {| rd_UserID := "u1"; rd_Email := "bob@example.com" |} in
  ∃ data, Unmarshal_CachedSession data = Some some_session ∧
    Unmarshal_otpData (Marshal_otpData d) = Some d ∧
    Unmarshal_otpData (cjson_encode (list_to_map (otp_members d))) = Some d ∧
    Unmarshal_resetTokenData (Marshal_resetTokenData r) = Some r.
Proof.
  intros d r. eexists.
  apply (documents_roundtrip some_session d r).
  - repeat split; unfold valid_utf8; by_vm.
  - by_vm.
  - repeat split; unfold valid_utf8, max_lua_int; by_vm || (simpl; lia).
  - unfold valid_utf8; by_vm.
  - unfold valid_utf8; by_vm.
Defined.

(** A denied request. *)
Lemma unary_chain_witness :
  let tr := [Call AClock 5; Call (AAllowGlobal "10.0.0.1") (false, None); Call AClock 7;
             Call (AInfo "Logout" "10.0.0.1" 0 (Some ResourceExhausted)) tt] in
  omap log_call tr = [("Logout", "10.0.0.1", Some ResourceExhausted)].
Proof.
  intros tr.
  refine (proj1 (proj2 (unary_chain svc (ratelimit.New 1 minute) (ratelimit.New 1 minute) ctx0
    (ReqLogout "tok") tr (Refuse (too_many "requests" (ratelimit.New 1 minute))) _))).
  do 4 (eexists _, _; split; [reflexivity|]). done.
Defined.

(** Two requests in a minute that allows one sensitive request. *)
Definition lim_global : ratelimit.Limiter := ratelimit.New 3 minute.
Definition lim_login : ratelimit.Limiter := ratelimit.New 1 minute.
Definition check_code (allowed : bool) (ans : status) : served_request :=
  Served ctx0 (ReqVerifyResetCode "nobody" "123456")
    [Call AClock 5; Call (AAllowGlobal "10.0.0.1") (true, None);
     Call (AAllowLogin "auth:10.0.0.1") (allowed, None); Call AClock 7;
     Call (AInfo "VerifyResetCode" "10.0.0.1" 0 (Some (st_code ans))) tt] (Refuse ans).
Definition bad_email : status :=
  Status InvalidArgument (default "" (Email "nobody")).

(** Redis after each question. *)
Definition count_global (r : view) : view := (ratelimit.Allow lim_global start "10.0.0.1" r).1.
Definition count_login (r : view) : view := (ratelimit.Allow lim_login start "auth:10.0.0.1" r).1.
Definition redis_q1 : view := Eval vm_compute in count_global ∅.
Definition redis_q2 : view := Eval vm_compute in count_login redis_q1.
Definition redis_q3 : view := Eval vm_compute in count_global redis_q2.
Definition redis_q4 : view := Eval vm_compute in count_login redis_q3.
Definition this_minute : time := time_Truncate start minute.

Lemma questions_counted allowed r r1 r2 :
  ratelimit.Allow lim_global start "10.0.0.1" r = (r1, (true, None)) →
  ratelimit.Allow lim_login start "auth:10.0.0.1" r1 = (r2, (allowed, None)) →
  counted_in lim_global lim_login this_minute r
    [("global", "10.0.0.1", (true, None)); ("login", "auth:10.0.0.1", (allowed, None))] r2.
Proof.
  intros H1 H2. eapply counted_cons; [reflexivity|exact H1|].
  eapply counted_cons; [reflexivity|exact H2|]. apply counted_nil.
Qed.

Lemma two_requests :
  requests_of svc lim_global lim_login "10.0.0.1" this_minute (∅ : view)
    [check_code true bad_email; check_code false (too_many "login attempts" lim_login)] redis_q4.
Proof.
  apply (requests_cons _ _ _ _ _ _ _ _ redis_q2).
  { split; [by_vm|]. split; [do 5 (eexists _, _; split; [reflexivity|]); split; reflexivity|].
    apply (questions_counted true _ redis_q1); by_vm. }
  apply (requests_cons _ _ _ _ _ _ _ _ redis_q4); [|apply requests_nil].
  split; [by_vm|]. split; [do 5 (eexists _, _; split; [reflexivity|]); split; reflexivity|].
  apply (questions_counted false _ redis_q3); by_vm.
Qed.

Lemma throttled_witness :
  admitted 3 1 0 0 [true; true] = [true; false] ∧
  Forall2 (λ q ok, ran svc (sr_ctx q) (sr_req q) (sr_tr q) (sr_ans q) ok)
    [check_code true bad_email; check_code false (too_many "login attempts" lim_login)] [true; false].
Proof.
  split; [reflexivity|].
  refine (proj1 (throttled svc lim_global lim_login _ eq_refl "10.0.0.1" this_minute _ _ _ two_requests _)).
  - split; vm_compute; [discriminate|reflexivity].
  - intros t key _ _. reflexivity.
Defined.

(** *** Tokens *)

Definition signer : manager := MRS (NewRS256Manager ("private key" : rsa_PrivateKey) (15 * minute)).

Lemma signer_signs now1 now2 uid email roles :
  ∃ tok, GenerateAccessToken signer now1 now2 uid email roles = Ok tok.
Proof. eexists. exact eq_refl. Qed.

Lemma access_token_lifetime_witness :
  ∃ tok, GenerateAccessToken signer start (start + 7) "u1" "bob@example.com" ["user"] = Ok tok ∧
  ∃ exp, start + 7 + 15 * minute - second < exp ≤ start + 7 + 15 * minute ∧
    ∀ now, (now < exp → ValidateAccessToken signer now tok =
              Ok {| claims_UserID := "u1"; claims_Email := "bob@example.com";
                    claims_Roles := ["user"] |}) ∧
           (exp ≤ now → ∀ cl, ValidateAccessToken signer now tok ≠ Ok cl).
Proof.
  destruct (signer_signs start (start + 7) "u1" "bob@example.com" ["user"]) as [tok Htok].
  exists tok. split; [exact Htok|].
  apply (access_token_lifetime signer start (start + 7) "u1" "bob@example.com" ["user"]).
  - exact Htok.
  - repeat constructor; unfold valid_utf8; by_vm.
  - unfold start, second. lia.
  - simpl. unfold start, minute, second. lia.
Defined.

(** An HMAC token under the text of the public key is refused. *)
Definition forged_claims : jwtClaims :=
  {| c_UserID := "u1"; c_Email := "e"; c_Roles := []; c_Subject := "u1"; c_Issuer := issuer;
     c_IssuedAt := None; c_ExpiresAt := Some (start + minute); c_NotBefore := None |}.

Lemma written_says m c pk : jwt_Unverified (toy_write m c pk) = Some (m, c).
Proof. change (fst <$> toy_read (toy_write m c pk) = Some (m, c)). by rewrite toy_read_write. Qed.
Lemma written_verifies m c pk : jwt_Verify m pk (toy_write m c pk).
Proof. exists c. apply toy_read_write. Qed.

Lemma ValidateAccessToken_iff_witness :
  let forged := toy_write SigningMethodHS256 forged_claims (verification_key signer) in
  jwt_Verify SigningMethodHS256 (verification_key signer) forged ∧
  ∀ cl, ValidateAccessToken signer start forged ≠ Ok cl.
Proof.
  intros forged. split; [apply written_verifies|].
  intros cl (meth & c & Hu & Ht & _)%(ValidateAccessToken_iff signer start forged cl).
  unfold forged in Hu. rewrite written_says in Hu. by injection Hu as <- <-.
Defined.

(** *** The audit trail of the race *)

Definition race_jobs : list job := b_jobs p1.1.
Definition audit_run := run (PgMem.client "id-audit" start) (perform_all svc race_jobs) (b_pg p1.1).

Lemma audit_run_ok :
  run_ok (PgMem.client "id-audit" start) PgMem.check (perform_all svc race_jobs) (b_pg p1.1) = true.
Proof. by_vm. Qed.

Lemma race_jobs_text : Forall text_event race_jobs.
Proof.
  set (ok j := match j with
               | JAudit e => forallb (λ kv, valid_utf8b kv.1 && valid_utf8b kv.2)
                               (map_to_list (ae_Metadata e))
               | JHook _ => true
               end).
  assert (forallb ok race_jobs = true) as Hok by by_vm.
  apply Forall_forall. intros [e|h] Hj; [|done]. intros k v Hkv%elem_of_map_to_list.
  rewrite forallb_forall in Hok. apply list_elem_of_In in Hj. specialize (Hok _ Hj). simpl in Hok.
  rewrite forallb_forall in Hok. apply list_elem_of_In in Hkv. specialize (Hok _ Hkv).
  by apply andb_true_iff in Hok.
Qed.

Lemma audit_run_rexec :
  rexec pg_spec (perform_all svc race_jobs) (b_pg p1.1) audit_run.1 audit_run.2.
Proof.
  unfold audit_run. generalize audit_run_ok. generalize (b_pg p1.1), (perform_all svc race_jobs).
  intros st p Hok. destruct (run _ p st) as [st' os] eqn:Hrun.
  eapply run_rexec; [|exact Hok|exact Hrun]. apply PgMem.client_sound.
Qed.

Lemma race_jobs_two : length race_jobs = 2%nat.
Proof. by_vm. Qed.

(** The refresh that succeeded has queued an audit event and a hook. *)
Lemma audit_trail_witness :
  length race_jobs = 2%nat ∧
  ∃ rs, Forall3 (performed svc) race_jobs audit_run.2 rs ∧
    committed audit_run.1 = with_rows (omap id rs) (committed (b_pg p1.1)) ∧
    working audit_run.1 = working (b_pg p1.1).
Proof.
  split; [exact race_jobs_two|].
  exact (audit_trail svc race_jobs (b_pg p1.1) audit_run.1 audit_run.2 audit_run_rexec race_jobs_text).
Defined.
