(* ===== verification/GatewayRuns.v ===== *)
(** * The gateway and the process, run

    Concrete instances of the gateway library and of the key files, a request
    through the gateway, a client that chooses its own address, and a process
    that starts and stops. *)

From Stdlib Require Import Ascii String.
From S2P Require Import Prelude GoStd Encoding Ports Validate Crypto TimeText Json JsonProofs Service Spec.
From S2P Require Import Redis Bruteforce RateLimit World RedisMem Postgres PostgresProofs PgMem RedisAdapters.
From S2P Require Import RedisProofs AuditLog Jwt App Grpc Gateway GatewayLocal Server Concurrency Backend Demo Production.
Open Scope Z_scope.

(** ** A gateway library *)

(** Every field of a message is the body. *)
Definition toy_decode {T} (m : message T) (b : string) : T :=
  match m in message T return T with
  | RegisterRequest_ => {| reg_Email := b; reg_Password := b |}
  | LoginRequest_ => {| login_Email := b; login_Password := b; login_DeviceId := b |}
  | ValidateTokenRequest_ => b
  | RefreshTokenRequest_ => {| rr_RefreshToken := b; rr_DeviceId := b |}
  | LogoutRequest_ => b
  | LogoutAllRequest_ => tt
  | ListSessionsRequest_ => tt
  | RevokeSessionRequest_ => b
  | ChangePasswordRequest_ => {| cp_CurrentPassword := b; cp_NewPassword := b; cp_RefreshToken := b |}
  | RequestPasswordResetRequest_ => b
  | VerifyResetCodeRequest_ => (b, b)
  | ResetPasswordRequest_ => (b, b)
  end.

Definition toy_metadata (req : http_request) : gmap string (list string) :=
  let xff := match net_SplitHostPort (h_RemoteAddr req) with
             | Some (host, _) => [String.concat ", " (Header_Values req "X-Forwarded-For" ++ [host])]
             | None => []
             end in
  <["x-forwarded-for" := Header_Values req "Grpc-Metadata-X-Forwarded-For" ++ xff]>
  {["authorization" := Header_Values req "Authorization"]}.

Definition route_match (req : http_request) (h : string * Pattern) : option (gmap string string) :=
  if bool_decide (h.1 = h_Method req) then segs ← template h.2; match_segs segs (h_Path req) else None.

Fixpoint toy_find (hs : list (string * Pattern)) (req : http_request)
    : option (nat * gmap string string) :=
  match hs with
  | [] => None
  | h :: hs' =>
      match route_match req h with
      | Some ps => Some (0%nat, ps)
      | None => prod_map S id <$> toy_find hs' req
      end
  end.

#[global] Instance toy_gateway : GatewayRuntime := {|
  Decode T m b := (toy_decode m b, if bool_decide (b = "") then Some EOF else None);
  runtime_String s := inl s;
  AnnotateContext req _ :=
    Ok {| ctx_md := Some (toy_metadata req); ctx_peer := Some "127.0.0.1:9000" |};
  AnnotateIncomingContext req _ := Ok {| ctx_md := Some (toy_metadata req); ctx_peer := None |};
  ParsePath path := NewPattern [2; 0] [str_drop 1 path] "";
  mux_find := toy_find;
  OpenAPISpec := "{}"
|}.

Lemma toy_find_some hs req i ps :
  toy_find hs req = Some (i, ps) → ∃ h, hs !! i = Some h ∧ route_match req h = Some ps.
Proof.
  revert i; induction hs as [|h hs IH]; intros i; simpl; [done|].
  destruct (route_match req h) as [ps'|] eqn:Hm; [intros [= <- <-]; eauto|].
  destruct (toy_find hs req) as [[j ps']|]; [|done]. intros [= <- <-]. by apply IH.
Qed.
Lemma toy_find_none hs req i h :
  toy_find hs req = None → hs !! i = Some h → route_match req h = None.
Proof.
  revert i; induction hs as [|h' hs IH]; intros i; simpl; [done|].
  destruct (route_match req h') as [ps|] eqn:Hm; [done|].
  destruct (toy_find hs req) as [[]|] eqn:Hf; [done|]. intros _.
  destruct i as [|i]; simpl; [by intros [= <-]|by apply IH].
Qed.

#[global] Instance toy_gateway_ok : GatewayRuntimeOk.
Proof.
  split.
  - done.
  - intros s _. change (template (ParsePath ("/" +:+ s))) with (Some [Lit (str_drop 1 ("/" +:+ s))]).
    by destruct s.
  - intros hs req i ps _ Hf. apply toy_find_some in Hf as ([m p] & Hi & Hm). exists p.
    unfold route_match in Hm. simpl in Hm. case_bool_decide; [|done]. subst m. split; [done|].
    intros segs Ht. by rewrite Ht in Hm.
  - intros hs req i p segs _ Hf Hi Ht. pose proof (toy_find_none _ _ _ _ Hf Hi) as Hm.
    unfold route_match in Hm. simpl in Hm. rewrite bool_decide_eq_true_2, Ht in Hm by done. done.
  - intros req fm ctx host port [= <-] Haddr. eexists. split; [reflexivity|].
    unfold md_Get, toy_metadata. rewrite lookup_insert_eq, Haddr. done.
  - intros req fm ctx [= <-] Hno. eexists. split; [reflexivity|].
    unfold md_Get, toy_metadata. rewrite lookup_insert_ne, lookup_singleton_eq by done. done.
Qed.

(** ** Requests *)

Definition http_logout (headers : gmap string (list string)) : http_request :=
  {| h_Method := "POST"; h_Path := ["v1"; "auth"; "logout"]; h_Header := headers; h_Body := "tok";
     h_RemoteAddr := "203.0.113.7:443" |}.

Definition server_ctx (req : http_request) : Ctx :=
  {| ctx_md := Some (toy_metadata req); ctx_peer := Some "127.0.0.1:9000" |}.

(** The two gateways differ in the peer only, and call alike. *)
Lemma in_process_gateway_witness :
  let req := http_logout ∅ in
  let same_md c1 c2 := ctx_md c1 = ctx_md c2 in
  psim same_md (mux_serve RegisterAuthServiceHandlerClient req)
    (mux_serve RegisterAuthServiceHandlerServer req) ∧
  ∃ tr, exec (mux_serve RegisterAuthServiceHandlerServer req) tr (ForwardResponseMessage RespEmpty) ∧
    Forall2 (call_sim same_md) [Call (Invoke (server_ctx req) (ReqLogout "tok")) (Reply RespEmpty)] tr.
Proof.
  intros req same_md.
  assert (psim same_md (mux_serve RegisterAuthServiceHandlerClient req)
    (mux_serve RegisterAuthServiceHandlerServer req)) as Hsim.
  { apply (in_process_gateway same_md req). intros full. reflexivity. }
  split; [exact Hsim|]. apply (psim_exec same_md _ _ _ _ Hsim).
  eexists _, _. split; [reflexivity|]. split; reflexivity.
Defined.

(** The same peer, without and with the header. *)
Definition honest : http_request := http_logout {["X-Forwarded-For" := ["1.2.3.4"]]}.
Definition spoofed : http_request := http_logout {["Grpc-Metadata-X-Forwarded-For" := ["1.2.3.4"]]}.

Lemma gateway_client_address_witness :
  extractIP (server_ctx honest) = "203.0.113.7" ∧ extractIP (server_ctx spoofed) = "1.2.3.4".
Proof.
  assert (graphic "203.0.113.7") as Hg by (apply (bool_decide_unpack _); vm_compute; exact I).
  split.
  - pose proof (gateway_client_address honest "" (server_ctx honest) "203.0.113.7" "443") as Hh.
    exact (proj1 (Hh eq_refl eq_refl Hg ltac:(discriminate) eq_refl)).
  - assert (rightmost_ip "1.2.3.4" = Some "1.2.3.4") as Hip by by_vm.
    pose proof (gateway_client_address spoofed "" (server_ctx spoofed) "203.0.113.7" "443") as Hs.
    exact (proj1 (Hs eq_refl eq_refl Hg ltac:(discriminate) eq_refl _ Hip)).
Defined.

(** ** The process *)

#[global] Instance no_keys : KeyFiles := {|
  os_ReadFile _ := Err (Errorf "no such file");
  pem_Decode _ := None;
  x509_ParsePKCS1PrivateKey _ := Err (Errorf "x509");
  x509_ParseECPrivateKey _ := Err (Errorf "x509");
  x509_ParsePKCS8PrivateKey _ := Err (Errorf "x509")
|}.

Definition some_config : Config := {|
  cfg_Env := "prod";
  cfg_GRPC := {| grpc_Port := 8081; grpc_Timeout := 5 * second |};
  cfg_Gateway := {| gw_Port := 8080; gw_GRPCTarget := ""; gw_GRPCTLSCert := "" |};
  cfg_JWT := {| cfg_Secret := "0123456789abcdef0123456789abcdef"; cfg_AccessTTL := 15 * minute;
                cfg_RefreshTTL := 720 * 60 * minute; cfg_Algorithm := "hs256";
                cfg_PrivateKeyPath := "" |};
  cfg_Security := {| sec_BruteForce := {| cfg_MaxAttempts := 5; cfg_Window := 15 * minute;
                                          cfg_LockoutTTL := 15 * minute |};
                     sec_RateLimit := {| cfg_GlobalRPM := 300; cfg_LoginRPM := 20 |} |};
  cfg_Redis := {| red_Host := "localhost"; red_Port := 6379; red_Password := "" |};
  cfg_DB := {| db_Username := "postgres"; db_Password := "postgres"; db_Host := "localhost";
               db_Port := "5432"; db_DbName := "auth_db" |}
|}.

Definition main_handle : impl sysE gw_fields := λ X e s,
  match e in sysE X return gw_fields * X with
  | ReadEnv => (s, Ok some_config)
  | e => gw_handle _ e s
  end.

Definition fields0 : gw_fields := GwFields true true false true.
Definition main_trace : list (callrec sysE) := run_trace main_handle main fields0.

Lemma main_lifecycle_witness :
  (run main_handle main fields0).2 = Exit 0 ∧
  ((∃ cfg, Call ReadEnv (Ok cfg) ∈ main_trace ∧ lifecycle cfg main_trace (Exit 0)) ∨
   (Exit 0 = Exit 1 ∧ ∃ err, Call ReadEnv (Err err) ∈ main_trace ∧ omap event_of main_trace = [])).
Proof.
  split; [reflexivity|].
  exact (main_lifecycle main_trace (Exit 0) (run_exec main_handle main fields0)).
Defined.
