(* ===== verification/HttpRuns.v ===== *)
(** * HTTP requests, run from end to end

    A concrete gRPC library (messages as length-prefixed fields, a connection
    that never fails) and, with the gateway of [GatewayRuns], two requests
    through the whole application: one that is rate limited, and one with an
    access token. *)

From Stdlib Require Import Ascii String.
From S2P Require Import Prelude GoStd Encoding Ports Validate Crypto TimeText Json JsonProofs Service Spec.
From S2P Require Import ServiceSafety Redis Bruteforce RateLimit World RedisMem Postgres PostgresProofs PgMem.
From S2P Require Import RedisAdapters RedisProofs AuditLog Jwt App Grpc Gateway Server EndToEnd Concurrency.
From S2P Require Import Backend Demo Production GatewayRuns.
Open Scope Z_scope.

(** ** A codec *)

(** The length in unary, then the text. *)
Fixpoint enc_length (n : nat) (s : string) : string :=
  match n with O => String "0" s | S n' => String "1" (enc_length n' s) end.
Definition enc_field (s rest : string) : string := enc_length (String.length s) (s +:+ rest).

Fixpoint dec_length (s : string) : option (nat * string) :=
  match s with
  | String "0" s' => Some (0%nat, s')
  | String "1" s' => prod_map S id <$> dec_length s'
  | _ => None
  end.
Definition dec_field (s : string) : option (string * string) :=
  '(n, s') ← dec_length s; Some (str_take n s', str_drop n s').

Lemma dec_enc_length n s : dec_length (enc_length n s) = Some (n, s).
Proof. induction n as [|n IH]; simpl; [done|]. by rewrite IH. Qed.
Lemma dec_enc_field s rest : dec_field (enc_field s rest) = Some (s, rest).
Proof.
  unfold dec_field, enc_field. rewrite dec_enc_length. simpl. f_equal.
  induction s as [|a s IH]; simpl; [by destruct rest|]. by injection IH as -> ->.
Qed.

Fixpoint enc_fields (l : list string) : string :=
  match l with [] => "" | s :: l' => enc_field s (enc_fields l') end.
Fixpoint dec_fields (n : nat) (s : string) : option (list string) :=
  match n with
  | O => Some []
  | S n' => '(f, s') ← dec_field s; (f ::.) <$> dec_fields n' s'
  end.
Lemma dec_enc_fields l : dec_fields (length l) (enc_fields l) = Some l.
Proof. induction l as [|s l IH]; cbn -[dec_field enc_field]; [done|]. rewrite dec_enc_field. simpl. by rewrite IH. Qed.

(** The fields of a message. *)
Definition to_fields {T} (m : message T) : T → list string :=
  match m in message T return T → list string with
  | RegisterRequest_ => λ r, [reg_Email r; reg_Password r]
  | LoginRequest_ => λ r, [login_Email r; login_Password r; login_DeviceId r]
  | RefreshTokenRequest_ => λ r, [rr_RefreshToken r; rr_DeviceId r]
  | ChangePasswordRequest_ => λ r, [cp_CurrentPassword r; cp_NewPassword r; cp_RefreshToken r]
  | ValidateTokenRequest_ | LogoutRequest_ | RevokeSessionRequest_ | RequestPasswordResetRequest_ =>
      λ s, [s]
  | LogoutAllRequest_ | ListSessionsRequest_ => λ _, []
  | VerifyResetCodeRequest_ | ResetPasswordRequest_ => λ p, [p.1; p.2]
  end.
Definition of_fields {T} (m : message T) : list string → option T :=
  match m in message T return list string → option T with
  | RegisterRequest_ => λ l, match l with [a; b] => Some {| reg_Email := a; reg_Password := b |} | _ => None end
  | LoginRequest_ => λ l, match l with
      | [a; b; c] => Some {| login_Email := a; login_Password := b; login_DeviceId := c |} | _ => None end
  | RefreshTokenRequest_ => λ l, match l with
      | [a; b] => Some {| rr_RefreshToken := a; rr_DeviceId := b |} | _ => None end
  | ChangePasswordRequest_ => λ l, match l with
      | [a; b; c] => Some {| cp_CurrentPassword := a; cp_NewPassword := b; cp_RefreshToken := c |}
      | _ => None end
  | ValidateTokenRequest_ | LogoutRequest_ | RevokeSessionRequest_ | RequestPasswordResetRequest_ =>
      λ l, match l with [s] => Some s | _ => None end
  | LogoutAllRequest_ | ListSessionsRequest_ => λ l, match l with [] => Some tt | _ => None end
  | VerifyResetCodeRequest_ | ResetPasswordRequest_ =>
      λ l, match l with [a; b] => Some (a, b) | _ => None end
  end.
Definition n_fields {T} (m : message T) : nat :=
  match m with
  | RegisterRequest_ | RefreshTokenRequest_ | VerifyResetCodeRequest_ | ResetPasswordRequest_ => 2
  | LoginRequest_ | ChangePasswordRequest_ => 3
  | LogoutAllRequest_ | ListSessionsRequest_ => 0
  | _ => 1
  end%nat.

Lemma to_fields_length {T} (m : message T) x : length (to_fields m x) = n_fields m.
Proof. by destruct m. Qed.
Lemma of_to_fields {T} (m : message T) x : of_fields m (to_fields m x) = Some x.
Proof. by destruct m; destruct x. Qed.

(** ** A runtime *)

Definition bad_message : status := Status Internal "grpc: error unmarshalling request".
Definition toy_unmarshal {T} (m : message T) (b : string) : T + status :=
  match dec_fields (n_fields m) b ≫= of_fields m with Some x => inl x | None => inr bad_message end.

Fixpoint toy_chain (l : list UnaryServerInterceptor) : UnaryServerInterceptor := λ ctx req full h,
  match l with
  | [] => h ctx req
  | i :: l' => i ctx req full (λ ctx req, toy_chain l' ctx req full h)
  end.

Definition toy_serve (gs : grpc_Server) (ctx : Ctx) (full b : string) : rpc :=
  match gs_services gs with
  | (desc, srv) :: _ =>
      match strings_CutPrefix full ("/" +:+ sd_ServiceName desc +:+ "/") ≫=
            λ name, find_method name (sd_Methods desc) with
      | Some h => h srv ctx (λ T m, toy_unmarshal m b) (gs_interceptor gs)
      | None => Ret (Refuse (Status Unimplemented "unknown method"))
      end
  | [] => Ret (Refuse (Status Unimplemented "unknown service"))
  end.

#[global] Instance toy_grpc : GrpcRuntime := {|
  Marshal T m x := Ok (enc_fields (to_fields m x));
  Unmarshal := @toy_unmarshal;
  ChainUnaryInterceptor := toy_chain;
  serve_rpc := toy_serve;
  cc_Invoke T remote ctx full m x := remote ctx full (enc_fields (to_fields m x))
|}.

#[global] Instance toy_grpc_ok : GrpcRuntimeOk.
Proof.
  split; simpl.
  - intros T m x b [= <-]. unfold toy_unmarshal.
    by rewrite <-(to_fields_length m x), dec_enc_fields; simpl; rewrite of_to_fields.
  - done.
  - intros gs desc srv ctx name h b Hgs Hfind. unfold toy_serve. rewrite Hgs.
    assert (strings_CutPrefix ("/" +:+ sd_ServiceName desc +:+ "/" +:+ name)
      ("/" +:+ sd_ServiceName desc +:+ "/") = Some name) as ->.
    { apply strings_CutPrefix_spec. by rewrite !str_app_assoc. }
    simpl. by rewrite Hfind.
  - intros T remote ctx full m x. right. eexists. split; [done|]. by left.
Qed.

(** ** Requests *)

Definition limiter : ratelimit.Limiter := ratelimit.New 300 minute.
Definition some_app : App unit := {|
  app_service := svc; app_tokens := signer;
  app_guard := bruteforce.New tt 5 (15 * minute) (15 * minute);
  app_globalLimiter := limiter; app_loginLimiter := ratelimit.New 20 minute |}.

(** One request too many, to log out. *)
Definition limited_trace : list (callrec appE) :=
  [Call AClock 5; Call (AAllowGlobal "203.0.113.7") (false, None); Call AClock 7;
   Call (AInfo "Logout" "127.0.0.1" 0 (Some ResourceExhausted)) tt].

Lemma limited_exec_run :
  exec (handle_http some_config some_app (http_logout ∅)) limited_trace
    (HTTPStatus (too_many "requests" limiter)).
Proof. do 4 (eexists _, _; split; [reflexivity|]). split; reflexivity. Qed.


(** The sessions of a user with a token. *)
Definition http_sessions (tok : string) : http_request :=
  {| h_Method := "GET"; h_Path := ["v1"; "auth"; "sessions"];
     h_Header := {["Authorization" := ["Bearer " +:+ tok]]}; h_Body := "";
     h_RemoteAddr := "203.0.113.7:443" |}.

Definition sessions_trace (tok : string) (claims : Claims) : list (callrec appE) :=
  [Call AClock 5; Call (AAllowGlobal "203.0.113.7") (true, None);
   Call (APort (TokValidate tok)) (Ok claims);
   Call (APort (SessListByUserID (claims_UserID claims))) (Ok []);
   Call AClock 7; Call (AInfo "ListSessions" "127.0.0.1" 0 None) tt].

Lemma sessions_exec_run tok claims :
  exec (handle_http some_config some_app (http_sessions tok)) (sessions_trace tok claims)
    (ForwardResponseMessage (RespSessions [])).
Proof. do 6 (eexists _, _; split; [reflexivity|]). split; reflexivity. Qed.

Definition bob_claims : jwtClaims :=
  {| c_UserID := "u1"; c_Email := "bob@example.com"; c_Roles := ["user"]; c_Subject := "u1";
     c_Issuer := issuer; c_IssuedAt := Some start; c_ExpiresAt := Some (start + 15 * minute);
     c_NotBefore := None |}.
Definition bob_token : string := toy_write SigningMethodRS256 bob_claims (verification_key signer).

Lemma bob_token_valid : token_valid signer start bob_token (toPorts bob_claims).
Proof.
  exists SigningMethodRS256, bob_claims. unfold bob_token. rewrite written_says.
  split_and!; try done; [apply written_verifies|]. exists (start + 15 * minute).
  split; [done|]. unfold minute, second. lia.
Qed.

