(* ===== verification/Testutil.v ===== *)
(** * Databases for tests ([internal/repository/testutil/postgres.go])

    Starting a PostgreSQL container for the integration tests, as programs of
    calls to the container library, the migration library and pgx.  The tests
    fail or pass on these programs too: [NewSuite_clean] and
    [NewPostgresPool_clean] show that no container is left behind, whatever
    fails. *)

From Stdlib Require Import Ascii String.
From S2P Require Import Prelude GoStd Ports.
Open Scope Z_scope.

(** ** The calls *)

Inductive upEnd := Up | UpNoChange | UpError (err : error).

Inductive testE : Type → Type :=
| ContainerRun (image database username password : string) : testE (result unit)
| ConnectionString (args : string) : testE (result string)
| Terminate : testE (option error)
| RuntimeCaller : testE (option string)
| MigrateNew (source database : string) : testE (result unit)
| MigrateUp : testE upEnd
| MigrateClose : testE unit
| PoolNew (connStr : string) : testE (result unit)
| PoolClose : testE unit.

(** ** Strings and paths *)

(** [strings.ReplaceAll(s, old, new)] for a non-empty [old]; [skip] bytes of the
    last occurrence are still to be passed over. *)
Fixpoint replace_from (old new s : string) (skip : nat) : string :=
  match s with
  | "" => ""
  | String a s' =>
      match skip with
      | S skip' => replace_from old new s' skip'
      | O =>
          match strings_CutPrefix s old with
          | Some _ => new +:+ replace_from old new s' (String.length old - 1)
          | None => String a (replace_from old new s' 0)
          end
      end
  end.
Definition strings_ReplaceAll (s old new : string) : string := replace_from old new s 0.

(** [filepath.Clean] on the components of a rooted path. *)
Fixpoint clean (done todo : list string) : list string :=
  match todo with
  | [] => reverse done
  | c :: todo' =>
      if bool_decide (c = "") || bool_decide (c = ".") then clean done todo'
      else if bool_decide (c = "..") then clean (tail done) todo'
      else clean (c :: done) todo'
  end.

(** [filepath.Join(filepath.Dir(filename), "..", "..", "..", "migrations")], for
    the rooted path of a source file. *)
Definition migsDir (filename : string) : string :=
  "/" +:+ String.concat "/"
    (clean [] (removelast (strings_Split "/" filename) ++ [".."; ".."; ".."; "migrations"])).

Example migsDir_repo :
  migsDir "/src/internal/repository/testutil/postgres.go" = "/src/migrations".
Proof. by_vm. Qed.
Example replace_localhost :
  strings_ReplaceAll "postgres://u:p@localhost:5432/db" "localhost" "127.0.0.1" =
  "postgres://u:p@127.0.0.1:5432/db".
Proof. by_vm. Qed.

(** ** The programs *)

Definition applyMigrations (connStr : string) : prog testE (option error) :=
  let connStr := strings_ReplaceAll connStr "localhost" "127.0.0.1" in
  call caller <- RuntimeCaller;;
  match caller with
  | None => Ret (Some (Errorf "runtime.Caller failed"))
  | Some filename =>
      call m <- MigrateNew ("file://" +:+ migsDir filename) connStr;;
      match m with
      | Err err => Ret (Some err)
      | Ok _ =>
          call fin <- MigrateUp;;
          do MigrateClose;;
          match fin with
          | UpError err => Ret (Some err)
          | Up | UpNoChange => Ret None
          end
      end
  end.

Definition run_container : testE (result unit) :=
  ContainerRun "postgres:17-alpine" "testdb" "testuser" "testpass".

Definition NewSuite : prog testE (option error) :=
  call ctr <- run_container;;
  match ctr with
  | Err err => Ret (Some (ErrorfW "start postgres container" err))
  | Ok _ =>
  call connStr <- ConnectionString "sslmode=disable";;
  match connStr with
  | Err err => do Terminate;; Ret (Some (ErrorfW "get connection string" err))
  | Ok connStr =>
  err <- applyMigrations connStr;;
  match err with
  | Some err => do Terminate;; Ret (Some (ErrorfW "run migrations" err))
  | None =>
  call pool <- PoolNew connStr;;
  match pool with
  | Err err => do Terminate;; Ret (Some (ErrorfW "create pool" err))
  | Ok _ => Ret None
  end
  end
  end
  end.

Definition Teardown : prog testE unit := do PoolClose;; do Terminate;; Ret tt.

(** [t.Cleanup]: the functions registered so far, the last first.  A failed
    [require.NoError] ends the test, and its end calls them. *)
Definition cleanup_container : prog testE unit := do Terminate;; Ret tt.
Definition cleanup_pool : prog testE unit := do PoolClose;; Ret tt.
Fixpoint end_test (cleanups : list (prog testE unit)) : prog testE unit :=
  match cleanups with
  | [] => Ret tt
  | c :: cs => c;;; end_test cs
  end.

(** The test goes on with the pool ([Some] of its cleanups), or has failed. *)
Definition NewPostgresPool : prog testE (option (list (prog testE unit))) :=
  call ctr <- run_container;;
  match ctr with
  | Err _ => end_test [];;; Ret None
  | Ok _ =>
  call connStr <- ConnectionString "sslmode=disable";;
  match connStr with
  | Err _ => end_test [cleanup_container];;; Ret None
  | Ok connStr =>
  err <- applyMigrations connStr;;
  match err with
  | Some _ => end_test [cleanup_container];;; Ret None
  | None =>
  call pool <- PoolNew connStr;;
  match pool with
  | Err _ => end_test [cleanup_container];;; Ret None
  | Ok _ => Ret (Some [cleanup_pool; cleanup_container])
  end
  end
  end
  end.

(** ** Nothing is left behind *)

(** What a call changes: [1] for a container or pool that is now there, [-1] for
    one that is gone. *)
Definition containers (c : callrec testE) : Z :=
  match call_op c in testE X return X → Z with
  | ContainerRun _ _ _ _ => λ r, match r with Ok _ => 1 | Err _ => 0 end
  | Terminate => λ _, -1
  | _ => λ _, 0
  end (call_res c).
Definition pools (c : callrec testE) : Z :=
  match call_op c in testE X return X → Z with
  | PoolNew _ => λ r, match r with Ok _ => 1 | Err _ => 0 end
  | PoolClose => λ _, -1
  | _ => λ _, 0
  end (call_res c).
Definition total (f : callrec testE → Z) (tr : list (callrec testE)) : Z := foldr Z.add 0 (f <$> tr).

Lemma total_app f tr1 tr2 : total f (tr1 ++ tr2) = total f tr1 + total f tr2.
Proof. unfold total. induction tr1 as [|c tr1 IH]; [done|]. csimpl. rewrite IH. lia. Qed.

Lemma total_cons f c tr : total f (c :: tr) = f c + total f tr.
Proof. done. Qed.

Lemma applyMigrations_neutral connStr tr r :
  exec (applyMigrations connStr) tr r → total containers tr = 0 ∧ total pools tr = 0.
Proof. unfold applyMigrations. intros Hex. repeat (exec_generic; simplify_eq); done. Qed.

Ltac count_calls :=
  repeat (exec_generic; simplify_eq);
  try match goal with E : exec (applyMigrations _) _ _ |- _ => apply applyMigrations_neutral in E as [??] end;
  repeat first [rewrite total_app | rewrite total_cons];
  change (total containers []) with 0; change (total pools []) with 0;
  cbn [containers pools call_op call_res]; lia.

(** A suite has one container and one pool, which its teardown takes away; when
    it could not be made, it has left none. *)
Lemma NewSuite_clean tr r tr' :
  exec NewSuite tr r → exec Teardown tr' tt →
  let all := match r with Some _ => tr | None => tr ++ tr' end in
  total containers all = 0 ∧ total pools all = 0.
Proof. intros Hex Ht. unfold NewSuite, Teardown, run_container in *. cbv zeta. count_calls. Qed.

(** What the end of a test takes away. *)
Lemma end_test_none tr u : exec (end_test []) tr u → total containers tr = 0 ∧ total pools tr = 0.
Proof. by intros [-> _]. Qed.
Lemma end_test_container tr u :
  exec (end_test [cleanup_container]) tr u → total containers tr = -1 ∧ total pools tr = 0.
Proof. by intros (x & tr' & -> & [-> _]). Qed.
Lemma end_test_both tr u :
  exec (end_test [cleanup_pool; cleanup_container]) tr u →
  total containers tr = -1 ∧ total pools tr = -1.
Proof. by intros (x & tr' & -> & (y & tr2 & -> & [-> _])). Qed.

(** So has the pool of a single test, when the test ends. *)
Lemma NewPostgresPool_clean tr r tr' :
  exec NewPostgresPool tr r → exec (end_test (default [] r)) tr' tt →
  total containers (tr ++ tr') = 0 ∧ total pools (tr ++ tr') = 0.
Proof.
  intros Hex Ht. unfold NewPostgresPool, run_container in *. repeat (exec_generic; simplify_eq);
    cbn [default from_option id] in Ht;
    repeat match goal with
    | E : exec (end_test []) _ _ |- _ => apply end_test_none in E as [??]
    | E : exec (end_test [cleanup_container]) _ _ |- _ => apply end_test_container in E as [??]
    | E : exec (end_test [cleanup_pool; _]) _ _ |- _ => apply end_test_both in E as [??]
    end; count_calls.
Qed.
